(* ===== verification/_CoqProject ===== *)
-Q . S2P
Prelude.v
Types.v
Manifest.v
InputLog.v
LocalProto.v
Fs.v
Faults.v
Sql.v
Meta.v
MetaRead.v
MetaInv.v
MetaTree.v
MetaSpec.v
MetaQuery.v
MetaBatch.v
MetaUpdate.v
MetaOpen.v
MetaHandle.v
GroupCommit.v
Pack.v
Index.v
Names.v
ReadCache.v
PageStore.v
PageStoreInv.v
PageStoreIngest.v
PageStoreRead.v
PageStoreSync.v
PageStoreGc.v
PageStoreSpec.v
PageStoreOpen.v
PageStoreHistory.v
SnapStore.v
StoreGc.v
SnapStoreInv.v
SnapStoreRead.v
StoreGcInv.v
StoreGcRun.v
SnapStoreSpec.v
SnapStoreRace.v
StoreGcSpec.v
StoreRely.v
GcCycle.v
Startup.v
GcCycleSpec.v
GcGrace.v
GcCollect.v
Service.v
PageChannel.v
ChannelClient.v
ChannelSpec.v
ServiceGc.v
ServiceSpec.v
MetaExamples.v
StartupSpec.v
ServiceExamples.v
