(* ===== verification/Prelude.v ===== *)
(** * Verification of snapshot-store

    snapshot-store keeps virtual-machine snapshots.  Guest pages are
    stored once, under their BLAKE3 hash, in append-only pack files; a
    snapshot is a manifest that names its pages and, for a delta, its
    parent; a metadata database holds the trees of nodes that refer to
    snapshots.  A gRPC service and a local page channel serve requests, and
    a collector removes what nothing refers to.  This development models the
    server and the page-channel client and proves what they promise: what is
    acknowledged can be read back, also after a crash; the database keeps
    its invariant whatever fails; and collection removes exactly what
    nothing refers to, also while requests are served.

    ** Parts of the program and the files that model them

    - Prelude, Types: results with explicit panics, slices, little-endian
      integers, sorting; hashes, references, ids
      (crates/snapstore-types/src/lib.rs).
    - Manifest, InputLog: the manifest and input-log containers, their
      builders, encoders and decoders, and the flattening of delta chains
      (crates/snapstore-manifest/src/lib.rs).
    - LocalProto: the page channel's datagrams
      (crates/snapstore-localpath/src/proto.rs).
    - Fs, Faults: the file system under the store.  Directories and files
      have a current and a durable image, every call may fail by an oracle,
      a write after a prefix; [crash] keeps the durable image.
    - Sql: connections to SQLite, with transactions, savepoints and an
      oracle for statements that fail.
    - Meta, MetaRead: crates/snapstore-meta/src.  A table is a finite map
      from its primary key; Meta has the commands, the batches and the loop
      of the writer (actor.rs), MetaRead the reads (pool.rs), the migrations
      (schema.rs) and the handle (lib.rs).
    - MetaInv, MetaTree, MetaSpec, MetaQuery, MetaBatch, MetaUpdate,
      MetaOpen, MetaHandle: the invariant of the database, its recursive
      queries, and the behaviour of commands, reads, batches, opening and
      the handle.
    - Pack, Index, Names, ReadCache, PageStore: pack.rs, index.rs,
      read_cache.rs and ingest.rs of crates/snapstore-pagestore/src.  The
      store's record has the fields of the Rust struct; a method is a
      computation on the pair of the store and the file system.
    - PageStoreInv, PageStoreIngest, PageStoreRead, PageStoreSync,
      PageStoreGc, PageStoreSpec: the invariant of the page store, which
      relates it to a map from pack ids to records, and the behaviour of
      each operation on it.
    - PageStoreOpen, PageStoreHistory: opening a directory of sealed,
      unsealed and torn packs, and the life of a store from an empty
      directory through ingests, syncs, a crash and the next opening.
    - GroupCommit: the durability barrier of put_snapshot as a transition
      system of threads (crates/snapstore-store/src/lib.rs).
    - SnapStore, SnapStoreInv, SnapStoreRead, SnapStoreSpec, SnapStoreRace:
      the snapshot store (the rest of that file) over the page store and a
      two-level manifest directory; its invariant, reads, the contract of
      put_snapshot, and one interleaving of two puts.
    - StoreGc, StoreGcInv, StoreGcRun, StoreGcSpec, StoreRely: the collector
      (crates/snapstore-store/src/gc.rs).  The callbacks of GcHooks carry
      what other threads do between its steps; [rely] is what they must
      respect, and StoreRely shows that the store's operations do.
    - GcCycle, GcCycleSpec, GcGrace, GcCollect: the whole cycle of the server
      with the database (crates/snapstore-server/src/gc.rs), and the
      counters and gauges of metrics.rs.
    - Startup, StartupSpec: what the server does before it serves
      (crates/snapstore-server/src/startup.rs): the version file, the
      directories, the removal of temporary files and corrupt manifests, and
      the reconciliation of nodes with the manifests on disk.
    - Service, ServiceSpec, ServiceGc: the request handlers (service.rs,
      errors.rs of crates/snapstore-server/src), the node query stream, and
      the handlers as the other threads of a collection cycle.
    - PageChannel, ChannelClient, ChannelSpec: the page-channel server
      (page_channel.rs) and client (crates/snapstore-localpath/src/client.rs)
      and both together.
    - MetaExamples, ServiceExamples: a small database and server on which the
      theorems about them are evaluated.

    ** What the theorems show

    - Containers: the decoders accept exactly what the encoders write and
      never panic; builders accept exactly the legal tables; flattening
      yields the page table with child-first priority, and flattening
      against a baseline composes with flattening the baseline.
    - Packs and index: a sealed pack reads back to its records, recovery of
      a torn pack keeps the complete prefix of valid records, sidecars are
      replaced atomically, the sharded index is one map, the handle cache
      is an LRU list.
    - Page store: ingest deduplicates exactly and get_batch returns the
      stored pages; opening a directory indexes exactly the complete records
      of its packs, torn tails included; after any sequence of ingests
      and syncs that returned Ok, a page whose ingest was followed by a sync
      is returned after a crash and a new opening.
    - Barrier: an Ok covers a sync that started after the call; one flusher
      at a time; every call returns.
    - Snapshot store: put_snapshot keeps the invariant under every fault,
      accepts exactly the containers whose parent and pages are stored, and
      makes them durable up to the shard directory's own entry; resolving
      streams the flattened page table with verified payloads.
    - Metadata: opening and every sequence of commands keep the invariant
      whatever statements fail; creating, updating, pruning, reaping and the
      key-value register do exactly what their contracts say; a batch does
      what its commands do in batches of their own; the path query returns
      the path.
    - Collector: under any callbacks that respect [rely] and whatever the
      cycle returns, every reference held keeps its chain and its pages;
      the requests of the service and the page channel respect it; an
      undisturbed cycle of the server completes, deletes exactly the
      subtrees that are due and keeps exactly what remaining nodes and pins
      reach.
    - Start-up: on a directory of an earlier run it opens the database and
      the store, keeps every intact manifest, and marks pruned exactly the
      nodes whose manifest is missing or corrupt, so that every other node's
      snapshot can be read.
    - Page channel: what is put can be got, and the pages in flight stay
      within the limit under every interleaving of the threads.
    - Service: the node stream in order of creation is complete.
    - Flaws: theorems named after them show a sync that forgets dirty
      packs, a flush retry that displaces records, a retried put that is
      acknowledged but not durable, two puts that tear each other's
      manifest, a delta that cannot be read back, a lost commit that is
      acknowledged, a prune that gets no grace, a row that stops every
      collection, a visit counter that makes its row unreadable, a failed
      get that spoils the next one, and a node stream that loses rows.

    ** Bounds, fuel and parameters

    Loops over files take fuel from the file's length, chain walks take
    MAX_CHAIN (4096) as the code does, the manifest sweep takes the number
    of candidates, the recursive queries the number of rows; the
    specifications show these are enough.  Three migration rounds are enough
    for every file.  The node stream needs one round per 512 rows; its fuel
    is a parameter and the theorem says how much is needed.  The straggler
    loop of the collector repeats while other threads register references;
    its fuel is a parameter, safety holds for every fuel, and one pass
    suffices for an undisturbed cycle.  Offsets and counters that cannot
    reach their width are mathematical integers; pack ids, the [u64] and
    [i64] counters, the columns of the database and the wire fields keep
    theirs.  The transition system of the in-flight counter has at most
    MAX_THREADS connections.  BLAKE3, CRC-32 and zstd are type classes with
    the laws the code relies on (output length, and for hashes no collision
    among the contents at hand, where a theorem says so); small instances
    serve the witnesses.  Hash-map iteration orders, the order in which
    SQLite visits unordered rows, the texts of error replies and the clock
    are parameters.

    ** Not modelled

    Configuration, the server's main loop, the client library and the
    command-line tool drive external systems (listeners, signals, a
    generated gRPC stub, timers).  The crash harness and the test generators are test code.  Of
    SQLite only the statements the code runs are modelled, as functions on
    the tables; the journal and its recovery are SQLite's.  Metrics
    histograms, log lines and message texts are left out, and so are
    failpoints and test counters.  Binding sockets and accepting connections
    are system calls.  Each method that holds a lock for its whole body is
    one atomic step; puts run under the shared side of a gate, and of their
    interleavings with each other only the barrier and the staging file are
    treated.  A request handler runs as one step at a callback point of the
    collector, so two handlers do not interleave with each other there; the
    page stream of a put is read in step with its ingest. *)

From Stdlib Require Export ZArith Lia.
From Stdlib Require Floats.SpecFloat.
From stdpp Require Export base tactics gmap list sorting strings.
From coqutil Require Export Byte.
From coqutil.Word Require Export LittleEndianList.
(* coqutil rebinds a few names; stdpp's are the ones used below. *)
From stdpp Require Import base list.

#[export] Set Default Goal Selector "!".
#[export] Set Warnings "-clear-no-such-hyp".
Global Open Scope Z_scope.

(** ** Results: [Result<A, E>], with panics explicit

    A Rust function that returns [Result] either returns [Ok], returns
    [Err], or panics (an out-of-range index, [unwrap] or [expect] on the
    wrong variant).  The three outcomes are kept apart so that a theorem
    about [Ok] or [Err] is also a theorem that the code does not panic. *)

Inductive res (E A : Type) : Type :=
  | Ok (a : A)
  | Err (e : E)
  | Panic.
Arguments Ok {E A} a.
Arguments Err {E A} e.
Arguments Panic {E A}.

Definition rbind {E A B} (c : res E A) (k : A → res E B) : res E B :=
  match c with
  | Ok a => k a
  | Err e => Err e
  | Panic => Panic
  end.

(** [map_err]: Rust's [.map_err(f)?]. *)
Definition map_err {E F A} (f : E → F) (c : res E A) : res F A :=
  match c with
  | Ok a => Ok a
  | Err e => Err (f e)
  | Panic => Panic
  end.

(** [ok_or]: [Option::ok_or]. *)
Definition ok_or {E A} (e : E) (o : option A) : res E A :=
  match o with Some a => Ok a | None => Err e end.

(** [expect]: [Option::expect] / [Option::unwrap]. *)
Definition expect {E A} (o : option A) : res E A :=
  match o with Some a => Ok a | None => Panic end.

Definition is_ok {E A} (c : res E A) : bool :=
  match c with Ok _ => true | _ => false end.

Declare Scope rust_scope.
Delimit Scope rust_scope with rust.
Global Open Scope rust_scope.
Notation "'let?' x ':=' c 'in' k" := (rbind c (λ x, k))
  (at level 10, x name, c at level 100, k at level 200) : rust_scope.
Notation "'let?' ' p ':=' c 'in' k" := (rbind c (λ x, match x with p => k end))
  (at level 10, p strict pattern, c at level 100, k at level 200) : rust_scope.
(** An early return: [if b { return Err(e) }]. *)
Notation "'bail_if' b 'with' e 'in' k" := (if b then Err e else k)
  (at level 10, b at level 100, e at level 100, k at level 200) : rust_scope.

Lemma rbind_Ok {E A B} (c : res E A) (k : A → res E B) b :
  rbind c k = Ok b ↔ ∃ a, c = Ok a ∧ k a = Ok b.
Proof. split; [|by intros (a & -> & Hk)]. destruct c; simpl; [eauto|done..]. Qed.

Lemma map_err_Ok {E F A} (f : E → F) (c : res E A) a :
  map_err f c = Ok a ↔ c = Ok a.
Proof. destruct c; simpl; naive_solver. Qed.

Lemma ok_or_Ok {E A} (e : E) (o : option A) a : ok_or e o = Ok a ↔ o = Some a.
Proof. destruct o; simpl; naive_solver. Qed.

(** [rs_inv]: invert hypotheses that say a computation returned [Ok]. *)
Ltac rs_inv :=
  repeat match goal with
  | H : rbind _ _ = Ok _ |- _ =>
      let a := fresh "a" in let Ha := fresh "Hc" in
      apply rbind_Ok in H as (a & Ha & H)
  | H : map_err _ _ = Ok _ |- _ => apply map_err_Ok in H
  | H : ok_or _ _ = Ok _ |- _ => apply ok_or_Ok in H
  | H : (if ?b then _ else _) = Ok _ |- _ =>
      let Hb := fresh "Hb" in destruct b eqn:Hb; [try discriminate H|try discriminate H]
  | H : Ok _ = Ok _ |- _ => injection H as H
  | H : Err _ = Ok _ |- _ => discriminate H
  | H : Panic = Ok _ |- _ => discriminate H
  | x := _ |- _ => subst x
  end; simplify_eq/=.

(** [b2p]: turn the boolean tests of the code into propositions. *)
Lemma negb_eqb_false (a b : Z) : negb (a =? b) = false ↔ a = b.
Proof. rewrite negb_false_iff. apply Z.eqb_eq. Qed.

Ltac b2p :=
  repeat match goal with
  | H : negb _ = true |- _ => rewrite negb_true_iff in H
  | H : negb _ = false |- _ => rewrite negb_false_iff in H
  | H : (_ =? _)%Z = true |- _ => rewrite Z.eqb_eq in H
  | H : (_ =? _)%Z = false |- _ => rewrite Z.eqb_neq in H
  | H : (_ <? _)%Z = true |- _ => rewrite Z.ltb_lt in H
  | H : (_ <? _)%Z = false |- _ => rewrite Z.ltb_ge in H
  | H : (_ <=? _)%Z = true |- _ => rewrite Z.leb_le in H
  | H : (_ <=? _)%Z = false |- _ => rewrite Z.leb_gt in H
  | H : _ && _ = true |- _ => apply andb_true_iff in H as [? ?]
  | H : _ || _ = false |- _ => apply orb_false_iff in H as [? ?]
  | H : bool_decide _ = true |- _ => apply bool_decide_eq_true in H
  | H : bool_decide _ = false |- _ => apply bool_decide_eq_false in H
  end.

(** ** Bytes and byte strings *)

#[global] Instance byte_eq_decision : EqDecision Init.Byte.byte := Byte.byte_eq_dec.
#[global] Program Instance byte_countable : Countable Init.Byte.byte :=
  inj_countable Byte.to_N Byte.of_N _.
Next Obligation. intros x. apply Byte.of_to_N. Qed.

Abbreviation bytes := (list Init.Byte.byte).

(** [zlen]: [v.len() as u64]. *)
Definition zlen {A} (l : list A) : Z := Z.of_nat (length l).

(** [rep n b]: the array expression [[b; n]]. *)
Definition zeros (n : nat) : bytes := replicate n Byte.x00.

(** [sub a b buf]: the range [buf[a..b]]. *)
Definition sub {A} (a b : Z) (buf : list A) : list A :=
  take (Z.to_nat (b - a)) (drop (Z.to_nat a) buf).
#[global] Arguments sub : simpl never.

Create Rewrite HintDb slice.

Lemma zlen_nonneg {A} (l : list A) : 0 ≤ zlen l.
Proof. unfold zlen; lia. Qed.

Lemma zlen_nil {A} : zlen (@nil A) = 0.
Proof. done. Qed.

Lemma zlen_cons {A} (x : A) l : zlen (x :: l) = 1 + zlen l.
Proof. unfold zlen; simpl; lia. Qed.

Lemma zlen_app {A} (l k : list A) : zlen (l ++ k) = zlen l + zlen k.
Proof. unfold zlen; rewrite length_app; lia. Qed.

Lemma zlen_zeros n : zlen (zeros n) = Z.of_nat n.
Proof. unfold zlen, zeros; rewrite length_replicate; lia. Qed.

Lemma zlen_0_nil {A} (l : list A) : zlen l = 0 → l = [].
Proof. destruct l; [done|]. rewrite zlen_cons. pose proof (zlen_nonneg l). lia. Qed.

Lemma zlen_le_split n z : zlen (le_split n z) = Z.of_nat n.
Proof. unfold zlen; rewrite length_le_split; lia. Qed.

Lemma zlen_fmap {A B} (f : A → B) l : zlen (f <$> l) = zlen l.
Proof. unfold zlen; by rewrite length_fmap. Qed.

Lemma zlen_sub {A} a b (l : list A) :
  0 ≤ a ≤ b → b ≤ zlen l → zlen (sub a b l) = b - a.
Proof. unfold zlen, sub; intros; rewrite length_take, length_drop; lia. Qed.

Lemma sub_app_l {A} a b (l k : list A) :
  0 ≤ a → b ≤ zlen l → sub a b (l ++ k) = sub a b l.
Proof.
  unfold zlen, sub; intros. destruct (decide (Z.to_nat a ≤ length l)%nat).
  - rewrite drop_app_le by lia. rewrite take_app_le; [done|].
    rewrite length_drop. lia.
  - replace (Z.to_nat (b - a)) with 0%nat by lia. by rewrite !take_0.
Qed.

Lemma sub_app_r {A} a b (l k : list A) :
  zlen l ≤ a → sub a b (l ++ k) = sub (a - zlen l) (b - zlen l) k.
Proof.
  unfold zlen, sub; intros. rewrite drop_app_ge by lia. f_equal; [f_equal; lia|].
  f_equal. lia.
Qed.

Lemma sub_all {A} a b (l : list A) : a = 0 → b = zlen l → sub a b l = l.
Proof. unfold zlen, sub; intros -> ->. rewrite drop_0. apply take_ge. lia. Qed.

Lemma sub_app_exact {A} a b (l k m : list A) :
  zlen l = a → zlen l + zlen k = b → sub a b (l ++ k ++ m) = k.
Proof.
  intros <- <-. rewrite sub_app_r by done. rewrite sub_app_l by lia.
  apply sub_all; lia.
Qed.

Lemma sub_split {A} a b c (l : list A) :
  0 ≤ a ≤ b → b ≤ c → sub a c l = sub a b l ++ sub b c l.
Proof.
  unfold sub; intros.
  replace (Z.to_nat b) with (Z.to_nat a + Z.to_nat (b - a))%nat by lia.
  rewrite <- drop_drop. rewrite take_take_drop. f_equal. lia.
Qed.

Lemma sub_drop {A} a (l : list A) : sub a (zlen l) l = drop (Z.to_nat a) l.
Proof. unfold sub, zlen. apply take_ge. rewrite length_drop. lia. Qed.

Lemma sub_take {A} b (l : list A) : sub 0 b l = take (Z.to_nat b) l.
Proof. unfold sub. rewrite drop_0. f_equal. lia. Qed.

Lemma sub_sub {A} a b c d (l : list A) :
  0 ≤ a → 0 ≤ c → c ≤ d → d ≤ b - a → sub c d (sub a b l) = sub (a + c) (a + d) l.
Proof.
  unfold sub; intros. rewrite skipn_firstn_comm, take_take, drop_drop.
  f_equal; [lia|]. f_equal. lia.
Qed.

Lemma sub_shift {A} (pre tail : list A) a b :
  0 ≤ a → sub (zlen pre + a) (zlen pre + b) (pre ++ tail) = sub a b tail.
Proof. intros. rewrite sub_app_r by lia. f_equal; lia. Qed.

#[export] Hint Rewrite @zlen_nil @zlen_cons @zlen_app zlen_zeros zlen_le_split @zlen_fmap : slice.

(** [slice a b buf]: the range [buf[a..b]] with Rust's bounds check; an
    out-of-range slice panics. *)
Definition slice {E A} (a b : Z) (buf : list A) : res E (list A) :=
  if (0 <=? a) && (a <=? b) && (b <=? zlen buf) then Ok (sub a b buf) else Panic.

Lemma slice_ok {E A} a b (buf : list A) :
  0 ≤ a ≤ b → b ≤ zlen buf → slice (E:=E) a b buf = Ok (sub a b buf).
Proof.
  intros. unfold slice. rewrite (proj2 (Z.leb_le 0 a)), (proj2 (Z.leb_le a b)),
    (proj2 (Z.leb_le b (zlen buf))) by lia. done.
Qed.

Lemma slice_inv {E A} a b (buf x : list A) :
  slice (E:=E) a b buf = Ok x → 0 ≤ a ≤ b ∧ b ≤ zlen buf ∧ x = sub a b buf.
Proof. unfold slice. destruct (_ && _ && _) eqn:Hb; [|done]. intros; simplify_eq. b2p. done. Qed.

(** [zl]: length arithmetic. *)
Ltac zl := autorewrite with slice in *; lia.

(** [field]: evaluate a range of a concatenation of fields of known
    length. *)
Ltac field :=
  repeat first [ rewrite sub_app_l by zl | rewrite sub_app_r by zl ];
  rewrite sub_all by zl; try reflexivity.

(** ** Little-endian integers *)

(** [uN::to_le_bytes] / [uN::from_le_bytes] for an [n]-byte integer. *)
Definition to_le (n : nat) (z : Z) : bytes := le_split n z.
Definition from_le (b : bytes) : Z := le_combine b.

Lemma zlen_to_le n z : zlen (to_le n z) = Z.of_nat n.
Proof. apply zlen_le_split. Qed.
#[export] Hint Rewrite zlen_to_le : slice.

Lemma length_to_le n z : length (to_le n z) = n.
Proof. apply length_le_split. Qed.

Lemma from_to_le n z : 0 ≤ z < 2 ^ (Z.of_nat n * 8) → from_le (to_le n z) = z.
Proof. unfold from_le, to_le. intros. rewrite le_combine_split. by apply Z.mod_small. Qed.

Lemma to_from_le n b : length b = n → to_le n (from_le b) = b.
Proof. apply split_le_combine'. Qed.

Lemma from_le_bound b : 0 ≤ from_le b < 2 ^ (8 * zlen b).
Proof. apply le_combine_bound. Qed.

Lemma from_le_zeros n : from_le (zeros n) = 0.
Proof.
  unfold from_le, zeros. induction n as [|n IH]; [done|].
  change (replicate (S n) Byte.x00) with (Byte.x00 :: replicate n Byte.x00).
  cbn [le_combine]. unfold le_combine in *. by rewrite IH.
Qed.

Lemma from_le_sub_bound a b (buf : bytes) :
  0 ≤ a ≤ b → b ≤ zlen buf → 0 ≤ from_le (sub a b buf) < 2 ^ (8 * (b - a)).
Proof. intros. rewrite <-(zlen_sub a b buf) by done. apply from_le_bound. Qed.

(** [to_le n x] is a range of the buffer when [x] was read from it. *)
Lemma to_le_sub n x a b (buf : bytes) :
  from_le (sub a b buf) = x → 0 ≤ a ≤ b → b ≤ zlen buf → b - a = Z.of_nat n →
  to_le n x = sub a b buf.
Proof.
  intros <- ???. apply to_from_le. pose proof (zlen_sub a b buf) as Hl. unfold zlen in *. lia.
Qed.

#[global] Opaque to_le from_le.

(** Widths of the machine integers the code uses. *)
Definition u16_ok (z : Z) : Prop := 0 ≤ z < 2 ^ 16.
Definition u32_ok (z : Z) : Prop := 0 ≤ z < 2 ^ 32.
Definition u64_ok (z : Z) : Prop := 0 ≤ z < 2 ^ 64.
Definition u64_max : Z := 2 ^ 64 - 1.

(** [usize] is 64 bits wide (the deployment target is x86_64). *)
Definition checked_add (a b : Z) : option Z :=
  if a + b <=? u64_max then Some (a + b) else None.
Definition checked_mul (a b : Z) : option Z :=
  if a * b <=? u64_max then Some (a * b) else None.
Definition saturating_sub (a b : Z) : Z := Z.max 0 (a - b).
Definition saturating_add (a b : Z) : Z := Z.min u64_max (a + b).

Lemma checked_add_Some a b c : checked_add a b = Some c ↔ c = a + b ∧ a + b ≤ u64_max.
Proof.
  unfold checked_add. case_match; b2p; split; [intros; by simplify_eq|by intros [-> _]|done|lia].
Qed.
Lemma checked_mul_Some a b c : checked_mul a b = Some c ↔ c = a * b ∧ a * b ≤ u64_max.
Proof.
  unfold checked_mul. case_match; b2p; split; [intros; by simplify_eq|by intros [-> _]|done|lia].
Qed.

(** [as] casts between integer types. *)
Definition as_u8 (z : Z) : Z := z mod 2 ^ 8.
Definition as_u32 (z : Z) : Z := z mod 2 ^ 32.
Definition as_u64 (z : Z) : Z := z mod 2 ^ 64.
Definition as_i64 (z : Z) : Z := (z + 2 ^ 63) mod 2 ^ 64 - 2 ^ 63.
Definition i64_ok (z : Z) : Prop := - 2 ^ 63 ≤ z < 2 ^ 63.

Lemma as_i64_range z : i64_ok (as_i64 z).
Proof. unfold i64_ok, as_i64. pose proof (Z.mod_pos_bound (z + 2 ^ 63) (2 ^ 64)). lia. Qed.
Lemma as_i64_id z : i64_ok z → as_i64 z = z.
Proof. unfold i64_ok, as_i64. intros. rewrite Z.mod_small; lia. Qed.
Lemma as_u64_range z : u64_ok (as_u64 z).
Proof. unfold as_u64, u64_ok. pose proof (Z.mod_pos_bound z (2 ^ 64)). lia. Qed.
Lemma as_u64_id z : u64_ok z → as_u64 z = z.
Proof. unfold u64_ok, as_u64. intros. by rewrite Z.mod_small. Qed.
Lemma as_u32_id z : u32_ok z → as_u32 z = z.
Proof. unfold u32_ok, as_u32. intros. by rewrite Z.mod_small. Qed.

(** A [u64] survives being stored as an [i64], and the other way round. *)
Lemma as_u64_i64 z : u64_ok z → as_u64 (as_i64 z) = z.
Proof.
  unfold u64_ok, as_u64, as_i64. intros. rewrite Zminus_mod_idemp_l.
  replace (z + 2 ^ 63 - 2 ^ 63) with z by lia. by apply Z.mod_small.
Qed.
Lemma as_i64_u64 z : i64_ok z → as_i64 (as_u64 z) = z.
Proof.
  unfold i64_ok, as_u64, as_i64. intros. rewrite Zplus_mod_idemp_l. rewrite Z.mod_small; lia.
Qed.
Lemma as_i64_inj a b : u64_ok a → u64_ok b → as_i64 a = as_i64 b → a = b.
Proof. intros Ha Hb He. by rewrite <-(as_u64_i64 a), <-(as_u64_i64 b), He. Qed.

(** [n as f64], in IEEE binary64. *)
Definition f64_of (n : Z) : SpecFloat.spec_float := SpecFloat.binary_normalize 53 1024 n 0 false.

(** ** Stable sorting: [slice::sort_by] *)

Section sort.
Context {A : Type} (leb : A → A → bool).

Fixpoint sort_insert (x : A) (l : list A) : list A :=
  match l with
  | [] => [x]
  | y :: l' => if leb x y then x :: y :: l' else y :: sort_insert x l'
  end.

Fixpoint stable_sort (l : list A) : list A :=
  match l with
  | [] => []
  | x :: l' => sort_insert x (stable_sort l')
  end.

Lemma sort_insert_perm x l : sort_insert x l ≡ₚ x :: l.
Proof.
  induction l as [|y l IH]; simpl; [done|]. destruct (leb x y); [done|].
  rewrite IH. constructor.
Qed.

Lemma stable_sort_perm l : stable_sort l ≡ₚ l.
Proof. induction l as [|x l IH]; simpl; [done|]. by rewrite sort_insert_perm, IH. Qed.

Context (leb_trans : ∀ x y z, leb x y → leb y z → leb x z).
Context (leb_total : ∀ x y, leb x y ∨ leb y x).

Lemma sort_insert_sorted x l :
  StronglySorted (λ x y, leb x y) l → StronglySorted (λ x y, leb x y) (sort_insert x l).
Proof.
  induction 1 as [|y l Hl IH Hy]; simpl; [repeat constructor|].
  destruct (leb x y) eqn:Hxy.
  - constructor; [by constructor|]. constructor; [by rewrite Hxy|].
    eapply Forall_impl; [exact Hy|]. intros z Hz. eapply leb_trans; [|exact Hz]. by rewrite Hxy.
  - constructor; [done|]. rewrite sort_insert_perm. constructor; [|done].
    destruct (leb_total x y) as [H|H]; [by rewrite Hxy in H|done].
Qed.

Lemma stable_sort_sorted l : StronglySorted (λ x y, leb x y) (stable_sort l).
Proof. induction l; simpl; [constructor|]. by apply sort_insert_sorted. Qed.
End sort.

(** A list that is already strictly sorted is left alone. *)
Lemma stable_sort_id {A} (leb : A → A → bool) l :
  StronglySorted (λ x y, leb x y) l → stable_sort leb l = l.
Proof.
  induction 1 as [|x l Hl IH Hx]; simpl; [done|]. rewrite IH.
  destruct l as [|y l]; simpl; [done|]. inversion Hx as [|?? Hxy]; subst.
  by destruct (leb x y).
Qed.

(** [sort_by_key(|e| key(e))] with an integer key. *)
Definition sort_by_key {A} (key : A → Z) (l : list A) : list A :=
  stable_sort (λ x y, key x <=? key y) l.

Lemma sort_by_key_perm {A} (key : A → Z) l : sort_by_key key l ≡ₚ l.
Proof. apply stable_sort_perm. Qed.

Lemma sort_by_key_sorted {A} (key : A → Z) l :
  StronglySorted (λ x y, key x ≤ key y) (sort_by_key key l).
Proof.
  assert (StronglySorted (λ x y, key x <=? key y) (sort_by_key key l)) as H.
  { apply stable_sort_sorted.
    - intros x y z. rewrite !Is_true_true, !Z.leb_le. lia.
    - intros x y. rewrite !Is_true_true, !Z.leb_le. lia. }
  induction H as [|x l' Hl IH Hx]; constructor; [done|].
  eapply Forall_impl; [exact Hx|]. intros y. rewrite Is_true_true, Z.leb_le. done.
Qed.

Lemma sort_by_key_id {A} (key : A → Z) l :
  StronglySorted (λ x y, key x ≤ key y) l → sort_by_key key l = l.
Proof.
  intros H. apply stable_sort_id. induction H as [|x l' Hl IH Hx]; constructor; [done|].
  eapply Forall_impl; [exact Hx|]. intros y. rewrite Is_true_true, Z.leb_le. done.
Qed.

Lemma StronglySorted_lookup {A} (R : A → A → Prop) l i j x y :
  StronglySorted R l → l !! i = Some x → l !! j = Some y → (i < j)%nat → R x y.
Proof.
  intros Hs. revert i j. induction Hs as [|z l Hl IH Hz]; intros i j Hi Hj Hij; [done|].
  destruct j as [|j]; [lia|]. simpl in Hj. destruct i as [|i]; simpl in Hi.
  - simplify_eq. rewrite Forall_lookup in Hz. eauto.
  - eapply IH; eauto. lia.
Qed.

Lemma elem_of_concat {A} (x : A) ls : x ∈ concat ls ↔ ∃ l, l ∈ ls ∧ x ∈ l.
Proof.
  induction ls as [|l ls IH]; simpl.
  - split; [by intros ?%elem_of_nil|]. by intros (l & ?%elem_of_nil & _).
  - rewrite elem_of_app, IH. setoid_rewrite elem_of_cons. split.
    + intros [Hx|(k & Hk & Hx)]; eauto.
    + intros (k & [->|Hk] & Hx); eauto.
Qed.

(** ** Filters *)

Lemma Forall_sub_filter {A} (P Q : A → Prop) `{∀ x, Decision (Q x)} l : Forall P l → Forall P (filter Q l).
Proof. rewrite !Forall_forall. intros Hl x [_ Hx]%list_elem_of_filter. by apply Hl. Qed.

Lemma filter_none {A} (P : A → Prop) `{∀ x, Decision (P x)} (l : list A) : (∀ x, x ∈ l → ¬ P x) → filter P l = [].
Proof.
  induction l as [|x l IH]; intros Hl; [done|]. rewrite filter_cons_False by (apply Hl; left). apply IH. intros y Hy. apply Hl. by right.
Qed.
Lemma filter_all {A} (P : A → Prop) `{∀ x, Decision (P x)} (l : list A) : (∀ x, x ∈ l → P x) → filter P l = l.
Proof.
  induction l as [|x l IH]; intros Hl; [done|]. rewrite filter_cons_True by (apply Hl; left). f_equal. apply IH. intros y Hy. apply Hl. by right.
Qed.

Lemma omap_NoDup {A B} (f : A → option B) (P : B → Prop) `{∀ x, Decision (P x)} (l : list A) :
  NoDup l → (∀ a1 a2 b, f a1 = Some b → f a2 = Some b → P b → a1 ∈ l → a2 ∈ l → a1 = a2) → NoDup (filter P (omap f l)).
Proof.
  induction 1 as [|a l Ha Hl IH]; intros Hinj; csimpl; [constructor|].
  assert (NoDup (filter P (omap f l))) as Hnd. { apply IH. intros a1 a2 b ? ? ? ? ?. eapply Hinj; [done..|by right|by right]. }
  destruct (f a) as [b|] eqn:Hf; [|done]. rewrite filter_cons. case_decide as Hb; [|done]. constructor; [|done].
  intros [_ (a' & Hin & Ha')%list_elem_of_omap]%list_elem_of_filter.
  rewrite (Hinj a a' b Hf Ha' Hb) in Ha; [done|by left|by right].
Qed.

Lemma NoDup_filter_filter {A} (P Q : A → Prop) `{∀ x, Decision (P x), ∀ x, Decision (Q x)} (l : list A) :
  NoDup (filter P l) → NoDup (filter P (filter Q l)).
Proof.
  intros Hnd. rewrite list_filter_filter. apply (NoDup_filter Q) in Hnd. rewrite list_filter_filter in Hnd.
  erewrite list_filter_iff; [exact Hnd|]. cbn. tauto.
Qed.

(** ** Cryptographic and compression primitives

    [blake3], [zstd] and [crc32fast] are third-party crates.  Each is a
    class whose fields are the function and what the code relies on: the
    width of its result.  [blake3::Hasher] hashes the concatenation of its
    [update]s, so a hasher is modelled by the bytes fed to it so far. *)

Class Blake3 := {
  blake3 : bytes → bytes;
  blake3_length : ∀ b, length (blake3 b) = 32%nat;
}.

Class Zstd := zstd_decode_all : bytes → option bytes.

Class Crc32 := {
  crc32 : bytes → Z;
  crc32_range : ∀ b, 0 ≤ crc32 b < 2 ^ 32;
}.

Lemma zlen_blake3 `{Blake3} b : zlen (blake3 b) = 32.
Proof. unfold zlen. by rewrite blake3_length. Qed.
#[export] Hint Rewrite @zlen_blake3 : slice.

(** Concrete instances, used only to evaluate witnesses. *)
Definition toy_digest (b : bytes) : Z :=
  fold_left (λ h c, (h * 257 + byte.unsigned c + 1) mod (2 ^ 61 - 1)) b 7.
Definition toy_blake3 : Blake3 :=
  {| blake3 b := to_le 32 (toy_digest b); blake3_length b := length_to_le 32 _ |}.
Definition toy_zstd : Zstd := λ b, Some (b ++ b).
Lemma toy_crc32_range b : 0 ≤ toy_digest b mod 2 ^ 32 < 2 ^ 32.
Proof. apply Z.mod_pos_bound. done. Qed.
Definition toy_crc32 : Crc32 :=
  {| crc32 b := toy_digest b mod 2 ^ 32; crc32_range := toy_crc32_range |}.
