(* ===== verification/Types.v ===== *)
(** * Core identifier types (crates/snapstore-types)

    Page hashes, snapshot references and log ids are 32-byte arrays; they
    are modelled by byte strings, with [hash_ok] stating the width.  Pack
    ids and node ids are machine integers. *)

From S2P Require Import Prelude.

(** Page size in bytes. *)
Definition PAGE_SIZE : Z := 4096.

Abbreviation PageHash := bytes (only parsing).
Abbreviation SnapshotRef := bytes (only parsing).
Abbreviation LogId := bytes (only parsing).


(** The array type [[u8; 32]]. *)
Definition hash_ok (b : bytes) : Prop := length b = 32%nat.
#[global] Instance hash_ok_dec b : Decision (hash_ok b).
Proof. unfold hash_ok. apply _. Defined.

Definition zero_hash : bytes := zeros 32.

Lemma hash_ok_zlen b : hash_ok b → zlen b = 32.
Proof. unfold hash_ok, zlen. lia. Qed.

Lemma zlen_hash_ok b : zlen b = 32 → hash_ok b.
Proof. unfold hash_ok, zlen. lia. Qed.

Lemma blake3_hash_ok `{Blake3} b : hash_ok (blake3 b).
Proof. apply blake3_length. Qed.

Create HintDb hashes.
#[export] Hint Resolve hash_ok_zlen zlen_hash_ok blake3_hash_ok : hashes.

(** A pack file identifier ([u32]). *)
Abbreviation PackId := Z (only parsing).

(** Location of a page record inside a pack. *)
Record PageLoc := mk_loc { pack : PackId; offset : Z }.
#[global] Instance PageLoc_eq_dec : EqDecision PageLoc.
Proof. solve_decision. Defined.

(** Node identifiers ([u64]); the experiment root is node 0. *)
Abbreviation NodeId := Z (only parsing).
Definition NodeId_ROOT : NodeId := 0.
Definition is_root (n : NodeId) : bool := n =? 0.

(** Experiment identifiers: 1..=128 bytes of UTF-8.  The Rust [String] is
    its UTF-8 byte sequence; [len] counts bytes. *)
Definition EXPERIMENT_ID_MAX_BYTES : Z := 128.
Abbreviation ExperimentId := bytes (only parsing).

Inductive ExperimentIdError :=
  | EmptyId
  | TooLong (n : Z).

Definition ExperimentId_new (s : bytes) : res ExperimentIdError ExperimentId :=
  bail_if bool_decide (s = []) with EmptyId in
  bail_if EXPERIMENT_ID_MAX_BYTES <? zlen s with TooLong (zlen s) in
  Ok s.

(** Node lifecycle status, with its [repr(u8)] discriminants. *)
Inductive NodeStatus := Frontier | Expanded | Pruned | Goal_.
#[global] Instance NodeStatus_eq_dec : EqDecision NodeStatus.
Proof. solve_decision. Defined.

Definition status_as_u8 (s : NodeStatus) : Z :=
  match s with Frontier => 0 | Expanded => 1 | Pruned => 2 | Goal_ => 3 end.

Definition status_from_u8 (v : Z) : option NodeStatus :=
  if v =? 0 then Some Frontier
  else if v =? 1 then Some Expanded
  else if v =? 2 then Some Pruned
  else if v =? 3 then Some Goal_
  else None.

Lemma status_from_as s : status_from_u8 (status_as_u8 s) = Some s.
Proof. by destruct s. Qed.

Lemma status_as_from v s : status_from_u8 v = Some s → status_as_u8 s = v.
Proof. unfold status_from_u8. intros. repeat case_match; b2p; by simplify_eq. Qed.

Lemma ExperimentId_new_ok s e :
  ExperimentId_new s = Ok e ↔ e = s ∧ 1 ≤ zlen s ≤ EXPERIMENT_ID_MAX_BYTES.
Proof.
  unfold ExperimentId_new. destruct s as [|b s]; [split; [done|intros [_ ?]; zl]|].
  rewrite bool_decide_eq_false_2 by done.
  pose proof (zlen_nonneg s). destruct (_ <? _) eqn:E; b2p.
  - split; [done|]. intros [_ ?]. lia.
  - split; [intros; simplify_eq; split; [done|zl]|]. by intros [-> _].
Qed.
