(* ===== verification/Manifest.v ===== *)
(** * Snapshot manifests (crates/snapstore-manifest/src/lib.rs)

    The [.spm] container: builders, canonical encoder, validating decoder,
    and the flattening of delta chains into page tables. *)

From S2P Require Import Prelude Types.

(** ** Wire constants *)
Definition MAGIC : bytes :=
  [Byte.x53; Byte.x50; Byte.x53; Byte.x4d; Byte.x41; Byte.x4e; Byte.x30; Byte.x31].
Definition VERSION : Z := 1.
Definition HEADER_LEN : Z := 96.
Definition PAGE_SIZE_V1 : Z := 4096.
Definition FLAG_DELTA : Z := 1.
Definition FLAG_DEV_ZSTD : Z := 2.
Definition FLAG_KNOWN_BITS : Z := Z.lor FLAG_DELTA FLAG_DEV_ZSTD.
Definition ENTRY_SIZE : Z := 40.
Definition FOOTER_LEN : Z := 32.

(** ** The public model *)
Record ManifestEntry := mk_entry { page_index : Z; page_hash : PageHash }.
Record DeviceBlob := mk_blob {
  blob_format : Z; blob_zstd : bool; blob_bytes : bytes; blob_raw_len : Z }.
Record Manifest := mk_manifest {
  version : Z; delta : bool; parent : option SnapshotRef;
  guest_ram_bytes : Z; entries : list ManifestEntry; device_blob : DeviceBlob }.

#[global] Instance ManifestEntry_eq_dec : EqDecision ManifestEntry.
Proof. solve_decision. Defined.

Inductive ManifestError :=
  | BadMagic
  | UnsupportedVersion (v : Z)
  | UnknownFlags (f : Z)
  | BadHeaderLen (n : Z)
  | ReservedNonZero
  | BadPageSize (n : Z)
  | GuestRamNotAligned (n : Z)
  | EntriesNotAscending
  | FullCountMismatch (n expected : Z)
  | FullNotContiguous
  | FullNonZeroParent
  | DeltaZeroParent
  | DeltaIndexOutOfRange (i max : Z)
  | FooterMismatch
  | TrailingBytes
  | Truncated
  | ZstdRawLenMismatch (n raw : Z)
  | NonZstdRawLenMismatch (raw len : Z).

Inductive FlattenError :=
  | EmptyChain | RootNotFull | RootNotDelta | RamMismatch | Coverage.

(** ** Validation loops *)

(** [for w in entries.windows(2)]. *)
Fixpoint check_ascending (es : list ManifestEntry) : res ManifestError unit :=
  match es with
  | a :: (b :: _) as rest =>
      bail_if page_index b <=? page_index a with EntriesNotAscending in
      check_ascending rest
  | _ => Ok tt
  end.

(** [for e in &entries { if e.page_index >= max_idx ... }]. *)
Fixpoint check_range (max_idx : Z) (es : list ManifestEntry) : res ManifestError unit :=
  match es with
  | [] => Ok tt
  | e :: rest =>
      bail_if max_idx <=? page_index e with DeltaIndexOutOfRange (page_index e) max_idx in
      check_range max_idx rest
  end.

(** [for (i, e) in entries.iter().enumerate()]. *)
Fixpoint check_contiguous (i : Z) (es : list ManifestEntry) : res ManifestError unit :=
  match es with
  | [] => Ok tt
  | e :: rest =>
      bail_if negb (page_index e =? i) with FullNotContiguous in
      check_contiguous (i + 1) rest
  end.

Definition validate_device_blob (blob : DeviceBlob) : res ManifestError unit :=
  bail_if negb (blob_zstd blob) && negb (blob_raw_len blob =? zlen (blob_bytes blob))
    with NonZstdRawLenMismatch (blob_raw_len blob) (zlen (blob_bytes blob)) in
  Ok tt.

(** ** Builders *)
Definition new_full (ram : Z) (es : list ManifestEntry) (blob : DeviceBlob)
    : res ManifestError Manifest :=
  bail_if negb (ram mod PAGE_SIZE_V1 =? 0) with GuestRamNotAligned ram in
  let es := sort_by_key page_index es in
  let expected_pages := ram / PAGE_SIZE_V1 in
  bail_if negb (zlen es =? expected_pages) with FullCountMismatch (zlen es) expected_pages in
  let? _ := check_contiguous 0 es in
  let? _ := validate_device_blob blob in
  Ok (mk_manifest VERSION false None ram es blob).

Definition new_delta (par : SnapshotRef) (ram : Z) (es : list ManifestEntry)
    (blob : DeviceBlob) : res ManifestError Manifest :=
  bail_if negb (ram mod PAGE_SIZE_V1 =? 0) with GuestRamNotAligned ram in
  let es := sort_by_key page_index es in
  let? _ := check_ascending es in
  let? _ := check_range (ram / PAGE_SIZE_V1) es in
  let? _ := validate_device_blob blob in
  Ok (mk_manifest VERSION true (Some par) ram es blob).

(** ** Codec *)
Definition encode_entry (e : ManifestEntry) : bytes :=
  to_le 8 (page_index e) ++ page_hash e.

Definition encode_flags (m : Manifest) : Z :=
  Z.lor (if delta m then FLAG_DELTA else 0)
        (if blob_zstd (device_blob m) then FLAG_DEV_ZSTD else 0).

Definition parent_bytes (p : option SnapshotRef) : bytes :=
  match p with Some r => r | None => zero_hash end.

(** The 96-byte header. *)
Definition encode_header (m : Manifest) : bytes :=
  MAGIC ++ to_le 2 VERSION ++ to_le 2 (encode_flags m) ++ to_le 4 HEADER_LEN
  ++ parent_bytes (parent m) ++ to_le 8 (guest_ram_bytes m) ++ to_le 8 PAGE_SIZE_V1
  ++ to_le 8 (zlen (entries m)) ++ to_le 8 (zlen (blob_bytes (device_blob m)))
  ++ to_le 8 (blob_raw_len (device_blob m)) ++ to_le 4 (blob_format (device_blob m))
  ++ to_le 4 0.

Definition encode_body (m : Manifest) : bytes :=
  encode_header m ++ concat (encode_entry <$> entries m) ++ blob_bytes (device_blob m).

Definition encode `{Blake3} (m : Manifest) : bytes :=
  encode_body m ++ blake3 (encode_body m).

(** The entry-table loop [for i in 0..entry_count]. *)
Fixpoint parse_entries (buf : bytes) (off : Z) (n : nat)
    : res ManifestError (list ManifestEntry) :=
  match n with
  | O => Ok []
  | S n' =>
      let? idx := slice off (off + 8) buf in
      let? hash := slice (off + 8) (off + 40) buf in
      let? rest := parse_entries buf (off + ENTRY_SIZE) n' in
      Ok (mk_entry (from_le idx) hash :: rest)
  end.

Definition decode `{Blake3, Zstd} (buf : bytes) : res ManifestError Manifest :=
  bail_if zlen buf <? 96 + FOOTER_LEN with Truncated in
  let footer_start := zlen buf - FOOTER_LEN in
  let? body := slice 0 footer_start buf in
  let? stored_hash := slice footer_start (zlen buf) buf in
  bail_if negb (bool_decide (blake3 body = stored_hash)) with FooterMismatch in
  let? magic := slice 0 8 buf in
  bail_if negb (bool_decide (magic = MAGIC)) with BadMagic in
  let? b := slice 8 10 buf in let ver := from_le b in
  bail_if negb (ver =? VERSION) with UnsupportedVersion ver in
  let? b := slice 10 12 buf in let flags := from_le b in
  let unknown := Z.ldiff flags FLAG_KNOWN_BITS in
  bail_if negb (unknown =? 0) with UnknownFlags unknown in
  let? b := slice 12 16 buf in let header_len := from_le b in
  bail_if negb (header_len =? HEADER_LEN) with BadHeaderLen header_len in
  let? parent_hash := slice 16 48 buf in
  let? b := slice 48 56 buf in let ram := from_le b in
  let? b := slice 56 64 buf in let page_size := from_le b in
  let? b := slice 64 72 buf in let entry_count := from_le b in
  let? b := slice 72 80 buf in let device_blob_len := from_le b in
  let? b := slice 80 88 buf in let device_blob_raw_len := from_le b in
  let? b := slice 88 92 buf in let device_blob_format := from_le b in
  let? b := slice 92 96 buf in let reserved := from_le b in
  bail_if negb (reserved =? 0) with ReservedNonZero in
  bail_if negb (page_size =? PAGE_SIZE_V1) with BadPageSize page_size in
  bail_if negb (ram mod PAGE_SIZE_V1 =? 0) with GuestRamNotAligned ram in
  let? entries_bytes := ok_or Truncated (checked_mul entry_count ENTRY_SIZE) in
  let? expected_body := ok_or Truncated
    (n ← checked_add 96 entries_bytes; checked_add n device_blob_len) in
  bail_if negb (zlen body =? expected_body)
    with (if zlen body <? expected_body then Truncated else TrailingBytes) in
  let entries_start := 96 in
  let entries_end := entries_start + entries_bytes in
  let? es := parse_entries buf entries_start (Z.to_nat entry_count) in
  let? _ := check_ascending es in
  let is_delta := negb (Z.land flags FLAG_DELTA =? 0) in
  let is_dev_zstd := negb (Z.land flags FLAG_DEV_ZSTD =? 0) in
  let parent_all_zero := bool_decide (parent_hash = zero_hash) in
  let max_idx := ram / PAGE_SIZE_V1 in
  let? parent_opt :=
    if is_delta then
      bail_if parent_all_zero with DeltaZeroParent in
      let? _ := check_range max_idx es in
      Ok (Some parent_hash)
    else
      bail_if negb parent_all_zero with FullNonZeroParent in
      bail_if negb (entry_count =? max_idx) with FullCountMismatch entry_count max_idx in
      let? _ := check_contiguous 0 es in
      Ok None in
  let? blob := slice entries_end (entries_end + device_blob_len) buf in
  let? _ :=
    if is_dev_zstd then
      let? decompressed :=
        ok_or (ZstdRawLenMismatch 0 device_blob_raw_len) (zstd_decode_all blob) in
      bail_if negb (zlen decompressed =? device_blob_raw_len)
        with ZstdRawLenMismatch (zlen decompressed) device_blob_raw_len in
      Ok tt
    else
      bail_if negb (device_blob_raw_len =? device_blob_len)
        with NonZstdRawLenMismatch device_blob_raw_len device_blob_len in
      Ok tt in
  Ok (mk_manifest ver is_delta parent_opt ram es
        (mk_blob device_blob_format is_dev_zstd blob device_blob_raw_len)).

Definition snapshot_ref `{Blake3} (buf : bytes) : SnapshotRef :=
  blake3 (sub 0 (saturating_sub (zlen buf) FOOTER_LEN) buf).

(** ** Flattening *)

(** [result[idx]] read-then-write for one entry; indexing out of range
    panics. *)
Definition flatten_put (result : list (option ManifestEntry)) (e : ManifestEntry)
    : res FlattenError (list (option ManifestEntry)) :=
  let idx := Z.to_nat (page_index e) in
  match result !! idx with
  | None => Panic
  | Some None => Ok (<[idx := Some e]> result)
  | Some (Some _) => Ok result
  end.

Fixpoint flatten_entries (result : list (option ManifestEntry)) (es : list ManifestEntry) :=
  match es with
  | [] => Ok result
  | e :: rest => let? result := flatten_put result e in flatten_entries result rest
  end.

Fixpoint flatten_manifests (result : list (option ManifestEntry)) (chain : list Manifest) :=
  match chain with
  | [] => Ok result
  | m :: rest =>
      let? result := flatten_entries result (entries m) in flatten_manifests result rest
  end.

(** The coverage pass. *)
Fixpoint check_coverage (result : list (option ManifestEntry))
    : res FlattenError (list ManifestEntry) :=
  match result with
  | [] => Ok []
  | None :: _ => Err Coverage
  | Some e :: rest => let? out := check_coverage rest in Ok (e :: out)
  end.

Definition ram_matches (ram : Z) (chain : list Manifest) : bool :=
  forallb (λ m, guest_ram_bytes m =? ram) chain.

Definition flatten (chain : list Manifest) : res FlattenError (list ManifestEntry) :=
  match chain, last chain with
  | child :: _, Some root =>
      bail_if delta root with RootNotFull in
      let ram := guest_ram_bytes child in
      bail_if negb (ram_matches ram chain) with RamMismatch in
      let total_pages := ram / PAGE_SIZE_V1 in
      let? result := flatten_manifests (replicate (Z.to_nat total_pages) None) chain in
      check_coverage result
  | _, _ => Err EmptyChain
  end.

(** One step of the delta scan: the [seen] bitmap and the output vector. *)
Definition delta_put (st : list bool * list ManifestEntry) (e : ManifestEntry)
    : res FlattenError (list bool * list ManifestEntry) :=
  let '(seen, out) := st in
  let idx := Z.to_nat (page_index e) in
  match seen !! idx with
  | None => Panic
  | Some true => Ok (seen, out)
  | Some false => Ok (<[idx := true]> seen, out ++ [e])
  end.

Fixpoint delta_entries (st : list bool * list ManifestEntry) (es : list ManifestEntry) :=
  match es with
  | [] => Ok st
  | e :: rest => let? st := delta_put st e in delta_entries st rest
  end.

Fixpoint delta_manifests (st : list bool * list ManifestEntry) (chain : list Manifest) :=
  match chain with
  | [] => Ok st
  | m :: rest => let? st := delta_entries st (entries m) in delta_manifests st rest
  end.

Definition flatten_delta (chain : list Manifest) : res FlattenError (list ManifestEntry) :=
  match chain, last chain with
  | child :: _, Some root =>
      bail_if negb (delta root) with RootNotDelta in
      let ram := guest_ram_bytes child in
      bail_if negb (ram_matches ram chain) with RamMismatch in
      let total_pages := ram / PAGE_SIZE_V1 in
      let? ' (_, out) :=
        delta_manifests (replicate (Z.to_nat total_pages) false, []) chain in
      Ok (sort_by_key page_index out)
  | _, _ => Err EmptyChain
  end.

(** ** Well-formed manifests *)

Definition entry_ok (e : ManifestEntry) : Prop :=
  u64_ok (page_index e) ∧ hash_ok (page_hash e).

Definition entry_lt (a b : ManifestEntry) : Prop := page_index a < page_index b.

(** The entry table of a FULL manifest: indices [0, 1, ..., n-1]. *)
Definition contiguous_from (i : Z) (es : list ManifestEntry) : Prop :=
  ∀ k e, es !! k = Some e → page_index e = i + Z.of_nat k.

Definition kind_ok (m : Manifest) : Prop :=
  if delta m then
    (∃ p, parent m = Some p ∧ hash_ok p ∧ p ≠ zero_hash)
    ∧ Forall (λ e, page_index e < guest_ram_bytes m / PAGE_SIZE_V1) (entries m)
  else
    parent m = None
    ∧ zlen (entries m) = guest_ram_bytes m / PAGE_SIZE_V1
    ∧ contiguous_from 0 (entries m).

Definition blob_ok `{Zstd} (b : DeviceBlob) : Prop :=
  u32_ok (blob_format b) ∧ u64_ok (blob_raw_len b) ∧
  if blob_zstd b then ∃ d, zstd_decode_all (blob_bytes b) = Some d ∧ zlen d = blob_raw_len b
  else blob_raw_len b = zlen (blob_bytes b).

(** The encoded body fits the address space (64-bit [usize]). *)
Definition size_ok (m : Manifest) : Prop :=
  96 + zlen (entries m) * ENTRY_SIZE + zlen (blob_bytes (device_blob m)) ≤ u64_max.

Record manifest_wf `{Zstd} (m : Manifest) : Prop := {
  wf_version : version m = VERSION;
  wf_ram : u64_ok (guest_ram_bytes m) ∧ guest_ram_bytes m mod PAGE_SIZE_V1 = 0;
  wf_entries : Forall entry_ok (entries m);
  wf_sorted : StronglySorted entry_lt (entries m);
  wf_kind : kind_ok m;
  wf_blob : blob_ok (device_blob m);
  wf_size : size_ok m;
}.

(** ** The validation loops, characterised *)

Lemma check_ascending_ok es u :
  check_ascending es = Ok u ↔ StronglySorted entry_lt es.
Proof.
  destruct u. induction es as [|a [|b es] IH]; [by split; [constructor|]|by split; [repeat constructor|]|].
  change (check_ascending (a :: b :: es)) with
    (bail_if page_index b <=? page_index a with EntriesNotAscending in check_ascending (b :: es)).
  split.
  - intros H. rs_inv. b2p. pose proof (proj1 IH H) as Hs. constructor; [done|].
    inversion Hs as [|?? _ Hb']; subst.
    constructor; [done|]. eapply Forall_impl; [done|]. unfold entry_lt. lia.
  - intros H. inversion H as [|?? Hs Ha]; subst. inversion Ha as [|?? Hab]; subst.
    unfold entry_lt in Hab. rewrite (proj2 (Z.leb_gt _ _)) by lia. by apply IH.
Qed.

Lemma check_range_ok n es u :
  check_range n es = Ok u ↔ Forall (λ e, page_index e < n) es.
Proof.
  destruct u. induction es as [|e es IH]; simpl; [by split; [constructor|]|].
  rewrite Forall_cons, <-IH. destruct (_ <=? _) eqn:E; b2p.
  - split; [done|]. intros []. lia.
  - split; [|by intros []]. done.
Qed.

Lemma contiguous_from_cons i e es :
  contiguous_from i (e :: es) ↔ page_index e = i ∧ contiguous_from (i + 1) es.
Proof.
  unfold contiguous_from. split.
  - intros H. split; [rewrite (H 0%nat e eq_refl); lia|].
    intros k x Hk. rewrite (H (S k) x Hk). lia.
  - intros [He H] [|k] x Hk; simpl in Hk; simplify_eq; [lia|]. rewrite (H k x Hk). lia.
Qed.

Lemma check_contiguous_ok i es u : check_contiguous i es = Ok u ↔ contiguous_from i es.
Proof.
  destruct u. revert i. induction es as [|e es IH]; intros i; simpl; [by split|].
  rewrite contiguous_from_cons, <-IH. destruct (_ =? _) eqn:E; simpl; b2p.
  - split; [by split|by intros []].
  - split; [done|by intros []].
Qed.

Lemma validate_device_blob_ok b u :
  validate_device_blob b = Ok u ↔ (blob_zstd b = false → blob_raw_len b = zlen (blob_bytes b)).
Proof.
  destruct u. unfold validate_device_blob. destruct (blob_zstd b); simpl; [naive_solver|].
  destruct (_ =? _) eqn:E; simpl; b2p; naive_solver.
Qed.

Lemma check_ascending_no_panic es : check_ascending es ≠ Panic.
Proof. induction es as [|a [|b es] IH]; simpl in *; repeat case_match; done. Qed.
Lemma check_range_no_panic n es : check_range n es ≠ Panic.
Proof. induction es; simpl; by repeat case_match. Qed.
Lemma check_contiguous_no_panic i es : check_contiguous i es ≠ Panic.
Proof. revert i. induction es; intros; simpl; by repeat case_match. Qed.

(** ** Encoding facts *)

Lemma zlen_encode_entry e : entry_ok e → zlen (encode_entry e) = ENTRY_SIZE.
Proof. intros [_ Hh%hash_ok_zlen]. unfold encode_entry, ENTRY_SIZE. zl. Qed.

Lemma zlen_encode_entries es :
  Forall entry_ok es → zlen (concat (encode_entry <$> es)) = zlen es * ENTRY_SIZE.
Proof.
  induction 1 as [|e es He _ IH]; [done|]. cbn. rewrite zlen_app, zlen_cons, IH.
  rewrite zlen_encode_entry by done. lia.
Qed.

Lemma zlen_parent `{Zstd} m : manifest_wf m → zlen (parent_bytes (parent m)) = 32.
Proof.
  intros [_ _ _ _ Hk _ _]. unfold kind_ok in Hk. destruct (delta m).
  - destruct Hk as [(p & -> & Hp & _) _]. by apply hash_ok_zlen.
  - by destruct Hk as [-> _].
Qed.

Lemma zlen_encode_header `{Zstd} m : manifest_wf m → zlen (encode_header m) = 96.
Proof.
  intros Hp%zlen_parent. unfold encode_header. autorewrite with slice. rewrite Hp. done.
Qed.

(** The entry-table loop reads back what the encoder wrote. *)
Lemma parse_encode_entries pre es post :
  Forall entry_ok es →
  parse_entries (pre ++ concat (encode_entry <$> es) ++ post) (zlen pre) (length es) = Ok es.
Proof.
  intros Hes. revert pre. induction Hes as [|e es He Hes IH]; intros pre; [done|].
  pose proof (zlen_encode_entry e He) as Hlen. destruct He as [Hi Hh%hash_ok_zlen].
  cbn [length fmap list_fmap concat parse_entries].
  replace (pre ++ (encode_entry e ++ concat (encode_entry <$> es)) ++ post)
    with ((pre ++ encode_entry e) ++ concat (encode_entry <$> es) ++ post)
    by by rewrite <-!app_assoc.
  specialize (IH (pre ++ encode_entry e)).
  replace (zlen pre + ENTRY_SIZE) with (zlen (pre ++ encode_entry e)) by (rewrite zlen_app; lia).
  rewrite IH. pose proof (zlen_nonneg pre). pose proof (zlen_nonneg post).
  pose proof (zlen_nonneg (concat (encode_entry <$> es))).
  unfold encode_entry in *. rewrite <-!app_assoc. rewrite !slice_ok by zl. cbn [rbind].
  rewrite sub_app_exact by zl. rewrite (app_assoc pre). rewrite sub_app_exact by zl.
  rewrite from_to_le by exact Hi. by destruct e.
Qed.

Lemma flags_delta m : negb (Z.land (encode_flags m) FLAG_DELTA =? 0) = delta m.
Proof. unfold encode_flags. by destruct (delta m), (blob_zstd _). Qed.
Lemma flags_zstd m : negb (Z.land (encode_flags m) FLAG_DEV_ZSTD =? 0) = blob_zstd (device_blob m).
Proof. unfold encode_flags. by destruct (delta m), (blob_zstd _). Qed.
Lemma flags_known m : Z.ldiff (encode_flags m) FLAG_KNOWN_BITS = 0.
Proof. unfold encode_flags. by destruct (delta m), (blob_zstd _). Qed.
Lemma flags_u16 m : 0 ≤ encode_flags m < 2 ^ (Z.of_nat 2 * 8).
Proof. unfold encode_flags. by destruct (delta m), (blob_zstd _). Qed.

(** The buffer an encoder of header, table, blob and footer produces, as
    the decoder's ranges see it. *)
Lemma encode_fields `{Blake3, Zstd} m : manifest_wf m →
  let buf := encode m in
  let n := zlen (entries m) in let bl := zlen (blob_bytes (device_blob m)) in
  zlen buf = 96 + n * 40 + bl + 32 ∧
  sub 0 (zlen buf - 32) buf = encode_body m ∧
  sub (zlen buf - 32) (zlen buf) buf = blake3 (encode_body m) ∧
  sub 0 8 buf = MAGIC ∧ sub 8 10 buf = to_le 2 VERSION ∧
  sub 10 12 buf = to_le 2 (encode_flags m) ∧ sub 12 16 buf = to_le 4 HEADER_LEN ∧
  sub 16 48 buf = parent_bytes (parent m) ∧ sub 48 56 buf = to_le 8 (guest_ram_bytes m) ∧
  sub 56 64 buf = to_le 8 PAGE_SIZE_V1 ∧ sub 64 72 buf = to_le 8 n ∧
  sub 72 80 buf = to_le 8 bl ∧ sub 80 88 buf = to_le 8 (blob_raw_len (device_blob m)) ∧
  sub 88 92 buf = to_le 4 (blob_format (device_blob m)) ∧ sub 92 96 buf = to_le 4 0 ∧
  sub (96 + n * 40) (96 + n * 40 + bl) buf = blob_bytes (device_blob m) ∧
  parse_entries buf 96 (Z.to_nat n) = Ok (entries m).
Proof.
  intros Hwf. pose proof (zlen_parent m Hwf) as Hp.
  pose proof (zlen_encode_header m Hwf) as Hh.
  pose proof (zlen_encode_entries _ (wf_entries _ Hwf)) as Hel. unfold ENTRY_SIZE in Hel.
  pose proof (zlen_nonneg (entries m)). pose proof (zlen_nonneg (blob_bytes (device_blob m))).
  pose proof (zlen_blake3 (encode_body m)) as H32.
  assert (zlen (encode_body m) = 96 + zlen (entries m) * 40 + zlen (blob_bytes (device_blob m)))
    as Hbl by (unfold encode_body; zl).
  intros buf n bl. assert (zlen buf = 96 + n * 40 + bl + 32) as Hlen by (subst buf n bl; unfold encode; zl).
  assert (zlen MAGIC = 8) as HM by done.
  split; [exact Hlen|]. rewrite Hlen. subst buf n bl.
  split; [unfold encode; by field|]. split; [unfold encode; by field|].
  assert (encode m = encode_header m ++ concat (encode_entry <$> entries m)
    ++ blob_bytes (device_blob m) ++ blake3 (encode_body m)) as ->
    by (unfold encode, encode_body; by rewrite <-!app_assoc).
  split_and!; first
    [ unfold encode_header; rewrite <-!app_assoc; by field
    | by field
    | rewrite <-Hh; replace (Z.to_nat _) with (length (entries m)) by (unfold zlen; lia);
      apply parse_encode_entries, Hwf ].
Qed.

Lemma decode_encode `{Blake3, Zstd} m : manifest_wf m → decode (encode m) = Ok m.
Proof.
  intros Hwf. pose proof (encode_fields m Hwf) as Hfields. cbv zeta in Hfields.
  destruct Hwf as [Hv [Hr Ha] He Hs Hk (Hf & Hrl & Hb) Hsz].
  unfold size_ok, ENTRY_SIZE, u64_max, u64_ok, u32_ok in *.
  pose proof (zlen_nonneg (entries m)). pose proof (zlen_nonneg (blob_bytes (device_blob m))).
  unfold decode. set (buf := encode m) in *. clearbody buf.
  destruct Hfields as (Hlen & F1 & F2 & F3 & F4 & F5 & F6 & F7 & F8 & F9 & F10 & F11 & F12
    & F13 & F14 & F15 & F16).
  assert (zlen (encode_body m) = zlen buf - 32) as Hbl by (rewrite <-F1; rewrite zlen_sub; lia).
  unfold FOOTER_LEN, ENTRY_SIZE. rewrite (proj2 (Z.ltb_ge _ _)) by lia.
  rewrite !slice_ok by lia. cbn [rbind].
  rewrite F1, F2, F3, F4, F5, F6, F7, F8, F9, F10, F11, F12, F13, F14.
  rewrite !from_to_le by first [lia|done|apply flags_u16].
  rewrite flags_known, flags_delta, flags_zstd, Ha, !bool_decide_eq_true_2 by done.
  change (negb (VERSION =? VERSION)) with false. change (negb (0 =? 0)) with false.
  change (negb (HEADER_LEN =? HEADER_LEN)) with false.
  change (negb (PAGE_SIZE_V1 =? PAGE_SIZE_V1)) with false. cbv iota zeta.
  unfold checked_mul, checked_add. rewrite (proj2 (Z.leb_le _ _)) by (unfold u64_max; lia).
  cbn [ok_or rbind]. rewrite (proj2 (Z.leb_le _ _)) by (unfold u64_max; lia).
  cbn [mbind option_bind]. rewrite (proj2 (Z.leb_le _ _)) by (unfold u64_max; lia).
  cbn [ok_or rbind].
  rewrite (proj2 (Z.eqb_eq (zlen (encode_body m)) _)) by lia. cbn [negb].
  rewrite F16. cbn [rbind]. rewrite (proj2 (check_ascending_ok _ tt)) by done. cbn [rbind].
  rewrite slice_ok by lia. rewrite F15. unfold kind_ok in Hk. destruct m as [v d p r es [f z b rl]].
  simpl in *. subst v. destruct d.
  - destruct Hk as [(q & -> & Hq & Hnz) Hmax]. rewrite bool_decide_eq_false_2 by done.
    rewrite (proj2 (check_range_ok _ _ tt)) by done. simpl. destruct z.
    + destruct Hb as (dd & -> & <-). simpl. by rewrite Z.eqb_refl.
    + rewrite Hb, Z.eqb_refl. done.
  - destruct Hk as (-> & Hn & Hc). rewrite bool_decide_eq_true_2 by done. rewrite Hn, Z.eqb_refl.
    rewrite (proj2 (check_contiguous_ok _ _ tt)) by done. simpl. destruct z.
    + destruct Hb as (dd & -> & <-). simpl. by rewrite Z.eqb_refl.
    + rewrite Hb, Z.eqb_refl. done.
Qed.

Lemma parse_entries_inv buf off n es :
  0 ≤ off → parse_entries buf off n = Ok es →
  length es = n ∧ Forall entry_ok es ∧ off + 40 * Z.of_nat n ≤ zlen buf `max` off ∧
  sub off (off + 40 * Z.of_nat n) buf = concat (encode_entry <$> es).
Proof.
  revert off es. induction n as [|n IH]; intros off es Hoff Hp; simpl in Hp.
  - rs_inv. split_and!; [done|done|lia|]. unfold sub. by replace (Z.to_nat _) with 0%nat by lia.
  - rs_inv. apply slice_inv in Hc as (? & ? & ->). apply slice_inv in Hc0 as (? & ? & ->).
    apply IH in Hc1 as (Hl & Hes & Hb & Hsub); [|unfold ENTRY_SIZE; lia].
    unfold ENTRY_SIZE in *.
    assert (zlen (sub off (off + 8) buf) = 8) as H8 by (rewrite zlen_sub; lia).
    assert (zlen (sub (off + 8) (off + 40) buf) = 32) as H32 by (rewrite zlen_sub; lia).
    pose proof (from_le_bound (sub off (off + 8) buf)) as Hbd. rewrite H8 in Hbd.
    split_and!; [simpl; lia| |lia|].
    + constructor; [|done]. split; [exact Hbd|by apply zlen_hash_ok].
    + rewrite (sub_split off (off + 40)) by lia. rewrite (sub_split off (off + 8)) by lia.
      cbn [fmap list_fmap concat]. rewrite <-Hsub. unfold encode_entry. simpl.
      rewrite to_from_le by (unfold zlen in H8; lia). f_equal. f_equal. lia.
Qed.

(** Flag words with only the two known bits. *)
Lemma flags_cases f : 0 ≤ f → Z.ldiff f FLAG_KNOWN_BITS = 0 →
  f = Z.lor (if negb (Z.land f FLAG_DELTA =? 0) then FLAG_DELTA else 0)
            (if negb (Z.land f FLAG_DEV_ZSTD =? 0) then FLAG_DEV_ZSTD else 0).
Proof.
  intros Hf Hd. assert (f = Z.land f 3) as Hl.
  { rewrite <-(Z.lor_ldiff_and f 3) at 1. change FLAG_KNOWN_BITS with 3 in Hd. by rewrite Hd. }
  change 3 with (Z.ones 2) in Hl. rewrite Z.land_ones in Hl by lia.
  pose proof (Z.mod_pos_bound f (2 ^ 2) ltac:(lia)) as Hb. rewrite <-Hl in Hb.
  assert (f = 0 ∨ f = 1 ∨ f = 2 ∨ f = 3) as [->|[->|[->| ->]]] by lia; done.
Qed.

(** A buffer of at least 96 bytes is the concatenation of its header
    fields and the rest. *)
Lemma header_split (buf : bytes) : 96 ≤ zlen buf →
  buf = sub 0 8 buf ++ sub 8 10 buf ++ sub 10 12 buf ++ sub 12 16 buf ++ sub 16 48 buf
    ++ sub 48 56 buf ++ sub 56 64 buf ++ sub 64 72 buf ++ sub 72 80 buf ++ sub 80 88 buf
    ++ sub 88 92 buf ++ sub 92 96 buf ++ sub 96 (zlen buf) buf.
Proof. intros. rewrite <-!sub_split by lia. by rewrite sub_all by lia. Qed.


(** [decode_facts H]: everything a successful [decode] has checked. *)
Ltac decode_facts Hd :=
  unfold decode, FOOTER_LEN, ENTRY_SIZE in Hd; rs_inv; b2p;
  repeat match goal with
  | H : slice _ _ _ = Ok ?x |- _ => apply slice_inv in H as (_ & ? & ->)
  | H : checked_mul _ _ = Some _ |- _ => apply checked_mul_Some in H as [-> ?]
  | H : mbind _ _ = Some _ |- _ => apply bind_Some in H as (? & ? & ?)
  | H : checked_add _ _ = Some _ |- _ => apply checked_add_Some in H as [-> ?]
  | H : check_ascending _ = Ok _ |- _ => apply check_ascending_ok in H
  | H : check_range _ _ = Ok _ |- _ => apply check_range_ok in H
  | H : check_contiguous _ _ = Ok _ |- _ => apply check_contiguous_ok in H
  | H : parse_entries _ _ _ = Ok _ |- _ =>
      apply parse_entries_inv in H as (? & ? & ? & ?); [|lia]
  end.

Lemma decode_wf `{Blake3, Zstd} buf m : decode buf = Ok m → manifest_wf m.
Proof.
  intros Hd. decode_facts Hd.
  all: assert (96 ≤ zlen buf) by lia.
  all: assert (u64_ok (from_le (sub 48 56 buf))) by (apply (from_le_sub_bound 48 56); lia).
  all: assert (u64_ok (from_le (sub 64 72 buf))) as [? _] by (apply (from_le_sub_bound 64 72); lia).
  all: assert (u64_ok (from_le (sub 72 80 buf))) as [? _] by (apply (from_le_sub_bound 72 80); lia).
  all: assert (u64_ok (from_le (sub 80 88 buf))) by (apply (from_le_sub_bound 80 88); lia).
  all: assert (u32_ok (from_le (sub 88 92 buf))) by (apply (from_le_sub_bound 88 92); lia).
  all: assert (zlen a15 = from_le (sub 64 72 buf)) as Hn by (unfold zlen; lia).
  all: split; simpl; try done.
  all: unfold kind_ok, blob_ok, size_ok; cbn [delta parent entries guest_ram_bytes device_blob
    blob_format blob_zstd blob_bytes blob_raw_len].
  all: rewrite ?Hn, ?zlen_sub by lia; unfold ENTRY_SIZE; try lia.
  all: split_and!; try done; try lia; try by eexists.
  all: eexists; split_and!; [done| |done]; apply zlen_hash_ok; rewrite zlen_sub; lia.
Qed.

Lemma encode_body_sub m (buf : bytes) e :
  let E := 96 + zlen (entries m) * 40 in
  e = E + zlen (blob_bytes (device_blob m)) → e ≤ zlen buf →
  MAGIC = sub 0 8 buf → from_le (sub 8 10 buf) = VERSION →
  from_le (sub 10 12 buf) = encode_flags m → from_le (sub 12 16 buf) = HEADER_LEN →
  parent_bytes (parent m) = sub 16 48 buf → from_le (sub 48 56 buf) = guest_ram_bytes m →
  from_le (sub 56 64 buf) = PAGE_SIZE_V1 → from_le (sub 64 72 buf) = zlen (entries m) →
  from_le (sub 72 80 buf) = zlen (blob_bytes (device_blob m)) →
  from_le (sub 80 88 buf) = blob_raw_len (device_blob m) →
  from_le (sub 88 92 buf) = blob_format (device_blob m) → from_le (sub 92 96 buf) = 0 →
  concat (encode_entry <$> entries m) = sub 96 E buf →
  blob_bytes (device_blob m) = sub E e buf →
  encode_body m = sub 0 e buf.
Proof.
  intros E He Hlen. intros. unfold encode_body, encode_header.
  pose proof (zlen_nonneg (entries m)). pose proof (zlen_nonneg (blob_bytes (device_blob m))).
  replace (concat _) with (sub 96 E buf). replace (blob_bytes (device_blob m)) with (sub E e buf) at 2.
  replace MAGIC with (sub 0 8 buf). replace (parent_bytes (parent m)) with (sub 16 48 buf).
  rewrite (to_le_sub 2 VERSION 8 10 buf), (to_le_sub 2 (encode_flags m) 10 12 buf),
    (to_le_sub 4 HEADER_LEN 12 16 buf), (to_le_sub 8 (guest_ram_bytes m) 48 56 buf),
    (to_le_sub 8 PAGE_SIZE_V1 56 64 buf), (to_le_sub 8 (zlen (entries m)) 64 72 buf),
    (to_le_sub 8 (zlen (blob_bytes (device_blob m))) 72 80 buf),
    (to_le_sub 8 (blob_raw_len (device_blob m)) 80 88 buf),
    (to_le_sub 4 (blob_format (device_blob m)) 88 92 buf),
    (to_le_sub 4 0 92 96 buf) by (first [done | lia]).
  rewrite <-!app_assoc. by rewrite <-!sub_split by lia.
Qed.

Lemma decode_canonical `{Blake3, Zstd} buf m : decode buf = Ok m → encode m = buf.
Proof.
  intros Hd. decode_facts Hd.
  all: assert (96 ≤ zlen buf) by lia.
  all: pose proof (from_le_sub_bound 64 72 buf ltac:(lia) ltac:(lia)) as [Hn0 _].
  all: pose proof (from_le_sub_bound 72 80 buf ltac:(lia) ltac:(lia)) as [Hl0 _].
  all: pose proof (from_le_sub_bound 10 12 buf ltac:(lia) ltac:(lia)) as [Hf0 _].
  all: pose proof (flags_cases _ Hf0 ltac:(done)) as Hfl.
  all: rewrite zlen_sub in * by lia.
  all: assert (zlen a15 = from_le (sub 64 72 buf)) as Hn by (unfold zlen; lia).
  all: unfold encode; erewrite (encode_body_sub _ buf (zlen buf - 32));
    cbn [entries parent guest_ram_bytes device_blob delta blob_format blob_zstd blob_bytes
      blob_raw_len parent_bytes]; rewrite ?Hn, ?zlen_sub by lia; try done; try lia.
  all: try (rewrite Hb0, <-sub_split by lia; by apply sub_all).
  all: first [ etrans; [exact Hfl|]; unfold encode_flags; simpl; repeat case_match; b2p; by simplify_eq
    | by f_equal; lia
    | etrans; [symmetry; eassumption|]; by f_equal; lia ].
Qed.

(** C13. The codec is a canonical bijection: [decode] accepts exactly the
    encodings of well-formed manifests and returns the manifest that was
    encoded.  (So decoding after encoding is the identity, re-encoding a
    decoded container gives back its bytes, and every structural invariant
    documented on [Manifest] holds of whatever [decode] returns.) *)
Theorem decode_iff_encode `{Blake3, Zstd} buf m :
  decode buf = Ok m ↔ manifest_wf m ∧ buf = encode m.
Proof.
  split.
  - intros Hd. split; [by eapply decode_wf|]. symmetry. by apply decode_canonical.
  - intros [Hwf ->]. by apply decode_encode.
Qed.

Lemma parse_entries_total buf off n :
  0 ≤ off → off + 40 * Z.of_nat n ≤ zlen buf → ∃ es, parse_entries buf off n = Ok es.
Proof.
  revert off. induction n as [|n IH]; intros off ??; simpl; [by eexists|].
  rewrite !slice_ok by lia. simpl. unfold ENTRY_SIZE.
  destruct (IH (off + 40)) as [es ->]; [lia..|]. by eexists.
Qed.

Lemma decode_not_panic `{Blake3, Zstd} buf : decode buf ≠ Panic.
Proof.
  unfold decode, FOOTER_LEN, ENTRY_SIZE. case_match; [done|b2p].
  rewrite !(slice_ok _ _ buf) by lia. cbn [rbind].
  repeat (match goal with |- (if ?b then Err _ else _) ≠ _ => destruct b eqn:?; [done|] end; cbv zeta).
  pose proof (from_le_sub_bound 64 72 buf ltac:(lia) ltac:(lia)) as [Hn0 _].
  pose proof (from_le_sub_bound 72 80 buf ltac:(lia) ltac:(lia)) as [Hl0 _].
  destruct (checked_mul _ _) as [eb|] eqn:Hm; [|done]. apply checked_mul_Some in Hm as [-> Hm].
  cbn [ok_or rbind]. destruct (mbind _ _) as [ex|] eqn:Ha; [|done].
  apply bind_Some in Ha as (x & Ha1 & Ha2). apply checked_add_Some in Ha1 as [-> _], Ha2 as [-> _].
  cbn [ok_or rbind]. rewrite zlen_sub by lia.
  destruct (zlen buf - 32 - 0 =? _) eqn:He; cbn [negb]; [|done]. b2p.
  destruct (parse_entries_total buf 96 (Z.to_nat (from_le (sub 64 72 buf)))) as [es ->]; [lia..|].
  cbn [rbind]. rewrite slice_ok by lia.
  destruct (check_ascending es) eqn:Hasc; [|done|by apply check_ascending_no_panic in Hasc].
  cbn [rbind]. match goal with |- context [check_range ?a ?b] =>
    destruct (check_range a b) eqn:Hcr; [| |by apply check_range_no_panic in Hcr] end.
  all: destruct (check_contiguous 0 es) eqn:Hcc; [| |by apply check_contiguous_no_panic in Hcc].
  all: unfold ok_or; repeat (case_match; cbn [rbind]); done.
Qed.

(** [decode] is total and panic-free on arbitrary bytes: every range
    expression, [unwrap] and size computation it executes is in bounds, so
    each input is answered by a manifest or an error value. *)
Theorem decode_no_panic `{Blake3, Zstd} buf :
  (∃ m, decode buf = Ok m) ∨ (∃ e, decode buf = Err e).
Proof. pose proof (decode_not_panic buf). destruct (decode buf); eauto. done. Qed.

(** ** Builders *)

Lemma contiguous_index es i :
  contiguous_from i es ↔ page_index <$> es = (λ k, i + Z.of_nat k) <$> seq 0 (length es).
Proof.
  unfold contiguous_from. split.
  - intros H. apply list_eq. intros k. rewrite !list_lookup_fmap.
    destruct (es !! k) as [e|] eqn:He; simpl.
    + rewrite lookup_seq_lt by (by eapply lookup_lt_Some). simpl. by rewrite (H k e).
    + rewrite lookup_seq_ge; [done|]. by apply lookup_ge_None.
  - intros H k e Hk. assert ((page_index <$> es) !! k = Some (page_index e)) as Hx
      by by rewrite list_lookup_fmap, Hk.
    rewrite H, list_lookup_fmap, lookup_seq_lt in Hx by (by eapply lookup_lt_Some).
    simpl in Hx. by simplify_eq.
Qed.

Lemma contiguous_sorted i es : contiguous_from i es → StronglySorted entry_lt es.
Proof.
  revert i. induction es as [|e es IH]; intros i H; [constructor|].
  pose proof H as [He Hes]%contiguous_from_cons. constructor; [by eapply IH|].
  apply Forall_lookup. intros k x Hk. unfold entry_lt. rewrite He, (Hes k x Hk). lia.
Qed.

(** A weakly sorted table whose indices are a permutation of [0..n] is
    contiguous. *)
Lemma sort_contiguous es n :
  page_index <$> es ≡ₚ Z.of_nat <$> seq 0 n → contiguous_from 0 (sort_by_key page_index es).
Proof.
  intros Hp. apply contiguous_index.
  assert (length es = n) as Hn.
  { apply Permutation_length in Hp. by rewrite !length_fmap, length_seq in Hp. }
  rewrite (Permutation_length (sort_by_key_perm page_index es)), Hn. simpl.
  apply (StronglySorted_unique Z.le).
  - eapply StronglySorted_fmap; [|apply (sort_by_key_sorted page_index es)]. done.
  - apply StronglySorted_fmap with (R1 := le); [intros ??; lia|].
    clear. generalize 0%nat. induction n as [|n IH]; intros k; cbn; constructor; [done|].
    apply Forall_forall. intros x Hx%elem_of_seq. lia.
  - rewrite (fmap_Permutation page_index _ _ (sort_by_key_perm page_index es)). exact Hp.
Qed.

Section builders.
Context `{Blake3, Zstd}.
Context (ram : Z) (es : list ManifestEntry) (blob : DeviceBlob).
(* the machine types of the arguments *)
Definition build_args_ok : Prop :=
  u64_ok ram ∧ Forall entry_ok es ∧ blob_ok blob
  ∧ 96 + zlen es * ENTRY_SIZE + zlen (blob_bytes blob) ≤ u64_max.

Lemma blob_ok_validate : blob_ok blob → validate_device_blob blob = Ok tt.
Proof.
  intros (_ & _ & Hb). apply validate_device_blob_ok. intros Hz. by rewrite Hz in Hb.
Qed.

Lemma zlen_sort : zlen (sort_by_key page_index es) = zlen es.
Proof. unfold zlen. by rewrite (Permutation_length (sort_by_key_perm page_index es)). Qed.

(** [new_full] accepts exactly the tables that list every page of
    an aligned RAM once, in any order, and what it builds is the sorted
    table in a well-formed manifest that survives the wire. *)
Theorem new_full_spec (Hargs : build_args_ok) :
  (is_ok (new_full ram es blob) ↔
    ram mod PAGE_SIZE_V1 = 0 ∧
    page_index <$> es ≡ₚ Z.of_nat <$> seq 0 (Z.to_nat (ram / PAGE_SIZE_V1))) ∧
  ∀ m, new_full ram es blob = Ok m →
    manifest_wf m ∧ entries m ≡ₚ es ∧ decode (encode m) = Ok m.
Proof.
  destruct Hargs as (Hram & Hes & Hblob & Hsize).
  assert (∀ m, new_full ram es blob = Ok m →
    manifest_wf m ∧ m = mk_manifest VERSION false None ram (sort_by_key page_index es) blob) as Hwf.
  { unfold new_full. intros m Hm. rs_inv. b2p. apply check_contiguous_ok in Hc.
    split; [|done]. split; simpl; try done.
    - by rewrite sort_by_key_perm.
    - by eapply contiguous_sorted.
    - unfold size_ok. simpl. by rewrite zlen_sort. }
  split; [split|].
  - unfold new_full. destruct (_ =? 0) eqn:Ha; simpl; [|done].
    destruct (_ =? ram / PAGE_SIZE_V1) eqn:Hn; simpl; [|done].
    destruct (check_contiguous _ _) eqn:Hc; simpl; [|done..]. intros _. b2p. split; [done|].
    apply check_contiguous_ok, contiguous_index in Hc.
    rewrite <-(fmap_Permutation page_index _ _ (sort_by_key_perm page_index es)).
    rewrite Hc, <-Hn. unfold zlen. by rewrite Nat2Z.id.
  - intros [Ha Hp]. unfold new_full. rewrite Ha. simpl. rewrite zlen_sort.
    assert (zlen es = ram / PAGE_SIZE_V1) as ->.
    { apply Permutation_length in Hp. rewrite !length_fmap, length_seq in Hp.
      unfold zlen, PAGE_SIZE_V1, u64_ok in *. pose proof (Z.div_pos ram 4096). lia. }
    rewrite Z.eqb_refl. simpl. rewrite (proj2 (check_contiguous_ok _ _ tt)).
    + by rewrite blob_ok_validate.
    + by eapply sort_contiguous.
  - intros m Hm. destruct (Hwf m Hm) as [Hw ->]. split_and!; [done| |by apply decode_encode].
    apply sort_by_key_perm.
Qed.
End builders.

Lemma strict_of_nodup es :
  StronglySorted (λ x y, page_index x ≤ page_index y) es →
  NoDup (page_index <$> es) → StronglySorted entry_lt es.
Proof.
  induction 1 as [|x l Hl IH Hx]; csimpl; [constructor|]. intros [Hx' Hnd]%NoDup_cons.
  constructor; [by apply IH|]. rewrite Forall_forall in Hx |- *. intros y Hy. unfold entry_lt.
  specialize (Hx y Hy). assert (page_index x ≠ page_index y); [|lia].
  intros Heq. apply Hx'. rewrite Heq. by apply list_elem_of_fmap_2.
Qed.

Lemma nodup_of_strict es : StronglySorted entry_lt es → NoDup (page_index <$> es).
Proof.
  induction 1 as [|x l Hl IH Hx]; csimpl; constructor; [|done].
  intros (y & Heq & Hy)%list_elem_of_fmap. rewrite Forall_forall in Hx.
  specialize (Hx y Hy). unfold entry_lt in Hx. lia.
Qed.

Section delta_builder.
Context `{Blake3, Zstd}.
Context (par : SnapshotRef) (ram : Z) (es : list ManifestEntry) (blob : DeviceBlob).

Lemma new_delta_result m :
  new_delta par ram es blob = Ok m →
  ram mod PAGE_SIZE_V1 = 0 ∧ StronglySorted entry_lt (sort_by_key page_index es) ∧
  Forall (λ e, page_index e < ram / PAGE_SIZE_V1) (sort_by_key page_index es) ∧
  m = mk_manifest VERSION true (Some par) ram (sort_by_key page_index es) blob.
Proof.
  unfold new_delta. intros Hm. rs_inv. b2p. apply check_ascending_ok in Hc.
  by apply check_range_ok in Hc0.
Qed.

(** [new_delta] accepts exactly the duplicate-free, in-range tables
    over an aligned RAM, in any order; with a non-zero parent the result is
    the sorted table in a well-formed manifest that survives the wire. *)
Theorem new_delta_spec (Hargs : build_args_ok ram es blob) (Hpar : hash_ok par)
    (Hnz : par ≠ zero_hash) :
  (is_ok (new_delta par ram es blob) ↔
    ram mod PAGE_SIZE_V1 = 0 ∧ NoDup (page_index <$> es) ∧
    Forall (λ e, page_index e < ram / PAGE_SIZE_V1) es) ∧
  ∀ m, new_delta par ram es blob = Ok m →
    manifest_wf m ∧ entries m ≡ₚ es ∧ parent m = Some par ∧ decode (encode m) = Ok m.
Proof.
  destruct Hargs as (Hram & Hes & Hblob & Hsize).
  pose proof (sort_by_key_perm page_index es) as Hperm. split; [split|].
  - destruct (new_delta _ _ _ _) as [m| |] eqn:Hm; simpl; [|done..]. intros _.
    apply new_delta_result in Hm as (Ha & Hs & Hr & ->). split_and!; [done| |].
    + rewrite <-(fmap_Permutation page_index _ _ Hperm). by apply nodup_of_strict.
    + by rewrite <-Hperm.
  - intros (Ha & Hnd & Hr). unfold new_delta. rewrite Ha. simpl.
    rewrite (proj2 (check_ascending_ok _ tt)).
    + rewrite (proj2 (check_range_ok _ _ tt)) by (by rewrite Hperm). simpl.
      by rewrite blob_ok_validate.
    + apply strict_of_nodup; [apply sort_by_key_sorted|].
      by rewrite (fmap_Permutation page_index _ _ Hperm).
  - intros m Hm. apply new_delta_result in Hm as (Ha & Hs & Hr & ->).
    assert (manifest_wf (mk_manifest VERSION true (Some par) ram (sort_by_key page_index es) blob)) as Hw.
    { split; simpl; try done.
      - by rewrite Hperm.
      - split; [by eexists|done].
      - unfold size_ok. simpl. by rewrite zlen_sort. }
    split_and!; [done|done|done|by apply decode_encode].
Qed.

(** The parent reference and the DELTA flag can be read off the bytes. *)
Lemma encode_parent_inj m1 m2 :
  zlen (parent_bytes (parent m1)) = 32 → zlen (parent_bytes (parent m2)) = 32 →
  encode m1 = encode m2 →
  delta m1 = delta m2 ∧ parent_bytes (parent m1) = parent_bytes (parent m2).
Proof.
  intros H1 H2 Heq. unfold encode, encode_body, encode_header in Heq. rewrite <-!app_assoc in Heq.
  apply app_inj_1 in Heq as [_ Heq]; [|done]. apply app_inj_1 in Heq as [_ Heq]; [|done].
  apply app_inj_1 in Heq as [Hf Heq]; [|by rewrite !length_to_le].
  apply app_inj_1 in Heq as [_ Heq]; [|done].
  apply app_inj_1 in Heq as [Hp _]; [|unfold zlen in *; lia]. split; [|done].
  rewrite <-(flags_delta m1), <-(flags_delta m2). do 3 f_equal.
  rewrite <-(from_to_le 2 (encode_flags m1)), Hf by apply flags_u16.
  by rewrite from_to_le by apply flags_u16.
Qed.

(** [new_delta] does not reject the all-zero parent reference, but no
    container built with it can be read back: [decode] answers every such
    encoding with an error. *)
Theorem new_delta_zero_parent_unreadable m :
  par = zero_hash → new_delta par ram es blob = Ok m →
  ∃ e, decode (encode m) = Err e.
Proof.
  intros Hz Hm. apply new_delta_result in Hm as (_ & _ & _ & ->). subst par.
  set (m := mk_manifest _ _ _ _ _ _).
  destruct (decode (encode m)) as [m'|e|] eqn:Hd; [|by eexists|].
  - pose proof (decode_wf _ _ Hd) as Hw. apply decode_canonical in Hd.
    apply encode_parent_inj in Hd as [Hdel Hp]; [|by apply zlen_parent|done].
    pose proof (wf_kind _ Hw) as Hk. unfold kind_ok in Hk. rewrite Hdel in Hk. simpl in Hk.
    destruct Hk as [(p & Hp' & _ & Hnz) _]. rewrite Hp' in Hp. by simpl in Hp.
  - by apply decode_not_panic in Hd.
Qed.
End delta_builder.

(** ** Flattening a chain *)

(** The entry a table holds for a page. *)
Fixpoint find_entry (es : list ManifestEntry) (i : Z) : option ManifestEntry :=
  match es with
  | [] => None
  | e :: rest => if page_index e =? i then Some e else find_entry rest i
  end.

(** What a chain means: the entry for page [i] is that of the first
    manifest, child first, that has one. *)
Fixpoint chain_lookup (chain : list Manifest) (i : Z) : option ManifestEntry :=
  match chain with
  | [] => None
  | m :: rest =>
      match find_entry (entries m) i with Some e => Some e | None => chain_lookup rest i end
  end.

Lemma find_entry_app es1 es2 i :
  find_entry (es1 ++ es2) i =
  match find_entry es1 i with Some e => Some e | None => find_entry es2 i end.
Proof. induction es1 as [|e es IH]; simpl; [done|]. destruct (_ =? _); [done|apply IH]. Qed.

Lemma find_entry_Some es i e : find_entry es i = Some e → e ∈ es ∧ page_index e = i.
Proof.
  induction es as [|x es IH]; simpl; [done|]. case_match; b2p; intros; simplify_eq.
  - split; [by left|done].
  - destruct IH; [done|]. split; [by right|done].
Qed.

Lemma find_entry_None es i : find_entry es i = None ↔ ∀ e, e ∈ es → page_index e ≠ i.
Proof.
  induction es as [|x es IH]; simpl; [split; [intros _ e He; by apply elem_of_nil in He|done]|].
  case_match; b2p.
  - split; [done|]. intros H'. by destruct (H' x ltac:(by left)).
  - rewrite IH. split.
    + intros H' e [->|He]%elem_of_cons; [done|by apply H'].
    + intros H' e He. apply H'. by right.
Qed.

Lemma find_entry_nodup es e :
  NoDup (page_index <$> es) → e ∈ es → find_entry es (page_index e) = Some e.
Proof.
  induction es as [|x es IH]; csimpl; [by intros _ ?%elem_of_nil|].
  intros [Hx Hnd]%NoDup_cons [->|He]%elem_of_cons; [by rewrite Z.eqb_refl|].
  destruct (_ =? _) eqn:E; b2p; [|by apply IH]. destruct Hx. rewrite E. by apply list_elem_of_fmap_2.
Qed.

Lemma chain_lookup_concat chain i :
  chain_lookup chain i = find_entry (concat (entries <$> chain)) i.
Proof. induction chain as [|m chain IH]; csimpl; [done|]. by rewrite find_entry_app, IH. Qed.

Lemma chain_lookup_app c1 c2 i :
  chain_lookup (c1 ++ c2) i =
  match chain_lookup c1 i with Some e => Some e | None => chain_lookup c2 i end.
Proof. by rewrite !chain_lookup_concat, fmap_app, concat_app, find_entry_app. Qed.

(** Both flattening loops are one scan of the concatenated tables. *)
Lemma flatten_manifests_concat r chain :
  flatten_manifests r chain = flatten_entries r (concat (entries <$> chain)).
Proof.
  revert r. induction chain as [|m chain IH]; intros r; csimpl; [done|].
  generalize (entries m). intros es. revert r. induction es as [|e es IHe]; intros r; csimpl.
  - apply IH.
  - destruct (flatten_put r e); simpl; [|done..]. apply IHe.
Qed.

Lemma delta_manifests_concat st chain :
  delta_manifests st chain = delta_entries st (concat (entries <$> chain)).
Proof.
  revert st. induction chain as [|m chain IH]; intros st; csimpl; [done|].
  generalize (entries m). intros es. revert st. induction es as [|e es IHe]; intros st; csimpl.
  - apply IH.
  - destruct (delta_put st e); simpl; [|done..]. apply IHe.
Qed.

Definition in_bounds (n : nat) (e : ManifestEntry) : Prop := 0 ≤ page_index e < Z.of_nat n.

(** The scan keeps what a slot already holds and otherwise stores the first
    entry for it. *)
Lemma flatten_entries_spec r es :
  Forall (in_bounds (length r)) es →
  ∃ r', flatten_entries r es = Ok r' ∧ length r' = length r ∧
    ∀ i x, r !! i = Some x →
      r' !! i = Some (match x with Some e => Some e | None => find_entry es (Z.of_nat i) end).
Proof.
  revert r. induction es as [|e es IH]; intros r Hb; simpl.
  { exists r. split_and!; [done|done|]. intros i [e|]; done. }
  inversion Hb as [|?? He Hes]; subst. unfold in_bounds in He. unfold flatten_put.
  destruct (lookup_lt_is_Some_2 r (Z.to_nat (page_index e))) as [[y|] Hy]; [lia|..]; rewrite Hy; simpl.
  - destruct (IH r Hes) as (r' & -> & Hl & Hr'). exists r'. split_and!; [done|done|].
    intros i x Hx. rewrite (Hr' i x Hx). destruct x; [done|]. case_match eqn:E; b2p; [|done].
    assert (i = Z.to_nat (page_index e)) as -> by lia. congruence.
  - set (j := Z.to_nat (page_index e)) in *.
    destruct (IH (<[j:=Some e]> r)) as (r' & -> & Hl & Hr'); [by rewrite length_insert|].
    exists r'. split_and!; [done|by rewrite length_insert in Hl|]. intros i x Hx.
    destruct (decide (i = j)) as [->|Hne].
    + rewrite (Hr' j (Some e)) by (apply list_lookup_insert_eq; by eapply lookup_lt_Some).
      simplify_eq. by rewrite (proj2 (Z.eqb_eq _ _)) by lia.
    + rewrite (Hr' i x) by (by rewrite list_lookup_insert_ne).
      destruct x; [done|]. by rewrite (proj2 (Z.eqb_neq _ _)) by lia.
Qed.

Lemma check_coverage_ok r out : check_coverage r = Ok out ↔ r = Some <$> out.
Proof.
  revert out. induction r as [|[e|] r IH]; intros out; simpl.
  - split; [intros; by simplify_eq|]. by destruct out.
  - split.
    + intros H. rs_inv. by rewrite (proj1 (IH a)).
    + destruct out as [|x out]; [done|]. csimpl. intros; simplify_eq. by rewrite (proj2 (IH out)).
  - split; [done|]. by destruct out.
Qed.

Lemma check_coverage_total r : (∀ i x, r !! i = Some x → is_Some x) → ∃ out, check_coverage r = Ok out.
Proof.
  intros Hr. induction r as [|[e|] r IH]; simpl; [by eexists| |].
  - destruct IH as [out ->]; [intros i; apply (Hr (S i))|]. by eexists.
  - by destruct (Hr 0%nat None eq_refl).
Qed.

(** A chain as the store assembles it: decoded manifests over one RAM
    size, child first. *)
Definition chain_ok `{Zstd} (ram : Z) (chain : list Manifest) : Prop :=
  Forall (λ m, manifest_wf m ∧ guest_ram_bytes m = ram) chain.

Lemma wf_in_bounds `{Zstd} m : manifest_wf m →
  Forall (in_bounds (Z.to_nat (guest_ram_bytes m / PAGE_SIZE_V1))) (entries m).
Proof.
  intros [_ [Hram _] He _ Hk _ _]. rewrite Forall_lookup in *. unfold in_bounds.
  assert (0 ≤ guest_ram_bytes m / PAGE_SIZE_V1) by (apply Z.div_pos; [apply Hram|done]).
  intros k e Hek. destruct (He k e Hek) as [[Hlo _] _]. split; [done|]. rewrite Z2Nat.id by done.
  unfold kind_ok in Hk. destruct (delta m).
  - destruct Hk as [_ Hr]. rewrite Forall_lookup in Hr. by eapply Hr.
  - destruct Hk as (_ & Hn & Hc). rewrite (Hc k e Hek), <-Hn. unfold zlen.
    apply lookup_lt_Some in Hek. lia.
Qed.

Lemma chain_in_bounds `{Zstd} ram chain :
  chain_ok ram chain →
  Forall (in_bounds (Z.to_nat (ram / PAGE_SIZE_V1))) (concat (entries <$> chain)).
Proof.
  induction 1 as [|m chain [Hm <-] _ IH]; csimpl; [constructor|].
  apply Forall_app; split; [by apply wf_in_bounds|done].
Qed.

Lemma chain_ram_matches `{Zstd} ram chain : chain_ok ram chain → ram_matches ram chain = true.
Proof.
  intros Hc. apply forallb_forall. intros m Hm. apply Z.eqb_eq.
  unfold chain_ok in Hc. rewrite List.Forall_forall in Hc. by apply Hc.
Qed.

(** A FULL manifest answers for every page of its RAM. *)
Lemma full_covers `{Zstd} m i : manifest_wf m → delta m = false →
  0 ≤ i < guest_ram_bytes m / PAGE_SIZE_V1 → is_Some (find_entry (entries m) i).
Proof.
  intros Hw Hd Hi. pose proof (wf_kind _ Hw) as Hk. unfold kind_ok in Hk. rewrite Hd in Hk.
  destruct Hk as (_ & Hn & Hc). destruct (find_entry _ i) eqn:Hf; [by eexists|].
  rewrite find_entry_None in Hf. unfold zlen in Hn.
  destruct (lookup_lt_is_Some_2 (entries m) (Z.to_nat i)) as [e He]; [lia|].
  destruct (Hf e); [by eapply list_elem_of_lookup_2|]. rewrite (Hc _ _ He). lia.
Qed.

Lemma chain_covers `{Zstd} ram chain root i :
  chain_ok ram chain → last chain = Some root → delta root = false →
  0 ≤ i < ram / PAGE_SIZE_V1 → is_Some (chain_lookup chain i).
Proof.
  intros Hc Hl Hd Hi. apply last_Some in Hl as [c ->].
  apply Forall_app in Hc as [_ [[Hw <-] _]%Forall_cons].
  rewrite chain_lookup_app. destruct (chain_lookup c i); [by eexists|]. simpl.
  destruct (full_covers root i Hw Hd Hi) as [e ->]. by eexists.
Qed.

Lemma chain_lookup_index chain i e : chain_lookup chain i = Some e → page_index e = i.
Proof. rewrite chain_lookup_concat. by intros [_ ?]%find_entry_Some. Qed.

Lemma flatten_ok `{Zstd} ram chain root :
  chain_ok ram chain → last chain = Some root → delta root = false →
  ∃ out, flatten chain = Ok out ∧ zlen out = ram / PAGE_SIZE_V1 ∧
    ∀ i, 0 ≤ i < ram / PAGE_SIZE_V1 → out !! Z.to_nat i = chain_lookup chain i.
Proof.
  intros Hc Hl Hd. destruct chain as [|child chain]; [done|].
  unfold flatten. rewrite Hl, Hd.
  assert (guest_ram_bytes child = ram ∧ 0 ≤ ram / PAGE_SIZE_V1) as [-> Hpos].
  { inversion Hc as [|?? [Hw <-]]; subst. split; [done|]. apply Z.div_pos; [apply Hw|done]. }
  rewrite (chain_ram_matches ram) by done. simpl negb. cbv iota.
  rewrite flatten_manifests_concat. set (N := Z.to_nat (ram / PAGE_SIZE_V1)).
  destruct (flatten_entries_spec (replicate N None) (concat (entries <$> child :: chain)))
    as (r & -> & Hlen & Hr); [rewrite length_replicate; by apply chain_in_bounds|].
  rewrite length_replicate in Hlen. simpl rbind.
  assert (∀ i, (i < N)%nat → r !! i = Some (chain_lookup (child :: chain) (Z.of_nat i))) as Hr'.
  { intros i Hi. rewrite chain_lookup_concat. by rewrite (Hr i None) by (by apply lookup_replicate). }
  destruct (check_coverage_total r) as [out Hout].
  { intros i x Hx. pose proof (lookup_lt_Some _ _ _ Hx). rewrite Hr' in Hx by lia. simplify_eq.
    eapply chain_covers; [done..|lia]. }
  exists out. split; [done|]. apply check_coverage_ok in Hout. subst r. rewrite length_fmap in Hlen.
  split; [unfold zlen; lia|]. intros i Hi. specialize (Hr' (Z.to_nat i) ltac:(lia)).
  rewrite list_lookup_fmap, Z2Nat.id in Hr' by lia. destruct (out !! _); simpl in Hr'; by simplify_eq.
Qed.

(** C30. Flattening a chain of decoded manifests that ends in a FULL one
    succeeds (no panic, no coverage error) with a complete page table: slot
    [i] holds, for every page [i] of the RAM, the entry of the manifest
    nearest the child that has one. *)
Theorem flatten_correct `{Zstd} ram chain root :
  chain_ok ram chain → last chain = Some root → delta root = false →
  ∃ out, flatten chain = Ok out ∧ zlen out = ram / PAGE_SIZE_V1 ∧
    ∀ i, 0 ≤ i < ram / PAGE_SIZE_V1 →
      ∃ e, out !! Z.to_nat i = Some e ∧ chain_lookup chain i = Some e ∧ page_index e = i.
Proof.
  intros Hc Hl Hd. destruct (flatten_ok ram chain root) as (out & Hf & Hn & Ho); [done..|].
  exists out. split_and!; [done..|]. intros i Hi.
  destruct (chain_covers ram chain root i) as [e He]; [done..|]. exists e.
  rewrite Ho by done. split_and!; [done|done|by eapply chain_lookup_index].
Qed.

Lemma delta_entries_spec seen out es :
  NoDup (page_index <$> out) → Forall (in_bounds (length seen)) es →
  Forall (in_bounds (length seen)) out →
  (∀ e, in_bounds (length seen) e →
    seen !! Z.to_nat (page_index e) = Some true ↔ ∃ o, o ∈ out ∧ page_index o = page_index e) →
  ∃ seen' out', delta_entries (seen, out) es = Ok (seen', out') ∧
    NoDup (page_index <$> out') ∧ ∀ i, find_entry out' i = find_entry (out ++ es) i.
Proof.
  revert seen out. induction es as [|e es IH]; intros seen out Hnd Hes Hout Hseen; simpl.
  { exists seen, out. by rewrite app_nil_r. }
  inversion Hes as [|?? He Hes']; subst. pose proof (Hseen e He) as Hse.
  unfold in_bounds in He.
  destruct (lookup_lt_is_Some_2 seen (Z.to_nat (page_index e))) as [[] Hb]; [lia|..]; rewrite Hb; simpl.
  - destruct (IH seen out) as (s' & o' & -> & Hnd' & Hf); [done..|].
    exists s', o'. split_and!; [done|done|]. intros i. rewrite Hf, !find_entry_app.
    destruct (find_entry out i) eqn:Hi; [done|]. simpl. rewrite find_entry_None in Hi.
    apply Hse in Hb as (o & Ho & Hoe). rewrite (proj2 (Z.eqb_neq _ _)); [done|].
    rewrite <-Hoe. by apply Hi.
  - assert (page_index e ∉ page_index <$> out) as Hfresh.
    { intros (o & Heq & Ho)%list_elem_of_fmap. rewrite (proj2 Hse) in Hb; [done|]. by exists o. }
    destruct (IH (<[Z.to_nat (page_index e):=true]> seen) (out ++ [e]))
      as (s' & o' & -> & Hnd' & Hf).
    + rewrite fmap_app. apply NoDup_app. split_and!; [done| |apply NoDup_singleton].
      intros x Hx ->%list_elem_of_singleton. done.
    + by rewrite length_insert.
    + rewrite length_insert. apply Forall_app. by split; [|constructor].
    + intros x Hx. rewrite length_insert in Hx. unfold in_bounds in Hx.
      setoid_rewrite elem_of_app. setoid_rewrite list_elem_of_singleton.
      destruct (decide (page_index x = page_index e)) as [Heq|Hne].
      * rewrite Heq, list_lookup_insert_eq by lia. split; [|done]. intros _. eauto.
      * rewrite list_lookup_insert_ne, Hseen by (done || lia). split.
        -- intros (o & ? & ?). eauto.
        -- intros (o & [?| ->] & ?); [eauto|congruence].
    + exists s', o'. split_and!; [done|done|]. intros i. by rewrite Hf, <-app_assoc.
Qed.

Lemma flatten_delta_ok `{Zstd} ram chain root :
  chain_ok ram chain → last chain = Some root → delta root = true →
  ∃ out, flatten_delta chain = Ok out ∧ StronglySorted entry_lt out ∧
    ∀ i, find_entry out i = chain_lookup chain i.
Proof.
  intros Hc Hl Hd. destruct chain as [|child chain]; [done|]. unfold flatten_delta. rewrite Hl, Hd.
  assert (guest_ram_bytes child = ram) as -> by (by inversion Hc as [|?? [Hw <-]]).
  rewrite (chain_ram_matches ram) by done. simpl negb. cbv iota. rewrite delta_manifests_concat.
  set (N := Z.to_nat (ram / PAGE_SIZE_V1)).
  destruct (delta_entries_spec (replicate N false) [] (concat (entries <$> child :: chain)))
    as (s & out & -> & Hnd & Hf); [constructor| |constructor| |].
  { rewrite length_replicate. by apply chain_in_bounds. }
  { intros e He. rewrite lookup_replicate. split; [by intros []|].
    intros (o & Ho & _). by apply elem_of_nil in Ho. }
  simpl rbind. pose proof (sort_by_key_perm page_index out) as Hp.
  eexists. split; [done|]. assert (StronglySorted entry_lt (sort_by_key page_index out)) as Hs.
  { apply strict_of_nodup; [apply sort_by_key_sorted|]. by rewrite (fmap_Permutation _ _ _ Hp). }
  split; [done|]. intros i. rewrite chain_lookup_concat. change (concat _) with ([] ++ concat (entries <$> child :: chain)).
  rewrite <-(Hf i).
  destruct (find_entry out i) as [e|] eqn:He.
  - apply find_entry_Some in He as [He <-]. apply find_entry_nodup; [by apply nodup_of_strict|].
    by rewrite Hp.
  - rewrite find_entry_None in *. intros e Hx. rewrite Hp in Hx. by apply He.
Qed.

(** Flattening a chain of deltas succeeds with a strictly ascending
    list that holds exactly the pages some delta touches, each with the
    entry nearest the child. *)
Theorem flatten_delta_correct `{Zstd} ram chain root :
  chain_ok ram chain → last chain = Some root → delta root = true →
  ∃ out, flatten_delta chain = Ok out ∧ StronglySorted entry_lt out ∧
    ∀ e, e ∈ out ↔ chain_lookup chain (page_index e) = Some e.
Proof.
  intros Hc Hl Hd. destruct (flatten_delta_ok ram chain root) as (out & Hf & Hs & Ho); [done..|].
  exists out. split_and!; [done..|]. intros e. rewrite <-Ho. split.
  - intros He. apply find_entry_nodup; [by apply nodup_of_strict|done].
  - by intros [? _]%find_entry_Some.
Qed.

(** Splitting a chain at a baseline: patching the flattened baseline
    with the flattened deltas above it gives the flattened whole, page by
    page.  (This is why the store may serve a client that already holds the
    baseline with the delta flattening alone.) *)
Theorem flatten_split `{Zstd} ram deltas base droot root :
  chain_ok ram (deltas ++ base) → last deltas = Some droot → delta droot = true →
  last base = Some root → delta root = false →
  ∃ whole top bottom,
    flatten (deltas ++ base) = Ok whole ∧ flatten_delta deltas = Ok top ∧
    flatten base = Ok bottom ∧
    ∀ i, 0 ≤ i < ram / PAGE_SIZE_V1 →
      whole !! Z.to_nat i =
      match find_entry top i with Some e => Some e | None => bottom !! Z.to_nat i end.
Proof.
  intros Hc Hld Hdd Hlb Hdb. pose proof Hc as [Hc1 Hc2]%Forall_app.
  destruct (flatten_ok ram (deltas ++ base) root) as (w & Hw & _ & How); [done| |done|].
  { by rewrite last_app, Hlb. }
  destruct (flatten_delta_ok ram deltas droot) as (t & Ht & _ & Hot); [done..|].
  destruct (flatten_ok ram base root) as (b & Hb & _ & Hob); [done..|].
  exists w, t, b. split_and!; [done..|]. intros i Hi.
  by rewrite How, Hot, Hob, chain_lookup_app by done.
Qed.
(** The reference of an encoded container is its footer. *)
Lemma snapshot_ref_encode `{Blake3} m : snapshot_ref (encode m) = blake3 (encode_body m).
Proof.
  unfold snapshot_ref, encode, saturating_sub, FOOTER_LEN. f_equal.
  pose proof (zlen_nonneg (encode_body m)). rewrite zlen_app, zlen_blake3, Z.max_r by lia.
  rewrite sub_app_l by lia. apply sub_all; lia.
Qed.

(** ** Concrete instances *)

#[local] Existing Instance toy_blake3.
#[local] Existing Instance toy_zstd.

Definition ex_hash (k : Z) : bytes := to_le 32 k.
Definition ex_blob : DeviceBlob := mk_blob 7 false [Byte.x2a] 1.
Definition ex_full_table : list ManifestEntry := [mk_entry 1 (ex_hash 11); mk_entry 0 (ex_hash 10)].
Definition ex_delta_table : list ManifestEntry := [mk_entry 1 (ex_hash 21)].

Lemma ex_entry_ok i k : u64_ok i → entry_ok (mk_entry i (ex_hash k)).
Proof. intros. split; [done|]. unfold hash_ok, ex_hash. simpl. by rewrite length_to_le. Qed.

Lemma ex_full_args : build_args_ok 8192 ex_full_table ex_blob.
Proof.
  split_and!; [done| |done|done]. repeat constructor; apply ex_entry_ok; done.
Qed.
Lemma ex_delta_args : build_args_ok 8192 ex_delta_table ex_blob.
Proof. split_and!; [done| |done|done]. repeat constructor; apply ex_entry_ok; done. Qed.
Lemma ex_parent_ok : hash_ok (ex_hash 99) ∧ ex_hash 99 ≠ zero_hash.
Proof. split; [vm_compute; done|]. intros H. by vm_compute in H. Qed.

Definition ex_full : Manifest :=
  mk_manifest VERSION false None 8192 [mk_entry 0 (ex_hash 10); mk_entry 1 (ex_hash 11)] ex_blob.
Definition ex_delta : Manifest :=
  mk_manifest VERSION true (Some (ex_hash 99)) 8192 ex_delta_table ex_blob.

Lemma ex_full_wf : manifest_wf ex_full.
Proof.
  split; simpl; try done.
  - repeat constructor; apply ex_entry_ok; done.
  - repeat constructor; simpl; unfold entry_lt; simpl; lia.
  - split_and!; [done|done|]. by apply (check_contiguous_ok 0 _ tt).
Qed.
Lemma ex_delta_wf : manifest_wf ex_delta.
Proof.
  split; simpl; try done.
  - repeat constructor; apply ex_entry_ok; done.
  - repeat constructor.
  - split; [|by repeat constructor]. exists (ex_hash 99). split; [done|]. apply ex_parent_ok.
Qed.
Lemma ex_chain_ok : chain_ok 8192 [ex_delta; ex_full].
Proof. constructor; [by split; [apply ex_delta_wf|]|]. constructor; [by split; [apply ex_full_wf|]|done]. Qed.

Lemma new_full_spec_witness :
  build_args_ok 8192 ex_full_table ex_blob ∧ is_ok (new_full 8192 ex_full_table ex_blob) = true ∧
  ∃ m, new_full 8192 ex_full_table ex_blob = Ok m ∧ decode (encode m) = Ok m.
Proof.
  split_and!; [exact ex_full_args|reflexivity|]. eexists. split; [reflexivity|].
  by apply (new_full_spec 8192 ex_full_table ex_blob ex_full_args).
Defined.

Lemma new_delta_spec_witness :
  build_args_ok 8192 ex_delta_table ex_blob ∧
  ∃ m, new_delta (ex_hash 99) 8192 ex_delta_table ex_blob = Ok m ∧ decode (encode m) = Ok m.
Proof.
  split; [exact ex_delta_args|]. eexists. split; [reflexivity|].
  by apply (new_delta_spec (ex_hash 99) 8192 ex_delta_table ex_blob ex_delta_args
    (proj1 ex_parent_ok) (proj2 ex_parent_ok)).
Defined.

Lemma new_delta_zero_parent_unreadable_witness :
  ∃ m e, new_delta zero_hash 8192 ex_delta_table ex_blob = Ok m ∧ decode (encode m) = Err e.
Proof.
  edestruct (new_delta_zero_parent_unreadable zero_hash 8192 ex_delta_table ex_blob)
    as [e He]; [reflexivity|reflexivity|]. do 2 eexists. split; [reflexivity|exact He].
Defined.

Lemma flatten_correct_witness :
  ∃ out, flatten [ex_delta; ex_full] = Ok out ∧ zlen out = 2 ∧
    (λ e, page_hash e) <$> out = [ex_hash 10; ex_hash 21].
Proof.
  destruct (flatten_correct 8192 [ex_delta; ex_full] ex_full) as (out & Hf & Hn & _);
    [exact ex_chain_ok|reflexivity|reflexivity|].
  exists out. split_and!; [done|done|]. vm_compute in Hf. injection Hf as <-. by vm_compute.
Defined.

Lemma flatten_delta_correct_witness :
  ∃ out, flatten_delta [ex_delta] = Ok out ∧ StronglySorted entry_lt out.
Proof.
  destruct (flatten_delta_correct 8192 [ex_delta] ex_delta) as (out & Hf & Hs & _);
    [constructor; [by split; [apply ex_delta_wf|]|done]|reflexivity|reflexivity|]. by exists out.
Defined.

Lemma flatten_split_witness :
  ∃ whole top bottom, flatten [ex_delta; ex_full] = Ok whole ∧
    flatten_delta [ex_delta] = Ok top ∧ flatten [ex_full] = Ok bottom ∧
    whole !! 1%nat = match find_entry top 1 with Some e => Some e | None => bottom !! 1%nat end.
Proof.
  destruct (flatten_split 8192 [ex_delta] [ex_full] ex_delta ex_full) as (w & t & b & Hw & Ht & Hb & H);
    [exact ex_chain_ok|reflexivity..|].
  exists w, t, b. split_and!; [done..|]. apply (H 1). vm_compute. by split.
Defined.
