(* ===== verification/InputLog.v ===== *)
(** * SILG input-log containers
      (crates/snapstore-manifest/src/lib.rs, module [input_log]) *)

From S2P Require Import Prelude Types.

Module InputLog.

Definition MAGIC : bytes := [Byte.x53; Byte.x49; Byte.x4c; Byte.x47].
Definition CONTAINER_VERSION : Z := 1.
Definition HDR_LEN : Z := 24.
Definition FOOTER_LEN : Z := 32.

Record InputLogContainer := mk_container { inner_format_version : Z; payload : bytes }.

Inductive InputLogError :=
  | BadMagic
  | UnsupportedVersion (v : Z)
  | NonZeroFlags (f : Z)
  | ReservedNonZero
  | PayloadLenMismatch (n : Z)
  | FooterMismatch
  | TrailingBytes
  | Truncated.

Definition encode_body (ver : Z) (pl : bytes) : bytes :=
  MAGIC ++ to_le 2 CONTAINER_VERSION ++ to_le 2 0 ++ to_le 4 ver ++ to_le 4 0
  ++ to_le 8 (zlen pl) ++ pl.

Definition encode `{Blake3} (ver : Z) (pl : bytes) : bytes :=
  encode_body ver pl ++ blake3 (encode_body ver pl).

Definition decode `{Blake3} (buf : bytes) : res InputLogError InputLogContainer :=
  bail_if zlen buf <? HDR_LEN + FOOTER_LEN with Truncated in
  let footer_start := zlen buf - FOOTER_LEN in
  let? body := slice 0 footer_start buf in
  let? stored := slice footer_start (zlen buf) buf in
  bail_if negb (bool_decide (blake3 body = stored)) with FooterMismatch in
  let? magic := slice 0 4 buf in
  bail_if negb (bool_decide (magic = MAGIC)) with BadMagic in
  let? b := slice 4 6 buf in let version := from_le b in
  bail_if negb (version =? CONTAINER_VERSION) with UnsupportedVersion version in
  let? b := slice 6 8 buf in let flags := from_le b in
  bail_if negb (flags =? 0) with NonZeroFlags flags in
  let? b := slice 8 12 buf in let inner := from_le b in
  let? b := slice 12 16 buf in let reserved := from_le b in
  bail_if negb (reserved =? 0) with ReservedNonZero in
  let? b := slice 16 24 buf in let payload_len := from_le b in
  let? expected_body := ok_or Truncated (checked_add HDR_LEN payload_len) in
  bail_if negb (zlen body =? expected_body)
    with (if zlen body <? expected_body then PayloadLenMismatch payload_len else TrailingBytes) in
  let? pl := slice HDR_LEN (HDR_LEN + payload_len) buf in
  Ok (mk_container inner pl).

Definition log_id `{Blake3} (buf : bytes) : LogId :=
  blake3 (sub 0 (saturating_sub (zlen buf) FOOTER_LEN) buf).

(** ** The codec *)

Definition container_wf (c : InputLogContainer) : Prop :=
  u32_ok (inner_format_version c) ∧ HDR_LEN + zlen (payload c) ≤ u64_max.

Lemma zlen_log_body ver pl : zlen (encode_body ver pl) = 24 + zlen pl.
Proof. unfold encode_body. assert (zlen MAGIC = 4) by done. zl. Qed.

Lemma log_encode_fields `{Blake3} ver pl :
  let buf := encode ver pl in
  zlen buf = 24 + zlen pl + 32 ∧
  sub 0 (zlen buf - 32) buf = encode_body ver pl ∧
  sub (zlen buf - 32) (zlen buf) buf = blake3 (encode_body ver pl) ∧
  sub 0 4 buf = MAGIC ∧ sub 4 6 buf = to_le 2 CONTAINER_VERSION ∧ sub 6 8 buf = to_le 2 0 ∧
  sub 8 12 buf = to_le 4 ver ∧ sub 12 16 buf = to_le 4 0 ∧ sub 16 24 buf = to_le 8 (zlen pl) ∧
  sub 24 (24 + zlen pl) buf = pl.
Proof.
  pose proof (zlen_log_body ver pl) as Hb. pose proof (zlen_nonneg pl).
  intros buf. assert (zlen buf = 24 + zlen pl + 32) as Hlen by (subst buf; unfold encode; zl).
  assert (zlen MAGIC = 4) by done.
  split; [exact Hlen|]. rewrite Hlen. subst buf. unfold encode.
  split; [by field|]. split; [by field|].
  set (h := blake3 _). assert (zlen h = 32) by apply zlen_blake3. clearbody h.
  unfold encode_body. rewrite <-!app_assoc. split_and!; by field.
Qed.

Lemma log_decode_encode `{Blake3} c :
  container_wf c → decode (encode (inner_format_version c) (payload c)) = Ok c.
Proof.
  intros [Hv Hs]. pose proof (log_encode_fields (inner_format_version c) (payload c)) as Hf.
  cbv zeta in Hf. pose proof (zlen_log_body (inner_format_version c) (payload c)) as Hb.
  pose proof (zlen_nonneg (payload c)).
  unfold decode. set (buf := encode _ _) in *. clearbody buf.
  destruct Hf as (Hlen & F1 & F2 & F3 & F4 & F5 & F6 & F7 & F8 & F9).
  unfold FOOTER_LEN, HDR_LEN, u64_max, u32_ok in *. rewrite (proj2 (Z.ltb_ge _ _)) by lia.
  rewrite !slice_ok by lia. cbn [rbind]. rewrite F1, F2, F3, F4, F5, F6, F7, F8.
  rewrite !from_to_le by first [done|lia]. rewrite !bool_decide_eq_true_2 by done.
  change (negb (CONTAINER_VERSION =? CONTAINER_VERSION)) with false.
  change (negb (0 =? 0)) with false. cbv iota zeta.
  unfold checked_add. rewrite (proj2 (Z.leb_le _ _)) by (unfold u64_max; lia). cbn [ok_or rbind].
  rewrite Hb, Z.eqb_refl. cbn [negb]. rewrite slice_ok by lia. rewrite F9. by destruct c.
Qed.

Lemma log_decode_inv `{Blake3} buf c :
  decode buf = Ok c → container_wf c ∧ encode (inner_format_version c) (payload c) = buf.
Proof.
  unfold decode, FOOTER_LEN, HDR_LEN. intros Hd. rs_inv. b2p.
  repeat match goal with
  | H : slice _ _ _ = Ok ?x |- _ => apply slice_inv in H as (_ & ? & ->)
  | H : checked_add _ _ = Some _ |- _ => apply checked_add_Some in H as [-> ?]
  end.
  pose proof (from_le_sub_bound 16 24 buf ltac:(lia) ltac:(lia)) as [Hl0 _].
  assert (u32_ok (from_le (sub 8 12 buf))) by (apply (from_le_sub_bound 8 12); lia).
  rewrite zlen_sub in * by lia. set (n := from_le (sub 16 24 buf)) in *.
  assert (zlen (sub 24 (24 + n) buf) = n) as Hn by (rewrite zlen_sub; lia).
  split; [split; cbn [inner_format_version payload]; unfold HDR_LEN; [done|lia]|].
  cbn [inner_format_version payload]. unfold encode.
  assert (encode_body (from_le (sub 8 12 buf)) (sub 24 (24 + n) buf) = sub 0 (zlen buf - 32) buf) as ->.
  { unfold encode_body. rewrite Hn.
    rewrite (to_le_sub 2 CONTAINER_VERSION 4 6 buf), (to_le_sub 2 0 6 8 buf),
      (to_le_sub 4 (from_le (sub 8 12 buf)) 8 12 buf), (to_le_sub 4 0 12 16 buf),
      (to_le_sub 8 n 16 24 buf) by first [done|lia].
    replace MAGIC with (sub 0 4 buf). rewrite <-!sub_split by lia. f_equal. lia. }
  rewrite Hb0, <-sub_split by lia. by apply sub_all.
Qed.

(** The input-log codec is a canonical bijection: [decode] accepts
    exactly the encodings of containers with a 32-bit inner version and a
    representable length, and returns what was encoded. *)
Theorem decode_iff_encode_log `{Blake3} buf c :
  decode buf = Ok c ↔ container_wf c ∧ buf = encode (inner_format_version c) (payload c).
Proof.
  split; [|by intros [Hw ->]; apply log_decode_encode].
  intros [Hw He]%log_decode_inv. by split.
Qed.

(** The log id of an encoded container is its footer. *)
Lemma log_id_encode `{Blake3} ver pl : log_id (encode ver pl) = blake3 (encode_body ver pl).
Proof.
  unfold log_id, encode, saturating_sub, FOOTER_LEN. f_equal.
  pose proof (zlen_nonneg (encode_body ver pl)). rewrite zlen_app, zlen_blake3, Z.max_r by lia.
  rewrite sub_app_l by lia. apply sub_all; lia.
Qed.

End InputLog.
