(* ===== verification/LocalProto.v ===== *)
(** * Page-channel wire codec (crates/snapstore-localpath/src/proto.rs)

    Pure datagram codec of the local page channel.  [debug_assert!]s are
    not part of the release build and are not modelled. *)

From S2P Require Import Prelude Types.

Module LocalProto.

(** ** Constants *)
Definition PC_MAGIC : Z := 0x50434831.
Definition HDR_SIZE : Z := 24.
Definition GET_REQ_SIZE : Z := 40.
Definition PUT_OK_SIZE : Z := 40.
Definition ERR_PREFIX_SIZE : Z := 8.
Definition PUT_BATCH_MAX_PAGES : Z := 8192.
Definition GET_BATCH_MAX_PER_DATAGRAM : Z := 1500.
Definition DATAGRAM_MAX : Z := 64 * 1024.

(** ** Message kinds and error codes *)
Inductive MsgKind := PutBatch | PutBatchOk | GetBatch | GetBatchData | Error.
#[global] Instance MsgKind_eq_dec : EqDecision MsgKind.
Proof. solve_decision. Defined.

Definition kind_as_u16 (k : MsgKind) : Z :=
  match k with PutBatch => 1 | PutBatchOk => 2 | GetBatch => 3 | GetBatchData => 4 | Error => 5 end.

Definition kind_from_u16 (v : Z) : option MsgKind :=
  if v =? 1 then Some PutBatch else if v =? 2 then Some PutBatchOk
  else if v =? 3 then Some GetBatch else if v =? 4 then Some GetBatchData
  else if v =? 5 then Some Error else None.

Inductive ErrorCode := NotFound | Invalid | Overload.

Definition code_as_u32 (c : ErrorCode) : Z :=
  match c with NotFound => 1 | Invalid => 2 | Overload => 3 end.

Definition code_from_u32 (v : Z) : option ErrorCode :=
  if v =? 1 then Some NotFound else if v =? 2 then Some Invalid
  else if v =? 3 then Some Overload else None.

(** ** Wire structs *)
Record PcHdr := mk_hdr { msg : MsgKind; flags : Z; seq : Z; count : Z }.
Record PutOkBody := mk_put_ok { pages_new : Z; pages_deduped : Z; batch_blake3 : bytes }.
Record GetReq := mk_req { req_hash : PageHash; dst_slot : Z }.
Record ErrBody := mk_err { code : ErrorCode; detail : bytes }.

Inductive WireError :=
  | Truncated (n : Z)
  | BadMagic (m : Z)
  | UnknownMsg (v : Z)
  | NonZeroFlags (f : Z)
  | NonZeroReserved (r : Z)
  | CountOutOfRange (ctx : string) (count : Z)
  | BodyLenMismatch (expected got : Z)
  | UnknownErrorCode (c : Z)
  | DetailNotUtf8
  | DetailTooLong (n : Z).

(** [std::str::from_utf8]: well-formed UTF-8 (no overlong forms, no
    surrogates, nothing above U+10FFFF). *)
Definition in_range (lo hi : Z) (b : Init.Byte.byte) : bool :=
  (lo <=? byte.unsigned b) && (byte.unsigned b <=? hi).
Definition is_cont := in_range 0x80 0xBF.

Fixpoint utf8_valid (s : bytes) : bool :=
  match s with
  | [] => true
  | a :: s1 =>
      if in_range 0x00 0x7F a then utf8_valid s1 else
      match s1 with
      | [] => false
      | b :: s2 =>
          if in_range 0xC2 0xDF a && is_cont b then utf8_valid s2 else
          match s2 with
          | [] => false
          | c :: s3 =>
              if ((in_range 0xE0 0xE0 a && in_range 0xA0 0xBF b)
                  || (in_range 0xE1 0xEC a && is_cont b)
                  || (in_range 0xED 0xED a && in_range 0x80 0x9F b)
                  || (in_range 0xEE 0xEF a && is_cont b)) && is_cont c
              then utf8_valid s3 else
              match s3 with
              | [] => false
              | d :: s4 =>
                  ((in_range 0xF0 0xF0 a && in_range 0x90 0xBF b)
                   || (in_range 0xF1 0xF3 a && is_cont b)
                   || (in_range 0xF4 0xF4 a && in_range 0x80 0x8F b))
                  && is_cont c && is_cont d && utf8_valid s4
              end
          end
      end
  end.

(** ** Header codec *)
Definition put_hdr (h : PcHdr) : bytes :=
  to_le 4 PC_MAGIC ++ to_le 2 (kind_as_u16 (msg h)) ++ to_le 2 (flags h)
  ++ to_le 8 (seq h) ++ to_le 4 (count h) ++ to_le 4 0.

Definition decode_hdr (datagram : bytes) : res WireError (PcHdr * bytes) :=
  bail_if zlen datagram <? HDR_SIZE with Truncated (zlen datagram) in
  let? b := slice 0 4 datagram in let magic := from_le b in
  bail_if negb (magic =? PC_MAGIC) with BadMagic magic in
  let? b := slice 4 6 datagram in let msg_raw := from_le b in
  let? kind := ok_or (UnknownMsg msg_raw) (kind_from_u16 msg_raw) in
  let? b := slice 6 8 datagram in let fl := from_le b in
  bail_if negb (fl =? 0) with NonZeroFlags fl in
  let? b := slice 8 16 datagram in let sq := from_le b in
  let? b := slice 16 20 datagram in let cnt := from_le b in
  let? b := slice 20 24 datagram in let reserved := from_le b in
  bail_if negb (reserved =? 0) with NonZeroReserved reserved in
  let? body := slice HDR_SIZE (zlen datagram) datagram in
  Ok (mk_hdr kind fl sq cnt, body).

(** ** Message encoders *)
Definition encode_put_batch (sq cnt : Z) : bytes := put_hdr (mk_hdr PutBatch 0 sq cnt).

Definition encode_put_batch_ok (sq cnt : Z) (body : PutOkBody) : bytes :=
  put_hdr (mk_hdr PutBatchOk 0 sq cnt)
  ++ to_le 4 (pages_new body) ++ to_le 4 (pages_deduped body) ++ batch_blake3 body.

Definition encode_req (r : GetReq) : bytes := req_hash r ++ to_le 8 (dst_slot r).

Definition encode_get_batch (sq : Z) (reqs : list GetReq) : bytes :=
  put_hdr (mk_hdr GetBatch 0 sq (zlen reqs mod 2 ^ 32)) ++ concat (encode_req <$> reqs).

(** [buf[4..6].copy_from_slice(..)] on the GET_BATCH encoding. *)
Definition encode_get_batch_data (sq : Z) (reqs : list GetReq) : bytes :=
  let buf := encode_get_batch sq reqs in
  sub 0 4 buf ++ to_le 2 (kind_as_u16 GetBatchData) ++ sub 6 (zlen buf) buf.

Definition encode_error (sq : Z) (c : ErrorCode) (det : bytes) : bytes :=
  put_hdr (mk_hdr Error 0 sq 0)
  ++ to_le 4 (code_as_u32 c) ++ to_le 4 (zlen det mod 2 ^ 32) ++ det.

(** ** Body decoders *)
Definition decode_put_batch (h : PcHdr) (body : bytes) : res WireError Z :=
  bail_if (count h =? 0) || (PUT_BATCH_MAX_PAGES <? count h)
    with CountOutOfRange "PUT_BATCH" (count h) in
  bail_if negb (bool_decide (body = [])) with BodyLenMismatch 0 (zlen body) in
  Ok (count h).

Definition decode_put_batch_ok (h : PcHdr) (body : bytes) : res WireError PutOkBody :=
  bail_if negb (zlen body =? PUT_OK_SIZE) with BodyLenMismatch PUT_OK_SIZE (zlen body) in
  let? a := slice 0 4 body in
  let? b := slice 4 8 body in
  let? c := slice 8 40 body in
  Ok (mk_put_ok (from_le a) (from_le b) c).

(** [for chunk in body.as_chunks::<40>().0]. *)
Fixpoint decode_chunks (n : nat) (body : bytes) : res WireError (list GetReq) :=
  match n with
  | O => Ok []
  | S n' =>
      let? h := slice 0 32 body in
      let? d := slice 32 40 body in
      let? rest := decode_chunks n' (drop 40 body) in
      Ok (mk_req h (from_le d) :: rest)
  end.

Definition decode_get_reqs (h : PcHdr) (body : bytes) (ctx : string)
    : res WireError (list GetReq) :=
  bail_if (count h =? 0) || (GET_BATCH_MAX_PER_DATAGRAM <? count h)
    with CountOutOfRange ctx (count h) in
  let expected := count h * GET_REQ_SIZE in
  bail_if negb (zlen body =? expected) with BodyLenMismatch expected (zlen body) in
  decode_chunks (Z.to_nat (zlen body / GET_REQ_SIZE)) body.

Definition decode_get_batch (h : PcHdr) (body : bytes) := decode_get_reqs h body "GET_BATCH".
Definition decode_get_batch_data (h : PcHdr) (body : bytes) := decode_get_reqs h body "GET_BATCH_DATA".

Definition decode_error (h : PcHdr) (body : bytes) : res WireError ErrBody :=
  bail_if zlen body <? ERR_PREFIX_SIZE with BodyLenMismatch ERR_PREFIX_SIZE (zlen body) in
  let? b := slice 0 4 body in let code_raw := from_le b in
  let? c := ok_or (UnknownErrorCode code_raw) (code_from_u32 code_raw) in
  let? b := slice 4 8 body in let detail_len := from_le b in
  bail_if DATAGRAM_MAX - HDR_SIZE - ERR_PREFIX_SIZE <? detail_len
    with DetailTooLong detail_len in
  let? detail_bytes := slice ERR_PREFIX_SIZE (zlen body) body in
  bail_if negb (zlen detail_bytes =? detail_len)
    with BodyLenMismatch (ERR_PREFIX_SIZE + detail_len) (zlen body) in
  bail_if negb (utf8_valid detail_bytes) with DetailNotUtf8 in
  Ok (mk_err c detail_bytes).

(** The hash carried in PUT_BATCH_OK: one hasher updated with each page
    hash in turn. *)
Definition batch_cross_check `{Blake3} (hashes : list PageHash) : bytes :=
  blake3 (fold_left (λ fed h, fed ++ h) hashes []).

(** ** Messages

    The five datagrams as values, with the dispatch on [hdr.msg] that the
    body decoders are documented to follow. *)
Inductive message :=
  | MPutBatch (sq cnt : Z)
  | MPutBatchOk (sq cnt : Z) (body : PutOkBody)
  | MGetBatch (sq : Z) (reqs : list GetReq)
  | MGetBatchData (sq : Z) (reqs : list GetReq)
  | MError (sq : Z) (body : ErrBody).

Definition encode_message (m : message) : bytes :=
  match m with
  | MPutBatch sq cnt => encode_put_batch sq cnt
  | MPutBatchOk sq cnt b => encode_put_batch_ok sq cnt b
  | MGetBatch sq reqs => encode_get_batch sq reqs
  | MGetBatchData sq reqs => encode_get_batch_data sq reqs
  | MError sq b => encode_error sq (code b) (detail b)
  end.

Definition decode_message (d : bytes) : res WireError message :=
  let? ' (h, body) := decode_hdr d in
  match msg h with
  | PutBatch => let? n := decode_put_batch h body in Ok (MPutBatch (seq h) n)
  | PutBatchOk => let? b := decode_put_batch_ok h body in Ok (MPutBatchOk (seq h) (count h) b)
  | GetBatch => let? rs := decode_get_batch h body in Ok (MGetBatch (seq h) rs)
  | GetBatchData => let? rs := decode_get_batch_data h body in Ok (MGetBatchData (seq h) rs)
  | Error => let? b := decode_error h body in Ok (MError (seq h) b)
  end.

Definition req_ok (r : GetReq) : Prop := hash_ok (req_hash r) ∧ u64_ok (dst_slot r).
Definition reqs_ok (rs : list GetReq) : Prop :=
  Forall req_ok rs ∧ 1 ≤ zlen rs ≤ GET_BATCH_MAX_PER_DATAGRAM.

(** The messages a correct peer may send. *)
Definition message_ok (m : message) : Prop :=
  match m with
  | MPutBatch sq cnt => u64_ok sq ∧ 1 ≤ cnt ≤ PUT_BATCH_MAX_PAGES
  | MPutBatchOk sq cnt b => u64_ok sq ∧ u32_ok cnt ∧ u32_ok (pages_new b)
      ∧ u32_ok (pages_deduped b) ∧ zlen (batch_blake3 b) = 32
  | MGetBatch sq rs | MGetBatchData sq rs => u64_ok sq ∧ reqs_ok rs
  | MError sq b => u64_ok sq ∧ utf8_valid (detail b) = true
      ∧ zlen (detail b) ≤ DATAGRAM_MAX - HDR_SIZE - ERR_PREFIX_SIZE
  end.

Lemma kind_from_as k : kind_from_u16 (kind_as_u16 k) = Some k.
Proof. by destruct k. Qed.
Lemma kind_as_from v k : kind_from_u16 v = Some k → kind_as_u16 k = v.
Proof. unfold kind_from_u16. intros. repeat case_match; b2p; by simplify_eq. Qed.
Lemma code_from_as c : code_from_u32 (code_as_u32 c) = Some c.
Proof. by destruct c. Qed.
Lemma kind_u16 k : 0 ≤ kind_as_u16 k < 2 ^ (Z.of_nat 2 * 8).
Proof. by destruct k. Qed.
Lemma code_u32 c : 0 ≤ code_as_u32 c < 2 ^ (Z.of_nat 4 * 8).
Proof. by destruct c. Qed.

Lemma zlen_put_hdr h : zlen (put_hdr h) = 24.
Proof. unfold put_hdr. zl. Qed.
#[local] Hint Rewrite zlen_put_hdr : slice.

Lemma decode_put_hdr k sq cnt body :
  u64_ok sq → u32_ok cnt →
  decode_hdr (put_hdr (mk_hdr k 0 sq cnt) ++ body) = Ok (mk_hdr k 0 sq cnt, body).
Proof.
  intros Hsq Hcnt. unfold decode_hdr, HDR_SIZE. pose proof (zlen_nonneg body).
  rewrite (proj2 (Z.ltb_ge _ _)) by zl. set (d := put_hdr _ ++ body).
  assert (zlen d = 24 + zlen body) as Hd by (subst d; zl).
  assert (sub 24 (24 + zlen body) d = body) as Hbody by (subst d; by field).
  assert (sub 0 4 d = to_le 4 PC_MAGIC ∧ sub 4 6 d = to_le 2 (kind_as_u16 k) ∧
    sub 6 8 d = to_le 2 0 ∧ sub 8 16 d = to_le 8 sq ∧ sub 16 20 d = to_le 4 cnt ∧
    sub 20 24 d = to_le 4 0) as (F1 & F2 & F3 & F4 & F5 & F6).
  { subst d. unfold put_hdr. rewrite <-!app_assoc. split_and!; by field. }
  rewrite !slice_ok by lia. cbn [rbind]. rewrite F1, F2, F3, F4, F5, F6, Hd, Hbody.
  rewrite !from_to_le by first [done|apply kind_u16].
  change (negb (PC_MAGIC =? PC_MAGIC)) with false. cbv iota zeta.
  by rewrite kind_from_as.
Qed.

Lemma decode_hdr_inv d h body :
  decode_hdr d = Ok (h, body) →
  d = put_hdr h ++ body ∧ flags h = 0 ∧ u64_ok (seq h) ∧ u32_ok (count h).
Proof.
  unfold decode_hdr, HDR_SIZE. intros Hd. rs_inv. b2p.
  repeat match goal with
  | H : slice _ _ _ = Ok ?x |- _ => apply slice_inv in H as (_ & ? & ->)
  end. apply kind_as_from in Hc1. cbn [flags seq count].
  split_and!; [|done|apply (from_le_sub_bound 8 16); lia|apply (from_le_sub_bound 16 20); lia].
  unfold put_hdr. cbn [msg flags seq count]. rewrite Hc1.
  rewrite (to_le_sub 4 PC_MAGIC 0 4 d), (to_le_sub 2 (from_le (sub 4 6 d)) 4 6 d),
    (to_le_sub 2 (from_le (sub 6 8 d)) 6 8 d), (to_le_sub 8 (from_le (sub 8 16 d)) 8 16 d),
    (to_le_sub 4 (from_le (sub 16 20 d)) 16 20 d), (to_le_sub 4 0 20 24 d) by first [done|lia].
  rewrite <-!app_assoc, <-!sub_split by lia. by rewrite sub_all.
Qed.

Lemma zlen_encode_req r : req_ok r → zlen (encode_req r) = 40.
Proof. intros [Hh%hash_ok_zlen _]. unfold encode_req. zl. Qed.

Lemma zlen_encode_reqs rs : Forall req_ok rs → zlen (concat (encode_req <$> rs)) = 40 * zlen rs.
Proof.
  induction 1 as [|r rs Hr _ IH]; csimpl; [done|]. rewrite zlen_app, IH, zlen_encode_req, zlen_cons by done.
  lia.
Qed.

Lemma decode_encode_chunks rs :
  Forall req_ok rs → decode_chunks (length rs) (concat (encode_req <$> rs)) = Ok rs.
Proof.
  induction 1 as [|r rs Hr _ IH]; [done|]. csimpl. pose proof (zlen_encode_req r Hr) as Hl.
  destruct Hr as [Hh%hash_ok_zlen Hd].
  set (T := concat (encode_req <$> rs)) in *. pose proof (zlen_nonneg T).
  replace (drop 40 (encode_req r ++ T)) with T
    by (unfold zlen in Hl; rewrite drop_app_length'; [done|lia]).
  rewrite IH. unfold encode_req in *. rewrite <-app_assoc. rewrite !slice_ok by zl. cbn [rbind].
  rewrite (sub_app_l 0 32), (sub_all 0 32) by zl. rewrite sub_app_exact by zl.
  rewrite from_to_le by done. by destruct r.
Qed.

Lemma decode_chunks_inv n body rs :
  zlen body = 40 * Z.of_nat n → decode_chunks n body = Ok rs →
  length rs = n ∧ Forall req_ok rs ∧ body = concat (encode_req <$> rs).
Proof.
  revert body rs. induction n as [|n IH]; intros body rs Hl Hd; simpl in Hd.
  - rs_inv. by rewrite (zlen_0_nil body).
  - rs_inv. apply slice_inv in Hc as (_ & ? & ->). apply slice_inv in Hc0 as (_ & ? & ->).
    assert (zlen (drop 40 body) = 40 * Z.of_nat n) as Hl'
      by (unfold zlen in *; rewrite length_drop; lia).
    destruct (IH _ _ Hl' Hc1) as (Hlen & Hok & Hb). csimpl. split_and!; [by rewrite Hlen| |].
    + constructor; [|done]. split; cbn [req_hash dst_slot].
      * apply zlen_hash_ok. rewrite zlen_sub; lia.
      * apply (from_le_sub_bound 32 40); lia.
    + rewrite <-Hb. unfold encode_req. cbn [req_hash dst_slot].
      rewrite (to_le_sub 8 _ 32 40 body) by first [done|lia].
      rewrite <-sub_split, sub_take by lia. symmetry. apply take_drop.
Qed.

(** Patching the kind field of the GET_BATCH encoding gives the encoding
    with the other kind. *)
Lemma encode_get_batch_data_eq sq rs :
  encode_get_batch_data sq rs =
  put_hdr (mk_hdr GetBatchData 0 sq (zlen rs mod 2 ^ 32)) ++ concat (encode_req <$> rs).
Proof.
  unfold encode_get_batch_data, encode_get_batch, put_hdr. cbn [msg flags seq count].
  rewrite <-!app_assoc. set (T := to_le 2 0 ++ _). pose proof (zlen_nonneg T).
  rewrite (sub_app_l 0 4), (sub_all 0 4) by zl. rewrite (sub_app_r 6), sub_app_r by zl.
  by rewrite sub_all by zl.
Qed.

Lemma decode_get_reqs_ok k sq rs ctx :
  reqs_ok rs →
  decode_get_reqs (mk_hdr k 0 sq (zlen rs)) (concat (encode_req <$> rs)) ctx = Ok rs.
Proof.
  intros [Hrs Hn]. unfold decode_get_reqs. cbn [count]. unfold GET_BATCH_MAX_PER_DATAGRAM, GET_REQ_SIZE in *.
  rewrite (proj2 (Z.eqb_neq _ _)), (proj2 (Z.ltb_ge _ _)) by lia. cbn [orb].
  rewrite zlen_encode_reqs by done. rewrite (proj2 (Z.eqb_eq _ _)) by lia. cbn [negb].
  replace (Z.to_nat (40 * zlen rs / 40)) with (length rs); [by apply decode_encode_chunks|].
  rewrite Z.mul_comm, Z.div_mul by lia. unfold zlen. lia.
Qed.

Lemma decode_get_reqs_inv h body ctx rs :
  decode_get_reqs h body ctx = Ok rs →
  reqs_ok rs ∧ count h = zlen rs ∧ body = concat (encode_req <$> rs).
Proof.
  unfold decode_get_reqs, GET_REQ_SIZE. intros Hd. rs_inv. b2p.
  rewrite Hb0, Z.div_mul in Hd by lia. pose proof (zlen_nonneg body).
  apply decode_chunks_inv in Hd as (Hl & Hok & ->); [|lia].
  assert (count h = zlen rs) as Hc by (unfold zlen; lia).
  unfold reqs_ok. split_and!; [done|lia|lia|done|done].
Qed.

Lemma decode_encode_message m : message_ok m → decode_message (encode_message m) = Ok m.
Proof.
  destruct m as [sq cnt|sq cnt b|sq rs|sq rs|sq b]; cbn [message_ok encode_message].
  - intros [Hsq Hc]. unfold decode_message, encode_put_batch. unfold PUT_BATCH_MAX_PAGES in Hc.
    rewrite <-(app_nil_r (put_hdr _)), decode_put_hdr by (done || unfold u32_ok; lia). simpl.
    unfold decode_put_batch, PUT_BATCH_MAX_PAGES. cbn [count].
    by rewrite (proj2 (Z.eqb_neq _ _)), (proj2 (Z.ltb_ge _ _)) by lia.
  - intros (Hsq & Hc & Hn & Hd & Hb). unfold decode_message, encode_put_batch_ok.
    rewrite decode_put_hdr by done. simpl. unfold decode_put_batch_ok, PUT_OK_SIZE.
    rewrite (proj2 (Z.eqb_eq _ _)) by zl. cbn [negb]. rewrite !slice_ok by zl. cbn [rbind].
    rewrite (sub_app_l 0 4), (sub_all 0 4) by zl. rewrite (sub_app_exact 4 8) by zl.
    rewrite !(sub_app_r 8 40) by zl. rewrite (sub_app_r (8 - _)) by zl.
    rewrite sub_all by zl. rewrite !from_to_le by done. by destruct b.
  - intros [Hsq Hrs]. unfold decode_message, encode_get_batch.
    assert (0 ≤ zlen rs < 2 ^ 32) as Hlen by (destruct Hrs as [_ ?]; unfold GET_BATCH_MAX_PER_DATAGRAM in *; lia).
    rewrite Z.mod_small, decode_put_hdr by done. cbn [rbind msg seq].
    unfold decode_get_batch, decode_get_batch_data. by rewrite decode_get_reqs_ok.
  - intros [Hsq Hrs]. unfold decode_message. rewrite encode_get_batch_data_eq.
    assert (0 ≤ zlen rs < 2 ^ 32) as Hlen by (destruct Hrs as [_ ?]; unfold GET_BATCH_MAX_PER_DATAGRAM in *; lia).
    rewrite Z.mod_small, decode_put_hdr by done. cbn [rbind msg seq].
    unfold decode_get_batch, decode_get_batch_data. by rewrite decode_get_reqs_ok.
  - intros (Hsq & Hu & Hl). unfold decode_message, encode_error. rewrite decode_put_hdr by done. cbn.
    pose proof (zlen_nonneg (detail b)). unfold decode_error.
    unfold DATAGRAM_MAX, HDR_SIZE, ERR_PREFIX_SIZE in *.
    rewrite Z.mod_small by lia. rewrite (proj2 (Z.ltb_ge _ _)) by zl. rewrite !slice_ok by zl. cbn [rbind].
    rewrite (sub_app_l 0 4), (sub_all 0 4) by zl. rewrite (sub_app_exact 4 8) by zl.
    rewrite (sub_app_r 8), (sub_app_r (8 - _)), (sub_all (8 - _ - _)) by zl.
    rewrite !from_to_le by (apply code_u32 || lia). rewrite code_from_as. cbn [ok_or rbind].
    rewrite (proj2 (Z.ltb_ge _ _)) by lia. rewrite Z.eqb_refl, Hu. by destruct b.
Qed.

(** Page-channel round trip: every datagram a correct peer encodes
    (batch counts within the protocol's caps, error details of valid UTF-8
    that fit the datagram) decodes to the message that was sent. *)
Theorem message_roundtrip m : message_ok m → decode_message (encode_message m) = Ok m.
Proof. apply decode_encode_message. Qed.

(** C33. Conversely, whatever datagram the decoders accept is a legal
    message, and except for error datagrams (whose header count is ignored)
    it is, byte for byte, the encoding of that message. *)
Theorem message_canonical d m :
  decode_message d = Ok m →
  message_ok m ∧ ((∀ sq b, m ≠ MError sq b) → d = encode_message m).
Proof.
  unfold decode_message. intros Hd. rs_inv. destruct a as [h body].
  apply decode_hdr_inv in Hc as (-> & Hf & Hsq & Hcnt). destruct h as [k f sq cnt].
  cbn [msg seq count flags] in *. subst f. destruct k; rs_inv.
  - unfold decode_put_batch, PUT_BATCH_MAX_PAGES in Hc. cbn [count] in Hc. rs_inv. b2p. subst.
    split; [split; [done|unfold PUT_BATCH_MAX_PAGES, u32_ok in *; lia]|]. intros _. apply app_nil_r.
  - unfold decode_put_batch_ok, PUT_OK_SIZE in Hc. rs_inv. b2p.
    repeat match goal with
    | H : slice _ _ _ = Ok ?x |- _ => apply slice_inv in H as (_ & ? & ->)
    end. simpl. split; [split_and!; [done|done| | |]|].
    + apply (from_le_sub_bound 0 4); lia.
    + apply (from_le_sub_bound 4 8); lia.
    + rewrite zlen_sub; lia.
    + intros _. unfold encode_put_batch_ok. cbn [pages_new pages_deduped batch_blake3].
      rewrite (to_le_sub 4 _ 0 4 body), (to_le_sub 4 _ 4 8 body), <-!sub_split by (done || lia).
      by rewrite sub_all by lia.
  - apply decode_get_reqs_inv in Hc as (Hok & Hn & ->). cbn [count] in Hn. subst cnt. split; [by split|].
    intros _. cbn. unfold encode_get_batch. by rewrite Z.mod_small.
  - apply decode_get_reqs_inv in Hc as (Hok & Hn & ->). cbn [count] in Hn. subst cnt. split; [by split|].
    intros _. cbn. by rewrite encode_get_batch_data_eq, Z.mod_small.
  - split; [|intros Hne; by destruct (Hne sq a)]. unfold decode_error, ERR_PREFIX_SIZE in Hc. rs_inv. b2p.
    repeat match goal with
    | H : slice _ _ _ = Ok ?x |- _ => apply slice_inv in H as (_ & ? & ->)
    end. simpl. split_and!; [done|done|]. unfold ERR_PREFIX_SIZE. lia.
Qed.

Lemma message_roundtrip_witness :
  message_ok (MGetBatchData 7 [mk_req (to_le 32 5) 3]) ∧
  decode_message (encode_message (MGetBatchData 7 [mk_req (to_le 32 5) 3]))
    = Ok (MGetBatchData 7 [mk_req (to_le 32 5) 3]).
Proof.
  assert (message_ok (MGetBatchData 7 [mk_req (to_le 32 5) 3])) as H.
  { split; [done|]. split; [|done]. constructor; [|constructor]. split; [apply length_to_le|done]. }
  split; [exact H|]. by apply message_roundtrip.
Defined.

Lemma message_canonical_witness :
  decode_message (encode_put_batch 9 4) = Ok (MPutBatch 9 4) ∧ message_ok (MPutBatch 9 4).
Proof.
  assert (decode_message (encode_put_batch 9 4) = Ok (MPutBatch 9 4)) as H by by vm_compute.
  split; [exact H|]. by apply (message_canonical (encode_put_batch 9 4)).
Defined.
End LocalProto.
