(* ===== verification/Fs.v ===== *)
(** * The file system the store runs on

    A small executable model of the POSIX calls the sources make through
    [std::fs]: a flat directory of named inodes, byte contents, a durable
    image per inode and for the directory ([fdatasync] / directory
    [fsync]), and an oracle of I/O faults.  A [File] is a handle: an inode
    and a cursor; unlinking a name leaves open handles readable.  Every
    call consumes one oracle entry; [None] (or an exhausted oracle) means
    success, [Some k] means the call fails, a write after its first [k]
    bytes have reached the file. *)

From S2P Require Import Prelude.

(** ** Stateful fallible computations *)

Definition M (S E A : Type) : Type := S → res E A * S.

Definition iret {S E A} (a : A) : M S E A := λ s, (Ok a, s).
Definition ierr {S E A} (e : E) : M S E A := λ s, (Err e, s).
Definition ipanic {S E A} : M S E A := λ s, (Panic, s).
Definition ibind {S E A B} (c : M S E A) (k : A → M S E B) : M S E B := λ s,
  match c s with
  | (Ok a, s') => k a s'
  | (Err e, s') => (Err e, s')
  | (Panic, s') => (Panic, s')
  end.
Definition iof {S E A} (r : res E A) : M S E A := λ s, (r, s).
Definition iget {S E} : M S E S := λ s, (Ok s, s).
Definition iput {S E} (s' : S) : M S E unit := λ _, (Ok tt, s').
Definition imod {S E} (f : S → S) : M S E unit := λ s, (Ok tt, f s).
Definition imap_err {S E F A} (f : E → F) (c : M S E A) : M S F A := λ s,
  let '(r, s') := c s in (map_err f r, s').
(** Run a computation and hand its outcome over as a value. *)
Definition itry {S E F A} (c : M S E A) : M S F (res E A) := λ s,
  let '(r, s') := c s in
  match r with Panic => (Panic, s') | _ => (Ok r, s') end.
(** Run a computation on a component of the state. *)
Definition zoom {S T E A} (get : S → T) (put : T → S → S) (c : M T E A) : M S E A := λ s,
  let '(r, t) := c (get s) in (r, put t s).

Notation "'let!' x ':=' c 'in' k" := (ibind c (λ x, k))
  (at level 10, x name, c at level 100, k at level 200) : rust_scope.
Notation "'let!' ' p ':=' c 'in' k" := (ibind c (λ x, match x with p => k end))
  (at level 10, p strict pattern, c at level 100, k at level 200) : rust_scope.
Notation "c ';!' k" := (ibind c (λ _, k)) (at level 60, right associativity) : rust_scope.
Notation "'fail_if' b 'with' e 'in' k" := (if b then ierr e else k)
  (at level 10, b at level 100, e at level 100, k at level 200) : rust_scope.

(** [for x in l { body }]. *)
Fixpoint ifor {S E A} (l : list A) (body : A → M S E unit) : M S E unit :=
  match l with
  | [] => iret tt
  | x :: rest => body x ;! ifor rest body
  end.

(** ** State *)

Inductive io_error := ENotFound | EAlreadyExists | EUnexpectedEof | EOther.
#[global] Instance io_error_eq_dec : EqDecision io_error.
Proof. solve_decision. Defined.

Abbreviation ino := N.

Record file := mk_file { f_data : bytes; f_durable : bytes }.

Record fs := mk_fs {
  fs_dir : gmap string ino;
  fs_ddir : gmap string ino;
  fs_files : gmap ino file;
  fs_next : ino;
  fs_faults : list (option nat);
}.

Record handle := mk_handle { h_ino : ino; h_pos : Z }.

Definition set_dir d s := mk_fs d (fs_ddir s) (fs_files s) (fs_next s) (fs_faults s).
Definition set_ddir d s := mk_fs (fs_dir s) d (fs_files s) (fs_next s) (fs_faults s).
Definition set_files m s := mk_fs (fs_dir s) (fs_ddir s) m (fs_next s) (fs_faults s).
Definition set_faults l s := mk_fs (fs_dir s) (fs_ddir s) (fs_files s) (fs_next s) l.

Abbreviation io A := (M fs io_error A).

(** Current contents of an inode, and of a name. *)
Definition content (s : fs) (i : ino) : bytes :=
  match fs_files s !! i with Some f => f_data f | None => [] end.
Definition durable (s : fs) (i : ino) : bytes :=
  match fs_files s !! i with Some f => f_durable f | None => [] end.
Definition named (s : fs) (p : string) : option bytes := content s <$> fs_dir s !! p.

Definition set_content (i : ino) (b : bytes) (s : fs) : fs :=
  set_files (<[i := mk_file b (durable s i)]> (fs_files s)) s.

(** ** Calls *)

(** Consume one oracle entry. *)
Definition tick : M fs io_error (option nat) := λ s,
  match fs_faults s with
  | [] => (Ok None, s)
  | x :: rest => (Ok x, set_faults rest s)
  end.

Definition syscall {A} (c : io A) : io A :=
  let! f := tick in
  match f with None => c | Some _ => ierr EOther end.

(** [OpenOptions::open] without [create]: the name must exist. *)
Definition open_existing (p : string) : io handle :=
  syscall (λ s, match fs_dir s !! p with
                | Some i => (Ok (mk_handle i 0), s)
                | None => (Err ENotFound, s) end).

Definition fresh_file (p : string) (s : fs) : fs :=
  let i := fs_next s in
  mk_fs (<[p := i]> (fs_dir s)) (fs_ddir s) (<[i := mk_file [] []]> (fs_files s))
        (N.succ i) (fs_faults s).

(** [create_new(true)]. *)
Definition open_create_new (p : string) : io handle :=
  syscall (λ s, match fs_dir s !! p with
                | Some _ => (Err EAlreadyExists, s)
                | None => (Ok (mk_handle (fs_next s) 0), fresh_file p s) end).

(** [create(true).truncate(true)]. *)
Definition open_truncate (p : string) : io handle :=
  syscall (λ s, match fs_dir s !! p with
                | Some i => (Ok (mk_handle i 0), set_content i [] s)
                | None => (Ok (mk_handle (fs_next s) 0), fresh_file p s) end).

(** Writing [b] at [pos]: overwrite, extend, zero-fill a gap. *)
Definition write_bytes (old : bytes) (pos : Z) (b : bytes) : bytes :=
  let n := Z.to_nat pos in
  take n old ++ zeros (n - length old) ++ b ++ drop (n + length b) old.

(** [write_all] through a handle's cursor.  The cursor moves with the bytes
    that reached the file, also when the call fails. *)
Definition write_all (h : handle) (b : bytes) : fs → res io_error unit * handle * fs := λ s,
  match tick s with
  | (Ok (Some k), s') =>
      let w := take k b in
      (Err EOther, mk_handle (h_ino h) (h_pos h + zlen w),
       set_content (h_ino h) (write_bytes (content s' (h_ino h)) (h_pos h) w) s')
  | (_, s') =>
      (Ok tt, mk_handle (h_ino h) (h_pos h + zlen b),
       set_content (h_ino h) (write_bytes (content s' (h_ino h)) (h_pos h) b) s')
  end.

(** [write_all] on a handle that is not used afterwards. *)
Definition write_all_ (h : handle) (b : bytes) : io unit := λ s,
  let '(r, _, s') := write_all h b s in (r, s').

(** [write_all] on a handle that is used afterwards only if it succeeds. *)
Definition write_all_h (h : handle) (b : bytes) : io handle := λ s,
  let '(r, h', s') := write_all h b s in
  (match r with Ok _ => Ok h' | Err e => Err e | Panic => Panic end, s').

(** [read_exact_at]. *)
Definition read_exact_at (h : handle) (off n : Z) : io bytes :=
  syscall (λ s,
    let d := content s (h_ino h) in
    if (0 <=? off) && (off + n <=? zlen d) then (Ok (sub off (off + n) d), s)
    else (Err EUnexpectedEof, s)).

(** [read_exact] through the cursor. *)
Definition read_exact (h : handle) (n : Z) : io (bytes * handle) :=
  let! b := read_exact_at h (h_pos h) n in
  iret (b, mk_handle (h_ino h) (h_pos h + n)).

(** [seek(SeekFrom::End(0))] / [metadata().len()]. *)
Definition file_len (h : handle) : io Z :=
  syscall (λ s, (Ok (zlen (content s (h_ino h))), s)).
Definition seek_start (h : handle) (pos : Z) : io handle :=
  syscall (λ s, (Ok (mk_handle (h_ino h) pos), s)).
Definition seek_current (h : handle) (n : Z) : io handle :=
  syscall (λ s, (Ok (mk_handle (h_ino h) (h_pos h + n)), s)).
Definition path_len (p : string) : io Z :=
  syscall (λ s, match fs_dir s !! p with
                | Some i => (Ok (zlen (content s i)), s)
                | None => (Err ENotFound, s) end).

(** [set_len]. *)
Definition set_len (h : handle) (n : Z) : io unit :=
  syscall (λ s,
    let d := content s (h_ino h) in
    let k := Z.to_nat n in
    (Ok tt, set_content (h_ino h) (take k d ++ zeros (k - length d)) s)).

(** [sync_data]. *)
Definition sync_data (h : handle) : io unit :=
  syscall (λ s,
    let d := content s (h_ino h) in
    (Ok tt, set_files (<[h_ino h := mk_file d d]> (fs_files s)) s)).

(** [File::open(dir)?.sync_all()]. *)
Definition sync_dir : io unit :=
  syscall (iret tt) ;! syscall (λ s, (Ok tt, set_ddir (fs_dir s) s)).

(** [std::fs::read]. *)
Definition read_file (p : string) : io bytes :=
  let! h := open_existing p in
  syscall (λ s, (Ok (content s (h_ino h)), s)).

Definition remove_file (p : string) : io unit :=
  syscall (λ s, match fs_dir s !! p with
                | Some _ => (Ok tt, set_dir (delete p (fs_dir s)) s)
                | None => (Err ENotFound, s) end).

Definition rename (p q : string) : io unit :=
  syscall (λ s, match fs_dir s !! p with
                | Some i => (Ok tt, set_dir (<[q := i]> (delete p (fs_dir s))) s)
                | None => (Err ENotFound, s) end).

(** [read_dir]: the names, in an unspecified order (here: map order; the
    sources sort what they read). *)
Definition read_dir : io (list string) :=
  syscall (λ s, (Ok ((map_to_list (fs_dir s)).*1), s)).

(** ** Reasoning *)

Lemma ibind_step {S E A B} (c : M S E A) (k : A → M S E B) s a s' :
  c s = (Ok a, s') → ibind c k s = k a s'.
Proof. unfold ibind. by intros ->. Qed.

Lemma ibind_Ok {S E A B} (c : M S E A) (k : A → M S E B) s b s'' :
  ibind c k s = (Ok b, s'') ↔ ∃ a s', c s = (Ok a, s') ∧ k a s' = (Ok b, s'').
Proof.
  unfold ibind. destruct (c s) as [[a|e|] s'].
  - split; [by eauto|]. intros (a' & s1 & Heq & Hk). by simplify_eq.
  - split; [done|]. by intros (a' & s1 & Heq & Hk).
  - split; [done|]. by intros (a' & s1 & Heq & Hk).
Qed.

Lemma imap_err_Ok {S E F A} (f : E → F) (c : M S E A) s a s' :
  imap_err f c s = (Ok a, s') ↔ c s = (Ok a, s').
Proof.
  unfold imap_err. destruct (c s) as [[] ?]; simpl; split; intros; by simplify_eq.
Qed.

Lemma zoom_step {S T E A} (get : S → T) (put : T → S → S) (c : M T E A) s r t :
  c (get s) = (r, t) → zoom get put c s = (r, put t s).
Proof. unfold zoom. by intros ->. Qed.

(** The oracle reports no fault from here on. *)
Definition calm (s : fs) : Prop := fs_faults s = [].

Lemma tick_calm s : calm s → tick s = (Ok None, s).
Proof. unfold calm, tick. by intros ->. Qed.

Lemma syscall_calm {A} (c : io A) s : calm s → syscall c s = c s.
Proof. intros Hs. unfold syscall, ibind. by rewrite tick_calm. Qed.

Lemma calm_set_content i b s : calm s → calm (set_content i b s).
Proof. done. Qed.

Lemma content_set_content i b s : content (set_content i b s) i = b.
Proof. unfold content, set_content. simpl. by rewrite lookup_insert_eq. Qed.
Lemma content_set_content_ne i j b s : i ≠ j → content (set_content i b s) j = content s j.
Proof. intros. unfold content, set_content. simpl. by rewrite lookup_insert_ne. Qed.
Lemma durable_set_content i b s j : durable (set_content i b s) j = durable s j.
Proof.
  unfold durable at 1, set_content. simpl. destruct (decide (i = j)) as [->|].
  - by rewrite lookup_insert_eq.
  - by rewrite lookup_insert_ne.
Qed.
Lemma set_content_twice i b b' s : set_content i b' (set_content i b s) = set_content i b' s.
Proof.
  unfold set_content at 1. rewrite durable_set_content. unfold set_content. simpl.
  by rewrite insert_insert_eq.
Qed.
Lemma set_content_id i s f : fs_files s !! i = Some f → set_content i (content s i) s = s.
Proof.
  intros Hf. unfold set_content, set_files, content, durable. rewrite Hf. destruct s, f; simpl in *.
  by rewrite insert_id.
Qed.

Lemma write_bytes_end old b : write_bytes old (zlen old) b = old ++ b.
Proof.
  unfold write_bytes, zlen. rewrite Nat2Z.id, take_ge, Nat.sub_diag, drop_ge by lia.
  simpl. by rewrite app_nil_r.
Qed.

Lemma write_all_calm h b s :
  calm s →
  write_all h b s =
    (Ok tt, mk_handle (h_ino h) (h_pos h + zlen b),
     set_content (h_ino h) (write_bytes (content s (h_ino h)) (h_pos h) b) s).
Proof. intros Hs. unfold write_all. by rewrite tick_calm. Qed.

Lemma read_exact_at_calm h off n s :
  calm s → 0 ≤ off → off + n ≤ zlen (content s (h_ino h)) →
  read_exact_at h off n s = (Ok (sub off (off + n) (content s (h_ino h))), s).
Proof.
  intros Hs ??. unfold read_exact_at. rewrite syscall_calm by done.
  by rewrite (proj2 (Z.leb_le 0 off)), (proj2 (Z.leb_le (off + n) _)) by done.
Qed.

Lemma read_exact_calm h n s :
  calm s → 0 ≤ h_pos h → h_pos h + n ≤ zlen (content s (h_ino h)) →
  read_exact h n s =
    (Ok (sub (h_pos h) (h_pos h + n) (content s (h_ino h)), mk_handle (h_ino h) (h_pos h + n)), s).
Proof.
  intros. unfold read_exact. by erewrite ibind_step by (by apply read_exact_at_calm).
Qed.

Lemma read_exact_at_Ok h off n s b s' :
  read_exact_at h off n s = (Ok b, s') →
  0 ≤ off ∧ off + n ≤ zlen (content s (h_ino h)) ∧ b = sub off (off + n) (content s (h_ino h)).
Proof.
  unfold read_exact_at, syscall. rewrite ibind_Ok. intros (f & s1 & Ht & Hk).
  assert (content s1 = content s) as Hc.
  { unfold tick in Ht. destruct (fs_faults s); by simplify_eq. }
  destruct f; [done|]. rewrite Hc in Hk. destruct (_ && _) eqn:Hb; [|done]. b2p. by simplify_eq.
Qed.

(** ** Well-formed file systems: names denote distinct existing inodes *)

Record fs_wf (s : fs) : Prop := {
  fw_named : ∀ p i, fs_dir s !! p = Some i → is_Some (fs_files s !! i);
  fw_inj : ∀ p q i, fs_dir s !! p = Some i → fs_dir s !! q = Some i → p = q;
  fw_next : ∀ i, is_Some (fs_files s !! i) → (i < fs_next s)%N;
}.

(** A computation that keeps the file system well formed. *)
Definition keeps_wf {E A} (c : M fs E A) : Prop := ∀ s, fs_wf s → fs_wf (c s).2.

Lemma fs_wf_set_faults s l : fs_wf s → fs_wf (set_faults l s).
Proof. intros []. by split. Qed.
Lemma fs_wf_set_ddir s d : fs_wf s → fs_wf (set_ddir d s).
Proof. intros []. by split. Qed.

Lemma fs_wf_set_files s i f : fs_wf s → is_Some (fs_files s !! i) → fs_wf (set_files (<[i:=f]> (fs_files s)) s).
Proof.
  intros [H1 H2 H3] Hi. split; simpl; [|done|].
  - intros p j Hj. apply lookup_insert_is_Some. destruct (decide (i = j)); [by left|right].
    split; [done|by eapply H1].
  - intros j Hj. apply H3. apply lookup_insert_is_Some in Hj as [->|[_ ?]]; done.
Qed.
Lemma fs_wf_set_content s i b : fs_wf s → is_Some (fs_files s !! i) → fs_wf (set_content i b s).
Proof. apply fs_wf_set_files. Qed.

Lemma fs_wf_fresh s p : fs_wf s → fs_dir s !! p = None → fs_wf (fresh_file p s).
Proof.
  intros [H1 H2 H3] Hp.
  assert (∀ q i, fs_dir s !! q = Some i → i ≠ fs_next s) as Hne.
  { intros q i Hq ->. pose proof (H3 _ (H1 _ _ Hq)). lia. }
  split; simpl.
  - intros q i [[<- <-]|[Hq Hi]]%lookup_insert_Some.
    + rewrite lookup_insert_eq. by eexists.
    + rewrite lookup_insert_ne; [by eapply H1|]. intros <-. by eapply Hne.
  - intros q r i [[<- <-]|[Hq Hi]]%lookup_insert_Some [[<- Hr]|[Hr Hi']]%lookup_insert_Some; try done.
    + by destruct (Hne _ _ Hi').
    + subst. by destruct (Hne _ _ Hi).
    + by eapply H2.
  - intros i [<-|[_ Hi]]%lookup_insert_is_Some; [lia|]. specialize (H3 i Hi). lia.
Qed.

Lemma fs_wf_remove s p : fs_wf s → fs_wf (set_dir (delete p (fs_dir s)) s).
Proof.
  intros [H1 H2 H3]. split; simpl; [| |done].
  - intros q i [_ Hi]%lookup_delete_Some. by eapply H1.
  - intros q r i [_ Hi]%lookup_delete_Some [_ Hj]%lookup_delete_Some. by eapply H2.
Qed.

Lemma fs_wf_rename s p q i :
  fs_wf s → fs_dir s !! p = Some i → fs_wf (set_dir (<[q := i]> (delete p (fs_dir s))) s).
Proof.
  intros [H1 H2 H3] Hp. split; simpl; [| |done].
  - intros r j [[<- <-]|[_ [_ Hj]%lookup_delete_Some]]%lookup_insert_Some; by eapply H1.
  - intros r t j [[<- <-]|[Hr [Hpr Hj]%lookup_delete_Some]]%lookup_insert_Some
      [[<- Ht]|[Ht [Hpt Hj']%lookup_delete_Some]]%lookup_insert_Some; try done.
    + destruct Hpt. by eapply H2.
    + subst. destruct Hpr. by eapply H2.
    + by eapply H2.
Qed.

Lemma keeps_wf_ret {E A} (a : A) : keeps_wf (E:=E) (iret a).
Proof. by intros s. Qed.
Lemma keeps_wf_err {E A} (e : E) : keeps_wf (A:=A) (ierr e).
Proof. by intros s. Qed.
Lemma keeps_wf_of {E A} (r : res E A) : keeps_wf (iof r).
Proof. by intros s. Qed.
Lemma keeps_wf_bind {E A B} (c : M fs E A) (k : A → M fs E B) :
  keeps_wf c → (∀ a, keeps_wf (k a)) → keeps_wf (ibind c k).
Proof.
  intros Hc Hk s Hs. specialize (Hc s Hs). unfold ibind. destruct (c s) as [[a|e|] s']; [|done..].
  by apply Hk.
Qed.
Lemma keeps_wf_map_err {E F A} (f : E → F) (c : M fs E A) : keeps_wf c → keeps_wf (imap_err f c).
Proof. intros Hc s Hs. specialize (Hc s Hs). unfold imap_err. by destruct (c s). Qed.

Lemma tick_wf s r s' : tick s = (r, s') → fs_wf s →
  fs_wf s' ∧ (∃ f, r = Ok f) ∧ fs_dir s' = fs_dir s ∧ fs_files s' = fs_files s.
Proof.
  unfold tick. destruct (fs_faults s); intros ? Hs; simplify_eq.
  - split_and!; [done|by eexists|done|done].
  - split_and!; [by apply fs_wf_set_faults|by eexists|done|done].
Qed.

Lemma keeps_wf_syscall {A} (c : io A) : keeps_wf c → keeps_wf (syscall c).
Proof.
  intros Hc s Hs. unfold syscall, ibind. destruct (tick s) as [r s'] eqn:Ht.
  destruct (tick_wf s r s' Ht Hs) as (Hs' & [f ->] & _). destruct f; [done|by apply Hc].
Qed.

Lemma keeps_wf_open_existing p : keeps_wf (open_existing p).
Proof. apply keeps_wf_syscall. intros s Hs. cbv beta zeta. by case_match. Qed.
Lemma keeps_wf_open_create_new p : keeps_wf (open_create_new p).
Proof. apply keeps_wf_syscall. intros s Hs. cbv beta zeta. case_match; [done|]. by apply fs_wf_fresh. Qed.
Lemma keeps_wf_open_truncate p : keeps_wf (open_truncate p).
Proof.
  apply keeps_wf_syscall. intros s Hs. cbv beta zeta. case_match eqn:Hp; [|by apply fs_wf_fresh].
  apply fs_wf_set_content; [done|]. by eapply fw_named.
Qed.
Lemma keeps_wf_read_exact_at h off n : keeps_wf (read_exact_at h off n).
Proof. apply keeps_wf_syscall. intros s Hs. cbv beta zeta. by case_match. Qed.
Lemma keeps_wf_file_len h : keeps_wf (file_len h).
Proof. apply keeps_wf_syscall. by intros s Hs. Qed.
Lemma keeps_wf_remove p : keeps_wf (remove_file p).
Proof. apply keeps_wf_syscall. intros s Hs. cbv beta zeta. case_match; [by apply fs_wf_remove|done]. Qed.
Lemma keeps_wf_rename p q : keeps_wf (rename p q).
Proof. apply keeps_wf_syscall. intros s Hs. cbv beta zeta. case_match; [by apply fs_wf_rename|done]. Qed.
Lemma keeps_wf_sync_dir : keeps_wf sync_dir.
Proof.
  apply keeps_wf_bind; [apply keeps_wf_syscall; by intros s Hs|]. intros _. apply keeps_wf_syscall.
  intros s Hs. by apply fs_wf_set_ddir.
Qed.

(** ** Outcomes of single calls under an arbitrary oracle *)

(** The name denotes the same inode with the same contents. *)
Definition same_file (p : string) (s s' : fs) : Prop :=
  fs_dir s' !! p = fs_dir s !! p ∧
  ∀ i, fs_dir s !! p = Some i → fs_files s' !! i = fs_files s !! i.

Lemma same_file_refl p s : same_file p s s.
Proof. by split. Qed.
Lemma same_file_trans p s1 s2 s3 : same_file p s1 s2 → same_file p s2 s3 → same_file p s1 s3.
Proof.
  intros [H1 H2] [H3 H4]. split; [congruence|]. intros i Hi. rewrite H4; [by apply H2|congruence].
Qed.
Lemma same_file_named p s s' : same_file p s s' → named s' p = named s p.
Proof.
  intros [H1 H2]. unfold named. rewrite H1. destruct (fs_dir s !! p) as [i|]; [|done]. simpl.
  unfold content. by rewrite H2.
Qed.
Lemma same_file_content p s s' i : same_file p s s' → fs_dir s !! p = Some i →
  fs_dir s' !! p = Some i ∧ content s' i = content s i ∧ durable s' i = durable s i.
Proof. intros [H1 H2] Hi. unfold content, durable. rewrite H1, (H2 i Hi). done. Qed.
Lemma same_file_set_content p s i b :
  fs_dir s !! p ≠ Some i → same_file p s (set_content i b s).
Proof.
  intros Hi. split; [done|]. intros j Hj. simpl. rewrite lookup_insert_ne; [done|]. congruence.
Qed.

(** Nothing but the oracle changed. *)
Definition same_disk (s s' : fs) : Prop :=
  fs_dir s' = fs_dir s ∧ fs_ddir s' = fs_ddir s ∧ fs_files s' = fs_files s ∧ fs_next s' = fs_next s.

Lemma same_disk_refl s : same_disk s s.
Proof. done. Qed.
Lemma same_disk_content s s' i : same_disk s s' → content s' i = content s i.
Proof. intros (_ & _ & Hf & _). unfold content. by rewrite Hf. Qed.
Lemma same_disk_durable s s' i : same_disk s s' → durable s' i = durable s i.
Proof. intros (_ & _ & Hf & _). unfold durable. by rewrite Hf. Qed.
Lemma same_disk_named s s' p : same_disk s s' → named s' p = named s p.
Proof. intros (Hd & _ & Hf & _). unfold named, content. by rewrite Hd, Hf. Qed.
Lemma same_disk_file p s s' : same_disk s s' → same_file p s s'.
Proof. intros (Hd & _ & Hf & _). split; [by rewrite Hd|]. intros i _. by rewrite Hf. Qed.
Lemma same_disk_wf s s' : same_disk s s' → fs_wf s → fs_wf s'.
Proof. intros (Hd & _ & Hf & Hn) [H1 H2 H3]. split; rewrite ?Hd, ?Hf, ?Hn; done. Qed.

Lemma tick_cases s r s' : tick s = (r, s') → same_disk s s' ∧ (r = Ok None ∨ ∃ k, r = Ok (Some k)).
Proof.
  unfold tick. destruct (fs_faults s) as [|[k|] fl]; intros; simplify_eq; (split; [done|]); eauto.
Qed.

Lemma syscall_cases {A} (c : io A) s r s' :
  syscall c s = (r, s') →
  (r = Err EOther ∧ same_disk s s') ∨ ∃ s1, same_disk s s1 ∧ c s1 = (r, s').
Proof.
  unfold syscall, ibind. destruct (tick s) as [t s1] eqn:Ht. apply tick_cases in Ht as [Hs [->|[k ->]]].
  - intros Hc. right. by exists s1.
  - unfold ierr. intros; simplify_eq. by left.
Qed.

Lemma named_set_content i b s p :
  named (set_content i b s) p = if decide (fs_dir s !! p = Some i) then Some b else named s p.
Proof.
  unfold named. simpl. destruct (fs_dir s !! p) as [j|] eqn:Hj; simpl.
  - case_decide; simplify_eq; [by rewrite content_set_content|]. rewrite content_set_content_ne; [done|].
    intros ->. done.
  - done.
Qed.

Lemma open_truncate_cases p s r s' :
  fs_wf s → open_truncate p s = (r, s') →
  (r = Err EOther ∧ same_disk s s') ∨
  ∃ i, r = Ok (mk_handle i 0) ∧ fs_dir s' !! p = Some i ∧ content s' i = [] ∧ fs_wf s' ∧
    ∀ q, q ≠ p → same_file q s s'.
Proof.
  intros Hwf Ho. assert (fs_wf s') as Hwf'.
  { pose proof (keeps_wf_open_truncate p s Hwf) as Hk. by rewrite Ho in Hk. }
  apply syscall_cases in Ho as [?|(s1 & Hs & Ho)]; [by left|right].
  pose proof Hs as (Hd & _ & Hf & Hn). pose proof (same_disk_wf _ _ Hs Hwf) as Hwf1.
  destruct (fs_dir s1 !! p) as [i|] eqn:Hp; simplify_eq.
  - exists i. split_and!; [done|done|apply content_set_content|done|].
    intros q Hq. eapply same_file_trans; [by apply same_disk_file|]. apply same_file_set_content.
    intros Hq'. destruct Hq. by eapply (fw_inj _ Hwf1).
  - exists (fs_next s1). split_and!; [done|simpl; by rewrite lookup_insert_eq| |done|].
    + unfold content. simpl. by rewrite lookup_insert_eq.
    + intros q Hq. eapply same_file_trans; [by apply same_disk_file|].
      split; simpl; [by rewrite lookup_insert_ne|]. intros j Hj. rewrite lookup_insert_ne; [done|].
      intros <-. pose proof (fw_next _ Hwf1 _ (fw_named _ Hwf1 _ _ Hj)). lia.
Qed.

(** A write touches one inode; what it leaves there is a prefix of the
    bytes if it fails. *)
Lemma write_all_cases h b s r h' s' :
  write_all h b s = (r, h', s') →
  ∃ s1 w, same_disk s s1 ∧ s' = set_content (h_ino h) (write_bytes (content s (h_ino h)) (h_pos h) w) s1 ∧
    h' = mk_handle (h_ino h) (h_pos h + zlen w) ∧
    (r = Ok tt ∧ w = b ∨ r = Err EOther ∧ w `prefix_of` b).
Proof.
  unfold write_all. destruct (tick s) as [t s1] eqn:Ht. apply tick_cases in Ht as [Hs [->|[k ->]]];
    intros; simplify_eq; rewrite (same_disk_content s s1 _ Hs).
  - exists s1, b. split_and!; [done..|by left].
  - exists s1, (take k b). split_and!; [done..|right]. split; [done|]. apply prefix_take.
Qed.

Lemma sync_data_cases h s r s' :
  sync_data h s = (r, s') →
  (r = Err EOther ∧ same_disk s s') ∨
  (r = Ok tt ∧ fs_dir s' = fs_dir s ∧ fs_next s' = fs_next s ∧ fs_ddir s' = fs_ddir s ∧
   durable s' (h_ino h) = content s (h_ino h) ∧ (∀ j, content s' j = content s j) ∧
   (∀ j, j ≠ h_ino h → fs_files s' !! j = fs_files s !! j) ∧
   (is_Some (fs_files s !! h_ino h) → fs_wf s → fs_wf s')).
Proof.
  intros Ho. apply syscall_cases in Ho as [?|(s1 & Hs & Ho)]; [by left|right].
  pose proof Hs as (Hd & Hdd & Hf & Hn). cbv beta zeta in Ho. simplify_eq. simpl. split_and!; [done|done|done|done| | | |].
  - unfold durable. simpl. rewrite lookup_insert_eq. simpl. by apply same_disk_content.
  - intros j. unfold content at 1. simpl. destruct (decide (j = h_ino h)) as [->|].
    + rewrite lookup_insert_eq. simpl. by apply same_disk_content.
    + unfold content. by rewrite lookup_insert_ne, Hf by done.
  - intros j Hj. simpl. by rewrite lookup_insert_ne, Hf by done.
  - intros Hi Hwf. apply fs_wf_set_files; [by eapply same_disk_wf|]. by rewrite Hf.
Qed.

Lemma rename_cases p q s r s' :
  rename p q s = (r, s') →
  (r = Err EOther ∧ same_disk s s') ∨ (r = Err ENotFound ∧ same_disk s s' ∧ fs_dir s !! p = None) ∨
  ∃ i s1, same_disk s s1 ∧ r = Ok tt ∧ fs_dir s !! p = Some i ∧ s' = set_dir (<[q := i]> (delete p (fs_dir s1))) s1.
Proof.
  intros Ho. apply syscall_cases in Ho as [?|(s1 & Hs & Ho)]; [by left|right].
  pose proof Hs as (Hd & _). rewrite <-Hd.
  destruct (fs_dir s1 !! p) as [i|] eqn:Hp; simplify_eq; [right|by left].
  exists i, s1. done.
Qed.

(** ** Atomic replacement: write a temporary file, sync it, rename it *)

Definition stage_file (tmp : string) (buf : bytes) : io unit :=
  let! h := open_truncate tmp in write_all_ h buf ;! sync_data h.

Definition replace_file (tmp path : string) (buf : bytes) : io unit :=
  stage_file tmp buf ;! rename tmp path.

Lemma stage_file_cases tmp buf s r s' :
  fs_wf s → stage_file tmp buf s = (r, s') →
  fs_wf s' ∧ (∀ q, q ≠ tmp → same_file q s s') ∧
  (r = Err EOther ∨ r = Ok tt ∧ ∃ i, fs_dir s' !! tmp = Some i ∧ content s' i = buf ∧ durable s' i = buf).
Proof.
  intros Hwf. unfold stage_file, ibind. destruct (open_truncate tmp s) as [r0 s0] eqn:Ho.
  destruct (open_truncate_cases tmp s r0 s0 Hwf Ho) as [[-> Hs]|(i & -> & Hi & Hc0 & Hwf0 & Hfr0)].
  { intros; simplify_eq. split_and!; [by eapply same_disk_wf|intros; by apply same_disk_file|by left]. }
  unfold write_all_. destruct (write_all _ buf s0) as [[r1 h1] s1] eqn:Hw.
  apply write_all_cases in Hw as (s1' & w & Hsd & -> & _ & Hr1). cbn [h_ino h_pos] in *.
  pose proof (same_disk_wf _ _ Hsd Hwf0) as Hwf1. rewrite Hc0.
  change 0 with (zlen (@nil Init.Byte.byte)). rewrite write_bytes_end. simpl app.
  set (s1 := set_content i w s1').
  assert (is_Some (fs_files s1' !! i)) as Hfi.
  { destruct Hsd as (_ & _ & -> & _). by eapply (fw_named _ Hwf0). }
  assert (∀ q, q ≠ tmp → same_file q s s1 ∧ fs_dir s1 !! q ≠ Some i) as Hfr1.
  { intros q Hq. assert (fs_dir s1' !! q ≠ Some i) as Hne.
    { destruct Hsd as (Hd & _). rewrite Hd. intros Hq'. destruct Hq. by eapply (fw_inj _ Hwf0). }
    split; [|done]. eapply same_file_trans; [by apply Hfr0|].
    eapply same_file_trans; [by apply same_disk_file|]. by apply same_file_set_content. }
  assert (fs_wf s1) as Hwfs1 by by apply fs_wf_set_content.
  destruct Hr1 as [[-> ->]|[-> _]].
  2: { intros; simplify_eq. split_and!; [done|intros; by apply Hfr1|by left]. }
  intros Hsy. apply sync_data_cases in Hsy as [[-> Hs2]|(-> & Hd2 & Hn2 & _ & Hdur & Hcont & Hfr2 & Hwf2)].
  { split_and!; [by eapply same_disk_wf| |by left]. intros q Hq.
    eapply same_file_trans; [by apply Hfr1|by apply same_disk_file]. }
  cbn [h_ino] in *. split_and!.
  - apply Hwf2; [|done]. unfold s1, set_content. simpl. rewrite lookup_insert_eq. by eexists.
  - intros q Hq. destruct (Hfr1 q Hq) as [Hsf Hne]. eapply same_file_trans; [exact Hsf|].
    split; [by rewrite Hd2|]. intros j Hj. apply Hfr2. congruence.
  - right. split; [done|]. exists i. rewrite Hd2, Hdur, Hcont. split_and!; [|apply content_set_content..].
    simpl. by rewrite (proj1 Hsd).
Qed.

Lemma replace_file_cases tmp path buf s r s' :
  fs_wf s → tmp ≠ path → replace_file tmp path buf s = (r, s') →
  fs_wf s' ∧ (same_file path s s' ∨ named s' path = Some buf) ∧
  (r = Ok tt → named s' path = Some buf ∧ ∃ i, fs_dir s' !! path = Some i ∧ durable s' i = buf) ∧
  (∀ q, q ≠ path → q ≠ tmp → same_file q s s') ∧ r ≠ Panic.
Proof.
  intros Hwf Hne. unfold replace_file, ibind. destruct (stage_file tmp buf s) as [r0 s0] eqn:Hst.
  destruct (stage_file_cases tmp buf s r0 s0 Hwf Hst) as (Hwf0 & Hfr & [->|(-> & i & Hi & Hc & Hd)]).
  { intros; simplify_eq. split_and!; [done|left; by apply Hfr|done|intros; by apply Hfr|done]. }
  intros Hrn. pose proof (keeps_wf_rename tmp path s0 Hwf0) as Hwf3. rewrite Hrn in Hwf3.
  apply rename_cases in Hrn as [[-> Hs3]|[(-> & Hs3 & _)|(j & s2 & Hs2 & -> & Hj & ->)]].
  1,2: split_and!; [done|left; eapply same_file_trans; [by apply Hfr|by apply same_disk_file]|done|
      intros; eapply same_file_trans; [by apply Hfr|by apply same_disk_file]|done].
  assert (j = i) as -> by congruence.
  assert (named (set_dir (<[path:=i]> (delete tmp (fs_dir s2))) s2) path = Some buf) as Hnew.
  { unfold named. simpl. rewrite lookup_insert_eq. simpl. f_equal.
    change (content s2 i = buf). by rewrite (same_disk_content s0 s2 i Hs2). }
  split_and!; [done|by right| |intros q Hq Hqt|done].
  - intros _. split; [done|]. exists i. simpl. rewrite lookup_insert_eq. split; [done|].
    change (durable s2 i = buf). by rewrite (same_disk_durable s0 s2 i Hs2).
  - eapply same_file_trans; [by apply Hfr|]. eapply same_file_trans; [by apply same_disk_file|].
    split; [|done]. simpl. by rewrite lookup_insert_ne, lookup_delete_ne by done.
Qed.

(** Without faults the replacement happens. *)
Lemma replace_file_calm tmp path buf s :
  calm s → ∃ s', replace_file tmp path buf s = (Ok tt, s') ∧ calm s'.
Proof.
  intros Hs. assert (∃ i s1, open_truncate tmp s = (Ok (mk_handle i 0), s1) ∧ calm s1 ∧
    fs_dir s1 !! tmp = Some i) as (i & s1 & Ho & Hs1 & Hi).
  { unfold open_truncate. rewrite syscall_calm by done. destruct (fs_dir s !! tmp) as [i|] eqn:Hi.
    - by eexists _, _.
    - eexists _, _. split; [reflexivity|]. split; [done|]. simpl. by rewrite lookup_insert_eq. }
  unfold replace_file, stage_file.
  erewrite ibind_step.
  2: { erewrite ibind_step by exact Ho.
       erewrite ibind_step by (unfold write_all_; rewrite write_all_calm by done; reflexivity).
       unfold sync_data. rewrite syscall_calm by done. reflexivity. }
  unfold rename. rewrite syscall_calm by done. simpl. rewrite Hi. by eexists.
Qed.
