(* ===== verification/Faults.v ===== *)
(** * Runs that succeed saw no fault

    A computation is [quiet] when every run of it that returns [Ok] is
    also the run it has on a file system without faults: errors of the
    calls it makes always reach the caller.  Specifications proved for
    fault-free runs then hold of every successful run. *)

From S2P Require Import Prelude Fs.

(** Drop the fault oracle from a state. *)
Class Erase (S : Type) := erase : S → S.
#[export] Instance erase_fs : Erase fs := set_faults [].
#[export] Instance erase_pair {X T : Type} `{Erase T} : Erase (X * T) := λ w, (w.1, erase w.2).

Definition quiet {S : Type} `{Erase S} {E A} (c : M S E A) : Prop :=
  ∀ s a s', c s = (Ok a, s') → c (erase s) = (Ok a, erase s').

Create HintDb quiet.

Section generic.
Context {S : Type} `{Erase S}.

Lemma quiet_ret {E A} (a : A) : quiet (S:=S) (E:=E) (iret a).
Proof. intros s b s' [= <- <-]. done. Qed.
Lemma quiet_err {E A} (e : E) : quiet (S:=S) (A:=A) (ierr e).
Proof. intros s b s' [=]. Qed.
Lemma quiet_panic {E A} : quiet (S:=S) (E:=E) (A:=A) ipanic.
Proof. intros s b s' [=]. Qed.
Lemma quiet_of {E A} (r : res E A) : quiet (S:=S) (iof r).
Proof. intros s b s' [= -> <-]. done. Qed.
Lemma quiet_bind {E A B} (c : M S E A) (k : A → M S E B) :
  quiet c → (∀ a, quiet (k a)) → quiet (ibind c k).
Proof.
  intros Hc Hk s b s'. rewrite ibind_Ok. intros (a & s1 & H1 & H2). unfold ibind.
  rewrite (Hc _ _ _ H1). by apply Hk.
Qed.
Lemma quiet_map_err {E F A} (f : E → F) (c : M S E A) : quiet c → quiet (imap_err f c).
Proof.
  intros Hc s a s' Hr. apply imap_err_Ok in Hr. unfold imap_err. by rewrite (Hc _ _ _ Hr).
Qed.
Lemma quiet_for {E A} (l : list A) (body : A → M S E unit) :
  (∀ x, quiet (body x)) → quiet (ifor l body).
Proof. intros Hb. induction l; cbn [ifor]; [apply quiet_ret|]. apply quiet_bind; [apply Hb|done]. Qed.
Lemma quiet_if {E A} (b : bool) (c d : M S E A) : quiet c → quiet d → quiet (if b then c else d).
Proof. by destruct b. Qed.

(** Focusing on a component that holds the file system. *)
Lemma quiet_zoom {T : Type} `{Erase T} {E A} (get : S → T) (put : T → S → S) (c : M T E A) :
  (∀ s, get (erase s) = erase (get s)) → (∀ t s, put (erase t) (erase s) = erase (put t s)) →
  quiet c → quiet (zoom get put c).
Proof.
  intros Hg Hp Hc s a s'. unfold zoom. destruct (c (get s)) as [r t] eqn:Hr. intros [= -> <-].
  by rewrite Hg, (Hc _ _ _ Hr), Hp.
Qed.
End generic.

#[export] Hint Resolve quiet_ret quiet_err quiet_panic quiet_of quiet_bind quiet_map_err quiet_for quiet_if : quiet.

(** ** The calls *)

Lemma tick_erase s : tick (erase s) = (Ok None, erase s).
Proof. done. Qed.

Lemma quiet_syscall {A} (c : io A) : quiet c → quiet (syscall c).
Proof.
  intros Hc s a s'. unfold syscall. rewrite ibind_Ok. intros (f & s1 & Ht & Hk). unfold ibind.
  rewrite tick_erase. destruct f as [k|]; [done|].
  assert (erase s = erase s1) as ->; [|by apply Hc].
  unfold tick in Ht. destruct (fs_faults s); by simplify_eq.
Qed.

Lemma quiet_open_existing p : quiet (open_existing p).
Proof.
  apply quiet_syscall. intros s a s'. change (fs_dir (erase s)) with (fs_dir s). by case_match; intros [= <- <-].
Qed.
Lemma quiet_open_create_new p : quiet (open_create_new p).
Proof.
  apply quiet_syscall. intros s a s'. change (fs_dir (erase s)) with (fs_dir s). by case_match; intros [= <- <-].
Qed.
Lemma quiet_open_truncate p : quiet (open_truncate p).
Proof.
  apply quiet_syscall. intros s a s'. change (fs_dir (erase s)) with (fs_dir s). by case_match; intros [= <- <-].
Qed.
Lemma quiet_sync_data h : quiet (sync_data h).
Proof. apply quiet_syscall. intros s a s' [= <- <-]. done. Qed.
Lemma quiet_rename p q : quiet (rename p q).
Proof.
  apply quiet_syscall. intros s a s'. change (fs_dir (erase s)) with (fs_dir s). by case_match; intros [= <- <-].
Qed.
Lemma quiet_sync_dir : quiet sync_dir.
Proof.
  apply quiet_bind; [apply quiet_syscall, quiet_ret|]. intros _. apply quiet_syscall. intros s a s' [= <- <-]. done.
Qed.
Lemma quiet_remove_file p : quiet (remove_file p).
Proof.
  apply quiet_syscall. intros s a s'. change (fs_dir (erase s)) with (fs_dir s). by case_match; intros [= <- <-].
Qed.

Lemma write_all_erase h b s h' s' :
  write_all h b s = (Ok tt, h', s') → write_all h b (erase s) = (Ok tt, h', erase s').
Proof.
  unfold write_all. rewrite tick_erase. destruct (tick s) as [r s1] eqn:Ht.
  assert (erase s1 = erase s ∧ content s1 = content s) as [He Hc].
  { unfold tick in Ht. destruct (fs_faults s); by simplify_eq. }
  unfold tick in Ht. destruct (fs_faults s) as [|[k|] fl]; simplify_eq; intros; by simplify_eq.
Qed.
Lemma quiet_write_all_ h b : quiet (write_all_ h b).
Proof.
  intros s [] s'. unfold write_all_. destruct (write_all h b s) as [[r h'] s1] eqn:Hw.
  intros [= -> <-]. by rewrite (write_all_erase _ _ _ _ _ Hw).
Qed.
Lemma quiet_write_all_h h b : quiet (write_all_h h b).
Proof.
  intros s a s'. unfold write_all_h. destruct (write_all h b s) as [[[[]| |] h'] s1] eqn:Hw; [|done..].
  intros [= -> <-]. by rewrite (write_all_erase _ _ _ _ _ Hw).
Qed.

#[export] Hint Resolve quiet_open_existing quiet_open_create_new quiet_open_truncate quiet_sync_data
  quiet_rename quiet_sync_dir quiet_remove_file quiet_write_all_ quiet_write_all_h : quiet.
