(* ===== verification/Sql.v ===== *)
(** * Connections to SQLite

    What the metadata crate relies on in a [rusqlite::Connection]:
    transactions with nested savepoints, and a commit outside them after
    every statement.  [D] is the contents of the database.  A statement is
    atomic.  Every statement consumes one entry of a fault oracle: it works,
    fails with no effect, or fails and, as SQLite may on a full disk or an
    I/O error, rolls the whole transaction back. *)

From Stdlib Require Import Floats.SpecFloat.
From S2P Require Import Prelude Fs.

Inductive SqlError :=
  | ConstraintViolation
  | SqliteFailure
  | QueryReturnedNoRows
  | InvalidColumnType (col : Z).

Inductive sql_fault := Works | Fails | FailsRollback.

(** An open transaction: whether [BEGIN] or a savepoint opened it, and its
    savepoints [sp<i>], innermost first, with the contents they restore. *)
Record transaction (D : Type) := mk_tx { tx_begun : bool; tx_saves : list (nat * D) }.
Arguments mk_tx {D} _ _.
Arguments tx_begun {D} _.
Arguments tx_saves {D} _.

(** [c_view] is what statements see, [c_main] what is committed. *)
Record conn (D : Type) := mk_conn {
  c_view : D;
  c_main : D;
  c_tx : option (transaction D);
  c_faults : list sql_fault;
}.
Arguments mk_conn {D} _ _ _ _.
Arguments c_view {D} _.
Arguments c_main {D} _.
Arguments c_tx {D} _.
Arguments c_faults {D} _.

Section sql.
Context {D : Type}.
Abbreviation SQL A := (M (conn D) SqlError A).

Definition set_view (d : D) (c : conn D) : conn D :=
  mk_conn d (match c_tx c with None => d | Some _ => c_main c end) (c_tx c) (c_faults c).
Definition set_tx (t : option (transaction D)) (c : conn D) : conn D :=
  mk_conn (c_view c) (c_main c) t (c_faults c).
Definition rolled_back (c : conn D) : conn D := mk_conn (c_main c) (c_main c) None (c_faults c).
Definition committed (c : conn D) : conn D := mk_conn (c_view c) (c_view c) None (c_faults c).

Definition sql_tick (c : conn D) : sql_fault * conn D :=
  match c_faults c with
  | [] => (Works, c)
  | f :: rest => (f, mk_conn (c_view c) (c_main c) (c_tx c) rest)
  end.

Definition statement {A} (f : conn D → res SqlError A * conn D) : SQL A := λ c,
  match sql_tick c with
  | (Works, c') => f c'
  | (Fails, c') => (Err SqliteFailure, c')
  | (FailsRollback, c') => (Err SqliteFailure, rolled_back c')
  end.

(** [Connection::execute] of a statement that changes tables, and
    [query_row] / [query_map]. *)
Definition execute {A} (f : D → res SqlError (A * D)) : SQL A := statement (λ c,
  match f (c_view c) with
  | Ok (a, d) => (Ok a, set_view d c)
  | Err e => (Err e, c)
  | Panic => (Panic, c)
  end).
Definition query {A} (f : D → res SqlError A) : SQL A := statement (λ c, (f (c_view c), c)).

Definition begin_immediate : SQL unit := statement (λ c,
  match c_tx c with
  | Some _ => (Err SqliteFailure, c)
  | None => (Ok tt, set_tx (Some (mk_tx true [])) c)
  end).

Definition savepoint (i : nat) : SQL unit := statement (λ c,
  (Ok tt, set_tx (Some (match c_tx c with
                        | None => mk_tx false [(i, c_view c)]
                        | Some t => mk_tx (tx_begun t) ((i, c_view c) :: tx_saves t)
                        end)) c)).

(** The savepoint named [i] and those it is nested in. *)
Fixpoint find_save (i : nat) (l : list (nat * D)) : option (D * list (nat * D)) :=
  match l with
  | [] => None
  | (j, d) :: rest => if (i =? j)%nat then Some (d, rest) else find_save i rest
  end.

Definition rollback_to (i : nat) : SQL unit := statement (λ c,
  match t ← c_tx c; f ← find_save i (tx_saves t); Some (t, f) with
  | None => (Err SqliteFailure, c)
  | Some (t, (d, rest)) => (Ok tt, set_tx (Some (mk_tx (tx_begun t) ((i, d) :: rest))) (mk_conn d (c_main c) (c_tx c) (c_faults c)))
  end).

(** Releasing the savepoint that opened the transaction commits it. *)
Definition release (i : nat) : SQL unit := statement (λ c,
  match t ← c_tx c; f ← find_save i (tx_saves t); Some (t, f) with
  | None => (Err SqliteFailure, c)
  | Some (t, (_, rest)) =>
      match tx_begun t, rest with
      | false, [] => (Ok tt, committed c)
      | b, _ => (Ok tt, set_tx (Some (mk_tx b rest)) c)
      end
  end).

Definition commit : SQL unit := statement (λ c,
  match c_tx c with None => (Err SqliteFailure, c) | Some _ => (Ok tt, committed c) end).
Definition rollback : SQL unit := statement (λ c,
  match c_tx c with None => (Err SqliteFailure, c) | Some _ => (Ok tt, rolled_back c) end).

(** [unchecked_transaction]: an error drops the guard, which rolls back. *)
Definition in_transaction {E A} (of_sql : SqlError → E) (body : M (conn D) E A) : M (conn D) E A :=
  imap_err of_sql begin_immediate ;!
  λ c, match body c with
       | (Ok a, c') =>
           match commit c' with
           | (Ok _, c2) => (Ok a, c2)
           | (Err e, c2) => let '(_, c3) := rollback c2 in (Err (of_sql e), c3)
           | (Panic, c2) => (Panic, c2)
           end
       | (Err e, c') => let '(_, c2) := rollback c' in (Err e, c2)
       | (Panic, c') => let '(_, c2) := rollback c' in (Panic, c2)
       end.
End sql.

(** ** Numbers in an INTEGER column

    Integer addition that leaves the [i64] range is carried out in floating
    point, and the column keeps a floating-point value that no [i64]
    equals. *)

Inductive sql_num := SInt (z : Z) | SReal (f : spec_float).

Definition fits_i64 (z : Z) : bool := (- 2 ^ 63 <=? z) && (z <? 2 ^ 63).

(** The integer a float equals, if there is one. *)
Definition f64_integer (f : spec_float) : option Z :=
  match f with
  | S754_zero _ => Some 0
  | S754_finite s m e =>
      let a := if s then Z.neg m else Z.pos m in
      if 0 <=? e then Some (a * 2 ^ e)
      else if a mod 2 ^ (- e) =? 0 then Some (a / 2 ^ (- e)) else None
  | _ => None
  end.

(** Conversion on store; the engine leaves [-2^63] itself a float. *)
Definition integer_affinity (v : sql_num) : sql_num :=
  match v with
  | SInt z => SInt z
  | SReal f =>
      match f64_integer f with
      | Some z => if (- 2 ^ 63 <? z) && (z <? 2 ^ 63) then SInt z else SReal f
      | None => SReal f
      end
  end.

Definition sql_add (a : sql_num) (b : Z) : sql_num :=
  match a with
  | SInt a => if fits_i64 (a + b) then SInt (a + b) else SReal (SFadd 53 1024 (f64_of a) (f64_of b))
  | SReal f => SReal (SFadd 53 1024 f (f64_of b))
  end.

(** [row.get::<_, i64>]. *)
Definition get_i64 (col : Z) (v : sql_num) : res SqlError Z :=
  match v with SInt z => Ok z | SReal _ => Err (InvalidColumnType col) end.

(** A NaN is stored as NULL. *)
Definition bind_f64 (f : spec_float) : option spec_float :=
  match f with S754_nan => None | f => Some f end.

(** ** Reasoning about statements *)

Section reasoning.
Context {D : Type}.

(** A property of contents holds of all contents a connection keeps. *)
Record conn_ok (I : D → Prop) (c : conn D) : Prop := {
  ck_view : I (c_view c);
  ck_main : I (c_main c);
  ck_saves : ∀ t, c_tx c = Some t → Forall (λ s, I s.2) (tx_saves t);
}.

Lemma conn_ok_impl (I J : D → Prop) c : (∀ d, I d → J d) → conn_ok I c → conn_ok J c.
Proof. intros Hij [Hv Hm Hs]. split; [auto..|]. intros t Ht. eapply Forall_impl; [by apply Hs|]. intros s. apply Hij. Qed.

(** Whatever faults occur, [c] started on contents [d] keeps [I], and [Q]
    holds of what it returns and leaves. *)
Definition safe {E A} (I : D → Prop) (d : D) (c : M (conn D) E A) (Q : A → D → Prop) : Prop :=
  ∀ s, conn_ok I s → c_view s = d →
    conn_ok I (c s).2 ∧ ∀ a, (c s).1 = Ok a → Q a (c_view (c s).2).

(** A connection without pending faults. *)
Definition calm_conn (s : conn D) : Prop := c_faults s = [] ∧ (c_tx s = None → c_main s = c_view s).

(** Without faults, [c] is a function of the contents. *)
Definition alone {E A} (c : M (conn D) E A) (d : D) : res E A * D :=
  let '(r, s) := c (mk_conn d d None []) in (r, c_view s).
Definition local {E A} (c : M (conn D) E A) : Prop :=
  ∀ s, calm_conn s → c s = ((alone c (c_view s)).1, set_view (alone c (c_view s)).2 s).

Lemma set_view_id (s : conn D) : calm_conn s → set_view (c_view s) s = s.
Proof. intros [_ Hm]. destruct s as [v m [t|] f]; cbn in *; [done|]. by rewrite (Hm eq_refl). Qed.
Lemma set_view_twice (d d' : D) s : set_view d (set_view d' s) = set_view d s.
Proof. by destruct s as [v m [t|] f]. Qed.
Lemma set_view_calm (d : D) s : calm_conn s → calm_conn (set_view d s).
Proof. intros [Hf Hm]. split; [done|]. by destruct s as [v m [t|] f]. Qed.

Section safe.
Context (I : D → Prop) (d : D).

Lemma safe_ret {E A} (a : A) (Q : A → D → Prop) : Q a d → safe (E:=E) I d (iret a) Q.
Proof. intros HQ s Hs <-. cbn. split; [done|]. by intros ? [= <-]. Qed.
Lemma safe_err {E A} (e : E) (Q : A → D → Prop) : safe I d (ierr e) Q.
Proof. intros s Hs <-. by split. Qed.
Lemma safe_panic {E A} (Q : A → D → Prop) : safe (E:=E) I d ipanic Q.
Proof. intros s Hs <-. by split. Qed.
Lemma safe_of {E A} (r : res E A) (Q : A → D → Prop) : (∀ a, r = Ok a → Q a d) → safe I d (iof r) Q.
Proof. intros HQ s Hs <-. split; [done|exact HQ]. Qed.
Lemma safe_bind {E A B} (c : M (conn D) E A) (k : A → M (conn D) E B) (Q : A → D → Prop) R :
  safe I d c Q → (∀ a d', I d' → Q a d' → safe I d' (k a) R) → safe I d (ibind c k) R.
Proof.
  intros Hc Hk s Hs Hd. destruct (Hc s Hs Hd) as [Hok HQ]. unfold ibind.
  destruct (c s) as [[a|e|] s1]; cbn in *; [|by split..]. apply (Hk a (c_view s1)); [apply Hok|by apply HQ|done|done].
Qed.
Lemma safe_weaken {E A} (c : M (conn D) E A) (Q R : A → D → Prop) :
  safe I d c Q → (∀ a d', I d' → Q a d' → R a d') → safe I d c R.
Proof. intros Hc HQR s Hs Hd. destruct (Hc s Hs Hd) as [Hok HQ]. split; [done|]. intros a Ha. apply HQR; [apply Hok|auto]. Qed.
Lemma safe_map_err {E F A} (f : E → F) (c : M (conn D) E A) Q : safe I d c Q → safe I d (imap_err f c) Q.
Proof.
  intros Hc s Hs Hd. destruct (Hc s Hs Hd) as [Hok HQ]. unfold imap_err. destruct (c s) as [[a|e|] s1]; cbn in *; (split; [done|]); [|done..].
  intros ? [= <-]. by apply HQ.
Qed.
Lemma safe_if {E A} (b : bool) (c c' : M (conn D) E A) Q :
  (b = true → safe I d c Q) → (b = false → safe I d c' Q) → safe I d (if b then c else c') Q.
Proof. destruct b; auto. Qed.

Lemma tick_ok s : conn_ok I s → conn_ok I (sql_tick s).2 ∧ c_view (sql_tick s).2 = c_view s.
Proof. intros [Hv Hm Hs]. unfold sql_tick. destruct (c_faults s); cbn; split; [by split|done|by split|done]. Qed.

Lemma rolled_back_ok s : conn_ok I s → conn_ok I (rolled_back s).
Proof. intros [Hv Hm Hs]. by split. Qed.

Lemma safe_statement {A} (f : conn D → res SqlError A * conn D) Q :
  (∀ s, conn_ok I s → c_view s = d → conn_ok I (f s).2 ∧ ∀ a, (f s).1 = Ok a → Q a (c_view (f s).2)) →
  safe I d (statement f) Q.
Proof.
  intros Hf s Hs Hd. unfold statement. destruct (tick_ok s Hs) as [Hs1 Hv]. destruct (sql_tick s) as [[| |] s1]; cbn in *.
  - apply Hf; [done|congruence].
  - by split.
  - split; [by apply rolled_back_ok|done].
Qed.

Lemma safe_query {A} (f : D → res SqlError A) (Q : A → D → Prop) : (∀ a, f d = Ok a → Q a d) → safe I d (query f) Q.
Proof. intros HQ. apply safe_statement. intros s Hs <-. by split. Qed.

Lemma set_view_ok d' s : conn_ok I s → I d' → conn_ok I (set_view d' s).
Proof. intros [Hv Hm Hs] Hd. split; [done| |done]. cbn. by destruct (c_tx s). Qed.

Lemma safe_execute {A} (f : D → res SqlError (A * D)) (Q : A → D → Prop) :
  (∀ a d', f d = Ok (a, d') → I d' ∧ Q a d') → safe I d (execute f) Q.
Proof.
  intros HQ. apply safe_statement. intros s Hs <-. destruct (f (c_view s)) as [[a d']|e|] eqn:Hf; cbn; [|by split..].
  destruct (HQ a d' eq_refl). split; [by apply set_view_ok|]. by intros ? [= <-].
Qed.
End safe.

Lemma safe_try {E F A} I d (c : M (conn D) E A) (Q : A → D → Prop) (R : res E A → D → Prop) :
  safe I d c Q → (∀ a d', I d' → Q a d' → R (Ok a) d') → (∀ e d', I d' → R (Err e) d') → safe (E:=F) I d (itry c) R.
Proof.
  intros Hc Ha He s Hs Hd. destruct (Hc s Hs Hd) as [Hok HQ]. unfold itry. destruct (c s) as [[a|e|] s1]; cbn in *; split; try done.
  - intros ? [= <-]. apply Ha; [apply Hok|auto].
  - intros ? [= <-]. apply He, Hok.
Qed.

(** *** Local computations *)

Lemma local_by {E A} (c : M (conn D) E A) (f : D → res E A * D) :
  (∀ s, calm_conn s → c s = ((f (c_view s)).1, set_view (f (c_view s)).2 s)) → local c ∧ ∀ d, alone c d = f d.
Proof.
  intros Hc. assert (∀ d, alone c d = f d) as Ha.
  { intros d. unfold alone. rewrite Hc by done. cbn. by destruct (f d). }
  split; [|done]. intros s Hs. by rewrite Ha, Hc.
Qed.

Lemma run_of {E A} (r : res E A) : local (iof r) ∧ ∀ d, alone (iof r) d = (r, d).
Proof. apply local_by. intros s Hs. unfold iof. cbn. by rewrite set_view_id. Qed.
Lemma run_query {A} (f : D → res SqlError A) : local (query f) ∧ ∀ d, alone (query f) d = (f d, d).
Proof.
  apply local_by. intros s Hs. unfold query, statement, sql_tick. rewrite (proj1 Hs). cbn. by rewrite set_view_id.
Qed.
Lemma run_execute {A} (f : D → res SqlError (A * D)) :
  local (execute f) ∧ ∀ d, alone (execute f) d = match f d with Ok (a, d') => (Ok a, d') | Err e => (Err e, d) | Panic => (Panic, d) end.
Proof.
  apply local_by. intros s Hs. unfold execute, statement, sql_tick. rewrite (proj1 Hs).
  destruct (f (c_view s)) as [[a d']|e|]; cbn; [done|by rewrite set_view_id..].
Qed.
Lemma run_bind {E A B} (c : M (conn D) E A) (k : A → M (conn D) E B) : local c → (∀ a, local (k a)) →
  local (ibind c k) ∧ ∀ d, alone (ibind c k) d =
    match alone c d with (Ok a, d') => alone (k a) d' | (Err e, d') => (Err e, d') | (Panic, d') => (Panic, d') end.
Proof.
  intros Hc Hk. apply local_by. intros s Hs. unfold ibind. rewrite (Hc s Hs). destruct (alone c (c_view s)) as [[a|e|] d']; cbn; [|done..].
  rewrite (Hk a) by by apply set_view_calm. cbn. by rewrite set_view_twice.
Qed.
Lemma run_map_err {E F A} (f : E → F) (c : M (conn D) E A) : local c →
  local (imap_err f c) ∧ ∀ d, alone (imap_err f c) d = (map_err f (alone c d).1, (alone c d).2).
Proof. intros Hc. apply local_by. intros s Hs. unfold imap_err. by rewrite (Hc s Hs). Qed.
Lemma run_try {E F A} (c : M (conn D) E A) : local c →
  local (E:=F) (itry c) ∧ ∀ d, alone (E:=F) (itry c) d =
    match alone c d with (Panic, d') => (Panic, d') | (r, d') => (Ok r, d') end.
Proof.
  intros Hc. apply local_by. intros s Hs. unfold itry. rewrite (Hc s Hs). by destruct (alone c (c_view s)) as [[] ?].
Qed.
Lemma local_if {E A} (b : bool) (c c' : M (conn D) E A) : local c → local c' → local (if b then c else c').
Proof. by destruct b. Qed.

Lemma local_ret {E A} (a : A) : local (E:=E) (iret a).
Proof. apply (run_of (Ok a)). Qed.
Lemma local_err {E A} (e : E) : local (A:=A) (ierr e).
Proof. apply (run_of (Err e)). Qed.
Lemma local_panic {E A} : local (E:=E) (A:=A) ipanic.
Proof. apply (run_of Panic). Qed.
Lemma local_of {E A} (r : res E A) : local (iof r).
Proof. apply run_of. Qed.
Lemma local_query {A} (f : D → res SqlError A) : local (query f).
Proof. apply run_query. Qed.
Lemma local_execute {A} (f : D → res SqlError (A * D)) : local (execute f).
Proof. apply run_execute. Qed.
Lemma local_bind {E A B} (c : M (conn D) E A) (k : A → M (conn D) E B) : local c → (∀ a, local (k a)) → local (ibind c k).
Proof. intros. by apply run_bind. Qed.
Lemma local_map_err {E F A} (f : E → F) (c : M (conn D) E A) : local c → local (imap_err f c).
Proof. intros. by apply run_map_err. Qed.
Lemma local_try {E F A} (c : M (conn D) E A) : local c → local (E:=F) (itry c).
Proof. intros. by apply run_try. Qed.
Lemma local_for {E A} (l : list A) (f : A → M (conn D) E unit) : (∀ a, local (f a)) → local (ifor l f).
Proof. intros Hf. induction l; cbn [ifor]; [apply local_ret|by apply local_bind]. Qed.
End reasoning.

Create HintDb local.
#[export] Hint Resolve local_ret local_err local_panic local_of local_query local_execute local_bind local_map_err
  local_try local_if local_for : local.

(** [loc]: a computation made of statements is local. *)
Ltac loc := repeat first [ progress intros | case_match | solve [auto with local] | apply local_bind | apply local_map_err
  | apply local_try | apply local_for | apply local_if ].

(** One step of a computation whose error type is reached by [g]. *)
Section steps.
Context {D E A B : Type} (g : SqlError → E) (I : D → Prop) (d : D).

Lemma safe_query_step (f : D → res SqlError A) (k : A → M (conn D) E B) R :
  I d → (∀ a, f d = Ok a → safe I d (k a) R) → safe I d (ibind (imap_err g (query f)) k) R.
Proof.
  intros Hd Hk. eapply (safe_bind _ _ _ _ (λ a d', d' = d ∧ f d = Ok a)).
  - apply safe_map_err, safe_query. auto.
  - intros a d' _ [-> Ha]. by apply Hk.
Qed.
Lemma safe_execute_step (f : D → res SqlError (A * D)) (k : A → M (conn D) E B) R :
  (∀ a d', f d = Ok (a, d') → I d' ∧ safe I d' (k a) R) → safe I d (ibind (imap_err g (execute f)) k) R.
Proof.
  intros Hk. eapply (safe_bind _ _ _ _ (λ a d', f d = Ok (a, d'))).
  - apply safe_map_err, safe_execute. intros a d' Ha. split; [by apply (Hk a d')|done].
  - intros a d' _ Ha. by apply Hk.
Qed.
Lemma safe_of_step (r : res E A) (k : A → M (conn D) E B) R :
  (∀ a, r = Ok a → safe I d (k a) R) → safe I d (ibind (iof r) k) R.
Proof.
  intros Hk. eapply (safe_bind _ _ _ _ (λ a d', d' = d ∧ r = Ok a)).
  - apply safe_of. auto.
  - intros a d' _ [-> Ha]. by apply Hk.
Qed.
End steps.

(** [wp]: step through a computation. *)
Ltac wp :=
  repeat match goal with
  | |- safe _ _ (if _ then _ else _) _ => apply safe_if; intros
  | |- safe _ _ (ierr _) _ => apply safe_err
  | |- safe _ _ ipanic _ => apply safe_panic
  | |- safe _ _ (ibind (iof _) _) _ => apply safe_of_step; intros
  | |- safe _ _ (ibind (imap_err _ (query _)) _) _ => apply safe_query_step; [done|intros]
  | |- safe _ _ (ibind (imap_err _ (execute _)) _) _ => apply safe_execute_step; intros
  | |- safe _ _ (iret _) _ => apply safe_ret
  | |- safe _ _ (iof _) _ => apply safe_of; intros
  end.

(** ** Transaction control keeps what holds of all contents *)

Section control.
Context {D : Type} (I : D → Prop).

Definition keeps {E A} (c : M (conn D) E A) : Prop := ∀ s, conn_ok I s → conn_ok I (c s).2.

Lemma keeps_statement {A} (f : conn D → res SqlError A * conn D) :
  (∀ s, conn_ok I s → conn_ok I (f s).2) → keeps (statement f).
Proof.
  intros Hf s Hs. unfold statement. destruct (tick_ok I s Hs) as [Hs1 _]. destruct (sql_tick s) as [[| |] s1]; cbn in *;
    [by apply Hf|done|by apply rolled_back_ok].
Qed.

Lemma find_save_ok i l d rest : Forall (λ s : nat * D, I s.2) l → find_save i l = Some (d, rest) → I d ∧ Forall (λ s, I s.2) rest.
Proof. induction 1 as [|[j d0] l Hd Hl IH]; cbn; [done|]. case_match; [intros; by simplify_eq|done]. Qed.

Lemma keeps_begin : keeps begin_immediate.
Proof. apply keeps_statement. intros s Hok. destruct (c_tx s) eqn:Ht; cbn; [done|]. destruct Hok. split; [done..|]. by intros ? [= <-]. Qed.
Lemma keeps_savepoint i : keeps (savepoint i).
Proof.
  apply keeps_statement. intros s [Hv Hm Hs]. split; [done..|]. cbn. intros ? [= <-]. destruct (c_tx s) as [t|]; cbn; [|by repeat constructor].
  constructor; [done|by apply Hs].
Qed.
Lemma keeps_rollback_to i : keeps (rollback_to i).
Proof.
  apply keeps_statement. intros s Hok. pose proof Hok as [Hv Hm Hs]. destruct (c_tx s) as [t|] eqn:Ht; cbn; [|done].
  destruct (find_save i (tx_saves t)) as [[d rest]|] eqn:Hf; cbn; [|done].
  destruct (find_save_ok _ _ _ _ (Hs t eq_refl) Hf). split; [done..|]. cbn. intros ? [= <-]. by constructor.
Qed.
Lemma keeps_release i : keeps (release i).
Proof.
  apply keeps_statement. intros s Hok. pose proof Hok as [Hv Hm Hs]. destruct (c_tx s) as [t|] eqn:Ht; cbn; [|done].
  destruct (find_save i (tx_saves t)) as [[d rest]|] eqn:Hf; cbn; [|done].
  destruct (find_save_ok _ _ _ _ (Hs t eq_refl) Hf). destruct (tx_begun t), rest; cbn; split; try done; cbn; by intros ? [= <-].
Qed.
Lemma keeps_commit : keeps commit.
Proof. apply keeps_statement. intros s Hok. destruct (c_tx s) eqn:Ht; cbn; [|done]. by destruct Hok. Qed.
Lemma keeps_rollback : keeps rollback.
Proof. apply keeps_statement. intros s Hok. destruct (c_tx s) eqn:Ht; cbn; [|done]. by destruct Hok. Qed.

Lemma safe_keeps {E A} (c : M (conn D) E A) Q : (∀ d, I d → safe I d c Q) → keeps c.
Proof. intros Hc s Hs. by apply (Hc (c_view s) (ck_view _ _ Hs)). Qed.

Lemma keeps_bind {E A B} (c : M (conn D) E A) (k : A → M (conn D) E B) : keeps c → (∀ a, keeps (k a)) → keeps (ibind c k).
Proof. intros Hc Hk s Hs. specialize (Hc s Hs). unfold ibind. destruct (c s) as [[a|e|] s1]; cbn in *; [by apply Hk|done..]. Qed.
Lemma keeps_map_err {E F A} (f : E → F) (c : M (conn D) E A) : keeps c → keeps (imap_err f c).
Proof. intros Hc s Hs. specialize (Hc s Hs). unfold imap_err. by destruct (c s). Qed.

Lemma keeps_transaction {E A} (g : SqlError → E) (body : M (conn D) E A) : keeps body → keeps (in_transaction g body).
Proof.
  intros Hb. apply keeps_bind; [apply keeps_map_err, keeps_begin|]. intros _ s Hs. specialize (Hb s Hs).
  pose proof keeps_rollback as Hr. pose proof keeps_commit as Hc. destruct (body s) as [[a|e|] s1]; cbn in *.
  - specialize (Hc s1 Hb). destruct (commit s1) as [[x|x|] s2]; cbn in *; [done| |done]. specialize (Hr s2 Hc). by destruct (rollback s2).
  - specialize (Hr s1 Hb). by destruct (rollback s1).
  - specialize (Hr s1 Hb). by destruct (rollback s1).
Qed.
End control.
