(* ===== verification/Meta.v ===== *)
(** * The metadata database: tables, rows and writer commands

    Model of crates/snapstore-meta/src: the schema (migrations/*.sql), the
    row types (types.rs) and the command implementations of actor.rs.  A
    SQL statement is a function on the tables, which are finite maps from
    primary keys; a command is a computation on a connection.  Integers
    are stored as [i64], as SQLite does.  Message texts of errors are left
    out. *)

From Stdlib Require Import Floats.SpecFloat.
From S2P Require Import Prelude Types Fs Sql.

(** ** Tables *)

Abbreviation node_key := (ExperimentId * Z)%type.

Record node_sql := mk_node_sql {
  n_parent : option Z; n_depth : Z; n_ref : bytes; n_log : option bytes; n_status : Z;
  n_score : option spec_float; n_visits : sql_num; n_icount : Z; n_vns : Z;
  n_created : Z; n_updated : Z; n_visited : Z; n_attrs : option bytes;
}.
Record log_sql := mk_log_sql { l_version : Z; l_content : bytes; l_created : Z }.
Record kv_sql := mk_kv_sql { k_value : bytes; k_gen : Z; k_updated : Z }.
Record pin_sql := mk_pin_sql { p_note : option bytes; p_created : Z }.
Record meta_sql := mk_meta_sql { m_version : Z; m_uuid : bytes; m_counter : Z }.
Record gc_sql := mk_gc_sql { g_cycles : Z; g_fence : Z; g_finished : Z; g_freed : Z }.

(** A singleton table that may not have been created yet: [Some None] is
    a table without its row. *)
Record db := mk_db {
  d_nodes : gmap node_key node_sql;
  d_logs : gmap bytes log_sql;
  d_kv : gmap bytes kv_sql;
  d_pins : gmap bytes pin_sql;
  d_tombs : gmap node_key Z;
  d_meta : option (option meta_sql);
  d_gc : option (option gc_sql);
  d_migrations : gmap Z (string * Z);
}.

Definition set_nodes m d := mk_db m (d_logs d) (d_kv d) (d_pins d) (d_tombs d) (d_meta d) (d_gc d) (d_migrations d).
Definition set_logs m d := mk_db (d_nodes d) m (d_kv d) (d_pins d) (d_tombs d) (d_meta d) (d_gc d) (d_migrations d).
Definition set_kv m d := mk_db (d_nodes d) (d_logs d) m (d_pins d) (d_tombs d) (d_meta d) (d_gc d) (d_migrations d).
Definition set_pins m d := mk_db (d_nodes d) (d_logs d) (d_kv d) m (d_tombs d) (d_meta d) (d_gc d) (d_migrations d).
Definition set_tombs m d := mk_db (d_nodes d) (d_logs d) (d_kv d) (d_pins d) m (d_meta d) (d_gc d) (d_migrations d).
Definition set_meta m d := mk_db (d_nodes d) (d_logs d) (d_kv d) (d_pins d) (d_tombs d) m (d_gc d) (d_migrations d).
Definition set_gc m d := mk_db (d_nodes d) (d_logs d) (d_kv d) (d_pins d) (d_tombs d) (d_meta d) m (d_migrations d).
Definition set_migrations m d := mk_db (d_nodes d) (d_logs d) (d_kv d) (d_pins d) (d_tombs d) (d_meta d) (d_gc d) m.

(** ** Row and parameter types *)

Record NodeRow := mk_row {
  experiment_id : ExperimentId; node_id : NodeId; parent_node_id : option NodeId; depth : Z;
  snapshot_ref_of : SnapshotRef; input_log_id : option LogId; status : NodeStatus; score : option spec_float;
  visit_count : Z; icount : Z; virtual_ns : Z; created_at : Z; updated_at : Z; last_visited_at : Z;
  attrs : option bytes;
}.

Record CreateNodeParams := mk_create {
  cp_experiment : ExperimentId; cp_node : NodeId; cp_parent : option NodeId; cp_ref : SnapshotRef;
  cp_log : option LogId; cp_inline : option bytes; cp_status : NodeStatus; cp_score : option spec_float;
  cp_icount : Z; cp_vns : Z; cp_attrs : option bytes;
}.

Record NodeUpdate := mk_update {
  u_node : NodeId; u_status : option NodeStatus; u_score : option spec_float; u_attrs : option bytes;
  u_visit_delta : Z; u_touch : bool; u_icount : option Z; u_vns : option Z;
}.
Definition update_new (n : NodeId) : NodeUpdate := mk_update n None None None 0 false None None.

Record GcStateRow := mk_gc_state {
  cycles_total : Z; last_fence_counter : Z; last_finished_at : Z; last_freed_bytes : Z;
}.

Inductive MetaError :=
  | MSqlite (e : SqlError)
  | MIo
  | ActorDead
  | FutureVersion (found supported : Z)
  | ParentNotFound
  | MAlreadyExists
  | MissingNodes (ns : list NodeId)
  | PruneRootDenied
  | CasFailed (current : Z)
  | InvalidArgument
  | LogIdMismatch
  | LogTooSmall
  | LogTooLarge
  | InvalidNodeStatus (b : Z).

Record MetaConfig := mk_meta_config { input_log_max_bytes : Z }.

Definition DEFAULT_INPUT_LOG_MAX_BYTES : Z := 16 * 1024 * 1024.
Definition KV_KEY_MAX : Z := 512.
Definition KV_VALUE_MAX : Z := 16 * 1024 * 1024.
Definition INPUT_LOG_MIN_BYTES : Z := 56.

Abbreviation SQL A := (M (conn db) SqlError A).
Abbreviation MC A := (M (conn db) MetaError A).

(** [?] on a rusqlite result. *)
Definition sql {A} (c : SQL A) : MC A := imap_err MSqlite c.

(** ** Conversions *)

Definition node_id_to_sql (n : NodeId) : Z := as_i64 n.
Definition status_to_sql (s : NodeStatus) : Z := status_as_u8 s.

Definition key (e : ExperimentId) (n : NodeId) : node_key := (e, node_id_to_sql n).

Definition row_to_node (k : node_key) (r : node_sql) : res SqlError NodeRow :=
  let? visits := get_i64 8 (n_visits r) in
  let? st := ok_or (InvalidColumnType 6) (status_from_u8 (as_u8 (n_status r))) in
  let? e := map_err (λ _, InvalidColumnType 0) (ExperimentId_new k.1) in
  let? snap := slice 0 32 (n_ref r) in
  let? log := match n_log r with
              | None => Ok None
              | Some b => let? l := slice 0 32 b in Ok (Some l)
              end in
  Ok (mk_row e (as_u64 k.2) (as_u64 <$> n_parent r) (as_u32 (n_depth r)) snap log st (n_score r)
        (as_u64 visits) (as_u64 (n_icount r)) (as_u64 (n_vns r)) (as_u64 (n_created r)) (as_u64 (n_updated r))
        (as_u64 (n_visited r)) (n_attrs r)).

(** ** Statements *)

(** [SELECT ... WHERE experiment_id=?1 AND node_id=?2]. *)
Definition select_node (k : node_key) (d : db) : res SqlError (option NodeRow) :=
  match d_nodes d !! k with
  | None => Ok None
  | Some r => let? row := row_to_node k r in Ok (Some row)
  end.
Definition fetch_node (e : ExperimentId) (n : NodeId) : SQL (option NodeRow) := query (select_node (key e n)).

(** [SELECT COUNT of nodes] with that key, [> 0]. *)
Definition node_exists (e : ExperimentId) (n : NodeId) : SQL bool :=
  query (λ d, Ok (bool_decide (is_Some (d_nodes d !! key e n)))).

(** The foreign key [(experiment_id, parent_node_id)] of one row. *)
Definition fk_row (nodes : gmap node_key node_sql) (k : node_key) (r : node_sql) : Prop :=
  match n_parent r with None => True | Some p => is_Some (nodes !! (k.1, p)) end.
#[global] Instance fk_row_dec nodes k r : Decision (fk_row nodes k r).
Proof. unfold fk_row. destruct (n_parent r); apply _. Defined.

Definition insert_node (k : node_key) (r : node_sql) (d : db) : res SqlError (Z * db) :=
  bail_if bool_decide (is_Some (d_nodes d !! k)) with ConstraintViolation in
  let nodes := <[k := r]> (d_nodes d) in
  bail_if negb (bool_decide (fk_row nodes k r)) with ConstraintViolation in
  Ok (1, set_nodes nodes d).

(** [UPDATE nodes SET ... WHERE] the primary key. *)
Definition update_node (k : node_key) (f : node_sql → node_sql) (d : db) : res SqlError (Z * db) :=
  match d_nodes d !! k with
  | None => Ok (0, d)
  | Some r => Ok (1, set_nodes (<[k := f r]> (d_nodes d)) d)
  end.

Definition set_n_status v r := mk_node_sql (n_parent r) (n_depth r) (n_ref r) (n_log r) v (n_score r) (n_visits r)
  (n_icount r) (n_vns r) (n_created r) (n_updated r) (n_visited r) (n_attrs r).
Definition set_n_score v r := mk_node_sql (n_parent r) (n_depth r) (n_ref r) (n_log r) (n_status r) v (n_visits r)
  (n_icount r) (n_vns r) (n_created r) (n_updated r) (n_visited r) (n_attrs r).
Definition set_n_visits v r := mk_node_sql (n_parent r) (n_depth r) (n_ref r) (n_log r) (n_status r) (n_score r) v
  (n_icount r) (n_vns r) (n_created r) (n_updated r) (n_visited r) (n_attrs r).
Definition set_n_icount v r := mk_node_sql (n_parent r) (n_depth r) (n_ref r) (n_log r) (n_status r) (n_score r) (n_visits r)
  v (n_vns r) (n_created r) (n_updated r) (n_visited r) (n_attrs r).
Definition set_n_vns v r := mk_node_sql (n_parent r) (n_depth r) (n_ref r) (n_log r) (n_status r) (n_score r) (n_visits r)
  (n_icount r) v (n_created r) (n_updated r) (n_visited r) (n_attrs r).
Definition set_n_updated v r := mk_node_sql (n_parent r) (n_depth r) (n_ref r) (n_log r) (n_status r) (n_score r) (n_visits r)
  (n_icount r) (n_vns r) (n_created r) v (n_visited r) (n_attrs r).
Definition set_n_visited v r := mk_node_sql (n_parent r) (n_depth r) (n_ref r) (n_log r) (n_status r) (n_score r) (n_visits r)
  (n_icount r) (n_vns r) (n_created r) (n_updated r) v (n_attrs r).
Definition set_n_attrs v r := mk_node_sql (n_parent r) (n_depth r) (n_ref r) (n_log r) (n_status r) (n_score r) (n_visits r)
  (n_icount r) (n_vns r) (n_created r) (n_updated r) (n_visited r) v.

(** The recursive common table expression [subtree]: the rows of one step
    are the children of the rows of the step before.  On a cycle of parents
    SQLite would not stop; here the fuel ends and the result is [None]. *)
Definition children (d : db) (e : ExperimentId) (p : Z) : list Z :=
  (λ x : node_key * node_sql, x.1.2) <$> filter (λ x, x.1.1 = e ∧ n_parent x.2 = Some p) (map_to_list (d_nodes d)).

Fixpoint subtree_from (fuel : nat) (d : db) (e : ExperimentId) (layer : list Z) : option (list Z) :=
  match layer with
  | [] => Some []
  | _ =>
      match fuel with
      | O => None
      | S fuel' => rest ← subtree_from fuel' d e (layer ≫= children d e); Some (layer ++ rest)
      end
  end.

(** The tree has no more levels than rows. *)
Definition subtree (d : db) (k : node_key) : option (list Z) :=
  match d_nodes d !! k with
  | None => Some []
  | Some _ => subtree_from (S (size (d_nodes d))) d k.1 [k.2]
  end.

Definition in_subtree (e : ExperimentId) (ids : list Z) (k : node_key) : Prop := k.1 = e ∧ k.2 ∈ ids.
#[global] Instance in_subtree_dec e ids k : Decision (in_subtree e ids k).
Proof. unfold in_subtree. apply _. Defined.

(** [UPDATE nodes SET status=?3, updated_at=?4 WHERE ... IN subtree]. *)
Definition mark_subtree (k : node_key) (st counter : Z) (d : db) : res SqlError (Z * db) :=
  match subtree d k with
  | None => Panic
  | Some ids =>
      Ok (zlen (map_to_list (filter (λ x, in_subtree k.1 ids x.1) (d_nodes d))),
          set_nodes (map_imap (λ k' r, Some (if decide (in_subtree k.1 ids k')
                                             then set_n_updated counter (set_n_status st r) else r)) (d_nodes d)) d)
  end.

(** The rows of the subtree whose status is not [st]. *)
Definition count_other_status (k : node_key) (st : Z) (d : db) : res SqlError Z :=
  match subtree d k with
  | None => Panic
  | Some ids => Ok (zlen (map_to_list (filter (λ x, in_subtree k.1 ids x.1 ∧ n_status x.2 ≠ st) (d_nodes d))))
  end.

(** [DELETE FROM nodes WHERE ... IN subtree]; the foreign keys are checked
    once the statement has finished. *)
Definition delete_subtree (k : node_key) (d : db) : res SqlError (Z * db) :=
  match subtree d k with
  | None => Panic
  | Some ids =>
      let nodes := filter (λ x, ¬ in_subtree k.1 ids x.1) (d_nodes d) in
      bail_if negb (bool_decide (map_Forall (fk_row nodes) nodes)) with ConstraintViolation in
      Ok (zlen (map_to_list (filter (λ x, in_subtree k.1 ids x.1) (d_nodes d))), set_nodes nodes d)
  end.

(** Whether a node refers to log [l]. *)
Definition log_used (nodes : gmap node_key node_sql) (l : bytes) : Prop := ¬ map_Forall (λ _ r, n_log r ≠ Some l) nodes.
#[global] Instance log_used_dec nodes l : Decision (log_used nodes l).
Proof. unfold log_used. apply _. Defined.
Definition delete_unused_logs (d : db) : res SqlError (Z * db) :=
  Ok (zlen (map_to_list (filter (λ x, ¬ log_used (d_nodes d) x.1) (d_logs d))),
      set_logs (filter (λ x, log_used (d_nodes d) x.1) (d_logs d)) d).

(** [INSERT OR IGNORE] and [DELETE] by primary key; the result is the
    number of rows changed. *)
Definition insert_or_ignore {K V} `{Countable K} (k : K) (v : V) (m : gmap K V) : Z * gmap K V :=
  match m !! k with Some _ => (0, m) | None => (1, <[k := v]> m) end.
Definition delete_key {K V} `{Countable K} (k : K) (m : gmap K V) : Z * gmap K V :=
  match m !! k with Some _ => (1, delete k m) | None => (0, m) end.

(** ** Commands *)

Section commands.
Context `{Blake3}.

Definition bytes_ok (lo hi : Z) (b : bytes) : bool := (lo <=? zlen b) && (zlen b <=? hi).

(** [put_input_log_impl]. *)
Definition insert_log (l : LogId) (r : log_sql) (d : db) : res SqlError (Z * db) :=
  let '(n, m) := insert_or_ignore l r (d_logs d) in Ok (n, set_logs m d).

Definition put_input_log_impl (l : LogId) (container : bytes) (counter : Z) (config : MetaConfig) : MC bool :=
  fail_if zlen container <? INPUT_LOG_MIN_BYTES with LogTooSmall in
  fail_if input_log_max_bytes config <? zlen container with LogTooLarge in
  let! hash_region := iof (slice 0 (zlen container - 32) container) in
  fail_if negb (bool_decide (blake3 hash_region = l)) with LogIdMismatch in
  let! inner := (if 12 <=? zlen container then let! b := iof (slice 8 12 container) in iret (from_le b) else iret 0) in
  let! rows := sql (execute (insert_log l (mk_log_sql inner container (as_i64 counter)))) in
  iret (0 <? rows).

(** [u32] addition, with overflow checks. *)
Definition checked_add_u32 (a b : Z) : option Z := if a + b <? 2 ^ 32 then Some (a + b) else None.

(** The depth a new node gets. *)
Definition check_parent_node (p : CreateNodeParams) : MC Z :=
  match cp_parent p with
  | None => iret 0
  | Some parent =>
      let! found := sql (fetch_node (cp_experiment p) parent) in
      match found with
      | None => ierr ParentNotFound
      | Some row =>
          if bool_decide (status row = Pruned) then ierr ParentNotFound
          else iof (expect (checked_add_u32 (depth row) 1))
      end
  end.

(** The input log a new node names: stored already, or stored now. *)
Definition ensure_log (p : CreateNodeParams) (counter : Z) (config : MetaConfig) : MC unit :=
  match cp_log p with
  | None => iret tt
  | Some l =>
      let! present := sql (query (λ d, Ok (bool_decide (is_Some (d_logs d !! l))))) in
      if (present : bool) then iret tt else
      match cp_inline p with
      | Some container => let! _ := put_input_log_impl l container counter config in iret tt
      | None => ierr InvalidArgument
      end
  end.

Definition new_node (p : CreateNodeParams) (dep counter : Z) : node_sql :=
  mk_node_sql (node_id_to_sql <$> cp_parent p) dep (cp_ref p) (cp_log p) (status_to_sql (cp_status p))
    (f ← cp_score p; bind_f64 f) (SInt 0) (as_i64 (cp_icount p)) (as_i64 (cp_vns p))
    (as_i64 counter) (as_i64 counter) 0 (cp_attrs p).

(** The immutable fields of a stored row against a repeated create. *)
Definition same_node (row : NodeRow) (p : CreateNodeParams) : bool :=
  bool_decide (parent_node_id row = cp_parent p) && bool_decide (snapshot_ref_of row = cp_ref p)
  && bool_decide (input_log_id row = cp_log p).

Definition create_node_impl (p : CreateNodeParams) (counter : Z) (config : MetaConfig) : MC NodeRow :=
  fail_if is_root (cp_node p) && bool_decide (is_Some (cp_parent p)) with InvalidArgument in
  fail_if negb (is_root (cp_node p)) && bool_decide (cp_parent p = None) with InvalidArgument in
  let! dep := check_parent_node p in
  ensure_log p counter config ;!
  let! inserted := itry (execute (insert_node (key (cp_experiment p) (cp_node p)) (new_node p dep counter))) in
  match inserted with
  | Ok _ =>
      let! row := sql (fetch_node (cp_experiment p) (cp_node p)) in
      iof (ok_or InvalidArgument row)
  | Err ConstraintViolation =>
      let! found := sql (fetch_node (cp_experiment p) (cp_node p)) in
      let! existing := iof (ok_or MAlreadyExists found) in
      if same_node existing p then iret existing else ierr MAlreadyExists
  | Err e => ierr (MSqlite e)
  | Panic => ipanic
  end.

(** First pass of [update_nodes_impl]: the ids that do not exist. *)
Fixpoint missing_nodes (e : ExperimentId) (updates : list NodeUpdate) : MC (list NodeId) :=
  match updates with
  | [] => iret []
  | u :: rest =>
      let! found := sql (node_exists e (u_node u)) in
      let! missing := missing_nodes e rest in
      iret (if (found : bool) then missing else u_node u :: missing)
  end.

Definition set_column (k : node_key) (f : node_sql → node_sql) : MC unit :=
  let! _ := sql (execute (update_node k f)) in iret tt.
Definition set_if_some {V} (k : node_key) (o : option V) (f : V → node_sql → node_sql) : MC unit :=
  match o with Some v => set_column k (f v) | None => iret tt end.

(** One update: one statement per column that changes. *)
Definition apply_update (e : ExperimentId) (counter : Z) (u : NodeUpdate) : MC unit :=
  let k := key e (u_node u) in
  set_column k (set_n_updated (as_i64 counter)) ;!
  set_if_some k (u_status u) (λ s, set_n_status (status_to_sql s)) ;!
  set_if_some k (u_score u) (λ f, set_n_score (bind_f64 f)) ;!
  set_if_some k (u_attrs u) (λ b, set_n_attrs (Some b)) ;!
  (if u_visit_delta u =? 0 then iret tt
   else set_column k (λ r, set_n_visits (integer_affinity (sql_add (n_visits r) (u_visit_delta u))) r)) ;!
  (if u_touch u then set_column k (set_n_visited (as_i64 counter)) else iret tt) ;!
  set_if_some k (u_icount u) (λ n, set_n_icount (as_i64 n)) ;!
  set_if_some k (u_vns u) (λ n, set_n_vns (as_i64 n)).

Definition update_nodes_impl (e : ExperimentId) (updates : list NodeUpdate) (counter : Z) : MC Z :=
  match updates with
  | [] => iret counter
  | _ =>
      let! missing := missing_nodes e updates in
      fail_if negb (bool_decide (missing = [])) with MissingNodes missing in
      ifor updates (apply_update e counter) ;!
      iret counter
  end.

(** ** Key-value metadata *)

Definition select_gen (k : bytes) : SQL (option Z) := query (λ d, Ok (k_gen <$> d_kv d !! k)).

(** The [CasFailed] error: generation 0 stands for an absent key. *)
Definition cas_failed {A} (k : bytes) : MC A :=
  let! current := sql (select_gen k) in
  ierr (CasFailed (as_u64 (default 0 current))).

Definition upsert_kv (k : bytes) (v : kv_sql) (d : db) : res SqlError (Z * db) :=
  Ok (1, set_kv (<[k := v]> (d_kv d)) d).
Definition insert_kv (k : bytes) (v : kv_sql) (d : db) : res SqlError (Z * db) :=
  bail_if bool_decide (is_Some (d_kv d !! k)) with ConstraintViolation in
  Ok (1, set_kv (<[k := v]> (d_kv d)) d).
(** [UPDATE ... SET generation=generation+1 WHERE key=?3 AND generation=?4]. *)
Definition cas_kv (k value : bytes) (updated gen : Z) (d : db) : res SqlError (Z * db) :=
  match d_kv d !! k with
  | Some r => if k_gen r =? gen then Ok (1, set_kv (<[k := mk_kv_sql value (k_gen r + 1) updated]> (d_kv d)) d)
              else Ok (0, d)
  | None => Ok (0, d)
  end.
Definition delete_kv (k : bytes) (gen : option Z) (d : db) : res SqlError (Z * db) :=
  match d_kv d !! k with
  | Some r =>
      if match gen with None => true | Some g => k_gen r =? g end
      then Ok (1, set_kv (delete k (d_kv d)) d) else Ok (0, d)
  | None => Ok (0, d)
  end.

Definition put_metadata_impl (k value : bytes) (expected : option Z) (counter : Z) : MC Z :=
  fail_if negb (bytes_ok 1 KV_KEY_MAX k) with InvalidArgument in
  fail_if KV_VALUE_MAX <? zlen value with InvalidArgument in
  match expected with
  | None =>
      let! current := sql (select_gen k) in
      let new_gen := match current with Some g => g + 1 | None => 1 end in
      let! _ := sql (execute (upsert_kv k (mk_kv_sql value new_gen (as_i64 counter)))) in
      iret (as_u64 new_gen)
  | Some 0 =>
      let! inserted := itry (execute (insert_kv k (mk_kv_sql value 1 (as_i64 counter)))) in
      match inserted with
      | Ok _ => iret 1
      | Err ConstraintViolation => cas_failed k
      | Err e => ierr (MSqlite e)
      | Panic => ipanic
      end
  | Some expected_gen =>
      let! rows := sql (execute (cas_kv k value (as_i64 counter) (as_i64 expected_gen))) in
      if rows =? 0 then cas_failed k else
      let! new_gen := sql (select_gen k) in
      let! g := iof (ok_or (MSqlite QueryReturnedNoRows) new_gen) in
      iret (as_u64 g)
  end.

Definition delete_metadata_impl (k : bytes) (expected : option Z) : MC bool :=
  fail_if negb (bytes_ok 1 KV_KEY_MAX k) with InvalidArgument in
  let! rows := sql (execute (delete_kv k (as_i64 <$> expected))) in
  if negb (rows =? 0) then iret true else
  match expected with
  | None => iret false
  | Some _ =>
      let! current := sql (select_gen k) in
      match current with Some g => ierr (CasFailed (as_u64 g)) | None => iret false end
  end.

(** ** Pins *)

Definition insert_pin (r : SnapshotRef) (v : pin_sql) (d : db) : res SqlError (Z * db) :=
  let '(n, m) := insert_or_ignore r v (d_pins d) in Ok (n, set_pins m d).
Definition delete_pin (r : SnapshotRef) (d : db) : res SqlError (Z * db) :=
  let '(n, m) := delete_key r (d_pins d) in Ok (n, set_pins m d).

Definition pin_impl (r : SnapshotRef) (note : option bytes) (counter : Z) : MC unit :=
  let! _ := sql (execute (insert_pin r (mk_pin_sql note (as_i64 counter)))) in iret tt.
Definition unpin_impl (r : SnapshotRef) : MC bool :=
  let! rows := sql (execute (delete_pin r)) in iret (0 <? rows).

(** ** Pruning and reaping *)

Definition insert_tomb (k : node_key) (counter : Z) (d : db) : res SqlError (Z * db) :=
  let '(n, m) := insert_or_ignore k counter (d_tombs d) in Ok (n, set_tombs m d).
Definition delete_tomb (k : node_key) (d : db) : res SqlError (Z * db) :=
  let '(n, m) := delete_key k (d_tombs d) in Ok (n, set_tombs m d).

Definition prune_subtree_impl (e : ExperimentId) (n : NodeId) (allow_root : bool) (counter : Z) : MC Z :=
  fail_if is_root n && negb allow_root with PruneRootDenied in
  let! found := sql (node_exists e n) in
  fail_if negb found with MissingNodes [n] in
  let! rows := sql (execute (mark_subtree (key e n) (status_to_sql Pruned) (as_i64 counter))) in
  let! _ := sql (execute (insert_tomb (key e n) (as_i64 counter))) in
  iret rows.

Definition reap_tombstone_impl (e : ExperimentId) (n : NodeId) : MC Z :=
  let! found := sql (node_exists e n) in
  if negb found then iret 0 else
  let! others := sql (query (count_other_status (key e n) (status_to_sql Pruned))) in
  fail_if 0 <? others with InvalidArgument in
  let! rows := sql (execute (delete_subtree (key e n))) in
  let! _ := sql (execute delete_unused_logs) in
  let! _ := sql (execute (delete_tomb (key e n))) in
  iret rows.

(** ** Collection state *)

Definition update_gc (g : gc_sql) (d : db) : res SqlError (Z * db) :=
  match d_gc d with
  | None => Err SqliteFailure
  | Some None => Ok (0, d)
  | Some (Some _) => Ok (1, set_gc (Some (Some g)) d)
  end.

Definition set_gc_state_impl (s : GcStateRow) : MC unit :=
  let! rows := sql (execute (update_gc (mk_gc_sql (as_i64 (cycles_total s)) (as_i64 (last_fence_counter s))
                                          (as_i64 (last_finished_at s)) (as_i64 (last_freed_bytes s))))) in
  fail_if rows =? 0 with MIo in
  iret tt.

(** ** Dispatch *)

Inductive ActorCmd :=
  | CreateNode (p : CreateNodeParams)
  | UpdateNodes (e : ExperimentId) (updates : list NodeUpdate)
  | PutInputLog (l : LogId) (container : bytes)
  | PutMetadata (k value : bytes) (expected : option Z)
  | DeleteMetadata (k : bytes) (expected : option Z)
  | Pin (r : SnapshotRef) (note : option bytes)
  | Unpin (r : SnapshotRef)
  | PruneSubtree (e : ExperimentId) (n : NodeId) (allow_root : bool)
  | ReapTombstone (e : ExperimentId) (n : NodeId)
  | SetGcState (s : GcStateRow).

(** What a command replies with when it succeeds. *)
Inductive reply := RNode (row : NodeRow) | RU64 (n : Z) | RBool (b : bool) | RUnit.

Definition as_reply {A} (f : A → reply) (c : MC A) : MC reply := let! a := c in iret (f a).

Definition dispatch_cmd (cmd : ActorCmd) (counter : Z) (config : MetaConfig) : MC reply :=
  match cmd with
  | CreateNode p => as_reply RNode (create_node_impl p counter config)
  | UpdateNodes e us => as_reply RU64 (update_nodes_impl e us counter)
  | PutInputLog l c => as_reply RBool (put_input_log_impl l c counter config)
  | PutMetadata k v g => as_reply RU64 (put_metadata_impl k v g counter)
  | DeleteMetadata k g => as_reply RBool (delete_metadata_impl k g)
  | Pin r note => as_reply (λ _, RUnit) (pin_impl r note counter)
  | Unpin r => as_reply RBool (unpin_impl r)
  | PruneSubtree e n allow => as_reply RU64 (prune_subtree_impl e n allow counter)
  | ReapTombstone e n => as_reply RU64 (reap_tombstone_impl e n)
  | SetGcState s => as_reply (λ _, RUnit) (set_gc_state_impl s)
  end.

(** ** The writer actor *)

Record WriterActor := mk_actor { w_conn : conn db; w_counter : Z; w_config : MetaConfig }.

Definition on_conn {E A} (c : M (conn db) E A) : M WriterActor E A :=
  zoom w_conn (λ c w, mk_actor c (w_counter w) (w_config w)) c.
(** [let _ = ...]: the outcome is dropped. *)
Definition ignore {S E F A} (c : M S E A) : M S F unit := let! _ := itry c in iret tt.

(** [Shutdown] only ends [run]; it never reaches a batch. *)
Inductive message := Cmd (c : ActorCmd) | Shutdown.

(** One command inside its savepoint; a panic kills the thread. *)
Definition run_command (i : nat) (cmd : ActorCmd) : M WriterActor Empty_set (res MetaError reply) := λ w,
  let '(r, w) := on_conn (dispatch_cmd cmd (w_counter w) (w_config w)) w in
  let w := mk_actor (w_conn w) (w_counter w + 1) (w_config w) in
  match r with
  | Ok a => (ignore (on_conn (release i)) ;! iret (Ok a)) w
  | Err e => (ignore (on_conn (rollback_to i)) ;! ignore (on_conn (release i)) ;! iret (Err e)) w
  | Panic => (Panic, w)
  end.

(** The commands of a batch from index [i]; also whether the counter
    advanced. *)
Fixpoint run_commands (i : nat) (batch : list ActorCmd) : M WriterActor Empty_set (bool * list (res MetaError reply)) :=
  match batch with
  | [] => iret (false, [])
  | cmd :: rest =>
      let! sp := itry (on_conn (savepoint i)) in
      match sp with
      | Ok _ =>
          let! result := run_command i cmd in
          let! ' (_, results) := run_commands (S i) rest in
          iret (true, result :: results)
      | _ =>
          let! ' (dirty, results) := run_commands (S i) rest in
          iret (dirty, Err MIo :: results)
      end
  end.

Definition update_counter (n : Z) (d : db) : res SqlError (Z * db) :=
  match d_meta d with
  | None => Err SqliteFailure
  | Some None => Ok (0, d)
  | Some (Some m) => Ok (1, set_meta (Some (Some (mk_meta_sql (m_version m) (m_uuid m) n))) d)
  end.

(** [execute_batch]: the replies, one per command, sent after the commit. *)
Definition execute_batch (batch : list ActorCmd) : M WriterActor Empty_set (list (res MetaError reply)) :=
  let! begun := itry (on_conn begin_immediate) in
  match begun with
  | Ok _ =>
      let! ' (counter_dirty, results) := run_commands 0 batch in
      (if (counter_dirty : bool)
       then λ w, ignore (on_conn (execute (update_counter (as_i64 (w_counter w))))) w
       else iret tt) ;!
      let! done := itry (on_conn commit) in
      match done with Ok _ => iret tt | _ => ignore (on_conn rollback) end ;!
      iret results
  | _ => iret (const (Err MIo) <$> batch)
  end.

Definition WRITE_BATCH_MAX : nat := 256.

(** What [try_recv] drains after the first command: at most [room]
    messages, [avail] of which have arrived; [true] on [Shutdown]. *)
Fixpoint drain (room avail : nat) (queue : list message) : list ActorCmd * bool * list message :=
  match room, avail, queue with
  | S room', S avail', Cmd c :: rest =>
      let '(cs, stop, rest') := drain room' avail' rest in (c :: cs, stop, rest')
  | S _, S _, Shutdown :: rest => ([], true, rest)
  | _, _, _ => ([], false, queue)
  end.

(** [run]: [arrived] says, for each batch, how many further messages had
    arrived when it was drained. *)
Fixpoint run (arrived : list nat) (queue : list message) : M WriterActor Empty_set (list (res MetaError reply)) :=
  match arrived, queue with
  | avail :: later, Cmd first :: rest =>
      let '(cs, stop, rest') := drain (WRITE_BATCH_MAX - 1) avail rest in
      let! results := execute_batch (first :: cs) in
      if (stop : bool) then iret results else
      let! more := run later rest' in
      iret (results ++ more)
  | _, _ => iret []
  end.

End commands.
