(* ===== verification/MetaRead.v ===== *)
(** * The metadata database: reads, handle and schema

    Model of pool.rs, lib.rs and schema.rs of crates/snapstore-meta/src.  A
    read is a function on the committed tables.  The order in which SQLite
    visits rows that a query leaves unordered is a parameter. *)

From Stdlib Require Import Floats.SpecFloat.
From S2P Require Import Prelude Types Fs Sql Meta.

(** The engine's order of rows: any order, the same rows. *)
Class Scan := {
  scan : ∀ A, list A → list A;
  scan_perm : ∀ A (l : list A), scan A l ≡ₚ l;
}.
#[global] Arguments scan {_ A} _.

(** [rows.collect::<Result<Vec<_>, _>>()]. *)
Fixpoint rcollect {E A B} (f : A → res E B) (l : list A) : res E (list B) :=
  match l with
  | [] => Ok []
  | x :: rest => let? y := f x in let? ys := rcollect f rest in Ok (y :: ys)
  end.

Record PinRow := mk_pin_row { pin_ref : SnapshotRef; pin_note : option bytes; pin_created : Z }.
Record TombstoneRow := mk_tomb_row { tomb_experiment : ExperimentId; tomb_node : NodeId; tomb_created : Z }.

Inductive QueryOrder := ByCreatedAt | ByUpdatedAt | ByNodeId.
Record QueryFilter := mk_filter {
  q_experiment : ExperimentId; q_status : option NodeStatus; q_parent : option NodeId;
  q_min_depth : option Z; q_max_depth : option Z; q_order : QueryOrder;
  q_created_after : option Z; q_updated_after : option Z; q_limit : option Z;
}.
Definition filter_new (e : ExperimentId) : QueryFilter := mk_filter e None None None None ByCreatedAt None None None.
Definition effective_limit (f : QueryFilter) : Z := Z.min (default 512 (q_limit f)) 4096.

Record StatsRow := mk_stats {
  experiments_count : Z; total_nodes : Z; pins_count : Z; tombstones_count : Z; logical_counter : Z;
  kv_count : Z; input_logs_count : Z; input_logs_bytes : Z;
  exp_nodes_frontier : Z; exp_nodes_expanded : Z; exp_nodes_pruned : Z; exp_nodes_goal : Z;
  exp_max_depth : Z; exp_input_log_count : Z;
}.

(** ** Read operations (pool.rs) *)

Abbreviation node_entry := (node_key * node_sql)%type.
Definition entry_to_node (x : node_entry) : res SqlError NodeRow := row_to_node x.1 x.2.

Section reads.
Context `{Scan}.

Definition get_node (e : ExperimentId) (n : NodeId) (d : db) : res SqlError (option NodeRow) := select_node (key e n) d.

(** [SELECT ... FROM nodes WHERE P ORDER BY col ASC]. *)
Definition select_nodes (P : node_entry → Prop) `{∀ x, Decision (P x)} (col : node_entry → Z) (d : db) : list node_entry :=
  sort_by_key col (scan (filter P (map_to_list (d_nodes d)))).

Definition get_children (e : ExperimentId) (n : NodeId) (d : db) : res SqlError (list NodeRow) :=
  rcollect entry_to_node (select_nodes (λ x, x.1.1 = e ∧ n_parent x.2 = Some (node_id_to_sql n)) (λ x, x.1.2) d).

(** The recursive table [path_cte]: a row and, while it has one, its
    parent's id.  No more steps than rows on a tree. *)
Fixpoint path_from (fuel : nat) (d : db) (e : ExperimentId) (n : Z) : option (list Z) :=
  match d_nodes d !! (e, n) with
  | None => Some [n]
  | Some r =>
      match n_parent r with
      | None => Some [n]
      | Some p =>
          match fuel with
          | O => None
          | S fuel' => rest ← path_from fuel' d e p; Some (n :: rest)
          end
      end
  end.
Definition path_ids (e : ExperimentId) (n : NodeId) (d : db) : option (list Z) :=
  match d_nodes d !! key e n with
  | None => Some []
  | Some _ => path_from (size (d_nodes d)) d e (node_id_to_sql n)
  end.

Definition get_input_log (l : LogId) (d : db) : res SqlError (option bytes) := Ok (l_content <$> d_logs d !! l).

Definition path_entry (include_logs : bool) (d : db) (row : NodeRow) : res SqlError (NodeRow * option bytes) :=
  if include_logs then
    match input_log_id row with
    | Some l => let? b := get_input_log l d in Ok (row, b)
    | None => Ok (row, None)
    end
  else Ok (row, None).

Definition get_path (e : ExperimentId) (n : NodeId) (include_logs : bool) (d : db)
    : res SqlError (list (NodeRow * option bytes)) :=
  let? ids := expect (path_ids e n d) in
  let? rows := rcollect entry_to_node (select_nodes (λ x, in_subtree e ids x.1) (λ x, n_depth x.2) d) in
  rcollect (path_entry include_logs d) rows.

(** [(?N IS NULL OR cond)]. *)
Definition opt_test {A} (o : option A) (P : A → Prop) : Prop := match o with None => True | Some a => P a end.
#[global] Instance opt_test_dec {A} (o : option A) (P : A → Prop) `{∀ a, Decision (P a)} : Decision (opt_test o P).
Proof. unfold opt_test. destruct o; apply _. Defined.

Definition query_where (f : QueryFilter) (x : node_entry) : Prop :=
  x.1.1 = q_experiment f ∧
  opt_test (q_status f) (λ s, n_status x.2 = status_to_sql s) ∧
  opt_test (q_parent f) (λ p, n_parent x.2 = Some (node_id_to_sql p)) ∧
  opt_test (q_min_depth f) (λ v, v ≤ n_depth x.2) ∧
  opt_test (q_max_depth f) (λ v, n_depth x.2 ≤ v) ∧
  opt_test (q_created_after f) (λ v, as_i64 v < n_created x.2) ∧
  opt_test (q_updated_after f) (λ v, as_i64 v < n_updated x.2).
#[global] Instance query_where_dec f x : Decision (query_where f x).
Proof. unfold query_where. apply _. Defined.

Definition order_col (o : QueryOrder) (x : node_entry) : Z :=
  match o with ByCreatedAt => n_created x.2 | ByUpdatedAt => n_updated x.2 | ByNodeId => x.1.2 end.

(** The rows of one page, before conversion. *)
Definition query_page (f : QueryFilter) (d : db) : list node_entry :=
  take (Z.to_nat (effective_limit f)) (select_nodes (query_where f) (order_col (q_order f)) d).
Definition query_nodes (f : QueryFilter) (d : db) : res SqlError (list NodeRow) := rcollect entry_to_node (query_page f d).

Definition get_metadata (k : bytes) (d : db) : res SqlError (option (bytes * Z)) :=
  Ok ((λ r, (k_value r, as_u64 (k_gen r))) <$> d_kv d !! k).

Definition list_pins (d : db) : res SqlError (list PinRow) :=
  rcollect (λ x : bytes * pin_sql, let? r := slice 0 32 x.1 in Ok (mk_pin_row r (p_note x.2) (as_u64 (p_created x.2))))
    (sort_by_key (λ x : bytes * pin_sql, p_created x.2) (scan (map_to_list (d_pins d)))).

(** [SELECT snapshot_ref FROM nodes UNION SELECT snapshot_ref FROM pins]. *)
Definition root_blobs (d : db) : gset bytes :=
  list_to_set (n_ref <$> (map_to_list (d_nodes d)).*2) ∪ dom (d_pins d).
Definition gc_root_refs (d : db) : res SqlError (list SnapshotRef) := rcollect (slice 0 32) (scan (elements (root_blobs d))).

Definition list_tombstones (horizon : Z) (d : db) : res SqlError (list TombstoneRow) :=
  let horizon := as_i64 (Z.min horizon (2 ^ 63 - 1)) in
  rcollect (λ x : node_key * Z,
      let? e := map_err (λ _, InvalidColumnType 0) (ExperimentId_new x.1.1) in
      Ok (mk_tomb_row e (as_u64 x.1.2) (as_u64 x.2)))
    (sort_by_key snd (scan (filter (λ x : node_key * Z, x.2 ≤ horizon) (map_to_list (d_tombs d))))).

Definition gc_state (d : db) : res SqlError GcStateRow :=
  match d_gc d with
  | None => Err SqliteFailure
  | Some None => Err QueryReturnedNoRows
  | Some (Some g) => Ok (mk_gc_state (as_u64 (g_cycles g)) (as_u64 (g_fence g)) (as_u64 (g_finished g)) (as_u64 (g_freed g)))
  end.

Definition select_counter (d : db) : res SqlError Z :=
  match d_meta d with
  | None => Err SqliteFailure
  | Some None => Err QueryReturnedNoRows
  | Some (Some m) => Ok (m_counter m)
  end.

(** Distinct experiments, in the order of their bytes. *)
Fixpoint bytes_leb (a b : bytes) : bool :=
  match a, b with
  | [], _ => true
  | _, [] => false
  | x :: a', y :: b' =>
      if byte.unsigned x <? byte.unsigned y then true
      else if byte.unsigned y <? byte.unsigned x then false else bytes_leb a' b'
  end.
Definition experiment_set (d : db) : gset bytes := list_to_set ((map_to_list (d_nodes d)).*1.*1).
Definition list_experiments (d : db) : res MetaError (list ExperimentId) :=
  rcollect (λ s, map_err (λ _, MIo) (ExperimentId_new s)) (stable_sort bytes_leb (elements (experiment_set d))).

Definition count_nodes (P : node_entry → Prop) `{∀ x, Decision (P x)} (d : db) : Z :=
  zlen (filter P (map_to_list (d_nodes d))).
Definition count_status (e : ExperimentId) (s : NodeStatus) (d : db) : Z :=
  count_nodes (λ x, x.1.1 = e ∧ n_status x.2 = status_as_u8 s) d.
Definition max_depth (e : ExperimentId) (d : db) : Z :=
  match n_depth <$> (filter (λ x : node_entry, x.1.1 = e) (map_to_list (d_nodes d))).*2 with
  | [] => 0
  | z :: rest => foldr Z.max z rest
  end.
Definition log_count (e : ExperimentId) (d : db) : Z :=
  zlen (elements (list_to_set (omap n_log (filter (λ x : node_entry, x.1.1 = e) (map_to_list (d_nodes d))).*2) : gset bytes)).

Definition stats (exp : option ExperimentId) (d : db) : res SqlError StatsRow :=
  let? counter := select_counter d in
  let of_exp {A} (z : A) (f : ExperimentId → A) := match exp with None => z | Some e => f e end in
  Ok (mk_stats (zlen (elements (experiment_set d))) (zlen (map_to_list (d_nodes d))) (zlen (map_to_list (d_pins d)))
        (zlen (map_to_list (d_tombs d))) (as_u64 counter) (zlen (map_to_list (d_kv d))) (zlen (map_to_list (d_logs d)))
        (foldr Z.add 0 ((λ x : bytes * log_sql, zlen (l_content x.2)) <$> map_to_list (d_logs d)))
        (of_exp 0 (λ e, count_status e Frontier d)) (of_exp 0 (λ e, count_status e Expanded d))
        (of_exp 0 (λ e, count_status e Pruned d)) (of_exp 0 (λ e, count_status e Goal_ d))
        (of_exp 0 (λ e, as_u32 (max_depth e d))) (of_exp 0 (λ e, log_count e d))).

End reads.

(** ** Schema (schema.rs) *)

Section schema.
Context (new_uuid : bytes) (now : Z).

Definition SUPPORTED_VERSION : Z := 2.

(** [seed_meta_rows]. *)
Definition seed_meta_rows : MC unit :=
  let! _ := sql (execute (λ d, match d_meta d with
    | None => Err SqliteFailure
    | Some None => Ok (1, set_meta (Some (Some (mk_meta_sql 1 new_uuid 0))) d)
    | Some (Some _) => Ok (0, d) end)) in
  let! _ := sql (execute (λ d, let '(n, m) := insert_or_ignore 1 ("001_initial"%string, now) (d_migrations d) in
                               Ok (n, set_migrations m d))) in
  iret tt.

(** The two migration scripts; [CREATE TABLE] fails on an existing table. *)
Definition migration_001 (d : db) : res SqlError (Z * db) :=
  match d_meta d with
  | Some _ => Err SqliteFailure
  | None => Ok (0, mk_db ∅ ∅ ∅ ∅ ∅ (Some None) (d_gc d) (d_migrations d))
  end.
Definition migration_002 (d : db) : res SqlError (Z * db) :=
  match d_gc d with
  | Some _ => Err SqliteFailure
  | None => Ok (0, set_gc (Some (Some (mk_gc_sql 0 0 0 0))) d)
  end.
Definition set_version (v : Z) (d : db) : res SqlError (Z * db) :=
  match d_meta d with
  | None => Err SqliteFailure
  | Some None => Ok (0, d)
  | Some (Some m) => Ok (1, set_meta (Some (Some (mk_meta_sql v (m_uuid m) (m_counter m)))) d)
  end.

Definition apply_migration_step (target : Z) : MC unit := in_transaction MSqlite (
  if target =? 1 then
    let! _ := sql (execute migration_001) in
    seed_meta_rows
  else if target =? 2 then
    let! _ := sql (execute migration_002) in
    let! _ := sql (execute (set_version 2)) in
    let! _ := sql (execute (λ d, let '(n, m) := insert_or_ignore 2 ("002_gc_state"%string, now) (d_migrations d) in
                                 Ok (n, set_migrations m d))) in
    iret tt
  else ierr MIo).

(** The loop of [run_migration]; [Panic] when the fuel ends. *)
Fixpoint run_migration (fuel : nat) : MC unit :=
  match fuel with
  | O => ipanic
  | S fuel' =>
      let! has_meta := sql (query (λ d, Ok (bool_decide (is_Some (d_meta d))))) in
      let! version :=
        (if (has_meta : bool) then sql (query (λ d, match d_meta d with
           | None => Err SqliteFailure | Some m => Ok (m_version <$> m) end))
         else iret (Some 0)) in
      match version with
      | None => seed_meta_rows ;! run_migration fuel'
      | Some v =>
          fail_if SUPPORTED_VERSION <? v with FutureVersion v SUPPORTED_VERSION in
          if v =? SUPPORTED_VERSION then iret tt else
          apply_migration_step (v + 1) ;! run_migration fuel'
      end
  end.

(** [SELECT COALESCE(MAX(col), 0) FROM nodes]. *)
Definition max_col (col : node_sql → Z) (d : db) : Z :=
  match col <$> (map_to_list (d_nodes d)).*2 with
  | [] => 0
  | z :: rest => foldr Z.max z rest
  end.

Definition rederive_counter : MC Z :=
  let! persisted := sql (query (λ d, match d_meta d with
    | None => Err SqliteFailure | Some m => Ok (default 0 (m_counter <$> m)) end)) in
  let! max_created := sql (query (λ d, Ok (max_col n_created d))) in
  let! max_updated := sql (query (λ d, Ok (max_col n_updated d))) in
  iret (saturating_add (as_u64 (Z.max (Z.max persisted max_created) max_updated)) 1).

(** [MetaDb::open_with_config] up to the start of the actor thread. *)
Definition open_meta (fuel : nat) (config : MetaConfig) : MC WriterActor := λ c,
  match (run_migration fuel ;! rederive_counter) c with
  | (Ok n, c') => (Ok (mk_actor c' n config), c')
  | (Err e, c') => (Err e, c')
  | (Panic, c') => (Panic, c')
  end.
End schema.

(** ** The handle (lib.rs)

    A call sends one command and waits for its reply; a reader connection
    sees what is committed and may fail as well.  Other callers' commands
    in the same batch are separate calls here, which batching allows
    ([batching_transparent] in MetaBatch). *)
Record MetaDb := mk_meta { md_actor : WriterActor; md_alive : bool; md_read_faults : list bool }.

Definition md_db (m : MetaDb) : db := c_main (w_conn (md_actor m)).

Definition meta_call `{Blake3} (cmd : ActorCmd) : M MetaDb MetaError reply := λ m,
  if md_alive m then
    match execute_batch [cmd] (md_actor m) with
    | (Ok [r], a) => (r, mk_meta a true (md_read_faults m))
    | (_, a) => (Err ActorDead, mk_meta a false (md_read_faults m))
    end
  else (Err ActorDead, m).

Definition meta_read {A} (f : db → res MetaError A) : M MetaDb MetaError A := λ m,
  match md_read_faults m with
  | true :: rest => (Err (MSqlite SqliteFailure), mk_meta (md_actor m) (md_alive m) rest)
  | false :: rest => (f (md_db m), mk_meta (md_actor m) (md_alive m) rest)
  | [] => (f (md_db m), m)
  end.
Definition meta_query {A} (f : db → res SqlError A) : M MetaDb MetaError A := meta_read (λ d, map_err MSqlite (f d)).

(** The replies of the typed calls. *)
Definition call_node `{Blake3} (c : ActorCmd) : M MetaDb MetaError NodeRow :=
  let! r := meta_call c in match r with RNode row => iret row | _ => ierr ActorDead end.
Definition call_u64 `{Blake3} (c : ActorCmd) : M MetaDb MetaError Z :=
  let! r := meta_call c in match r with RU64 n => iret n | _ => ierr ActorDead end.
Definition call_bool `{Blake3} (c : ActorCmd) : M MetaDb MetaError bool :=
  let! r := meta_call c in match r with RBool b => iret b | _ => ierr ActorDead end.
Definition call_unit `{Blake3} (c : ActorCmd) : M MetaDb MetaError unit :=
  let! r := meta_call c in match r with RUnit => iret tt | _ => ierr ActorDead end.
