(* ===== verification/MetaInv.v ===== *)
(** * Invariant of the metadata database

    What every command keeps, whatever statement fails: rows decode, every
    experiment is a tree with its depths, logs are content-addressed and
    the ones nodes name are stored, and the logical clock is ahead of every
    stamp, with no two nodes created at the same time. *)

From Stdlib Require Import Floats.SpecFloat.
From S2P Require Import Prelude Types Fs Sql Meta MetaRead.

(** ** The invariant *)

Record row_ok (k : node_key) (r : node_sql) : Prop := {
  ro_experiment : 1 ≤ zlen k.1 ≤ EXPERIMENT_ID_MAX_BYTES;
  ro_id : i64_ok k.2;
  ro_parent : ∀ p, n_parent r = Some p → i64_ok p;
  ro_depth : 0 ≤ n_depth r < 2 ^ 32;
  ro_ref : hash_ok (n_ref r);
  ro_log : ∀ l, n_log r = Some l → hash_ok l;
  ro_status : ∃ s, n_status r = status_as_u8 s;
}.

(** The place of a row in its experiment's tree. *)
Definition linked (nodes : gmap node_key node_sql) (k : node_key) (r : node_sql) : Prop :=
  match n_parent r with
  | None => k.2 = 0 ∧ n_depth r = 0
  | Some p => k.2 ≠ 0 ∧ ∃ pr, nodes !! (k.1, p) = Some pr ∧ n_depth r = n_depth pr + 1
  end.

Definition stamped (clock : Z) (r : node_sql) : Prop :=
  0 ≤ n_created r ∧ n_created r ≤ n_updated r ∧ n_updated r < clock ∧ 0 ≤ n_visited r < clock.

Section inv.
Context {HB : Blake3} (config : MetaConfig).

Definition log_ok (l : bytes) (r : log_sql) : Prop :=
  hash_ok l ∧ INPUT_LOG_MIN_BYTES ≤ zlen (l_content r) ≤ input_log_max_bytes config ∧
  blake3 (sub 0 (zlen (l_content r) - 32) (l_content r)) = l.

Definition kv_ok (k : bytes) (r : kv_sql) : Prop :=
  1 ≤ zlen k ≤ KV_KEY_MAX ∧ zlen (k_value r) ≤ KV_VALUE_MAX ∧ 1 ≤ k_gen r.

Record nodes_ok (clock : Z) (d : db) : Prop := {
  no_rows : map_Forall row_ok (d_nodes d);
  no_links : map_Forall (linked (d_nodes d)) (d_nodes d);
  no_stamps : map_Forall (λ _, stamped clock) (d_nodes d);
  no_unique : ∀ k1 k2 r1 r2, d_nodes d !! k1 = Some r1 → d_nodes d !! k2 = Some r2 → n_created r1 = n_created r2 → k1 = k2;
  no_logs : map_Forall (λ _ r, ∀ l, n_log r = Some l → is_Some (d_logs d !! l)) (d_nodes d);
}.

Record db_ok (clock : Z) (d : db) : Prop := {
  do_nodes : nodes_ok clock d;
  do_logs : map_Forall log_ok (d_logs d);
  do_kv : map_Forall kv_ok (d_kv d);
  do_pins : map_Forall (λ r v, hash_ok r ∧ 0 ≤ p_created v < clock) (d_pins d);
  do_tombs : map_Forall (λ k t, (1 ≤ zlen k.1 ≤ EXPERIMENT_ID_MAX_BYTES ∧ i64_ok k.2) ∧ 0 ≤ t < clock) (d_tombs d);
  do_meta : ∃ m, d_meta d = Some (Some m) ∧ 0 ≤ m_counter m ≤ clock;
  do_gc : ∃ g, d_gc d = Some (Some g);
}.

Lemma nodes_ok_mono c c' d : c ≤ c' → nodes_ok c d → nodes_ok c' d.
Proof.
  intros Hc [Hr Hl Hs Hu Hg]. split; [done..| |done|done]. eapply map_Forall_impl; [exact Hs|]. unfold stamped. lia.
Qed.
Lemma db_ok_mono c c' d : c ≤ c' → db_ok c d → db_ok c' d.
Proof.
  intros Hc [Hn Hl Hk Hp Ht (m & Hm & ?) Hg]. split; [by eapply nodes_ok_mono|done|done|..].
  - eapply map_Forall_impl; [exact Hp|]. cbn. intros; split_and!; naive_solver lia.
  - eapply map_Forall_impl; [exact Ht|]. cbn. intros; split_and!; naive_solver lia.
  - exists m. split; [done|lia].
  - done.
Qed.

(** ** Rows decode *)

Lemma slice_hash {E} b : hash_ok b → slice (E:=E) 0 32 b = Ok b.
Proof. intros Hb%hash_ok_zlen. rewrite slice_ok by lia. f_equal. by apply sub_all. Qed.

Definition node_of (k : node_key) (r : node_sql) (visits : Z) (s : NodeStatus) : NodeRow :=
  mk_row k.1 (as_u64 k.2) (as_u64 <$> n_parent r) (n_depth r) (n_ref r) (n_log r) s (n_score r)
    (as_u64 visits) (as_u64 (n_icount r)) (as_u64 (n_vns r)) (as_u64 (n_created r)) (as_u64 (n_updated r))
    (as_u64 (n_visited r)) (n_attrs r).

Lemma row_to_node_ok k r visits s :
  row_ok k r → n_visits r = SInt visits → n_status r = status_as_u8 s →
  row_to_node k r = Ok (node_of k r visits s).
Proof.
  intros [He Hi Hp Hd Hr Hl _] Hv Hs. unfold row_to_node. rewrite Hv. cbn [get_i64 rbind]. rewrite Hs.
  assert (as_u8 (status_as_u8 s) = status_as_u8 s) as -> by by destruct s. rewrite status_from_as. cbn [ok_or rbind].
  rewrite (proj2 (ExperimentId_new_ok k.1 k.1)) by done. cbn [map_err rbind]. rewrite slice_hash by done. cbn [rbind].
  unfold node_of. rewrite as_u32_id by (unfold u32_ok; lia). destruct (n_log r) as [l|] eqn:Hlog; [|done].
  rewrite slice_hash by auto. done.
Qed.

(** What a converted row says of the stored one. *)
Lemma row_to_node_inv k r row : row_ok k r → row_to_node k r = Ok row →
  ∃ visits s, n_visits r = SInt visits ∧ n_status r = status_as_u8 s ∧ row = node_of k r visits s.
Proof.
  intros Hok Hrow. destruct (n_visits r) as [v|f] eqn:Hv; [|unfold row_to_node in Hrow; by rewrite Hv in Hrow].
  destruct (ro_status _ _ Hok) as [s Hs]. rewrite (row_to_node_ok k r v s) in Hrow by done. injection Hrow as <-. eauto.
Qed.

Lemma select_node_inv clock k d row : nodes_ok clock d → select_node k d = Ok (Some row) →
  ∃ r visits s, d_nodes d !! k = Some r ∧ n_visits r = SInt visits ∧ n_status r = status_as_u8 s ∧ row = node_of k r visits s.
Proof.
  intros Hok. unfold select_node. destruct (d_nodes d !! k) as [r|] eqn:Hk; [|done]. intros Hs. rs_inv.
  pose proof (no_rows _ _ Hok k r Hk) as Hr. destruct (row_to_node_inv _ _ _ Hr Hc) as (v & s & ? & ? & ->). eauto 10.
Qed.

Lemma select_node_returns clock k d : nodes_ok clock d → select_node k d ≠ Panic.
Proof.
  intros Hd Hs. unfold select_node in Hs. destruct (d_nodes d !! k) as [r|] eqn:Hr; [|done].
  pose proof (no_rows _ _ Hd _ _ Hr) as Hrow. destruct (ro_status _ _ Hrow) as [s Hst].
  destruct (n_visits r) as [v|] eqn:Hv; [by rewrite (row_to_node_ok _ _ v s) in Hs|]. unfold row_to_node in Hs. by rewrite Hv in Hs.
Qed.

(** ** Statements *)

(** A change of a row that leaves its place in the tree alone. *)
Record row_step (clock : Z) (r r' : node_sql) : Prop := {
  rs_parent : n_parent r' = n_parent r;
  rs_depth : n_depth r' = n_depth r;
  rs_ref : n_ref r' = n_ref r;
  rs_log : n_log r' = n_log r;
  rs_created : n_created r' = n_created r;
  rs_status : n_status r' = n_status r ∨ ∃ s, n_status r' = status_as_u8 s;
  rs_stamped : stamped clock r → stamped clock r';
}.

Lemma row_step_refl c r : row_step c r r.
Proof. by split; auto. Qed.

Lemma row_step_ok c k r r' : row_step c r r' → row_ok k r → row_ok k r'.
Proof.
  intros [Hp Hd Hr Hl _ Hs _] [? ? ? ? ? ? [s Hst]]. split; rewrite ?Hp, ?Hd, ?Hr, ?Hl; auto.
  destruct Hs as [->|?]; eauto.
Qed.

(** Rows replaced by such changes, key by key. *)
Lemma nodes_step_ok c d nodes' :
  nodes_ok c d → (∀ k, option_Forall2 (row_step c) (d_nodes d !! k) (nodes' !! k)) → nodes_ok c (set_nodes nodes' d).
Proof.
  intros [Hr Hl Hs Hu Hg] Hst.
  assert (∀ k r', nodes' !! k = Some r' → ∃ r, d_nodes d !! k = Some r ∧ row_step c r r') as Hb.
  { intros k r' Hk. specialize (Hst k). rewrite Hk in Hst. inversion Hst; subst. eauto. }
  assert (∀ k r, d_nodes d !! k = Some r → ∃ r', nodes' !! k = Some r' ∧ row_step c r r') as Hf.
  { intros k r Hk. specialize (Hst k). rewrite Hk in Hst. inversion Hst; subst. eauto. }
  split; cbn.
  - intros k r' Hk. destruct (Hb _ _ Hk) as (r & Hk0 & Hs0). eapply row_step_ok; [done|]. by apply Hr.
  - intros k r' Hk. destruct (Hb _ _ Hk) as (r & Hk0 & Hs0). specialize (Hl k r Hk0). unfold linked in *.
    rewrite (rs_parent _ _ _ Hs0), (rs_depth _ _ _ Hs0). destruct (n_parent r) as [p|]; [|done].
    destruct Hl as (? & pr & Hpr & Hd). split; [done|]. destruct (Hf _ _ Hpr) as (pr' & Hpr' & Hs1).
    exists pr'. by rewrite (rs_depth _ _ _ Hs1).
  - intros k r' Hk. destruct (Hb _ _ Hk) as (r & Hk0 & Hs0). apply Hs0. by eapply Hs.
  - intros k1 k2 r1 r2 H1 H2 Heq. destruct (Hb _ _ H1) as (r1' & ? & S1), (Hb _ _ H2) as (r2' & ? & S2).
    rewrite (rs_created _ _ _ S1), (rs_created _ _ _ S2) in Heq. by eapply Hu.
  - intros k r' Hk l. destruct (Hb _ _ Hk) as (r & Hk0 & Hs0). rewrite (rs_log _ _ _ Hs0). by eapply Hg.
Qed.

Lemma db_ok_set_nodes c d nodes' : db_ok c d → nodes_ok c (set_nodes nodes' d) → db_ok c (set_nodes nodes' d).
Proof. intros [Hn Hl Hk Hp Ht Hm Hg] Hn'. by split. Qed.

Lemma update_node_ok c k f d n d' :
  db_ok c d → (∀ r, row_step c r (f r)) → update_node k f d = Ok (n, d') → db_ok c d'.
Proof.
  intros Hok Hf. unfold update_node. destruct (d_nodes d !! k) as [r|] eqn:Hk; intros [= <- <-]; [|done].
  apply db_ok_set_nodes; [done|]. apply nodes_step_ok; [apply Hok|]. intros k'. destruct (decide (k' = k)) as [->|Hne].
  - rewrite lookup_insert_eq, Hk. constructor. apply Hf.
  - rewrite lookup_insert_ne by done. destruct (d_nodes d !! k'); constructor. apply row_step_refl.
Qed.

Lemma mark_subtree_ok c k st t d n d' :
  db_ok c d → 0 ≤ t < c → (∀ k r, d_nodes d !! k = Some r → n_created r ≤ t) →
  mark_subtree k (status_as_u8 st) t d = Ok (n, d') → db_ok c d'.
Proof.
  intros Hok Ht Hcr. unfold mark_subtree. destruct (subtree d k) as [ids|]; [|done]. intros [= <- <-].
  apply db_ok_set_nodes; [done|]. apply nodes_step_ok; [apply Hok|]. intros k'. rewrite map_lookup_imap.
  destruct (d_nodes d !! k') as [r|] eqn:Hk; cbn; constructor. case_decide; [|apply row_step_refl].
  split; cbn; eauto. unfold stamped. cbn. specialize (Hcr _ _ Hk). lia.
Qed.

Lemma delete_subtree_ok c k d n d' : db_ok c d → delete_subtree k d = Ok (n, d') → db_ok c d'.
Proof.
  intros Hok. unfold delete_subtree. destruct (subtree d k) as [ids|]; [|done]. intros Hr. rs_inv. b2p.
  apply db_ok_set_nodes; [done|]. destruct (do_nodes _ _ Hok) as [Hr Hl Hs Hu Hg]. rename Hb into Hfk.
  assert (∀ k' r, filter (λ x, ¬ in_subtree k.1 ids x.1) (d_nodes d) !! k' = Some r → d_nodes d !! k' = Some r) as Hsub.
  { intros k' r. rewrite map_lookup_filter_Some. by intros [? _]. }
  split; cbn.
  - intros k' r Hk%Hsub. by apply Hr.
  - intros k' r Hk. specialize (Hl k' r (Hsub _ _ Hk)). specialize (Hfk k' r Hk). unfold linked, fk_row in *.
    destruct (n_parent r) as [p|]; [|done]. destruct Hl as (? & pr & Hpr & Hd), Hfk as [pr' Hpr']. split; [done|].
    exists pr'. split; [done|]. by rewrite (Hsub _ _ Hpr') in Hpr; simplify_eq.
  - intros k' r Hk%Hsub. by eapply Hs.
  - intros k1 k2 r1 r2 H1%Hsub H2%Hsub. by eapply Hu.
  - intros k' r Hk%Hsub. by eapply Hg.
Qed.

Lemma delete_unused_logs_ok c d n d' : db_ok c d → delete_unused_logs d = Ok (n, d') → db_ok c d'.
Proof.
  intros [[Hr Hl Hs Hu Hg] Hlg Hk Hp Ht Hm Hgc] [= <- <-]. split; [|cbn; intros l v [? _]%map_lookup_filter_Some; by apply Hlg|done..].
  split; [done..|]. cbn. intros k r Hkr l Hrl. destruct (Hg k r Hkr l Hrl) as [v Hv]. exists v.
  apply map_lookup_filter_Some. split; [done|]. intros Hall. by apply (Hall k r Hkr).
Qed.

Lemma insert_node_ok c k r d n d' :
  db_ok c d → row_ok k r → linked (d_nodes d) k r → stamped c r →
  (∀ k' r', d_nodes d !! k' = Some r' → n_created r' ≠ n_created r) →
  (∀ l, n_log r = Some l → is_Some (d_logs d !! l)) →
  insert_node k r d = Ok (n, d') → db_ok c d' ∧ d_nodes d' !! k = Some r ∧ d_nodes d !! k = None.
Proof.
  intros Hok Hrow Hlk Hst Hun Hlog Hins. unfold insert_node in Hins. rs_inv. b2p. rename Hb into Hnew.
  apply eq_None_not_Some in Hnew. cbn. rewrite lookup_insert_eq. split; [|done]. apply db_ok_set_nodes; [done|].
  destruct (do_nodes _ _ Hok) as [Hr Hl Hs Hu Hg].
  assert (∀ k' v, d_nodes d !! k' = Some v → <[k:=r]> (d_nodes d) !! k' = Some v) as Hext.
  { intros k' v Hv. rewrite lookup_insert_ne; [done|]. intros <-. congruence. }
  assert (∀ k' v, linked (d_nodes d) k' v → linked (<[k:=r]> (d_nodes d)) k' v) as Hlext.
  { unfold linked. intros k' v. destruct (n_parent v); [|done]. intros (? & pr & Hpr & ?). split; [done|]. exists pr. auto. }
  split; cbn.
  - by apply map_Forall_insert_2.
  - apply map_Forall_insert_2; [auto|]. eapply map_Forall_impl; [exact Hl|]. auto.
  - by apply map_Forall_insert_2.
  - intros k1 k2 r1 r2. rewrite !lookup_insert_Some. intros [[<- <-]|[? H1]] [[<- <-]|[? H2]] Heq; [done|..].
    + by destruct (Hun _ _ H2).
    + by destruct (Hun _ _ H1).
    + by eapply Hu.
  - by apply map_Forall_insert_2.
Qed.

Lemma set_logs_ok c d m :
  db_ok c d → map_Forall log_ok m → (∀ l, is_Some (d_logs d !! l) → is_Some (m !! l)) → db_ok c (set_logs m d).
Proof.
  intros [[Hr Hl Hs Hu Hg] Hlg Hk Hp Ht Hm Hgc] Hm' Hsub. split; [split; try done|done..]. cbn.
  intros k r Hkr l Hrl. apply Hsub. by apply (Hg k r Hkr).
Qed.

Lemma insert_log_ok c l r d n d' :
  db_ok c d → log_ok l r → insert_log l r d = Ok (n, d') →
  db_ok c d' ∧ d_nodes d' = d_nodes d ∧ is_Some (d_logs d' !! l) ∧ (∀ l', is_Some (d_logs d !! l') → is_Some (d_logs d' !! l')).
Proof.
  intros Hok Hl. unfold insert_log, insert_or_ignore. destruct (d_logs d !! l) as [v|] eqn:Hv; intros [= <- <-]; cbn.
  - split_and!; [|done|by rewrite Hv|done]. by apply set_logs_ok; [|apply Hok|].
  - assert (∀ l', is_Some (d_logs d !! l') → is_Some (<[l:=r]> (d_logs d) !! l')) as Hsub.
    { intros l'. rewrite lookup_insert_is_Some'. auto. }
    split_and!; [|done|rewrite lookup_insert_eq; eauto|done]. apply set_logs_ok; [done| |done].
    apply map_Forall_insert_2; [done|apply Hok].
Qed.

Lemma set_kv_ok c d m : db_ok c d → map_Forall kv_ok m → db_ok c (set_kv m d).
Proof. intros [[] ? ? ? ? ? ?] ?. by split. Qed.

Lemma insert_or_ignore_Forall {K V} `{Countable K} (P : K → V → Prop) k v m :
  map_Forall P m → P k v → map_Forall P (insert_or_ignore k v m).2.
Proof. intros. unfold insert_or_ignore. case_match; [done|]. by apply map_Forall_insert_2. Qed.
Lemma delete_key_Forall {K V} `{Countable K} (P : K → V → Prop) k m : map_Forall P m → map_Forall P (delete_key k m).2.
Proof. intros. unfold delete_key. case_match; [|done]. by apply map_Forall_delete. Qed.

Lemma insert_pin_ok c r v d n d' :
  db_ok c d → hash_ok r → 0 ≤ p_created v < c → insert_pin r v d = Ok (n, d') → db_ok c d'.
Proof.
  intros [[] ? ? Hp ? ? ?] Hr Hv. pose proof (insert_or_ignore_Forall _ r v (d_pins d) Hp ltac:(done)) as Hnew. unfold insert_pin. destruct (insert_or_ignore _ _ _). intros [= <- <-]. by split.
Qed.
Lemma delete_pin_ok c r d n d' : db_ok c d → delete_pin r d = Ok (n, d') → db_ok c d'.
Proof.
  intros [[] ? ? Hp ? ? ?]. pose proof (delete_key_Forall _ r (d_pins d) Hp) as Hnew. unfold delete_pin. destruct (delete_key _ _). intros [= <- <-]. by split.
Qed.
Lemma insert_tomb_ok c k t d n d' :
  db_ok c d → (1 ≤ zlen k.1 ≤ EXPERIMENT_ID_MAX_BYTES ∧ i64_ok k.2) → 0 ≤ t < c → insert_tomb k t d = Ok (n, d') → db_ok c d'.
Proof.
  intros [[] ? ? ? Ht ? ?] Hr Hv. pose proof (insert_or_ignore_Forall _ k t (d_tombs d) Ht ltac:(done)) as Hnew. unfold insert_tomb. destruct (insert_or_ignore _ _ _). intros [= <- <-]. by split.
Qed.
Lemma delete_tomb_ok c k d n d' : db_ok c d → delete_tomb k d = Ok (n, d') → db_ok c d'.
Proof.
  intros [[] ? ? ? Ht ? ?]. pose proof (delete_key_Forall _ k (d_tombs d) Ht) as Hnew. unfold delete_tomb. destruct (delete_key _ _). intros [= <- <-]. by split.
Qed.
Lemma update_gc_ok c g d n d' : db_ok c d → update_gc g d = Ok (n, d') → db_ok c d'.
Proof. intros [[] ? ? ? ? ? [g0 Hg]]. unfold update_gc. rewrite Hg. intros [= <- <-]. split; try done. by exists g. Qed.
Lemma update_counter_ok c t d n d' : db_ok c d → 0 ≤ t ≤ c → update_counter t d = Ok (n, d') → db_ok c d'.
Proof.
  intros [[] ? ? ? ? (m & Hm & ?) ?] Ht. unfold update_counter. rewrite Hm. intros [= <- <-]. split; try done.
  eexists. split; [done|]. done.
Qed.

(** ** Commands *)

(** What the parameter types of the commands guarantee. *)
Definition experiment_ok (e : ExperimentId) : Prop := 1 ≤ zlen e ≤ EXPERIMENT_ID_MAX_BYTES.
Record create_ok (p : CreateNodeParams) : Prop := {
  cr_experiment : experiment_ok (cp_experiment p);
  cr_node : u64_ok (cp_node p);
  cr_parent : ∀ q, cp_parent p = Some q → u64_ok q;
  cr_ref : hash_ok (cp_ref p);
  cr_log : ∀ l, cp_log p = Some l → hash_ok l;
}.
Definition cmd_ok (cmd : ActorCmd) : Prop :=
  match cmd with
  | CreateNode p => create_ok p
  | PutInputLog l _ => hash_ok l
  | Pin r _ => hash_ok r
  | PruneSubtree e n _ => experiment_ok e ∧ u64_ok n
  | PutMetadata _ _ g | DeleteMetadata _ g => ∀ n, g = Some n → u64_ok n
  | _ => True
  end.

Section commands.
Context (now : Z) (Hnow : 0 ≤ now < 2 ^ 63).
Abbreviation I := (db_ok (now + 1)).

Lemma stamp_now : as_i64 now = now.
Proof. apply as_i64_id. unfold i64_ok. lia. Qed.

Lemma put_input_log_safe l container d (R : bool → db → Prop) :
  I d → hash_ok l →
  (∀ b d', I d' → d_nodes d' = d_nodes d → is_Some (d_logs d' !! l) →
    (∀ l', is_Some (d_logs d !! l') → is_Some (d_logs d' !! l')) → R b d') →
  safe I d (put_input_log_impl l container now config) R.
Proof.
  intros Hd Hl HR. unfold put_input_log_impl, sql. wp. b2p. match goal with H : slice _ _ _ = _ |- _ => apply slice_inv in H as (? & ? & ->) end.
  eapply (safe_bind _ _ _ _ (λ _ d', d' = d)); [wp; done|]. intros inner ? _ ->. wp.
  edestruct (insert_log_ok (now + 1)) as (Hok & Hn & Hs & Hsub); [exact Hd| |eassumption|].
  { split; [done|]. cbn. split; [done|]. congruence. }
  split; [done|]. wp. by apply HR.
Qed.

(** What a successful create leaves. *)
Definition created (p : CreateNodeParams) (row : NodeRow) (d : db) : Prop :=
  let k := key (cp_experiment p) (cp_node p) in
  ∃ r visits s, d_nodes d !! k = Some r ∧ n_visits r = SInt visits ∧ n_status r = status_as_u8 s ∧ row = node_of k r visits s ∧
    n_ref r = cp_ref p ∧ n_parent r = node_id_to_sql <$> cp_parent p ∧ n_log r = cp_log p.

Lemma check_parent_safe p d (R : Z → db → Prop) :
  I d → create_ok p →
  (cp_node p = 0 ↔ cp_parent p = None) →
  (∀ dep, 0 ≤ dep < 2 ^ 32 → (∀ r, n_parent r = node_id_to_sql <$> cp_parent p → n_depth r = dep →
    linked (d_nodes d) (key (cp_experiment p) (cp_node p)) r) → R dep d) →
  safe I d (check_parent_node p) R.
Proof.
  intros Hd Hp Hroot HR. unfold check_parent_node, sql. destruct (cp_parent p) as [q|] eqn:Hq.
  - unfold fetch_node. wp. destruct a as [row|]; [|wp]. wp. b2p. rename H into Hsel.
    apply (select_node_inv _ _ _ _ (do_nodes _ _ Hd)) in Hsel as (r & v & s & Hr & _ & Hs & ->).
    unfold checked_add_u32 in H1. cbn in H1. case_match; [|done]. injection H1 as <-. b2p.
    pose proof (no_rows _ _ (do_nodes _ _ Hd) _ _ Hr) as Hrow. pose proof (ro_depth _ _ Hrow). cbn in *. apply HR; [lia|].
    intros r' Hpar Hdep. unfold linked. rewrite Hpar. cbn. split; [|exists r; split; [exact Hr|done]].
    unfold node_id_to_sql. intros Hz. assert (cp_node p = 0); [|naive_solver]. apply as_i64_inj; [apply Hp|done|done].
  - wp. apply HR; [lia|]. intros r' Hpar Hdep. unfold linked. rewrite Hpar. cbn. split; [|done].
    unfold key, node_id_to_sql. cbn. rewrite (proj2 Hroot) by done. done.
Qed.

Lemma ensure_log_safe p d (R : unit → db → Prop) :
  I d → create_ok p →
  (∀ d', I d' → d_nodes d' = d_nodes d → (∀ l, cp_log p = Some l → is_Some (d_logs d' !! l)) → R tt d') →
  safe I d (ensure_log p now config) R.
Proof.
  intros Hd Hp HR. unfold ensure_log, sql. destruct (cp_log p) as [l|] eqn:Hl.
  - wp; simplify_eq; b2p; [apply HR; [done..|]; by intros ? [= <-]|].
    destruct (cp_inline p) as [c|]; [|wp]. eapply (safe_bind _ _ _ _ (λ _ d', d_nodes d' = d_nodes d ∧ is_Some (d_logs d' !! l))).
    + apply put_input_log_safe; [done|by apply Hp|done].
    + intros ? d' Hd' [Hn Hs]. wp. apply HR; [done..|]. by intros ? [= <-].
  - wp. by apply HR.
Qed.

Lemma new_node_ok p dep : create_ok p → 0 ≤ dep < 2 ^ 32 → row_ok (key (cp_experiment p) (cp_node p)) (new_node p dep now).
Proof.
  intros Hp Hdep. split; cbn; try apply Hp; try done; [apply as_i64_range| |by eexists].
  intros q. destruct (cp_parent p); [|done]. intros [= <-]. apply as_i64_range.
Qed.

Lemma same_node_fields k r v s p : row_ok k r → create_ok p → same_node (node_of k r v s) p = true →
  n_ref r = cp_ref p ∧ n_parent r = node_id_to_sql <$> cp_parent p ∧ n_log r = cp_log p.
Proof.
  intros Hr Hp Hs. unfold same_node in Hs. b2p. cbn in *. split_and!; [done| |done].
  destruct (n_parent r) as [q|] eqn:Hq; cbn in *.
  - destruct (cp_parent p); simplify_eq. cbn. unfold node_id_to_sql. rewrite as_i64_u64; [done|]. by eapply ro_parent.
  - by destruct (cp_parent p).
Qed.

Lemma insert_new_ok p dep d0 d n d' :
  db_ok now d0 → I d → create_ok p → d_nodes d = d_nodes d0 → 0 ≤ dep < 2 ^ 32 →
  linked (d_nodes d) (key (cp_experiment p) (cp_node p)) (new_node p dep now) →
  (∀ l, cp_log p = Some l → is_Some (d_logs d !! l)) →
  insert_node (key (cp_experiment p) (cp_node p)) (new_node p dep now) d = Ok (n, d') →
  I d' ∧ d_nodes d' !! key (cp_experiment p) (cp_node p) = Some (new_node p dep now).
Proof.
  intros Hd0 Hd Hp Hn Hdep Hlk Hlog Hins. edestruct (insert_node_ok (now + 1)) as (? & ? & ?); [exact Hd|by apply new_node_ok|done|..|exact Hins|done].
  - unfold stamped. cbn. rewrite stamp_now. lia.
  - intros k r Hr. rewrite Hn in Hr. pose proof (no_stamps _ _ (do_nodes _ _ Hd0) _ _ Hr) as (? & ? & ? & ?). cbn. rewrite stamp_now. lia.
  - done.
Qed.

Lemma create_node_safe p d : db_ok now d → create_ok p → safe I d (create_node_impl p now config) (created p).
Proof.
  intros Hd Hp. unfold create_node_impl. wp. rename H into H1, H0 into H2.
  assert (cp_node p = 0 ↔ cp_parent p = None) as Hroot.
  { unfold is_root in *. destruct (cp_parent p) as [q|], (Z.eqb_spec (cp_node p) 0) as [Hz|Hz]; cbn in H1, H2; naive_solver. }
  assert (I d) as HId by (eapply db_ok_mono; [|exact Hd]; lia).
  eapply safe_bind; [eapply (check_parent_safe p d (λ dep d', d' = d ∧ 0 ≤ dep < 2 ^ 32 ∧ linked (d_nodes d)
    (key (cp_experiment p) (cp_node p)) (new_node p dep now))); auto|]. intros dep d1 Hd1 (-> & Hdep & Hlk).
  eapply safe_bind; [eapply (ensure_log_safe p d (λ _ d', d_nodes d' = d_nodes d ∧ ∀ l, cp_log p = Some l → is_Some (d_logs d' !! l))); auto|].
  intros _ d1 Hd1' [Hn Hlog].
  eapply (safe_bind _ _ _ _ (λ r d2, ∀ x, r = Ok x → d_nodes d2 !! key (cp_experiment p) (cp_node p) = Some (new_node p dep now))).
  - eapply safe_try.
    + apply (safe_execute _ _ _ (λ _ d2, d_nodes d2 !! key (cp_experiment p) (cp_node p) = Some (new_node p dep now))).
      intros n d2 Hins. eapply insert_new_ok; try done. by rewrite Hn.
    + auto.
    + done.
  - intros x d2 Hd2 Hins. destruct x as [x|[]|]; try (by wp).
    + unfold sql, fetch_node. wp. apply ok_or_Ok in H0 as ->. 
      apply (select_node_inv _ _ _ _ (do_nodes _ _ Hd2)) in H as (r & v & s & Hr & ? & ? & ->).
      rewrite (Hins x eq_refl) in Hr. injection Hr as <-. exists (new_node p dep now), v, s. split_and!; try done. by apply (Hins x).
    + unfold sql, fetch_node. wp. apply ok_or_Ok in H0 as ->.
      apply (select_node_inv _ _ _ _ (do_nodes _ _ Hd2)) in H as (r & v & s & Hr & ? & ? & ->).
      exists r, v, s. split_and!; try done; eapply (same_node_fields _ r v s p); try done; by apply (no_rows _ _ (do_nodes _ _ Hd2)).
Qed.

(** *** Updates *)

Lemma set_column_safe k f d : I d → (∀ r, row_step (now + 1) r (f r)) → safe I d (set_column k f) (λ _ _, True).
Proof. intros Hd Hf. unfold set_column, sql. wp. split; [by eapply update_node_ok|]. by wp. Qed.
Lemma set_if_some_safe {V} k (o : option V) f d : I d → (∀ v r, row_step (now + 1) r (f v r)) → safe I d (set_if_some k o f) (λ _ _, True).
Proof. intros Hd Hf. unfold set_if_some. destruct o; [by apply set_column_safe|by wp]. Qed.

Lemma row_step_stamp r r' :
  n_parent r' = n_parent r → n_depth r' = n_depth r → n_ref r' = n_ref r → n_log r' = n_log r → n_created r' = n_created r →
  n_status r' = n_status r → n_updated r' = n_updated r ∨ n_updated r' = now → n_visited r' = n_visited r ∨ n_visited r' = now →
  row_step (now + 1) r r'.
Proof. intros ? ? ? ? Hc ? Hu Hv. split; auto. unfold stamped. rewrite Hc. destruct Hu as [->| ->], Hv as [->| ->]; lia. Qed.

Ltac column :=
  match goal with
  | |- safe _ _ (set_column _ _) _ => apply set_column_safe; [done|intros]
  | |- safe _ _ (set_if_some _ _ _) _ => apply set_if_some_safe; [done|intros]
  | |- safe _ _ (if _ then _ else _) _ => apply safe_if; intros; column
  | |- safe _ _ (iret _) _ => by apply safe_ret
  end.

Lemma apply_update_safe e u d : I d → safe I d (apply_update e now u) (λ _ _, True).
Proof.
  intros Hd. unfold apply_update. cbv zeta. rewrite stamp_now.
  do 7 (eapply (safe_bind _ _ _ _ (λ _ _, True)); [column; first [by apply row_step_stamp; auto | by split; cbn; eauto]|clear d Hd; intros _ d Hd _]).
  column. by apply row_step_stamp; auto.
Qed.

Lemma ifor_safe {A} (l : list A) (f : A → MC unit) d :
  I d → (∀ a d', I d' → safe I d' (f a) (λ _ _, True)) → safe I d (ifor l f) (λ _ _, True).
Proof.
  intros Hd Hf. revert d Hd. induction l as [|a l IH]; intros d Hd; cbn [ifor]; [by wp|].
  eapply safe_bind; [by apply Hf|]. intros. by apply IH.
Qed.

Lemma missing_nodes_safe e us d : I d → safe I d (missing_nodes e us) (λ _ _, True).
Proof.
  intros Hd. induction us as [|u us IH]; cbn [missing_nodes]; [by wp|]. unfold sql, node_exists. wp.
  eapply safe_bind; [exact IH|]. intros. by wp.
Qed.

Lemma update_nodes_safe e us d : I d → safe I d (update_nodes_impl e us now) (λ n _, n = now).
Proof.
  intros Hd. unfold update_nodes_impl. destruct us as [|u us]; [by wp|]. eapply safe_bind; [by apply missing_nodes_safe|].
  intros missing d' Hd' _. wp. eapply safe_bind; [apply ifor_safe; [done|]; intros; by apply apply_update_safe|]. intros. by wp.
Qed.

(** *** Key-value metadata *)

Lemma upsert_ok k v d : I d → kv_ok k v → I (set_kv (<[k := v]> (d_kv d)) d).
Proof. intros Hd Hv. apply set_kv_ok; [done|]. apply map_Forall_insert_2; [done|apply Hd]. Qed.

Lemma put_metadata_safe k v g d : I d → safe I d (put_metadata_impl k v g now) (λ _ _, True).
Proof.
  intros Hd. unfold put_metadata_impl, cas_failed, sql, select_gen. wp. b2p. rename H into Hk, H0 into Hv.
  unfold bytes_ok in Hk. b2p.
  assert (∀ gen t, 1 ≤ gen → kv_ok k (mk_kv_sql v gen t)) as Hkv by by split.
  destruct g as [g|]; [destruct (decide (g = 0)) as [->|Hg]|].
  - eapply safe_bind; [eapply (safe_try _ _ _ (λ _ _, True) (λ _ _, True)); [apply safe_execute|done..]|].
    + intros a d' Hi. unfold insert_kv in Hi. rs_inv. split; [|done]. apply upsert_ok; [done|]. apply Hkv. lia.
    + intros r d' Hd' _. destruct r as [|[]|]; by wp.
  - replace (match g with 0 => _ | _ => _ end) with (let! rows := imap_err MSqlite (execute (cas_kv k v (as_i64 now) (as_i64 g))) in
      if rows =? 0 then cas_failed k else let! new_gen := sql (select_gen k) in
      let! g0 := iof (ok_or (MSqlite QueryReturnedNoRows) new_gen) in iret (as_u64 g0)) by by destruct g.
    unfold cas_failed, sql, select_gen. wp. assert (I d') as Hd'.
    { unfold cas_kv in *. destruct (d_kv d !! k) as [r|] eqn:Hr; [|by simplify_eq]. case_match; simplify_eq; [|done].
      apply upsert_ok; [done|]. apply Hkv. pose proof (do_kv _ _ Hd _ _ Hr) as (_ & _ & ?). lia. }
    split; [done|]. by wp.
  - wp. unfold upsert_kv in *. simplify_eq. split; [|by wp]. apply upsert_ok; [done|]. apply Hkv.
    destruct (d_kv d !! k) as [r|] eqn:Hr; cbn; [|lia]. pose proof (do_kv _ _ Hd _ _ Hr) as (_ & _ & ?). lia.
Qed.

Lemma delete_metadata_safe k g d : I d → safe I d (delete_metadata_impl k g) (λ _ _, True).
Proof.
  intros Hd. unfold delete_metadata_impl, sql, select_gen. wp. assert (I d') as Hd'.
  { unfold delete_kv in *. repeat case_match; simplify_eq; try done; (apply set_kv_ok; [done|]; apply map_Forall_delete, Hd). }
  split; [done|]. destruct g; wp; [done| |done..]. destruct a0; by wp.
Qed.

(** *** The rest *)

Lemma prune_safe e n allow d : I d → experiment_ok e → safe I d (prune_subtree_impl e n allow now) (λ _ _, True).
Proof.
  intros Hd He. unfold prune_subtree_impl, sql, node_exists. wp. rewrite stamp_now in *. assert (I d') as Hd'.
  { eapply (mark_subtree_ok _ _ Pruned); [exact Hd| |..|eassumption]; [lia|]. intros k r Hr.
    pose proof (no_stamps _ _ (do_nodes _ _ Hd) _ _ Hr) as (? & ? & ? & ?). lia. }
  split; [done|]. wp. split; [|by wp]. eapply insert_tomb_ok; [exact Hd'| |..|eassumption]; [|lia].
  split; [done|]. apply as_i64_range.
Qed.

Lemma reap_safe e n d : I d → safe I d (reap_tombstone_impl e n) (λ _ _, True).
Proof.
  intros Hd. unfold reap_tombstone_impl, sql, node_exists. wp; [done|].
  assert (I d') by by eapply delete_subtree_ok. split; [done|]. wp. assert (I d'0) by by eapply delete_unused_logs_ok.
  split; [done|]. wp. split; [by eapply delete_tomb_ok|]. by wp.
Qed.

Lemma as_reply_safe {A} (f : A → reply) (c : MC A) d Q : safe I d c Q → safe I d (as_reply f c) (λ _ _, True).
Proof. intros Hc. unfold as_reply. eapply safe_bind; [exact Hc|]. intros. by wp. Qed.

(** Every command keeps the invariant, whatever fails. *)
Lemma dispatch_safe cmd d : db_ok now d → cmd_ok cmd → safe I d (dispatch_cmd cmd now config) (λ _ _, True).
Proof.
  intros Hd Hc. assert (I d) as HId by (eapply db_ok_mono; [|exact Hd]; lia).
  destruct cmd; cbn in *; eapply as_reply_safe.
  - by apply create_node_safe.
  - by apply update_nodes_safe.
  - apply (put_input_log_safe _ _ _ (λ _ _, True)); done.
  - by apply put_metadata_safe.
  - by apply delete_metadata_safe.
  - instantiate (1 := λ _ _, True). unfold pin_impl, sql. wp. rewrite stamp_now in *. split; [|by wp].
    eapply insert_pin_ok; [exact HId|done| |eassumption]. cbn. lia.
  - instantiate (1 := λ _ _, True). unfold unpin_impl, sql. wp. split; [by eapply delete_pin_ok|by wp].
  - apply prune_safe; naive_solver.
  - by apply reap_safe.
  - instantiate (1 := λ _ _, True). unfold set_gc_state_impl, sql. wp. split; [by eapply update_gc_ok|by wp].
Qed.
End commands.

(** ** The actor *)

(** The writer's state: its configuration, a clock ahead of everything. *)
Record actor_ok (w : WriterActor) : Prop := {
  ao_config : w_config w = config;
  ao_clock : 0 ≤ w_counter w;
  ao_conn : conn_ok (db_ok (w_counter w)) (w_conn w);
}.

Definition advances (n : Z) {E A} (c : M WriterActor E A) : Prop :=
  ∀ w, actor_ok w → w_counter w + n < 2 ^ 63 → actor_ok (c w).2 ∧ w_counter w ≤ w_counter (c w).2 ≤ w_counter w + n.

Lemma advances_bind n m {E A B} (c : M WriterActor E A) (k : A → M WriterActor E B) :
  0 ≤ m → advances n c → (∀ a, advances m (k a)) → advances (n + m) (ibind c k).
Proof.
  intros Hm Hc Hk w Hw Hb. destruct (Hc w Hw ltac:(lia)) as [Hw1 H1]. unfold ibind. destruct (c w) as [[a|e|] w1]; cbn in *; [|split; [done|lia]..].
  destruct (Hk a w1 Hw1 ltac:(lia)) as [Hw2 H2]. split; [done|lia].
Qed.
Lemma advances_on_conn {E A} (c : M (conn db) E A) : (∀ n, keeps (db_ok n) c) → advances 0 (on_conn c).
Proof.
  intros Hc w [Hcfg Hk Hw] _. unfold on_conn, zoom. specialize (Hc _ _ Hw). destruct (c (w_conn w)) as [r s]. cbn in *.
  split; [by split|lia].
Qed.
Lemma advances_try {E F A} n (c : M WriterActor E A) : advances n c → advances (E:=F) n (itry c).
Proof. intros Hc w Hw Hb. specialize (Hc w Hw Hb). unfold itry. by destruct (c w) as [[] ?]. Qed.
Lemma advances_ret {E A} (a : A) : advances (E:=E) 0 (iret a).
Proof. intros w Hw _. split; [done|cbn; lia]. Qed.
Lemma advances_ignore {E F A} (c : M WriterActor E A) : advances 0 c → advances (E:=F) 0 (ignore c).
Proof. intros Hc. apply (advances_bind 0 0); [lia|by apply advances_try|]. intros. apply advances_ret. Qed.

Lemma run_command_eq i cmd w :
  run_command i cmd w =
    let '(r, s) := dispatch_cmd cmd (w_counter w) (w_config w) (w_conn w) in
    let w1 := mk_actor s (w_counter w + 1) (w_config w) in
    match r with
    | Ok a => (ignore (on_conn (release i)) ;! iret (Ok a)) w1
    | Err e => (ignore (on_conn (rollback_to i)) ;! ignore (on_conn (release i)) ;! iret (Err e)) w1
    | Panic => (Panic, w1)
    end.
Proof. unfold run_command, on_conn at 1, zoom. by destruct (dispatch_cmd cmd (w_counter w) (w_config w) (w_conn w)). Qed.

Lemma advances_command i cmd : cmd_ok cmd → advances 1 (run_command i cmd).
Proof.
  intros Hcmd w [Hcfg Hk Hw] Hb. rewrite run_command_eq, Hcfg.
  assert (conn_ok (db_ok (w_counter w + 1)) (w_conn w)) as Hw1.
  { eapply conn_ok_impl; [|exact Hw]. intros d. apply db_ok_mono. lia. }
  destruct (dispatch_safe (w_counter w) ltac:(lia) cmd (c_view (w_conn w)) (ck_view _ _ Hw) Hcmd (w_conn w) Hw1 eq_refl) as [Hok _].
  destruct (dispatch_cmd cmd (w_counter w) config (w_conn w)) as [r s] eqn:Hd. cbn in *.
  assert (actor_ok (mk_actor s (w_counter w + 1) config)) as Ha by (split; [done|cbn; lia|done]).
  pose proof (advances_ignore (F:=Empty_set) _ (advances_on_conn _ (λ n, keeps_release (db_ok n) i))) as Hrel.
  pose proof (advances_ignore (F:=Empty_set) _ (advances_on_conn _ (λ n, keeps_rollback_to (db_ok n) i))) as Hroll.
  assert (∀ r : res MetaError reply, advances 0 (ignore (F:=Empty_set) (on_conn (release i)) ;! iret r)) as H1.
  { intros r'. apply (advances_bind 0 0); [lia|done|]. intros. apply advances_ret. }
  destruct r as [a|e|].
  - destruct (H1 (Ok a) _ Ha ltac:(cbn; lia)). cbn [w_counter] in *. split; [done|lia].
  - destruct (advances_bind 0 0 _ (λ _, ignore (on_conn (release i)) ;! iret (Err e)) ltac:(lia) Hroll (λ _, H1 (Err e)) _ Ha ltac:(cbn; lia)).
    cbn [w_counter] in *. split; [done|lia].
  - split; [done|cbn; lia].
Qed.

Lemma advances_weaken n m {E A} (c : M WriterActor E A) : n ≤ m → advances n c → advances m c.
Proof. intros Hm Hc w Hw Hb. destruct (Hc w Hw ltac:(lia)). split; [done|lia]. Qed.

Lemma advances_commands i batch : Forall cmd_ok batch → advances (zlen batch) (run_commands i batch).
Proof.
  intros Hb. revert i. induction Hb as [|cmd batch Hc Hb IH]; intros i; cbn [run_commands]; [apply advances_ret|].
  rewrite zlen_cons. pose proof (zlen_nonneg batch). replace (1 + zlen batch) with (0 + (1 + zlen batch)) by lia.
  apply advances_bind; [lia|apply advances_try, advances_on_conn; intros; apply keeps_savepoint|]. intros [|e|].
  - apply advances_bind; [done|by apply advances_command|]. intros r. replace (zlen batch) with (zlen batch + 0) by lia.
    apply advances_bind; [lia|apply IH|]. intros []. apply advances_ret.
  - apply (advances_weaken (zlen batch + 0)); [lia|]. apply advances_bind; [lia|apply IH|]. intros []. apply advances_ret.
  - apply (advances_weaken (zlen batch + 0)); [lia|]. apply advances_bind; [lia|apply IH|]. intros []. apply advances_ret.
Qed.

Lemma advances_counter : advances (E:=Empty_set) 0 (λ w, ignore (on_conn (execute (update_counter (as_i64 (w_counter w))))) w).
Proof.
  intros w [Hcfg Hk Hw] Hb. unfold ignore, ibind, itry, on_conn, zoom.
  assert (conn_ok (db_ok (w_counter w)) (execute (update_counter (as_i64 (w_counter w))) (w_conn w)).2) as Hs.
  { eapply (safe_keeps _ _ (λ _ _, True)); [|exact Hw]. intros d Hd. apply safe_execute. intros a d' Hu. split; [|done].
    eapply update_counter_ok; [exact Hd| |exact Hu]. rewrite as_i64_id by (unfold i64_ok; lia). lia. }
  destruct (execute _ (w_conn w)) as [[] s]; cbn in *; (split; [by split|lia]).
Qed.

Lemma advances_batch batch : Forall cmd_ok batch → advances (zlen batch) (execute_batch batch).
Proof.
  intros Hb. pose proof (zlen_nonneg batch). unfold execute_batch. replace (zlen batch) with (0 + zlen batch) by lia.
  apply advances_bind; [done|apply advances_try, advances_on_conn; intros; apply keeps_begin|]. intros [|e|].
  - replace (zlen batch) with (zlen batch + 0) by lia. apply advances_bind; [lia|by apply advances_commands|]. intros [dirty results].
    apply (advances_bind 0 0); [lia|destruct dirty; [apply advances_counter|apply advances_ret]|]. intros _.
    apply (advances_bind 0 0); [lia|apply advances_try, advances_on_conn; intros; apply keeps_commit|]. intros done.
    apply (advances_bind 0 0); [lia| |intros; apply advances_ret].
    destruct done; [apply advances_ret|apply advances_ignore, advances_on_conn; intros; apply keeps_rollback..].
  - by apply (advances_weaken 0); [|apply advances_ret].
  - by apply (advances_weaken 0); [|apply advances_ret].
Qed.

Definition commands (queue : list message) : list ActorCmd := omap (λ m, match m with Cmd c => Some c | Shutdown => None end) queue.

Lemma drain_commands room avail queue cs stop rest :
  drain room avail queue = (cs, stop, rest) → commands queue = cs ++ commands rest.
Proof.
  revert avail queue cs. induction room as [|room IH]; intros [|avail] [|[c|] queue] cs; cbn [drain]; try (by intros [= <- <- <-]).
  destruct (drain room avail queue) as [[cs' stop'] rest'] eqn:Hd. intros [= <- <- <-].
  change (c :: commands queue = c :: cs' ++ commands rest'). by rewrite (IH _ _ _ Hd).
Qed.

Lemma advances_run arrived queue : Forall cmd_ok (commands queue) → advances (zlen (commands queue)) (run arrived queue).
Proof.
  revert queue. induction arrived as [|avail later IH]; intros [|[first|] rest] Hq; cbn [run];
    try (apply (advances_weaken 0); [apply zlen_nonneg|apply advances_ret]).
  destruct (drain (WRITE_BATCH_MAX - 1) avail rest) as [[cs stop] rest'] eqn:Hd. apply drain_commands in Hd.
  replace (commands (Cmd first :: rest)) with ((first :: cs) ++ commands rest') in * by (symmetry; change (first :: commands rest = first :: cs ++ commands rest'); by rewrite Hd).
  apply Forall_app in Hq as [Hcs Hrest]. rewrite zlen_app. apply advances_bind; [apply zlen_nonneg|by apply advances_batch|].
  intros results. destruct stop; [apply (advances_weaken 0); [apply zlen_nonneg|apply advances_ret]|].
  replace (zlen (commands rest')) with (zlen (commands rest') + 0) by lia.
  apply advances_bind; [lia|by apply IH|]. intros more. apply advances_ret.
Qed.

End inv.

(** ** What the tables refer to

    Which nodes there are, the snapshot each refers to, and the pins, stay
    within what was there and what a command brings. *)

Section held.
Context {HB : Blake3} (Φ : node_key → bytes → Prop) (Ψ : bytes → Prop).

Definition held (d : db) : Prop :=
  map_Forall (λ k r, Φ k (n_ref r)) (d_nodes d) ∧ map_Forall (λ r _, Ψ r) (d_pins d).

(** What a command brings. *)
Definition brings_ok (cmd : ActorCmd) : Prop :=
  match cmd with
  | CreateNode p => Φ (key (cp_experiment p) (cp_node p)) (cp_ref p)
  | Pin r _ => Ψ r
  | _ => True
  end.

Lemma held_logs m d : held d → held (set_logs m d).
Proof. done. Qed.
Lemma held_step d nodes' :
  held d → (∀ k r', nodes' !! k = Some r' → ∃ r, d_nodes d !! k = Some r ∧ n_ref r' = n_ref r) → held (set_nodes nodes' d).
Proof. intros [Hn Hp] Hst. split; [|done]. intros k r' Hk. destruct (Hst _ _ Hk) as (r & Hr & ->). by apply (Hn k r). Qed.

Lemma held_update k f d n d' : (∀ r, n_ref (f r) = n_ref r) → held d → update_node k f d = Ok (n, d') → held d'.
Proof.
  intros Hf Hd. unfold update_node. destruct (d_nodes d !! k) as [r|] eqn:Hk; intros [= <- <-]; [|done]. apply held_step; [done|].
  intros k' r'. rewrite lookup_insert_Some. intros [[<- <-]|[_ Hr]]; eauto.
Qed.
Lemma held_mark k st t d n d' : held d → mark_subtree k st t d = Ok (n, d') → held d'.
Proof.
  intros Hd. unfold mark_subtree. destruct (subtree d k); [|done]. intros [= <- <-]. apply held_step; [done|].
  intros k' r'. rewrite map_lookup_imap. destruct (d_nodes d !! k') as [r|]; [|done]. cbn. intros [= <-]. exists r. split; [done|]. by case_decide.
Qed.
Lemma held_delete k d n d' : held d → delete_subtree k d = Ok (n, d') → held d'.
Proof.
  intros Hd. unfold delete_subtree. destruct (subtree d k); [|done]. intros Hr. rs_inv. apply held_step; [done|].
  intros k' r' [Hr _]%map_lookup_filter_Some. eauto.
Qed.

Ltac kept := match goal with H : _ = Ok (?n, ?d') |- held ?d' =>
  unfold insert_log, upsert_kv, insert_kv, cas_kv, delete_kv, delete_unused_logs, insert_tomb, delete_tomb, update_gc in H;
  repeat case_match; simplify_eq; done end.

Lemma held_put_log l c n config d : held d → safe held d (put_input_log_impl l c n config) (λ _ _, True).
Proof.
  intros Hd. unfold put_input_log_impl, sql. wp. eapply (safe_bind _ _ _ _ (λ _ d', d' = d)); [by wp|]. intros inner ? _ ->. wp. split; [kept|by wp].
Qed.

Lemma held_create p n config d : held d → brings_ok (CreateNode p) → safe held d (create_node_impl p n config) (λ _ _, True).
Proof.
  intros Hd Hb. unfold create_node_impl. wp. eapply (safe_bind _ _ _ _ (λ _ d', d' = d)).
  { unfold check_parent_node, sql, fetch_node. destruct (cp_parent p); wp; [|done]. destruct a; by wp. }
  intros dep ? _ ->. eapply (safe_bind _ _ _ _ (λ _ _, True)).
  { unfold ensure_log, sql. destruct (cp_log p); wp; [done| |done]. destruct (cp_inline p); [|wp].
    eapply safe_bind; [by apply held_put_log|]. intros. by wp. }
  intros _ d1 Hd1 _. eapply (safe_bind _ _ _ _ (λ _ _, True)).
  - eapply (safe_try _ _ _ (λ _ _, True)); [|done..]. apply safe_execute. intros a d' Hi. unfold insert_node in Hi. rs_inv. split; [|done].
    destruct Hd1. split; [|done]. by apply map_Forall_insert_2.
  - intros x d2 Hd2 _. unfold sql, fetch_node. destruct x as [x|[]|]; by wp.
Qed.

Lemma held_column k f d : (∀ r, n_ref (f r) = n_ref r) → held d → safe held d (set_column k f) (λ _ _, True).
Proof. intros Hf Hd. unfold set_column, sql. wp. split; [by eapply held_update|by wp]. Qed.
Lemma held_if_some {V} k (o : option V) f d : (∀ v r, n_ref (f v r) = n_ref r) → held d → safe held d (set_if_some k o f) (λ _ _, True).
Proof. intros Hf Hd. destruct o; cbn; [by apply held_column|by wp]. Qed.

Lemma held_updates e us n d : held d → safe held d (update_nodes_impl e us n) (λ _ _, True).
Proof.
  intros Hd. unfold update_nodes_impl. destruct us as [|u us]; [by wp|]. generalize (u :: us) as l. intros l.
  eapply (safe_bind _ _ _ _ (λ _ d', d' = d)).
  { induction l as [|u' l IH]; cbn [missing_nodes]; [by wp|]. unfold sql, node_exists. wp. eapply safe_bind; [exact IH|]. intros ? ? _ ->. by wp. }
  intros missing ? _ ->. wp. eapply (safe_bind _ _ _ _ (λ _ _, True)); [|intros; by wp]. clear missing H. revert d Hd.
  induction l as [|u' l IH]; intros d Hd; cbn [ifor]; [by wp|]. eapply (safe_bind _ _ _ _ (λ _ _, True)); [|intros; by apply IH].
  unfold apply_update. cbv zeta.
  do 7 (eapply (safe_bind _ _ _ _ (λ _ _, True));
        [try (apply safe_if; intros; [by wp|]); try (apply safe_if; intros; [|by wp]); first [by apply held_column | by apply held_if_some]
        |clear d Hd; intros _ d Hd _]).
  by apply held_if_some.
Qed.

(** Every command, whatever fails. *)
Lemma dispatch_held cmd n config d : held d → brings_ok cmd → safe held d (dispatch_cmd cmd n config) (λ _ _, True).
Proof.
  intros Hd Hb. destruct cmd; cbn [dispatch_cmd]; (eapply (safe_bind _ _ _ _ (λ _ _, True)); [|intros; by wp]).
  - by apply held_create.
  - by apply held_updates.
  - by apply held_put_log.
  - unfold put_metadata_impl, cas_failed, sql, select_gen. wp.
    destruct expected as [[|g|g]|]; wp; try (assert (held d') by kept; split; [done|by wp]).
    eapply (safe_bind _ _ _ _ (λ _ _, True)); [eapply (safe_try _ _ _ (λ _ _, True)); [|done..]; apply safe_execute; intros; split; [kept|done]|].
    intros x d' Hd' _. destruct x as [|[]|]; by wp.
  - unfold delete_metadata_impl, sql, select_gen. wp. assert (held d') by kept. split; [done|]. destruct expected; wp; [done| |done..]. destruct a0; by wp.
  - unfold pin_impl, sql. wp. unfold insert_pin, insert_or_ignore in *. split; [|by wp]. destruct Hd. case_match; simplify_eq. split; [done|].
    case_match; simplify_eq; cbn; [done|]. by apply map_Forall_insert_2.
  - unfold unpin_impl, sql. wp. unfold delete_pin, delete_key in *. split; [|by wp]. destruct Hd. case_match; simplify_eq. split; [done|].
    case_match; simplify_eq; cbn; [|done]. by apply map_Forall_delete.
  - unfold prune_subtree_impl, sql, node_exists. wp. assert (held d') by by eapply held_mark. split; [done|]. wp. split; [kept|by wp].
  - unfold reap_tombstone_impl, sql, node_exists. wp; [done|]. assert (held d') by by eapply held_delete. split; [done|]. wp.
    assert (held d'0) by kept. split; [done|]. wp. split; [kept|by wp].
  - unfold set_gc_state_impl, sql. wp. split; [kept|by wp].
Qed.
End held.
