(* ===== verification/MetaTree.v ===== *)
(** * Subtrees and paths of an experiment

    The two recursive queries: [subtree] yields exactly the descendants of
    a node and [path_ids] exactly its ancestors, and both end within their
    fuel, because a node's depth is below the number of rows. *)

From S2P Require Import Prelude Types Fs Sql Meta MetaRead MetaInv.

(** [below d e n m]: [m] is [n] or a descendant of it. *)
Inductive below (d : db) (e : ExperimentId) (n : Z) : Z → Prop :=
  | below_self r : d_nodes d !! (e, n) = Some r → below d e n n
  | below_child m c r : below d e n m → d_nodes d !! (e, c) = Some r → n_parent r = Some m → below d e n c.

Section tree.
Context (d : db) (clock : Z) (Hd : nodes_ok clock d) (e : ExperimentId).

Lemma below_exists n m : below d e n m → (∃ r, d_nodes d !! (e, n) = Some r) ∧ ∃ r, d_nodes d !! (e, m) = Some r.
Proof. induction 1 as [r Hr|m c r _ [IH _] Hr Hp]; eauto. Qed.

Lemma below_trans n m k : below d e n m → below d e m k → below d e n k.
Proof. intros Hnm. induction 1 as [|m' c r _ IH Hr Hp]; [done|]. by eapply below_child. Qed.

Lemma below_head n m : below d e n m → m = n ∨ ∃ c r, d_nodes d !! (e, c) = Some r ∧ n_parent r = Some n ∧ below d e c m.
Proof.
  induction 1 as [|m c r Hb [->|(c' & r' & Hc' & Hp' & Hb')] Hr Hp]; [by left|right..].
  - exists c, r. split_and!; [done..|]. by eapply below_self.
  - exists c', r'. split_and!; [done..|]. by eapply below_child.
Qed.

Lemma elem_of_children c p : c ∈ children d e p ↔ ∃ r, d_nodes d !! (e, c) = Some r ∧ n_parent r = Some p.
Proof.
  unfold children. rewrite list_elem_of_fmap. split.
  - intros ([[e' c'] r] & -> & [[He Hp] Hr%elem_of_map_to_list]%list_elem_of_filter). cbn in *. subst. eauto.
  - intros (r & Hr & Hp). exists ((e, c), r). split; [done|]. apply list_elem_of_filter. split; [done|]. by apply elem_of_map_to_list.
Qed.

Lemma parent_depth c r p : d_nodes d !! (e, c) = Some r → n_parent r = Some p →
  ∃ pr, d_nodes d !! (e, p) = Some pr ∧ n_depth r = n_depth pr + 1.
Proof. intros Hr Hp. pose proof (no_links _ _ Hd _ _ Hr) as Hl. unfold linked in Hl. rewrite Hp in Hl. naive_solver. Qed.

(** A node at depth [n] has [n] other rows above it. *)
Lemma depth_chain n c r : d_nodes d !! (e, c) = Some r → n_depth r = Z.of_nat n →
  ∃ l : list node_key, length l = S n ∧ NoDup l ∧ Forall (λ k, ∃ r', d_nodes d !! k = Some r' ∧ n_depth r' ≤ Z.of_nat n) l.
Proof.
  revert c r. induction n as [|n IH]; intros c r Hr Hdep.
  - exists [(e, c)]. split_and!; [done|apply NoDup_singleton|]. constructor; [|done]. exists r. split; [done|lia].
  - pose proof (no_links _ _ Hd _ _ Hr) as Hl. unfold linked in Hl. destruct (n_parent r) as [p|] eqn:Hp; [|lia].
    destruct Hl as (_ & pr & Hpr & Hd1). destruct (IH p pr Hpr ltac:(lia)) as (l & Hlen & Hnd & Hall).
    exists ((e, c) :: l). split_and!; [cbn; lia| |].
    + constructor; [|done]. intros Hin. rewrite Forall_forall in Hall. destruct (Hall _ Hin) as (r' & Hr' & ?). rewrite Hr in Hr'. simplify_eq. lia.
    + constructor; [exists r; split; [done|lia]|]. eapply Forall_impl; [exact Hall|]. intros k (r' & ? & ?). exists r'. split; [done|lia].
Qed.

Lemma depth_lt_size c r : d_nodes d !! (e, c) = Some r → n_depth r < Z.of_nat (size (d_nodes d)).
Proof.
  intros Hr. pose proof (ro_depth _ _ (no_rows _ _ Hd _ _ Hr)). destruct (depth_chain (Z.to_nat (n_depth r)) c r Hr ltac:(lia)) as (l & Hlen & Hnd & Hall).
  assert (list_to_set (C:=gset node_key) l ⊆ dom (d_nodes d)) as Hsub.
  { intros k Hk%elem_of_list_to_set. rewrite Forall_forall in Hall. destruct (Hall k Hk) as (r' & Hr' & _). by apply elem_of_dom_2 in Hr'. }
  apply subseteq_size in Hsub. rewrite size_list_to_set, size_dom in Hsub by done. lia.
Qed.

(** ** Descendants *)

Definition layer_ok (fuel : nat) (layer : list Z) : Prop :=
  Forall (λ n, ∃ r, d_nodes d !! (e, n) = Some r ∧ Z.of_nat (size (d_nodes d)) ≤ n_depth r + Z.of_nat fuel) layer.

Lemma subtree_from_spec fuel layer : layer_ok fuel layer →
  ∃ ids, subtree_from fuel d e layer = Some ids ∧ ∀ m, m ∈ ids ↔ ∃ n, n ∈ layer ∧ below d e n m.
Proof.
  revert layer. induction fuel as [|fuel IH]; intros [|x layer] Hl; cbn [subtree_from].
  1, 3: exists []; split; [done|]; intros m; split; [by intros ?%elem_of_nil|by intros (? & ?%elem_of_nil & _)].
  - inversion_clear Hl as [|? ? (r & Hr & Hs) _]. pose proof (depth_lt_size _ _ Hr). lia.
  - set (l := x :: layer) in *. destruct (IH (l ≫= children d e)) as (rest & Hrest & Hiff).
    { apply Forall_forall. intros c (p & Hc & Hp)%list_elem_of_bind. apply elem_of_children in Hc as (r & Hr & Hpar).
      unfold layer_ok in Hl. rewrite Forall_forall in Hl. destruct (Hl p Hp) as (pr & Hpr & Hs). exists r. split; [done|].
      destruct (parent_depth _ _ _ Hr Hpar) as (pr' & Hpr' & ?). rewrite Hpr in Hpr'. simplify_eq. lia. }
    exists (l ++ rest). rewrite Hrest. split; [done|]. intros m. rewrite elem_of_app, Hiff. split.
    + intros [Hm|(c & (p & Hc & Hp)%list_elem_of_bind & Hb)].
      * exists m. split; [done|]. unfold layer_ok in Hl. rewrite Forall_forall in Hl. destruct (Hl m Hm) as (r & Hr & _). by eapply below_self.
      * apply elem_of_children in Hc as (r & Hr & Hpar). exists p. split; [done|]. eapply below_trans; [|exact Hb].
        destruct (parent_depth _ _ _ Hr Hpar) as (pr & Hpr & _). eapply below_child; [by eapply below_self|done|done].
    + intros (n & Hn & [->|(c & r & Hc & Hp & Hb)]%below_head); [by left|]. right. exists c. split; [|done].
      apply list_elem_of_bind. exists n. split; [|done]. apply elem_of_children. eauto.
Qed.

(** The subtree of an existing node. *)
Lemma subtree_spec n : is_Some (d_nodes d !! (e, n)) → ∃ ids, subtree d (e, n) = Some ids ∧ ∀ m, m ∈ ids ↔ below d e n m.
Proof.
  intros [r Hr]. unfold subtree. rewrite Hr. cbn [fst snd]. destruct (subtree_from_spec (S (size (d_nodes d))) [n]) as (ids & Hs & Hiff).
  { constructor; [|done]. exists r. split; [done|]. pose proof (ro_depth _ _ (no_rows _ _ Hd _ _ Hr)). lia. }
  exists ids. split; [done|]. intros m. rewrite Hiff. split; [|by exists n; split; [left|]].
  intros (n' & ->%list_elem_of_singleton & ?). done.
Qed.

(** ** Ancestors *)

Lemma path_from_spec fuel n r : d_nodes d !! (e, n) = Some r → n_depth r ≤ Z.of_nat fuel →
  ∃ ids, path_from fuel d e n = Some ids ∧ ∀ m, m ∈ ids ↔ below d e m n.
Proof.
  revert n r. induction fuel as [|fuel IH]; intros n r Hr Hf; cbn [path_from]; rewrite Hr.
  - pose proof (no_links _ _ Hd _ _ Hr) as Hl. pose proof (ro_depth _ _ (no_rows _ _ Hd _ _ Hr)). unfold linked in Hl.
    destruct (n_parent r) as [p|] eqn:Hp.
    { destruct Hl as (_ & pr & Hpr & ?). pose proof (ro_depth _ _ (no_rows _ _ Hd _ _ Hpr)). lia. }
    exists [n]. split; [done|]. intros m. rewrite list_elem_of_singleton. split; [intros ->; by eapply below_self|].
    intros Hb. inversion Hb as [|? ? r' _ Hr' Hp']; [done|]. rewrite Hr in Hr'. by simplify_eq.
  - destruct (n_parent r) as [p|] eqn:Hp.
    + destruct (parent_depth _ _ _ Hr Hp) as (pr & Hpr & ?). destruct (IH p pr Hpr ltac:(lia)) as (ids & Hids & Hiff).
      exists (n :: ids). rewrite Hids. split; [done|]. intros m. rewrite elem_of_cons, Hiff. split.
      * intros [->|Hb]; [by eapply below_self|by eapply below_child].
      * intros Hb. inversion Hb as [|m' ? r' Hb' Hr' Hp']; [by left|]. rewrite Hr in Hr'. simplify_eq. by right.
    + exists [n]. split; [done|]. intros m. rewrite list_elem_of_singleton. split; [intros ->; by eapply below_self|].
      intros Hb. inversion Hb as [|? ? r' _ Hr' Hp']; [done|]. rewrite Hr in Hr'. by simplify_eq.
Qed.

Lemma path_spec n r : d_nodes d !! key e n = Some r →
  ∃ ids, path_ids e n d = Some ids ∧ ∀ m, m ∈ ids ↔ below d e m (node_id_to_sql n).
Proof.
  intros Hr. unfold path_ids. rewrite Hr. eapply path_from_spec; [exact Hr|].
  pose proof (depth_lt_size _ _ Hr). lia.
Qed.

(** One ancestor at every depth. *)
Lemma ancestor_depth m n r : d_nodes d !! (e, n) = Some r → below d e m n →
  ∃ mr, d_nodes d !! (e, m) = Some mr ∧ 0 ≤ n_depth mr ≤ n_depth r.
Proof.
  intros Hr Hb. revert r Hr. induction Hb as [r0 Hr0|m' c r0 Hb IH Hr0 Hp]; intros r Hr.
  - rewrite Hr in Hr0. simplify_eq. pose proof (ro_depth _ _ (no_rows _ _ Hd _ _ Hr)). exists r0. split; [done|lia].
  - rewrite Hr in Hr0. simplify_eq. destruct (parent_depth _ _ _ Hr Hp) as (pr & Hpr & ?). destruct (IH _ Hpr) as (mr & ? & ?). exists mr. split; [done|lia].
Qed.

Lemma ancestor_unique m1 m2 n r1 r2 : below d e m1 n → below d e m2 n →
  d_nodes d !! (e, m1) = Some r1 → d_nodes d !! (e, m2) = Some r2 → n_depth r1 = n_depth r2 → m1 = m2.
Proof.
  intros H1. revert m2 r2. induction H1 as [r Hr|m c r Hb IH Hr Hp]; intros m2 r2 H2 Hr1 Hr2 Heq.
  - inversion H2 as [|m' ? r' Hb' Hr' Hp']; [done|]. rewrite Hr in Hr'. simplify_eq. destruct (parent_depth _ _ _ Hr Hp') as (pr & Hpr & ?).
    destruct (ancestor_depth _ _ _ Hpr Hb') as (mr & Hmr & ?). simplify_eq. lia.
  - inversion H2 as [r0 Hr0|m' ? r' Hb' Hr' Hp']; subst.
    + destruct (parent_depth _ _ _ Hr Hp) as (pr & Hpr & ?). destruct (ancestor_depth _ _ _ Hpr Hb) as (mr & Hmr & ?).
      simplify_eq. lia.
    + rewrite Hr in Hr'. simplify_eq. by eapply IH.
Qed.

Lemma ancestor_at n r j : d_nodes d !! (e, n) = Some r → 0 ≤ j ≤ n_depth r →
  ∃ m mr, below d e m n ∧ d_nodes d !! (e, m) = Some mr ∧ n_depth mr = j.
Proof.
  intros Hr Hj. remember (Z.to_nat (n_depth r - j)) as i eqn:Hi. revert n r Hr Hj Hi. induction i as [|i IH]; intros n r Hr Hj Hi.
  - exists n, r. split_and!; [by eapply below_self|done|lia].
  - pose proof (no_links _ _ Hd _ _ Hr) as Hl. unfold linked in Hl. destruct (n_parent r) as [p|] eqn:Hp; [|lia].
    destruct Hl as (_ & pr & Hpr & ?). destruct (IH p pr Hpr ltac:(lia) ltac:(lia)) as (m & mr & Hb & ? & ?).
    exists m, mr. split_and!; [by eapply below_child|done..].
Qed.
End tree.
