(* ===== verification/MetaSpec.v ===== *)
(** * What the metadata commands and queries do

    The functional behaviour of the commands, run on their own without
    faults ([alone]), of the read operations, and of batches. *)

From Stdlib Require Import Floats.SpecFloat.
From S2P Require Import Prelude Types Fs Sql Meta MetaRead MetaInv MetaTree.

(** ** Evaluating a command *)

Lemma alone_query {A B} (f : db → res SqlError A) (k : A → MC B) d :
  alone (ibind (sql (query f)) k) d =
    match f d with Ok a => alone (k a) d | Err e => (Err (MSqlite e), d) | Panic => (Panic, d) end.
Proof. unfold alone, sql, ibind, imap_err, query, statement. cbn. by destruct (f d). Qed.
Lemma alone_execute {A B} (f : db → res SqlError (A * db)) (k : A → MC B) d :
  alone (ibind (sql (execute f)) k) d =
    match f d with Ok (a, d') => alone (k a) d' | Err e => (Err (MSqlite e), d) | Panic => (Panic, d) end.
Proof. unfold alone, sql, ibind, imap_err, execute, statement. cbn. by destruct (f d) as [[]| |]. Qed.
Lemma alone_try_execute {A B} (f : db → res SqlError (A * db)) (k : res SqlError A → MC B) d :
  alone (ibind (itry (execute f)) k) d =
    match f d with Ok (a, d') => alone (k (Ok a)) d' | Err e => alone (k (Err e)) d | Panic => (Panic, d) end.
Proof. unfold alone, ibind, itry, execute, statement. cbn. by destruct (f d) as [[]| |]. Qed.
Lemma sql_alone_ret {E A} (a : A) (d : db) : alone (E:=E) (iret a) d = (Ok a, d).
Proof. done. Qed.
Lemma alone_err {E A} (e : E) (d : db) : alone (A:=A) (ierr e) d = (Err e, d).
Proof. done. Qed.
Lemma alone_ibind {E A B} (c : M (conn db) E A) (k : A → M (conn db) E B) d : local c → (∀ a, local (k a)) →
  alone (ibind c k) d = match alone c d with (Ok a, d') => alone (k a) d' | (Err e, d') => (Err e, d') | (Panic, d') => (Panic, d') end.
Proof. intros. by apply run_bind. Qed.

(** ** Subtrees *)

(** The rows of the subtree of [k]; a list without repetition of exactly
    the descendants. *)
Definition subtree_rows (ids : list Z) (k : node_key) (d : db) : list Z :=
  (λ x : node_key * node_sql, x.1.2) <$> map_to_list (filter (λ x, in_subtree k.1 ids x.1) (d_nodes d)).

Lemma subtree_rows_zlen ids k d : zlen (map_to_list (filter (λ x, in_subtree k.1 ids x.1) (d_nodes d))) = zlen (subtree_rows ids k d).
Proof. unfold subtree_rows. by rewrite zlen_fmap. Qed.

Lemma subtree_rows_NoDup ids k d : NoDup (subtree_rows ids k d).
Proof.
  unfold subtree_rows. apply NoDup_fmap_2_strong; [|apply NoDup_map_to_list].
  intros [[e1 n1] r1] [[e2 n2] r2] H1%elem_of_map_to_list H2%elem_of_map_to_list Heq. cbn in *. subst.
  apply map_lookup_filter_Some in H1 as [H1 [E1 _]], H2 as [H2 [E2 _]]. cbn in *. subst. congruence.
Qed.

Lemma elem_of_subtree_rows ids e n d :
  (∀ m, m ∈ ids ↔ below d e n m) → ∀ m, m ∈ subtree_rows ids (e, n) d ↔ below d e n m.
Proof.
  intros Hids m. unfold subtree_rows. rewrite list_elem_of_fmap. split.
  - intros ([[e' m'] r] & -> & [_ [_ Hin]]%elem_of_map_to_list%map_lookup_filter_Some). by apply Hids.
  - intros Hb. destruct (below_exists _ _ _ _ Hb) as [_ [r Hr]]. exists ((e, m), r). split; [done|].
    apply elem_of_map_to_list, map_lookup_filter_Some. split; [done|]. split; [done|]. by apply Hids.
Qed.

Section specs.
Context {HB : Blake3} (config : MetaConfig) (clock : Z) (Hclock : 0 ≤ clock < 2 ^ 63).

(** The row a prune leaves in place of [r]. *)
Definition pruned_row (r : node_sql) : node_sql := set_n_updated clock (set_n_status (status_as_u8 Pruned) r).

Lemma prune_cases d e n allow :
  db_ok config clock d → u64_ok n → (n ≠ 0 ∨ allow = true) → is_Some (d_nodes d !! key e n) →
  ∃ d' desc, alone (prune_subtree_impl e n allow clock) d = (Ok (zlen desc), d') ∧
    NoDup desc ∧ (∀ m, m ∈ desc ↔ below d e (node_id_to_sql n) m) ∧
    (∀ m, below d e (node_id_to_sql n) m → d_nodes d' !! (e, m) = pruned_row <$> d_nodes d !! (e, m)) ∧
    (∀ k, ¬ (k.1 = e ∧ below d e (node_id_to_sql n) k.2) → d_nodes d' !! k = d_nodes d !! k) ∧
    d_tombs d' = <[key e n := default clock (d_tombs d !! key e n)]> (d_tombs d) ∧
    d_logs d' = d_logs d ∧ d_kv d' = d_kv d ∧ d_pins d' = d_pins d ∧ d_gc d' = d_gc d ∧ d_meta d' = d_meta d.
Proof.
  intros Hd Hn Hroot Hex. unfold prune_subtree_impl.
  replace (is_root n && negb allow) with false.
  2: { symmetry. unfold is_root. destruct Hroot as [Hz| ->]; [|apply andb_false_r]. by rewrite (proj2 (Z.eqb_neq n 0)). }
  unfold node_exists. rewrite alone_query, bool_decide_eq_true_2 by done. cbn [negb].
  rewrite alone_execute. unfold mark_subtree. destruct (subtree_spec d clock (do_nodes _ _ _ Hd) e _ Hex) as (ids & Hs & Hids).
  change (key e n) with (e, node_id_to_sql n) at 1 2. rewrite Hs. rewrite alone_execute, (stamp_now clock Hclock).
  unfold insert_tomb. destruct (insert_or_ignore _ _ _) as [z m] eqn:Hins. rewrite sql_alone_ret.
  rewrite subtree_rows_zlen. eexists _, (subtree_rows ids (e, node_id_to_sql n) d). split; [done|]. cbn [d_nodes d_tombs set_tombs set_nodes d_logs d_kv d_pins d_gc d_meta].
  split_and!; try done.
  - apply subtree_rows_NoDup.
  - by apply elem_of_subtree_rows.
  - intros k Hb. rewrite map_lookup_imap. destruct (d_nodes d !! (e, k)) as [r|]; [|done]. cbn.
    rewrite decide_True; [done|]. split; [done|]. by apply Hids.
  - intros k Hb. rewrite map_lookup_imap. destruct (d_nodes d !! k) as [r|]; [|done]. cbn.
    rewrite decide_False; [done|]. intros [? ?%Hids]. by apply Hb.
  - unfold insert_or_ignore in Hins. cbn in Hins. destruct (d_tombs d !! key e n) eqn:Ht; simplify_eq; cbn [from_option id]; [|done]. by rewrite insert_id.
Qed.

(** C20. Pruning a node marks exactly its descendants, itself included:
    their rows become PRUNED with the command's stamp, every other row and
    table stays as it is, a tombstone names the subtree's root with the
    stamp of its first prune, and the number returned is the number of
    descendants. *)
Theorem prune_subtree_spec d e n allow :
  db_ok config clock d → u64_ok n → (n ≠ 0 ∨ allow = true) → is_Some (d_nodes d !! key e n) →
  ∃ d' desc, alone (prune_subtree_impl e n allow clock) d = (Ok (zlen desc), d') ∧
    NoDup desc ∧ (∀ m, m ∈ desc ↔ below d e (node_id_to_sql n) m) ∧
    (∀ m, below d e (node_id_to_sql n) m → d_nodes d' !! (e, m) = pruned_row <$> d_nodes d !! (e, m)) ∧
    (∀ k, ¬ (k.1 = e ∧ below d e (node_id_to_sql n) k.2) → d_nodes d' !! k = d_nodes d !! k) ∧
    d_tombs d' = <[key e n := default clock (d_tombs d !! key e n)]> (d_tombs d) ∧
    d_logs d' = d_logs d ∧ d_kv d' = d_kv d ∧ d_pins d' = d_pins d ∧ d_gc d' = d_gc d ∧ d_meta d' = d_meta d.
Proof. apply prune_cases. Qed.

(** Every descendant is PRUNED, as the guard of a reap demands. *)
Definition all_pruned (d : db) (e : ExperimentId) (n : Z) : Prop :=
  ∀ m r, below d e n m → d_nodes d !! (e, m) = Some r → n_status r = status_as_u8 Pruned.

Lemma count_other_spec d e n ids : (∀ m, m ∈ ids ↔ below d e n m) → subtree d (e, n) = Some ids →
  ∃ c, count_other_status (e, n) (status_as_u8 Pruned) d = Ok c ∧ 0 ≤ c ∧ (c = 0 ↔ all_pruned d e n).
Proof.
  intros Hids Hs. unfold count_other_status. rewrite Hs. eexists. split; [done|]. split; [apply zlen_nonneg|]. split.
  - intros Hz%zlen_0_nil m r Hb Hr. destruct (decide (n_status r = status_as_u8 Pruned)) as [|Hne]; [done|].
    apply map_to_list_empty_iff, map_empty_filter in Hz. destruct (Hz _ _ Hr). split; [split; [done|]|done]. by apply Hids.
  - intros Hall. rewrite (proj2 (map_empty_filter _ _)); [done|]. intros [e' m] r Hr [[He Hin] Hne]. cbn in *. subst. apply Hne.
    eapply Hall; [by apply Hids|done].
Qed.

(** What is left when the subtree goes has its parents. *)
Lemma subtree_closed d e n ids : nodes_ok clock d → (∀ m, m ∈ ids ↔ below d e n m) →
  map_Forall (fk_row (filter (λ x, ¬ in_subtree e ids x.1) (d_nodes d))) (filter (λ x, ¬ in_subtree e ids x.1) (d_nodes d)).
Proof.
  intros Hd Hids [e' m] r [Hr Hout]%map_lookup_filter_Some. unfold fk_row. cbn in *. destruct (n_parent r) as [p|] eqn:Hp; [|done].
  pose proof (no_links _ _ Hd _ _ Hr) as Hl. unfold linked in Hl. rewrite Hp in Hl. destruct Hl as (_ & pr & Hpr & _). cbn in Hpr.
  exists pr. apply map_lookup_filter_Some. split; [done|]. intros [Heq Hin]. cbn in *. subst. apply Hout. split; [done|].
  cbn. apply Hids. eapply below_child; [by apply Hids|done|done].
Qed.

Lemma reap_cases d e n :
  db_ok config clock d →
  (d_nodes d !! key e n = None → alone (reap_tombstone_impl e n) d = (Ok 0, d)) ∧
  (is_Some (d_nodes d !! key e n) → ¬ all_pruned d e (node_id_to_sql n) → alone (reap_tombstone_impl e n) d = (Err InvalidArgument, d)) ∧
  (is_Some (d_nodes d !! key e n) → all_pruned d e (node_id_to_sql n) →
    ∃ d' desc, alone (reap_tombstone_impl e n) d = (Ok (zlen desc), d') ∧
      NoDup desc ∧ (∀ m, m ∈ desc ↔ below d e (node_id_to_sql n) m) ∧
      (∀ k r, d_nodes d' !! k = Some r ↔ d_nodes d !! k = Some r ∧ ¬ (k.1 = e ∧ below d e (node_id_to_sql n) k.2)) ∧
      (∀ l v, d_logs d' !! l = Some v ↔ d_logs d !! l = Some v ∧ ∃ k r, d_nodes d' !! k = Some r ∧ n_log r = Some l) ∧
      d_tombs d' = delete (key e n) (d_tombs d) ∧
      d_kv d' = d_kv d ∧ d_pins d' = d_pins d ∧ d_gc d' = d_gc d ∧ d_meta d' = d_meta d).
Proof.
  clear Hclock. intros Hd. unfold reap_tombstone_impl, node_exists. rewrite alone_query. split_and!.
  - intros ->. by rewrite bool_decide_eq_false_2 by by intros [].
  - intros Hex Hnot. rewrite bool_decide_eq_true_2 by done. cbn [negb]. rewrite alone_query.
    destruct (subtree_spec d clock (do_nodes _ _ _ Hd) e _ Hex) as (ids & Hs & Hids).
    destruct (count_other_spec d e _ ids Hids Hs) as (c & Hc & Hpos & Hz). change (key e n) with (e, node_id_to_sql n). unfold status_to_sql. rewrite Hc.
    rewrite (proj2 (Z.ltb_lt 0 c)); [done|]. assert (c ≠ 0) by tauto. lia.
  - intros Hex Hall. rewrite bool_decide_eq_true_2 by done. cbn [negb]. rewrite alone_query.
    destruct (subtree_spec d clock (do_nodes _ _ _ Hd) e _ Hex) as (ids & Hs & Hids).
    destruct (count_other_spec d e _ ids Hids Hs) as (c & Hc & Hpos & Hz). change (key e n) with (e, node_id_to_sql n). unfold status_to_sql. rewrite Hc.
    rewrite (proj2 (Z.ltb_ge 0 c)) by (rewrite (proj2 Hz Hall); lia). rewrite alone_execute. unfold delete_subtree. rewrite Hs.
    rewrite bool_decide_eq_true_2 by (eapply subtree_closed; [apply Hd|done]). cbn [negb].
    rewrite alone_execute. unfold delete_unused_logs. rewrite alone_execute. unfold delete_tomb.
    destruct (delete_key _ _) as [z m] eqn:Hdel. rewrite sql_alone_ret, subtree_rows_zlen.
    eexists _, (subtree_rows ids (e, node_id_to_sql n) d). split; [done|]. cbn [d_nodes d_tombs set_tombs set_nodes set_logs d_logs d_kv d_pins d_gc d_meta].
    assert (∀ k r, filter (λ x, ¬ in_subtree e ids x.1) (d_nodes d) !! k = Some r ↔
      d_nodes d !! k = Some r ∧ ¬ (k.1 = e ∧ below d e (node_id_to_sql n) k.2)) as Hleft.
    { intros k r. rewrite map_lookup_filter_Some. unfold in_subtree. cbn. by rewrite Hids. }
    split_and!; try done.
    + apply subtree_rows_NoDup.
    + by apply elem_of_subtree_rows.
    + intros l v. rewrite map_lookup_filter_Some. cbn. apply and_iff_compat_l. split.
      * intros Hu. apply map_not_Forall in Hu as (k & r & Hk & Hr); [|apply _]. exists k, r. split; [done|]. by apply dec_stable.
      * intros (k & r & Hk & Hr) Hno. by apply (Hno k r Hk).
    + unfold delete_key in Hdel. cbn in Hdel. destruct (d_tombs d !! _) eqn:Ht; simplify_eq; [done|]. by rewrite delete_id.
Qed.

(** C19. Reaping a tombstone deletes a subtree exactly: with every row of it
    PRUNED, exactly the descendants disappear from the nodes, exactly the
    logs no remaining node names disappear from the logs, and the tombstone
    is gone; with a row that is not PRUNED nothing changes and the call is
    refused; and when the root is gone already, nothing changes and the
    call succeeds. *)
Theorem reap_tombstone_spec d e n :
  db_ok config clock d →
  (d_nodes d !! key e n = None → alone (reap_tombstone_impl e n) d = (Ok 0, d)) ∧
  (is_Some (d_nodes d !! key e n) → ¬ all_pruned d e (node_id_to_sql n) → alone (reap_tombstone_impl e n) d = (Err InvalidArgument, d)) ∧
  (is_Some (d_nodes d !! key e n) → all_pruned d e (node_id_to_sql n) →
    ∃ d' desc, alone (reap_tombstone_impl e n) d = (Ok (zlen desc), d') ∧
      NoDup desc ∧ (∀ m, m ∈ desc ↔ below d e (node_id_to_sql n) m) ∧
      (∀ k r, d_nodes d' !! k = Some r ↔ d_nodes d !! k = Some r ∧ ¬ (k.1 = e ∧ below d e (node_id_to_sql n) k.2)) ∧
      (∀ l v, d_logs d' !! l = Some v ↔ d_logs d !! l = Some v ∧ ∃ k r, d_nodes d' !! k = Some r ∧ n_log r = Some l) ∧
      d_tombs d' = delete (key e n) (d_tombs d) ∧
      d_kv d' = d_kv d ∧ d_pins d' = d_pins d ∧ d_gc d' = d_gc d ∧ d_meta d' = d_meta d).
Proof. apply reap_cases. Qed.

(** ** Key-value metadata *)

(** The generation of a key, 0 if it is absent. *)
Definition kv_gen (k : bytes) (d : db) : Z := default 0 (k_gen <$> d_kv d !! k).

Lemma kv_gen_range k d : db_ok config clock d → kv_gen k d = 0 ∧ d_kv d !! k = None ∨ ∃ r, d_kv d !! k = Some r ∧ kv_gen k d = k_gen r ∧ 1 ≤ k_gen r.
Proof.
  intros Hd. unfold kv_gen. destruct (d_kv d !! k) as [r|] eqn:Hr; [right|by left]. exists r. split_and!; [done..|].
  by apply (do_kv _ _ _ Hd k r Hr).
Qed.

(** A generation as a statement's parameter. *)
Lemma gen_eqb g r : u64_ok g → 0 ≤ r < 2 ^ 63 → (r =? as_i64 g) = (g =? r).
Proof.
  intros Hg Hr. apply eq_true_iff_eq. rewrite !Z.eqb_eq. split; intros Heq.
  - rewrite <-(as_u64_i64 g), <-Heq by done. apply as_u64_id. unfold u64_ok. lia.
  - subst. symmetry. apply as_i64_id. unfold i64_ok. lia.
Qed.

Lemma cas_failed_eq {A} k d : alone (cas_failed (A:=A) k) d = (Err (CasFailed (as_u64 (kv_gen k d))), d).
Proof. unfold cas_failed, select_gen. by rewrite alone_query. Qed.

Lemma put_cas_eq k v g d : g ≠ 0 →
  alone (match g with 0 => let! inserted := itry (execute (insert_kv k (mk_kv_sql v 1 (as_i64 clock)))) in
                     match inserted with Ok _ => iret 1 | Err ConstraintViolation => cas_failed k | Err e => ierr (MSqlite e) | Panic => ipanic end
              | _ => let! rows := sql (execute (cas_kv k v (as_i64 clock) (as_i64 g))) in
                     if rows =? 0 then cas_failed k else let! new_gen := sql (select_gen k) in
                     let! g := iof (ok_or (MSqlite QueryReturnedNoRows) new_gen) in iret (as_u64 g) end) d =
  match cas_kv k v (as_i64 clock) (as_i64 g) d with
  | Ok (rows, d') => if rows =? 0 then (Err (CasFailed (as_u64 (kv_gen k d'))), d') else
      match k_gen <$> d_kv d' !! k with Some g' => (Ok (as_u64 g'), d') | None => (Err (MSqlite QueryReturnedNoRows), d') end
  | Err e => (Err (MSqlite e), d) | Panic => (Panic, d) end.
Proof.
  intros Hg. destruct g as [|p|p]; [done|..]; rewrite alone_execute; destruct (cas_kv _ _ _ _ _) as [[rows d']| |]; try done;
    (destruct (rows =? 0); [apply cas_failed_eq|]; unfold select_gen; rewrite alone_query; by destruct (k_gen <$> d_kv d' !! k)).
Qed.

(** C22. The metadata is a register with a generation per key, 0 while the
    key is absent.  A put succeeds if and only if it is unconditional or
    names the current generation (so 0 creates), and then stores the value
    under the next generation, which it returns; otherwise nothing changes
    and the error carries the current generation.  A delete removes the
    key under the same condition, and reports a key that is absent. *)
Theorem metadata_spec d k v expected :
  db_ok config clock d → 1 ≤ zlen k ≤ KV_KEY_MAX → zlen v ≤ KV_VALUE_MAX → kv_gen k d < 2 ^ 63 - 1 →
  (∀ g, expected = Some g → u64_ok g) →
  alone (put_metadata_impl k v expected clock) d =
    (if default (kv_gen k d) expected =? kv_gen k d
     then (Ok (kv_gen k d + 1), set_kv (<[k := mk_kv_sql v (kv_gen k d + 1) clock]> (d_kv d)) d)
     else (Err (CasFailed (kv_gen k d)), d)) ∧
  alone (delete_metadata_impl k expected) d =
    (if kv_gen k d =? 0 then (Ok false, d)
     else if default (kv_gen k d) expected =? kv_gen k d then (Ok true, set_kv (delete k (d_kv d)) d)
     else (Err (CasFailed (kv_gen k d)), d)).
Proof.
  intros Hd Hk Hv Hlt Hexp. unfold put_metadata_impl, delete_metadata_impl.
  assert (bytes_ok 1 KV_KEY_MAX k = true) as -> by (unfold bytes_ok; apply andb_true_iff; rewrite !Z.leb_le; lia).
  rewrite (proj2 (Z.ltb_ge _ _)) by done. cbn [negb]. rewrite alone_execute. unfold delete_kv.
  destruct (kv_gen_range k d Hd) as [[Hg Hr]|(r & Hr & Hg & Hpos)]; rewrite Hg in *; rewrite Hr.
  - rewrite !(Z.eqb_refl 0). cbn [negb]. split; [|by destruct expected; [unfold select_gen; rewrite alone_query, Hr|]].
    destruct expected as [g|]; cbn [from_option id]; [destruct (decide (g = 0)) as [->|Hne]|].
    + rewrite alone_try_execute. unfold insert_kv. rewrite Hr, bool_decide_eq_false_2 by by intros []. by rewrite (stamp_now clock Hclock).
    + rewrite put_cas_eq by done. unfold cas_kv. rewrite Hr, (Z.eqb_refl 0), Hg, (proj2 (Z.eqb_neq g 0)) by done. done.
    + unfold select_gen. rewrite alone_query, Hr. cbn [fmap option_fmap option_map from_option id]. rewrite alone_execute. by rewrite (stamp_now clock Hclock).
  - rewrite (proj2 (Z.eqb_neq (k_gen r) 0)) by lia.
    assert (as_u64 (k_gen r) = k_gen r) as Hu by (apply as_u64_id; unfold u64_ok; lia). split.
    + destruct expected as [g|]; cbn [from_option id]; [destruct (decide (g = 0)) as [->|Hne]|].
      * rewrite alone_try_execute. unfold insert_kv. rewrite Hr, bool_decide_eq_true_2 by done. rewrite cas_failed_eq, Hg, Hu.
        by rewrite (proj2 (Z.eqb_neq 0 _)) by lia.
      * rewrite put_cas_eq by done. unfold cas_kv. rewrite Hr, gen_eqb by (auto; lia). destruct (g =? k_gen r) eqn:Heq; cbn [Z.eqb].
        -- cbn [d_kv set_kv]. rewrite lookup_insert_eq, (stamp_now clock Hclock). cbn. rewrite as_u64_id by (unfold u64_ok; lia). done.
        -- by rewrite Hg, Hu.
      * unfold select_gen. rewrite alone_query, Hr. cbn [fmap option_fmap option_map]. rewrite alone_execute, (stamp_now clock Hclock), Z.eqb_refl.
        cbn. rewrite as_u64_id by (unfold u64_ok; lia). done.
    + destruct expected as [g|]; cbn [from_option id fmap option_fmap option_map]; [|by rewrite Z.eqb_refl].
      rewrite gen_eqb by (auto; lia). destruct (g =? k_gen r); [done|]. cbn. unfold select_gen. rewrite alone_query, Hr. cbn. by rewrite Hu.
Qed.

(** ** Creating nodes *)

(** The row of [k] reads back as [row]. *)
Definition reads (k : node_key) (row : NodeRow) (d : db) : Prop := select_node k d = Ok (Some row).

(** The parent a create names, and the depth it gives. *)
Definition parent_ready (p : CreateNodeParams) (dep : Z) (d : db) : Prop :=
  match cp_parent p with
  | None => cp_node p = 0 ∧ dep = 0
  | Some q => cp_node p ≠ 0 ∧ ∃ row, reads (key (cp_experiment p) q) row d ∧ status row ≠ Pruned ∧
      depth row + 1 < 2 ^ 32 ∧ dep = depth row + 1
  end.

(** The log a create names is stored, or comes with it; [d1] holds it. *)
Definition log_ready (p : CreateNodeParams) (d d1 : db) : Prop :=
  match cp_log p with
  | None => d1 = d
  | Some l =>
      (is_Some (d_logs d !! l) ∧ d1 = d) ∨
      (d_logs d !! l = None ∧ ∃ c, cp_inline p = Some c ∧ INPUT_LOG_MIN_BYTES ≤ zlen c ≤ input_log_max_bytes config ∧
         blake3 (sub 0 (zlen c - 32) c) = l ∧
         d1 = set_logs (<[l := mk_log_sql (from_le (sub 8 12 c)) c clock]> (d_logs d)) d)
  end.

Lemma local_check_parent p : local (check_parent_node p).
Proof. unfold check_parent_node, sql, fetch_node. loc. Qed.
Lemma local_put_log l c n : local (put_input_log_impl l c n config).
Proof. unfold put_input_log_impl, sql. loc. Qed.
Lemma local_ensure_log p n : local (ensure_log p n config).
Proof. unfold ensure_log, sql. loc. Qed.

Lemma put_log_eq l c d : hash_ok l → INPUT_LOG_MIN_BYTES ≤ zlen c ≤ input_log_max_bytes config → blake3 (sub 0 (zlen c - 32) c) = l →
  alone (put_input_log_impl l c clock config) d =
    (Ok (bool_decide (d_logs d !! l = None)),
     match d_logs d !! l with Some _ => d | None => set_logs (<[l := mk_log_sql (from_le (sub 8 12 c)) c clock]> (d_logs d)) d end).
Proof.
  intros Hl Hlen Hh. unfold put_input_log_impl, INPUT_LOG_MIN_BYTES in *. rewrite !(proj2 (Z.ltb_ge _ _)) by lia.
  rewrite slice_ok by lia. change (ibind (iof (Ok ?a)) ?k) with (k a). cbv beta. rewrite Hh, bool_decide_eq_true_2 by done. cbn [negb].
  rewrite (proj2 (Z.leb_le 12 _)) by lia. rewrite slice_ok by lia. change (ibind (ibind (iof (Ok ?a)) ?k) ?k') with (ibind (k a) k'). cbv beta.
  change (ibind (iret ?a) ?k) with (k a). cbv beta. rewrite alone_execute, (stamp_now clock Hclock). unfold insert_log, insert_or_ignore.
  destruct (d_logs d !! l) as [v|] eqn:Hv; cbn.
  - f_equal. by destruct d.
  - done.
Qed.

Lemma check_parent_eq p dep d : create_ok p → parent_ready p dep d → alone (check_parent_node p) d = (Ok dep, d).
Proof.
  intros Hp. unfold parent_ready, check_parent_node. destruct (cp_parent p) as [q|]; [|by intros [_ ->]].
  intros (_ & row & Hr & Hst & Hlt & ->). unfold fetch_node. rewrite alone_query, Hr. rewrite bool_decide_eq_false_2 by done.
  unfold checked_add_u32. by rewrite (proj2 (Z.ltb_lt _ _)).
Qed.

Lemma ensure_log_eq p d d1 : create_ok p → log_ready p d d1 → alone (ensure_log p clock config) d = (Ok tt, d1).
Proof.
  intros Hp. unfold log_ready, ensure_log. destruct (cp_log p) as [l|] eqn:Hl; [|by intros ->].
  intros [[Hs ->]|(Hn & c & Hc & Hlen & Hh & ->)]; rewrite alone_query.
  - by rewrite bool_decide_eq_true_2.
  - rewrite bool_decide_eq_false_2 by (rewrite Hn; by intros []). rewrite Hc. rewrite alone_ibind by (try apply local_put_log; auto with local).
    rewrite put_log_eq, Hn by (try done; by apply Hp). done.
Qed.

Lemma create_root_rule p dep d : create_ok p → parent_ready p dep d →
  is_root (cp_node p) && bool_decide (is_Some (cp_parent p)) = false ∧ negb (is_root (cp_node p)) && bool_decide (cp_parent p = None) = false.
Proof.
  intros Hp. unfold parent_ready, is_root. destruct (cp_parent p); intros [Hz _].
  - by rewrite (proj2 (Z.eqb_neq _ _)).
  - by rewrite Hz.
Qed.

(** A create whose parent and log are in order reaches the insert. *)
Lemma create_node_eq p dep d d1 : create_ok p → parent_ready p dep d → log_ready p d d1 →
  alone (create_node_impl p clock config) d =
    alone (let! inserted := itry (execute (insert_node (key (cp_experiment p) (cp_node p)) (new_node p dep clock))) in
           match inserted with
           | Ok _ => let! row := sql (fetch_node (cp_experiment p) (cp_node p)) in iof (ok_or InvalidArgument row)
           | Err ConstraintViolation =>
               let! found := sql (fetch_node (cp_experiment p) (cp_node p)) in
               let! existing := iof (ok_or MAlreadyExists found) in
               if same_node existing p then iret existing else ierr MAlreadyExists
           | Err e => ierr (MSqlite e)
           | Panic => ipanic
           end) d1.
Proof.
  intros Hp Hpar Hlog. unfold create_node_impl. destruct (create_root_rule p dep d Hp Hpar) as [-> ->].
  rewrite alone_ibind; [|apply local_check_parent|]. 2: { intros dep'. apply local_bind; [apply local_ensure_log|]. unfold sql, fetch_node. loc. }
  rewrite (check_parent_eq p dep d) by done. cbv iota beta.
  rewrite alone_ibind; [|apply local_ensure_log|]. 2: { intros []. unfold sql, fetch_node. loc. }
  by rewrite (ensure_log_eq p d d1).
Qed.

Lemma new_node_reads p dep d : create_ok p → 0 ≤ dep < 2 ^ 32 → d_nodes d !! key (cp_experiment p) (cp_node p) = Some (new_node p dep clock) →
  reads (key (cp_experiment p) (cp_node p)) (node_of (key (cp_experiment p) (cp_node p)) (new_node p dep clock) 0 (cp_status p)) d.
Proof.
  intros Hp Hdep Hk. unfold reads, select_node. rewrite Hk. by rewrite (row_to_node_ok _ _ 0 (cp_status p)) by (try done; by apply new_node_ok).
Qed.

Lemma log_ready_nodes p d d1 : log_ready p d d1 → d_nodes d1 = d_nodes d.
Proof. unfold log_ready. destruct (cp_log p); [|by intros ->]. by intros [[_ ->]|(_ & ? & _ & _ & _ & ->)]. Qed.

Lemma parent_ready_depth p dep d : db_ok config clock d → parent_ready p dep d → 0 ≤ dep < 2 ^ 32 ∧
  fk_row (d_nodes d) (key (cp_experiment p) (cp_node p)) (new_node p dep clock).
Proof.
  intros Hd. unfold parent_ready, fk_row. cbn. destruct (cp_parent p) as [q|]; [|intros [_ ->]; split; [lia|done]].
  intros (_ & row & Hr & _ & Hlt & ->). apply (select_node_inv _ _ _ _ (do_nodes _ _ _ Hd)) in Hr as (r & v & s & Hr & _ & _ & ->).
  pose proof (ro_depth _ _ (no_rows _ _ (do_nodes _ _ _ Hd) _ _ Hr)). cbn in *. split; [lia|]. eexists. exact Hr.
Qed.

Lemma check_parent_cases p d : db_ok config clock d → Z.of_nat (size (d_nodes d)) < 2 ^ 32 →
  is_root (cp_node p) && bool_decide (is_Some (cp_parent p)) = false → negb (is_root (cp_node p)) && bool_decide (cp_parent p = None) = false →
  (∃ err, alone (check_parent_node p) d = (Err err, d)) ∨ ∃ dep, parent_ready p dep d.
Proof.
  intros Hd Hsize H1 H2. unfold check_parent_node, parent_ready, is_root in *. destruct (cp_parent p) as [q|].
  - unfold fetch_node. rewrite alone_query. destruct (select_node _ d) as [[row|]|e|] eqn:Hs; [|left; by eexists..|by apply (select_node_returns clock _ _ (do_nodes _ _ _ Hd)) in Hs].
    destruct (bool_decide (status row = Pruned)) eqn:Hst; [left; by eexists|]. apply bool_decide_eq_false in Hst.
    right. exists (depth row + 1). split; [destruct (Z.eqb_spec (cp_node p) 0); done|].
    exists row. split_and!; [exact Hs|done| |done]. apply (select_node_inv _ _ _ _ (do_nodes _ _ _ Hd)) in Hs as (r & v & s & Hr & _ & _ & ->).
    pose proof (depth_lt_size d clock (do_nodes _ _ _ Hd) _ _ _ Hr). cbn. lia.
  - right. exists 0. split; [|done]. destruct (Z.eqb_spec (cp_node p) 0); done.
Qed.

Lemma ensure_log_cases p d : (∃ err, alone (ensure_log p clock config) d = (Err err, d)) ∨ ∃ d1, log_ready p d d1.
Proof.
  unfold ensure_log, log_ready. destruct (cp_log p) as [l|]; [|right; by eexists]. rewrite alone_query.
  destruct (decide (is_Some (d_logs d !! l))) as [Hs|Hs]; [right; exists d; by left|].
  rewrite bool_decide_eq_false_2 by done. apply eq_None_not_Some in Hs. destruct (cp_inline p) as [c|]; [|left; by eexists].
  rewrite alone_ibind by (try apply local_put_log; auto with local). unfold put_input_log_impl.
  destruct (zlen c <? INPUT_LOG_MIN_BYTES) eqn:Hmin; [left; by eexists|]. destruct (input_log_max_bytes config <? zlen c) eqn:Hmax; [left; by eexists|]. b2p.
  rewrite slice_ok by (unfold INPUT_LOG_MIN_BYTES in *; lia). change (ibind (iof (Ok ?a)) ?k) with (k a). cbv beta.
  destruct (decide (blake3 (sub 0 (zlen c - 32) c) = l)) as [Hh|Hh]; [|rewrite bool_decide_eq_false_2 by done; left; by eexists].
  right. eexists. right. split; [done|]. exists c. split_and!; [done..|reflexivity].
Qed.

Lemma create_cases p d : db_ok config clock d → create_ok p → Z.of_nat (size (d_nodes d)) < 2 ^ 32 →
  (∃ dep d1, parent_ready p dep d ∧ log_ready p d d1) ∨ ∃ err, alone (create_node_impl p clock config) d = (Err err, d).
Proof.
  intros Hd Hp Hsize. unfold create_node_impl. destruct (is_root _ && _) eqn:H1; [right; by eexists|]. destruct (negb _ && _) eqn:H2; [right; by eexists|].
  rewrite alone_ibind; [|apply local_check_parent|].
  2: { intros dep'. apply local_bind; [apply local_ensure_log|]. unfold sql, fetch_node. loc. }
  destruct (check_parent_cases p d Hd Hsize H1 H2) as [[err ->]|[dep Hdep]]; [right; by eexists|].
  rewrite (check_parent_eq p dep d) by done. cbv iota beta.
  rewrite alone_ibind; [|apply local_ensure_log|]. 2: { intros []. unfold sql, fetch_node. loc. }
  destruct (ensure_log_cases p d) as [[err ->]|[d1 Hlog]]; [right; by eexists|left; by exists dep, d1].
Qed.


End specs.
