(* ===== verification/MetaQuery.v ===== *)
(** * What the queries return

    Ordered selections, the path to a node, the root set of the collector,
    and the paging of a query by creation time. *)

From Stdlib Require Import Floats.SpecFloat.
From S2P Require Import Prelude Types Fs Sql Meta MetaRead MetaInv MetaTree.

(** ** Conversion of rows *)

Lemma rcollect_Ok {E A B} (f : A → res E B) l : Forall (λ x, ∃ y, f x = Ok y) l →
  ∃ ys, rcollect f l = Ok ys ∧ Forall2 (λ x y, f x = Ok y) l ys.
Proof.
  induction 1 as [|x l [y Hy] Hl (ys & Hr & Hf)]; cbn [rcollect]; [by exists []|]. exists (y :: ys). rewrite Hy, Hr. by split; [|constructor].
Qed.
Lemma rcollect_inv {E A B} (f : A → res E B) l ys : rcollect f l = Ok ys → Forall2 (λ x y, f x = Ok y) l ys.
Proof.
  revert ys. induction l as [|x l IH]; intros ys Hr; cbn [rcollect] in Hr; rs_inv; [constructor|]. constructor; [done|]. by apply IH.
Qed.

(** Every visit counter is still an integer. *)
Definition readable (d : db) : Prop := map_Forall (λ _ r, ∃ v, n_visits r = SInt v) (d_nodes d).

(** ** Strictly sorted selections *)

Lemma sorted_strict_unique {A} (f : A → Z) (l1 l2 : list A) :
  (∀ x y, x ∈ l1 → y ∈ l1 → f x = f y → x = y) →
  StronglySorted (λ x y, f x ≤ f y) l1 → StronglySorted (λ x y, f x ≤ f y) l2 → l1 ≡ₚ l2 → l1 = l2.
Proof.
  revert l2. induction l1 as [|x l1 IH]; intros l2 Hinj H1 H2 Hp.
  - by apply Permutation_nil_l in Hp.
  - destruct l2 as [|y l2]; [by apply Permutation_nil_r in Hp|].
    inversion_clear H1 as [|? ? S1 F1]. inversion_clear H2 as [|? ? S2 F2]. rewrite Forall_forall in F1, F2.
    assert (x = y) as ->.
    { assert (y ∈ x :: l1) as Hy by (rewrite Hp; left). assert (x ∈ y :: l2) as Hx by (rewrite <-Hp; left).
      apply elem_of_cons in Hy as [->|Hy]; [done|]. apply elem_of_cons in Hx as [->|Hx]; [done|].
      apply Hinj; [left|by right|]. specialize (F1 _ Hy). specialize (F2 _ Hx). lia. }
    f_equal. apply IH; [|done|done|]. { intros ? ? ? ?. apply Hinj; by right. } by apply Permutation_cons_inv in Hp.
Qed.

Lemma sorted_filter {A} (R : A → A → Prop) (P : A → Prop) `{∀ x, Decision (P x)} l : StronglySorted R l → StronglySorted R (filter P l).
Proof.
  induction 1 as [|x l Hl IH Hx]; [constructor|]. rewrite filter_cons. case_decide; [|done]. constructor; [done|]. by apply Forall_sub_filter.
Qed.

Section queries.
Context {HS : Scan} {HB : Blake3} (config : MetaConfig) (clock : Z).

Lemma select_nodes_perm P `{∀ x, Decision (P x)} col d : select_nodes P col d ≡ₚ filter P (map_to_list (d_nodes d)).
Proof. unfold select_nodes. by rewrite sort_by_key_perm, scan_perm. Qed.
Lemma elem_of_select P `{∀ x, Decision (P x)} col d k r : (k, r) ∈ select_nodes P col d ↔ P (k, r) ∧ d_nodes d !! k = Some r.
Proof. by rewrite select_nodes_perm, list_elem_of_filter, elem_of_map_to_list. Qed.
Lemma select_nodes_NoDup P `{∀ x, Decision (P x)} col d : NoDup (select_nodes P col d).*1.
Proof.
  rewrite select_nodes_perm. apply NoDup_fmap_2_strong; [|apply NoDup_filter, NoDup_map_to_list].
  intros [k1 r1] [k2 r2] [_ H1%elem_of_map_to_list]%list_elem_of_filter [_ H2%elem_of_map_to_list]%list_elem_of_filter ?. cbn in *. subst. congruence.
Qed.
Lemma select_nodes_sorted P `{∀ x, Decision (P x)} col d : StronglySorted (λ x y, col x ≤ col y) (select_nodes P col d).
Proof. apply sort_by_key_sorted. Qed.

(** The row an entry converts to. *)
Lemma entry_to_node_ok d k r : nodes_ok clock d → readable d → d_nodes d !! k = Some r →
  ∃ v s, n_visits r = SInt v ∧ n_status r = status_as_u8 s ∧ entry_to_node (k, r) = Ok (node_of k r v s).
Proof.
  intros Hd Hre Hr. destruct (Hre _ _ Hr) as [v Hv]. pose proof (no_rows _ _ Hd _ _ Hr) as Hrow. destruct (ro_status _ _ Hrow) as [s Hs].
  exists v, s. split_and!; [done..|]. by apply row_to_node_ok.
Qed.

(** ** The path to a node *)

Lemma sorted_seq {A} (f : A → Z) l n : StronglySorted (λ x y, f x ≤ f y) l → NoDup (f <$> l) →
  (∀ z, z ∈ f <$> l ↔ 0 ≤ z < n) → ∀ i x, l !! i = Some x → f x = Z.of_nat i.
Proof.
  intros Hs Hnd Hz. assert (f <$> l = seqZ 0 n) as Heq.
  { apply (sorted_strict_unique id); [done|..].
    - clear Hnd Hz. induction Hs as [|x l Hl IH Hx]; cbn; constructor; [done|]. apply Forall_fmap. exact Hx.
    - clear. unfold seqZ. generalize (Z.to_nat n) as m. intros m. generalize 0%nat as a. intros a. revert a.
      induction m as [|m IH]; intros a; cbn; constructor; [apply IH|]. apply Forall_fmap, Forall_forall. intros j Hj%elem_of_seq. cbn. lia.
    - apply NoDup_Permutation; [done|apply NoDup_seqZ|]. intros z. rewrite Hz, elem_of_seqZ. lia. }
  intros i x Hi. assert ((f <$> l) !! i = Some (f x)) as Hf by (by rewrite list_lookup_fmap, Hi).
  rewrite Heq in Hf. apply lookup_seqZ in Hf. lia.
Qed.

Lemma path_rows d e n r ids : nodes_ok clock d → d_nodes d !! key e n = Some r → (∀ m, m ∈ ids ↔ below d e m (node_id_to_sql n)) →
  let l := select_nodes (λ x, in_subtree e ids x.1) (λ x, n_depth x.2) d in
  zlen l = n_depth r + 1 ∧
  ∀ i k mr, l !! i = Some (k, mr) → k.1 = e ∧ below d e k.2 (node_id_to_sql n) ∧ d_nodes d !! k = Some mr ∧ n_depth mr = Z.of_nat i.
Proof.
  intros Hd Hr Hids l.
  assert (∀ k mr, (k, mr) ∈ l ↔ (k.1 = e ∧ below d e k.2 (node_id_to_sql n)) ∧ d_nodes d !! k = Some mr) as Hel.
  { intros k mr. subst l. rewrite elem_of_select. unfold in_subtree. cbn. by rewrite Hids. }
  assert (∀ i x, l !! i = Some x → n_depth x.2 = Z.of_nat i) as Hdep.
  { apply (sorted_seq _ l (n_depth r + 1)); [apply select_nodes_sorted|..].
    - apply (NoDup_fmap_2_strong (λ x, n_depth x.2)); [|eapply NoDup_fmap_1, select_nodes_NoDup].
      intros [[e1 m1] r1] [[e2 m2] r2] [[? B1] H1]%Hel [[? B2] H2]%Hel Heq. cbn in *. subst.
      assert (m1 = m2) as -> by (eapply ancestor_unique; eauto). congruence.
    - intros z. rewrite list_elem_of_fmap. split.
      + intros ([[e1 m1] r1] & -> & [[? B1] H1]%Hel). cbn in *. subst. destruct (ancestor_depth d clock Hd _ _ _ _ Hr B1) as (mr & Hmr & ?). simplify_eq. cbn. lia.
      + intros Hz. destruct (ancestor_at d clock Hd e _ r z Hr ltac:(lia)) as (m & mr & Hb & Hmr & Hdm). exists ((e, m), mr). split; [done|]. by apply Hel. }
  split.
  - destruct (list_elem_of_lookup_1 l (key e n, r)) as [i Hi]; [apply Hel; split; [split; [done|by eapply below_self]|done]|].
    pose proof (Hdep _ _ Hi) as Hd1. cbn in Hd1. pose proof (lookup_lt_Some _ _ _ Hi). unfold zlen.
    destruct (decide (length l = S i)) as [|Hne]; [lia|]. destruct (lookup_lt_is_Some_2 l (S i)) as [[k mr] Hx]; [lia|].
    pose proof (Hdep _ _ Hx). apply list_elem_of_lookup_2, Hel in Hx as [[? B] Hk]. destruct k as [e' m]. cbn in *. subst.
    destruct (ancestor_depth d clock Hd _ _ _ _ Hr B) as (mr' & Hmr & ?). simplify_eq. lia.
  - intros i k mr Hi. pose proof (Hdep _ _ Hi). apply list_elem_of_lookup_2, Hel in Hi as [[? ?] ?]. done.
Qed.

Definition stored_log (d : db) (row : NodeRow) : option bytes := l ← input_log_id row; l_content <$> d_logs d !! l.

Lemma path_entry_eq include_logs d row : path_entry include_logs d row = Ok (row, if include_logs then stored_log d row else None).
Proof. unfold path_entry, stored_log. destruct include_logs, (input_log_id row); done. Qed.

(** C25. The path query returns the path: one row per depth from the root,
    node 0, down to the node asked for, each the parent of the next, each
    with the bytes of its log when logs are asked for. *)
Theorem get_path_spec d e n r include_logs :
  db_ok config clock d → readable d → u64_ok n → d_nodes d !! key e n = Some r →
  ∃ rows, get_path e n include_logs d = Ok rows ∧ zlen rows = n_depth r + 1 ∧
    (∀ i row log, rows !! i = Some (row, log) →
      depth row = Z.of_nat i ∧ experiment_id row = e ∧ select_node (key e (node_id row)) d = Ok (Some row) ∧
      log = (if include_logs then stored_log d row else None) ∧
      (i = 0%nat → node_id row = 0) ∧
      (∀ j prev l, i = S j → rows !! j = Some (prev, l) → parent_node_id row = Some (node_id prev)) ∧
      (i = Z.to_nat (n_depth r) → node_id row = n)).
Proof.
  intros Hd Hre Hn Hr. pose proof (do_nodes _ _ _ Hd) as Hno. destruct (path_spec d clock Hno e n r Hr) as (ids & Hids & Hiff).
  unfold get_path. rewrite Hids. cbn [expect rbind]. destruct (path_rows d e n r ids Hno Hr Hiff) as [Hlen Hl].
  set (l := select_nodes _ _ d) in *.
  destruct (rcollect_Ok entry_to_node l) as (rows & Hrows & Hf).
  { apply Forall_forall. intros [k mr] [i Hi]%list_elem_of_lookup. destruct (Hl _ _ _ Hi) as (_ & _ & Hk & _).
    destruct (entry_to_node_ok d k mr Hno Hre Hk) as (v & s & _ & _ & Heq). eauto. }
  assert (∀ i row, rows !! i = Some row → ∃ k mr v s, l !! i = Some (k, mr) ∧ row = node_of k mr v s ∧
    n_visits mr = SInt v ∧ n_status mr = status_as_u8 s) as Hrow.
  { intros i row Hi. destruct (Forall2_lookup_r _ _ _ _ _ Hf Hi) as ([k mr] & Hx & Heq). destruct (Hl _ _ _ Hx) as (_ & _ & Hk & _).
    destruct (entry_to_node_ok d k mr Hno Hre Hk) as (v & s & Hv & Hs & Heq'). rewrite Heq in Heq'. injection Heq' as ->. eauto 10. }
  rewrite Hrows. cbn [rbind].
  destruct (rcollect_Ok (path_entry include_logs d) rows) as (out & Hout & Hf2); [apply Forall_forall; intros; rewrite path_entry_eq; eauto|].
  exists out. split; [done|]. split; [rewrite <-Hlen; unfold zlen; by rewrite <-(Forall2_length _ _ _ Hf2), <-(Forall2_length _ _ _ Hf)|].
  assert (∀ i row log, out !! i = Some (row, log) → rows !! i = Some row ∧ log = (if include_logs then stored_log d row else None)) as Hget.
  { intros i row log Hi. destruct (Forall2_lookup_r _ _ _ _ _ Hf2 Hi) as (row' & Hx & Heq). rewrite path_entry_eq in Heq. by simplify_eq. }
  intros i row log [Hi Hlog]%Hget. destruct (Hrow _ _ Hi) as ([e' m] & mr & v & s & Hx & -> & Hv & Hs).
  destruct (Hl _ _ _ Hx) as (He & Hb & Hk & Hdep). cbn in He. subst e'. pose proof (no_rows _ _ Hno _ _ Hk) as Hok. pose proof (no_links _ _ Hno _ _ Hk) as Hlk. cbn.
  unfold linked in Hlk. cbn in Hlk. pose proof (ro_id _ _ Hok) as Him. cbn in Him. split_and!; [done|done| |done|..].
  - unfold key, node_id_to_sql. rewrite as_i64_u64 by done. unfold select_node. rewrite Hk. by rewrite (row_to_node_ok _ _ v s).
  - intros ->. destruct (n_parent mr) as [p|]; [|by destruct Hlk as [-> _]]. destruct Hlk as (_ & pr & Hpr & ?).
    pose proof (ro_depth _ _ (no_rows _ _ Hno _ _ Hpr)). lia.
  - intros j prev lg -> [Hj _]%Hget. destruct (Hrow _ _ Hj) as ([e' pm] & pr & pv & ps & Hxj & -> & _). destruct (Hl _ _ _ Hxj) as (He & Hbp & Hkp & Hdp).
    cbn in He. subst e'. cbn. destruct (n_parent mr) as [p|] eqn:Hp; [|lia]. destruct Hlk as (_ & pr' & Hpr' & ?). cbn. do 2 f_equal.
    eapply (ancestor_unique d clock Hno e p pm _ pr' pr); [|exact Hbp|done|done|lia].
    eapply below_trans; [|exact Hb]. eapply below_child; [by eapply below_self|exact Hk|done].
  - intros ->. rewrite <-(as_u64_i64 n) by done. f_equal. pose proof (ro_depth _ _ (no_rows _ _ Hno _ _ Hr)).
    eapply (ancestor_unique d clock Hno e m _ (node_id_to_sql n) mr r); [exact Hb|by eapply below_self|exact Hk|exact Hr|lia].
Qed.

(** ** Paging by creation time *)

Definition created_of (x : node_entry) : Z := n_created x.2.
Definition set_created_after (c : Z) (f : QueryFilter) : QueryFilter :=
  mk_filter (q_experiment f) (q_status f) (q_parent f) (q_min_depth f) (q_max_depth f) (q_order f) (Some c) (q_updated_after f) (q_limit f).
(** All rows of a query, in order of creation. *)
Definition query_all (f : QueryFilter) (d : db) : list node_entry := select_nodes (query_where f) created_of d.

Lemma query_all_inj f d x y : nodes_ok clock d → x ∈ query_all f d → y ∈ query_all f d → created_of x = created_of y → x = y.
Proof.
  destruct x as [k1 r1], y as [k2 r2]. intros Hd [_ H1]%elem_of_select [_ H2]%elem_of_select Heq.
  pose proof (no_unique _ _ Hd _ _ _ _ H1 H2 Heq). subst. congruence.
Qed.

(** A list strictly increasing in [g], cut after an element. *)
Lemma cut_after {A} (g : A → Z) (l : list A) (n : nat) x :
  StronglySorted (λ a b, g a ≤ g b) l → (∀ a b, a ∈ l → b ∈ l → g a = g b → a = b) → NoDup l →
  last (take n l) = Some x → filter (λ a, g x < g a) l = drop n l.
Proof.
  intros Hs Hinj Hnd Hlast. rewrite <-(take_drop n l) at 1. rewrite filter_app.
  apply last_Some in Hlast as [pre Hpre]. rewrite <-(take_drop n l) in Hs, Hinj, Hnd. rewrite Hpre in *. clear Hpre.
  assert (∀ a, a ∈ pre ++ [x] → g a ≤ g x) as Hle.
  { intros a [Ha|Ha%list_elem_of_singleton]%elem_of_app; [|subst; lia]. rewrite <-app_assoc in Hs. apply StronglySorted_app_1_elem_of with (x1 := a) (x2 := x) in Hs; [done|done|].
    apply elem_of_app. by left; left. }
  assert (filter (λ a, g x < g a) (pre ++ [x]) = []) as ->.
  { apply filter_none. intros a Ha. specialize (Hle a Ha). lia. }
  rewrite app_nil_l. apply filter_all. intros a Ha.
  assert (g x ≤ g a). { apply StronglySorted_app_1_elem_of with (x1 := x) (x2 := a) in Hs; [done|apply elem_of_app; by right; left|done]. }
  destruct (decide (g x = g a)) as [Heq|]; [|lia]. exfalso.
  apply Hinj in Heq; [|apply elem_of_app; left; apply elem_of_app; by right; left|by apply elem_of_app; right]. subst a.
  apply NoDup_app in Hnd as (_ & Hdis & _). eapply Hdis; [|exact Ha]. apply elem_of_app. by right; left.
Qed.

(** The page after a page that ended with [r] is the rest of the rows. *)
Lemma query_all_next f d n k r : nodes_ok clock d → clock ≤ 2 ^ 63 →
  last (take n (query_all f d)) = Some (k, r) →
  query_all (set_created_after (as_u64 (n_created r)) f) d = drop n (query_all f d).
Proof.
  intros Hd Hc Hlast. assert ((k, r) ∈ query_all f d) as Hin.
  { apply last_Some in Hlast as [pre Hpre]. rewrite <-(take_drop n (query_all f d)), Hpre. apply elem_of_app. left. apply elem_of_app. by right; left. }
  pose proof Hin as [Hw Hr]%elem_of_select. pose proof (no_stamps _ _ Hd _ _ Hr) as (? & ? & ? & _).
  rewrite <-(cut_after created_of (query_all f d) n (k, r));
    [|apply select_nodes_sorted|intros ? ? ? ?; by eapply query_all_inj|eapply NoDup_fmap_1, select_nodes_NoDup|done].
  assert (as_i64 (as_u64 (n_created r)) = n_created r) as Hcast by (apply as_i64_u64; unfold i64_ok; lia).
  apply (sorted_strict_unique created_of); [intros ? ? ? ?; by eapply query_all_inj|apply select_nodes_sorted|apply sorted_filter, select_nodes_sorted|].
  apply NoDup_Permutation; [eapply NoDup_fmap_1, select_nodes_NoDup|apply NoDup_filter; eapply NoDup_fmap_1, select_nodes_NoDup|].
  intros [k' r']. rewrite list_elem_of_filter. unfold query_all. rewrite !elem_of_select. unfold query_where, created_of. cbn. rewrite Hcast.
  assert (opt_test (q_created_after f) (λ v, as_i64 v < n_created r)) as Hcur by apply Hw.
  assert (n_created r < n_created r' → opt_test (q_created_after f) (λ v, as_i64 v < n_created r')).
  { destruct (q_created_after f); cbn in *; [lia|done]. }
  tauto.
Qed.

(** ** The roots of the collector *)

Lemma elem_of_root_blobs r d : r ∈ root_blobs d ↔ (∃ k v, d_nodes d !! k = Some v ∧ n_ref v = r) ∨ is_Some (d_pins d !! r).
Proof.
  unfold root_blobs. rewrite elem_of_union, elem_of_list_to_set, elem_of_dom, list_elem_of_fmap. apply or_iff_compat_r. split.
  - intros (v & -> & ([k v'] & -> & Hin%elem_of_map_to_list)%list_elem_of_fmap). eauto.
  - intros (k & v & Hk & <-). exists v. split; [done|]. apply list_elem_of_fmap. exists (k, v). split; [done|]. by apply elem_of_map_to_list.
Qed.

Lemma root_blobs_hash_ok d r : db_ok config clock d → r ∈ root_blobs d → hash_ok r.
Proof.
  intros Hd [(k & v & Hk & <-)|[v Hv]]%elem_of_root_blobs.
  - apply (ro_ref _ _ (no_rows _ _ (do_nodes _ _ _ Hd) _ _ Hk)).
  - apply (do_pins _ _ _ Hd _ _ Hv).
Qed.

Lemma rcollect_hashes {E} (l : list bytes) : Forall hash_ok l → rcollect (slice (E:=E) 0 32) l = Ok l.
Proof. induction 1 as [|b l Hb Hl IH]; cbn [rcollect]; [done|]. by rewrite slice_hash, IH by done. Qed.

Lemma gc_root_refs_spec d : db_ok config clock d → ∃ refs, gc_root_refs d = Ok refs ∧ Forall hash_ok refs ∧ ∀ r, r ∈ refs ↔ r ∈ root_blobs d.
Proof.
  intros Hd. exists (scan (elements (root_blobs d))). assert (∀ r, r ∈ scan (elements (root_blobs d)) ↔ r ∈ root_blobs d) as Hiff.
  { intros r. by rewrite scan_perm, elem_of_elements. }
  assert (Forall hash_ok (scan (elements (root_blobs d)))).
  { apply Forall_forall. intros r Hr%Hiff. by eapply root_blobs_hash_ok. }
  split; [|done]. unfold gc_root_refs. by apply rcollect_hashes.
Qed.
End queries.
