(* ===== verification/MetaBatch.v ===== *)
(** * Batches

    Without faults a batch of commands does what its commands do one at a
    time, in batches of their own; with them, the replies of a batch may
    promise what the failed commit took back. *)

From Stdlib Require Import Floats.SpecFloat.
From S2P Require Import Prelude Types Fs Sql Meta MetaRead MetaInv MetaTree MetaSpec.

Section batch.
Context {HB : Blake3} (config : MetaConfig).

Lemma local_dispatch cmd n : local (dispatch_cmd cmd n config).
Proof.
  destruct cmd; cbn [dispatch_cmd]; apply local_bind; try (intros; apply local_ret).
  - unfold create_node_impl. loc; [apply local_check_parent|apply local_ensure_log|unfold sql, fetch_node; loc..].
  - unfold update_nodes_impl. destruct updates as [|u us]; [loc|]. generalize (u :: us) as l. intros l. apply local_bind.
    + induction l as [|u' l IH]; cbn [missing_nodes]; [loc|]. unfold sql, node_exists. loc.
    + intros missing. unfold apply_update, set_column, set_if_some, sql. loc.
  - apply local_put_log.
  - unfold put_metadata_impl, cas_failed, sql, select_gen. loc.
  - unfold delete_metadata_impl, sql, select_gen. loc.
  - unfold pin_impl, sql. loc.
  - unfold unpin_impl, sql. loc.
  - unfold prune_subtree_impl, sql, node_exists. loc.
  - unfold reap_tombstone_impl, sql, node_exists. loc.
  - unfold set_gc_state_impl, sql. loc.
Qed.

(** One command on the tables: its effect only if it succeeds. *)
Definition step_cmd (n : Z) (cmd : ActorCmd) (d : db) : res MetaError reply * db :=
  match alone (dispatch_cmd cmd n config) d with (Ok a, d') => (Ok a, d') | (r, _) => (r, d) end.

Fixpoint step_cmds (n : Z) (batch : list ActorCmd) (d : db) : list (res MetaError reply) * db :=
  match batch with
  | [] => ([], d)
  | cmd :: rest =>
      let '(r, d1) := step_cmd n cmd d in
      let '(rs, d2) := step_cmds (n + 1) rest d1 in (r :: rs, d2)
  end.

Definition no_panic (rs : list (res MetaError reply)) : Prop := Forall (λ r, r ≠ Panic) rs.

Lemma find_save_here {D} i (d : D) l : find_save i ((i, d) :: l) = Some (d, l).
Proof. cbn. by rewrite Nat.eqb_refl. Qed.

(** Inside a transaction, a savepoint, a command and its release. *)
Lemma run_command_calm i n cmd d m saves :
  (step_cmd n cmd d).1 ≠ Panic →
  run_command i cmd (mk_actor (mk_conn d m (Some (mk_tx true ((i, d) :: saves))) []) n config) =
    (Ok (step_cmd n cmd d).1, mk_actor (mk_conn (step_cmd n cmd d).2 m (Some (mk_tx true saves)) []) (n + 1) config).
Proof.
  intros Hnp. rewrite run_command_eq. cbn [w_conn w_counter w_config]. rewrite (local_dispatch cmd n) by done. cbn [c_view]. unfold step_cmd in *.
  destruct (alone (dispatch_cmd cmd n config) d) as [[a|e|] d'] eqn:Ha; [| |done].
  - unfold set_view, ignore, ibind, itry, on_conn, zoom, release, statement. cbn. rewrite Nat.eqb_refl. done.
  - unfold set_view, ignore, ibind, itry, on_conn, zoom, release, rollback_to, statement. cbn. rewrite Nat.eqb_refl. cbn. by rewrite Nat.eqb_refl.
Qed.

Lemma run_commands_calm i n batch d m saves :
  no_panic (step_cmds n batch d).1 →
  run_commands i batch (mk_actor (mk_conn d m (Some (mk_tx true saves)) []) n config) =
    (Ok (match batch with [] => false | _ => true end, (step_cmds n batch d).1),
     mk_actor (mk_conn (step_cmds n batch d).2 m (Some (mk_tx true saves)) []) (n + zlen batch) config).
Proof.
  revert i n d. induction batch as [|cmd rest IH]; intros i n d Hnp; cbn [run_commands step_cmds] in *.
  { rewrite zlen_nil, Z.add_0_r. done. }
  destruct (step_cmd n cmd d) as [r d1] eqn:Hs. destruct (step_cmds (n + 1) rest d1) as [rs d2] eqn:Hr. cbn [fst snd] in *.
  inversion_clear Hnp as [|? ? Hnr Hnrs]. unfold ibind at 1.
  replace (itry (on_conn (savepoint i)) (mk_actor (mk_conn d m (Some (mk_tx true saves)) []) n config))
    with (@Ok Empty_set _ (@Ok SqlError _ tt), mk_actor (mk_conn d m (Some (mk_tx true ((i, d) :: saves))) []) n config) by done.
  cbv iota beta. unfold ibind at 1. rewrite run_command_calm by by rewrite Hs. rewrite Hs. cbn [fst snd].
  unfold ibind at 1. rewrite IH by by rewrite Hr. rewrite Hr. cbn. rewrite zlen_cons. by replace (n + 1 + zlen rest) with (n + (1 + zlen rest)) by lia.
Qed.

(** The counter row after a batch. *)
Definition flush_counter (n : Z) (d : db) : db := match update_counter (as_i64 n) d with Ok (_, d') => d' | _ => d end.

Definition idle (d : db) (n : Z) : WriterActor := mk_actor (mk_conn d d None []) n config.

Lemma execute_batch_calm n batch d : batch ≠ [] → no_panic (step_cmds n batch d).1 →
  execute_batch batch (idle d n) =
    (Ok (step_cmds n batch d).1, idle (flush_counter (n + zlen batch) (step_cmds n batch d).2) (n + zlen batch)).
Proof.
  intros Hne Hnp. unfold execute_batch. unfold ibind at 1.
  replace (itry (on_conn begin_immediate) (idle d n))
    with (@Ok Empty_set _ (@Ok SqlError _ tt), mk_actor (mk_conn d d (Some (mk_tx true [])) []) n config) by done.
  cbv iota beta. unfold ibind at 1. rewrite run_commands_calm by done. destruct batch as [|c rest]; [done|]. cbv iota beta.
  generalize (step_cmds n (c :: rest) d) as rs. generalize (n + zlen (c :: rest)) as z. intros z [rs d']. cbn [fst snd].
  unfold flush_counter, ibind, ignore, ibind, itry, on_conn, zoom, execute, statement, commit, sql_tick, statement, update_counter.
  cbn [w_conn w_counter w_config c_faults c_view].
  by destruct (d_meta d') as [[]|].
Qed.

(** ** Commands do not see the counter row *)

Definition blind {E A} (c : M (conn db) E A) : Prop :=
  local c ∧ ∀ m d, alone c (set_meta m d) = ((alone c d).1, set_meta m (alone c d).2).

Lemma blind_of {E A} (r : res E A) : blind (iof r).
Proof. split; [apply local_of|done]. Qed.
Lemma blind_ret {E A} (a : A) : blind (E:=E) (iret a).
Proof. apply (blind_of (Ok a)). Qed.
Lemma blind_err {E A} (e : E) : blind (A:=A) (ierr e).
Proof. apply (blind_of (Err e)). Qed.
Lemma blind_panic {E A} : blind (E:=E) (A:=A) ipanic.
Proof. apply (blind_of Panic). Qed.
Lemma blind_bind {E A B} (c : M (conn db) E A) (k : A → M (conn db) E B) : blind c → (∀ a, blind (k a)) → blind (ibind c k).
Proof.
  intros [Lc Hc] Hk. assert (∀ a, local (k a)) as Lk by (intros; apply Hk). split; [by apply local_bind|]. intros m d.
  rewrite !alone_ibind by done. rewrite Hc. destruct (alone c d) as [[a|e|] d']; cbn; [|done..]. apply Hk.
Qed.
Lemma blind_map_err {E F A} (f : E → F) (c : M (conn db) E A) : blind c → blind (imap_err f c).
Proof.
  intros [Lc Hc]. destruct (run_map_err f c Lc) as [L Ha]. split; [done|]. intros m d. rewrite !Ha, Hc. done.
Qed.
Lemma blind_try {E F A} (c : M (conn db) E A) : blind c → blind (E:=F) (itry c).
Proof.
  intros [Lc Hc]. destruct (run_try (F:=F) c Lc) as [L Ha]. split; [done|]. intros m d. rewrite !Ha, Hc. by destruct (alone c d) as [[] ?].
Qed.
Lemma blind_for {E A} (l : list A) (f : A → M (conn db) E unit) : (∀ a, blind (f a)) → blind (ifor l f).
Proof. intros Hf. induction l; cbn [ifor]; [apply blind_ret|by apply blind_bind]. Qed.
Lemma blind_query {A} (f : db → res SqlError A) : (∀ m d, f (set_meta m d) = f d) → blind (query f).
Proof. intros Hf. destruct (run_query f) as [L Ha]. split; [done|]. intros m d. by rewrite !Ha, Hf. Qed.
Lemma blind_execute {A} (f : db → res SqlError (A * db)) :
  (∀ m d, f (set_meta m d) = match f d with Ok (a, d') => Ok (a, set_meta m d') | r => r end) → blind (execute f).
Proof. intros Hf. destruct (run_execute f) as [L Ha]. split; [done|]. intros m d. rewrite !Ha, Hf. by destruct (f d) as [[]| |]. Qed.

Lemma subtree_from_blind fuel m d e layer : subtree_from fuel (set_meta m d) e layer = subtree_from fuel d e layer.
Proof.
  revert layer. induction fuel as [|fuel IH]; intros [|x layer]; try done.
  change (subtree_from (S fuel) ?d e (x :: layer)) with (rest ← subtree_from fuel d e ((x :: layer) ≫= children d e); Some ((x :: layer) ++ rest)).
  by rewrite IH.
Qed.
Lemma subtree_blind m d k : subtree (set_meta m d) k = subtree d k.
Proof. unfold subtree. change (d_nodes (set_meta m d)) with (d_nodes d). case_match; [|done]. apply subtree_from_blind. Qed.

Ltac stmt_blind :=
  intros m d; unfold select_node, insert_node, update_node, mark_subtree, count_other_status, delete_subtree, delete_unused_logs, insert_log,
    upsert_kv, insert_kv, cas_kv, delete_kv, insert_pin, delete_pin, insert_tomb, delete_tomb, update_gc;
  rewrite ?subtree_blind; change (d_nodes (set_meta m d)) with (d_nodes d); change (d_logs (set_meta m d)) with (d_logs d);
  change (d_kv (set_meta m d)) with (d_kv d); change (d_pins (set_meta m d)) with (d_pins d); change (d_tombs (set_meta m d)) with (d_tombs d);
  change (d_gc (set_meta m d)) with (d_gc d); repeat case_match; simplify_eq; done.
Ltac bld := unfold sql; repeat first [ progress intros | case_match | apply blind_ret | apply blind_err | apply blind_panic | apply blind_of
  | apply blind_bind | apply blind_map_err | apply blind_try | apply blind_for | apply blind_query; stmt_blind | apply blind_execute; stmt_blind ].

Lemma blind_put_log l c n : blind (put_input_log_impl l c n config).
Proof. unfold put_input_log_impl. bld. Qed.

Lemma blind_dispatch cmd n : blind (dispatch_cmd cmd n config).
Proof.
  destruct cmd; cbn [dispatch_cmd]; apply blind_bind; try (intros; apply blind_ret).
  - unfold create_node_impl, check_parent_node, ensure_log, fetch_node. bld; try apply blind_put_log.
  - unfold update_nodes_impl. destruct updates as [|u us]; [bld|]. generalize (u :: us) as l. intros l. apply blind_bind.
    + induction l as [|u' l IH]; cbn [missing_nodes]; [bld|]. unfold node_exists. bld; apply IH.
    + intros missing. unfold apply_update, set_column, set_if_some. bld.
  - apply blind_put_log.
  - unfold put_metadata_impl, cas_failed, select_gen. bld.
  - unfold delete_metadata_impl, select_gen. bld.
  - unfold pin_impl. bld.
  - unfold unpin_impl. bld.
  - unfold prune_subtree_impl, node_exists. bld.
  - unfold reap_tombstone_impl, node_exists. bld.
  - unfold set_gc_state_impl. bld.
Qed.

Lemma step_cmds_blind n batch m d : step_cmds n batch (set_meta m d) = ((step_cmds n batch d).1, set_meta m (step_cmds n batch d).2).
Proof.
  revert n d. induction batch as [|cmd rest IH]; intros n d; cbn [step_cmds]; [done|]. unfold step_cmd. rewrite (proj2 (blind_dispatch cmd n)).
  destruct (alone (dispatch_cmd cmd n config) d) as [[a|e|] d']; cbn [fst snd]; rewrite IH; by destruct (step_cmds (n + 1) rest _).
Qed.

Lemma flush_meta n d : ∃ m, flush_counter n d = set_meta m d.
Proof.
  unfold flush_counter, update_counter. destruct (d_meta d) as [[m|]|] eqn:Hm; [by eexists|exists (Some None)|exists None]; destruct d; cbn in *; by subst.
Qed.
Lemma flush_twice n m d : flush_counter n (flush_counter m d) = flush_counter n d.
Proof. unfold flush_counter, update_counter. destruct (d_meta d) as [[]|] eqn:Hm; cbn; by rewrite ?Hm. Qed.

Lemma step_cmds_app n b1 b2 d :
  step_cmds n (b1 ++ b2) d =
    let '(r1, d1) := step_cmds n b1 d in let '(r2, d2) := step_cmds (n + zlen b1) b2 d1 in (r1 ++ r2, d2).
Proof.
  revert n d. induction b1 as [|c b1 IH]; intros n d; cbn [step_cmds app].
  - rewrite zlen_nil, Z.add_0_r. by destruct (step_cmds n b2 d).
  - destruct (step_cmd n c d) as [r d0]. rewrite IH, zlen_cons. destruct (step_cmds (n + 1) b1 d0) as [r1 d1].
    replace (n + 1 + zlen b1) with (n + (1 + zlen b1)) by lia. by destruct (step_cmds _ b2 d1).
Qed.

Lemma step_meta n b d : d_meta (step_cmds n b d).2 = d_meta d.
Proof.
  pose proof (step_cmds_blind n b (d_meta d) d) as Hb. replace (set_meta (d_meta d) d) with d in Hb by by destruct d.
  rewrite Hb at 1. done.
Qed.

(** ** Commands return *)

(** Computations whose statements return. *)
Definition returns {E A} (c : M (conn db) E A) : Prop := local c ∧ ∀ d, (alone c d).1 ≠ Panic.

Lemma returns_ret {E A} (a : A) : returns (E:=E) (iret a).
Proof. split; [apply local_ret|done]. Qed.
Lemma returns_ok_or {E A} (e : E) (o : option A) : returns (iof (ok_or e o)).
Proof. split; [apply local_of|]. by destruct o. Qed.
Lemma returns_err {E A} (e : E) : returns (A:=A) (ierr e).
Proof. split; [apply local_err|done]. Qed.
Lemma returns_bind {E A B} (c : M (conn db) E A) (k : A → M (conn db) E B) : returns c → (∀ a, returns (k a)) → returns (ibind c k).
Proof.
  intros [Lc Hc] Hk. assert (∀ a, local (k a)) as Lk by (intros; apply Hk). split; [by apply local_bind|]. intros d. rewrite alone_ibind by done.
  specialize (Hc d). destruct (alone c d) as [[a|e|] d']; [apply Hk|done..].
Qed.
Lemma returns_map_err {E F A} (f : E → F) (c : M (conn db) E A) : returns c → returns (imap_err f c).
Proof.
  intros [Lc Hc]. destruct (run_map_err f c Lc) as [L Ha]. split; [done|]. intros d. rewrite Ha. specialize (Hc d). by destruct (alone c d) as [[] ?].
Qed.
Lemma returns_try {E F A} (c : M (conn db) E A) : returns c → returns (E:=F) (itry c).
Proof.
  intros [Lc Hc]. destruct (run_try (F:=F) c Lc) as [L Ha]. split; [done|]. intros d. rewrite Ha. specialize (Hc d). by destruct (alone c d) as [[] ?].
Qed.
Lemma returns_try_bind {E F A B} (c : M (conn db) E A) (k : res E A → M (conn db) F B) :
  returns c → (∀ r, local (k r)) → (∀ a, returns (k (Ok a))) → (∀ e, returns (k (Err e))) → returns (ibind (itry c) k).
Proof.
  intros Hc Hl Ha He. split; [apply local_bind; [by apply local_try, Hc|done]|]. intros d. rewrite alone_ibind by (try done; by apply local_try, Hc).
  destruct (run_try (F:=F) c (proj1 Hc)) as [_ Heq]. rewrite Heq. pose proof (proj2 Hc d) as Hnp.
  destruct (alone c d) as [[a|e|] d']; cbn in *; [apply Ha|apply He|done].
Qed.
Lemma returns_query {A} (f : db → res SqlError A) : (∀ d, f d ≠ Panic) → returns (query f).
Proof. intros Hf. destruct (run_query f) as [L Ha]. split; [done|]. intros d. rewrite Ha. apply Hf. Qed.
Lemma returns_execute {A} (f : db → res SqlError (A * db)) : (∀ d, f d ≠ Panic) → returns (execute f).
Proof. intros Hf. destruct (run_execute f) as [L Ha]. split; [done|]. intros d. rewrite Ha. specialize (Hf d). by destruct (f d) as [[]| |]. Qed.
Lemma returns_for {E A} (l : list A) (f : A → M (conn db) E unit) : (∀ a, returns (f a)) → returns (ifor l f).
Proof. intros Hf. induction l; cbn [ifor]; [apply returns_ret|by apply returns_bind]. Qed.

Ltac ret := unfold sql; repeat first [ progress intros | case_match | apply returns_ret | apply returns_err | apply returns_ok_or | apply returns_bind
  | apply returns_map_err | apply returns_try | apply returns_for | apply returns_query | apply returns_execute ]; try done.

Lemma returns_column k f : returns (set_column k f).
Proof. unfold set_column, sql. apply returns_bind; [|intros; apply returns_ret]. apply returns_map_err, returns_execute. intros d. unfold update_node. by case_match. Qed.
Lemma returns_if_some {V} k (o : option V) f : returns (set_if_some k o f).
Proof. destruct o; [apply returns_column|apply returns_ret]. Qed.
Lemma returns_update e n u : returns (apply_update e n u).
Proof.
  unfold apply_update. cbv zeta.
  do 7 (apply returns_bind; [try case_match; first [apply returns_column | apply returns_if_some | apply returns_ret]|intros _]).
  apply returns_if_some.
Qed.

Lemma create_returns p n d : db_ok config n d → 0 ≤ n < 2 ^ 63 → create_ok p → Z.of_nat (size (d_nodes d)) < 2 ^ 32 →
  (alone (create_node_impl p n config) d).1 ≠ Panic.
Proof.
  intros Hd Hn Hp Hsize. destruct (create_cases config n p d Hd Hp Hsize) as [(dep & d1 & Hpar & Hlog)|[err ->]]; [|done].
  rewrite (create_node_eq config n ltac:(done) p dep d d1) by done. pose proof (log_ready_nodes _ _ _ _ _ Hlog) as Hnodes.
  destruct (parent_ready_depth config n p dep d Hd Hpar) as [Hdep Hfk]. rewrite alone_try_execute. unfold insert_node.
  destruct (decide (is_Some (d_nodes d1 !! key (cp_experiment p) (cp_node p)))) as [Hs|Hs].
  - rewrite bool_decide_eq_true_2 by done. unfold fetch_node. rewrite alone_query.
    assert (select_node (key (cp_experiment p) (cp_node p)) d1 ≠ Panic) as Hnp.
    { unfold select_node. rewrite Hnodes. by apply (select_node_returns n _ d), Hd. }
    destruct (select_node _ d1) as [[row|]|e|]; try done. cbn [ok_or]. change (ibind (iof (Ok ?a)) ?k) with (k a). cbv beta. by destruct (same_node row p).
  - rewrite bool_decide_eq_false_2 by done. rewrite bool_decide_eq_true_2.
    + cbn [negb]. unfold fetch_node. rewrite alone_query.
      rewrite (new_node_reads n p dep _ Hp Hdep) by (cbn; apply lookup_insert_eq). done.
    + rewrite Hnodes. unfold fk_row in *. destruct (n_parent _) as [q|]; [|done]. destruct Hfk as [pr Hpr]. rewrite lookup_insert_is_Some'. by right; exists pr.
Qed.

Lemma dispatch_returns cmd n d : db_ok config n d → 0 ≤ n < 2 ^ 63 → cmd_ok cmd → Z.of_nat (size (d_nodes d)) < 2 ^ 32 →
  (alone (dispatch_cmd cmd n config) d).1 ≠ Panic.
Proof.
  intros Hd Hn Hc Hsize. assert (∀ A (f : A → reply) (c : MC A), local c → (alone c d).1 ≠ Panic → (alone (as_reply f c) d).1 ≠ Panic) as Hrep.
  { intros A f c Hl Hnp. unfold as_reply. rewrite alone_ibind by auto with local. by destruct (alone c d) as [[] ?]. }
  pose proof (local_dispatch cmd n) as Hl. destruct cmd; cbn [dispatch_cmd cmd_ok] in *.
  - apply Hrep; [|by apply create_returns]. unfold create_node_impl. loc; [apply local_check_parent|apply local_ensure_log|unfold sql, fetch_node; loc..].
  - apply returns_bind; [|intros; apply returns_ret]. unfold update_nodes_impl. destruct updates as [|u us]; [ret|]. generalize (u :: us) as l. intros l.
    apply returns_bind.
    + induction l as [|u' l IH]; cbn [missing_nodes]; [ret|]. unfold node_exists. ret; apply IH.
    + intros missing. case_match; [apply returns_err|]. apply returns_bind; [|intros; apply returns_ret]. apply returns_for. intros. apply returns_update.
  - apply Hrep; [apply local_put_log|]. unfold put_input_log_impl. repeat (case_match; [done|]). b2p. unfold INPUT_LOG_MIN_BYTES in *.
    rewrite slice_ok by lia. change (ibind (iof (Ok ?a)) ?k) with (k a). cbv beta. case_match; [done|]. rewrite (proj2 (Z.leb_le 12 _)), slice_ok by lia.
    change (ibind (ibind (iof (Ok ?a)) ?k) ?k') with (ibind (k a) k'). cbv beta. change (ibind (iret ?a) ?k) with (k a). cbv beta.
    rewrite alone_execute. unfold insert_log, insert_or_ignore. by destruct (d_logs d !! l).
  - apply returns_bind; [|intros; apply returns_ret]. unfold put_metadata_impl, cas_failed, select_gen, upsert_kv, insert_kv, cas_kv.
    destruct expected as [[|g|g]|]; [|ret..]. do 2 (case_match; [apply returns_err|]). apply returns_try_bind; [ret|unfold sql; loc|ret|ret].
  - apply returns_bind; [|intros; apply returns_ret]. unfold delete_metadata_impl, select_gen, delete_kv. ret.
  - apply returns_bind; [|intros; apply returns_ret]. unfold pin_impl, insert_pin. ret.
  - apply returns_bind; [|intros; apply returns_ret]. unfold unpin_impl, delete_pin. ret.
  - apply Hrep; [unfold prune_subtree_impl, sql, node_exists; loc|]. unfold prune_subtree_impl. case_match; [done|]. unfold node_exists. rewrite alone_query.
    case_bool_decide as Hex; [|done]. cbn [negb]. rewrite alone_execute. destruct (subtree_spec d n (do_nodes _ _ _ Hd) e _ Hex) as (ids & Hs & _).
    unfold mark_subtree. change (key e n0) with (e, node_id_to_sql n0) at 1. rewrite Hs. rewrite alone_execute. unfold insert_tomb. by destruct (insert_or_ignore _ _ _).
  - apply Hrep; [unfold reap_tombstone_impl, sql, node_exists; loc|]. destruct (reap_cases config n d e n0 Hd) as (H1 & H2 & H3).
    destruct (d_nodes d !! key e n0) as [r|] eqn:Hr; [|by rewrite H1].
    destruct (subtree_spec d n (do_nodes _ _ _ Hd) e (node_id_to_sql n0)) as (ids & Hs & Hids); [by eexists|].
    destruct (count_other_spec d e _ ids Hids Hs) as (c & _ & _ & Hz). destruct (decide (c = 0)) as [->|Hc0].
    + destruct H3 as (d' & desc & -> & _); [done|by apply Hz|done].
    + rewrite H2; [done|done|tauto].
  - apply returns_bind; [|intros; apply returns_ret]. unfold set_gc_state_impl, update_gc. ret.
Qed.

(** ** Batches are transparent *)

Lemma safe_alone {E A} (I : db → Prop) d (c : M (conn db) E A) Q :
  safe I d c Q → I d → I (alone c d).2 ∧ ∀ a, (alone c d).1 = Ok a → Q a (alone c d).2.
Proof.
  intros Hc Hd. destruct (Hc (mk_conn d d None [])) as [Hok HQ]; [by split|done|]. unfold alone.
  destruct (c (mk_conn d d None [])) as [r s]. cbn in *. split; [apply Hok|done].
Qed.

Lemma step_cmd_ok n cmd d : db_ok config n d → 0 ≤ n < 2 ^ 63 → cmd_ok cmd →
  db_ok config (n + 1) (step_cmd n cmd d).2 ∧ (size (d_nodes (step_cmd n cmd d).2) ≤ S (size (d_nodes d)))%nat.
Proof.
  intros Hd Hn Hc. assert (db_ok config (n + 1) d) as Hd1 by (eapply db_ok_mono; [|exact Hd]; lia). split.
  - destruct (safe_alone _ _ _ _ (dispatch_safe config n Hn cmd d Hd Hc) Hd1) as [Hok _]. unfold step_cmd.
    by destruct (alone _ d) as [[] ?].
  - set (X := dom (d_nodes d) ∪ match cmd with CreateNode p => {[key (cp_experiment p) (cp_node p)]} | _ => ∅ end).
    assert (held (λ k _, k ∈ X) (λ _, True) d) as Hh.
    { split; [|done]. intros k r Hk. apply elem_of_union_l. by eapply elem_of_dom_2. }
    assert (brings_ok (λ k _, k ∈ X) (λ _, True) cmd) as Hb by (destruct cmd; try done; apply elem_of_union_r; set_solver).
    destruct (safe_alone _ _ _ _ (dispatch_held _ _ cmd n config d Hh Hb) Hh) as [[Hn' _] _].
    assert (∀ d', map_Forall (λ k _, k ∈ X) (d_nodes d') → (size (d_nodes d') ≤ S (size (d_nodes d)))%nat) as Hsz.
    { intros d' Hd'. rewrite <-!size_dom. transitivity (size X).
      - apply subseteq_size. intros k [r Hk]%elem_of_dom. by apply (Hd' k r).
      - unfold X. rewrite size_union_alt, Nat.add_comm. apply (Nat.add_le_mono_r _ 1).
        transitivity (size (match cmd with CreateNode p => {[key (cp_experiment p) (cp_node p)]} | _ => ∅ end : gset node_key));
          [apply subseteq_size; set_solver|].
        destruct cmd; try (rewrite size_empty; lia). by rewrite size_singleton. }
    unfold step_cmd. destruct (alone _ d) as [[] d']; cbn in *; [by apply Hsz|lia|lia].
Qed.

Lemma step_cmds_ok n batch d : db_ok config n d → 0 ≤ n → n + zlen batch < 2 ^ 63 → Forall cmd_ok batch →
  Z.of_nat (size (d_nodes d)) + zlen batch < 2 ^ 32 →
  no_panic (step_cmds n batch d).1 ∧ db_ok config (n + zlen batch) (step_cmds n batch d).2 ∧
  Z.of_nat (size (d_nodes (step_cmds n batch d).2)) ≤ Z.of_nat (size (d_nodes d)) + zlen batch.
Proof.
  revert n d. induction batch as [|cmd rest IH]; intros n d Hd Hn Hlen Hcs Hsize; cbn [step_cmds].
  { rewrite zlen_nil, !Z.add_0_r. by split; [constructor|]. }
  rewrite zlen_cons in *. pose proof (zlen_nonneg rest). inversion_clear Hcs as [|? ? Hc Hrest].
  destruct (step_cmd_ok n cmd d Hd ltac:(lia) Hc) as [Hd1 Hs1].
  assert ((step_cmd n cmd d).1 ≠ Panic) as Hnp.
  { pose proof (dispatch_returns cmd n d Hd ltac:(lia) Hc ltac:(lia)) as Hr. unfold step_cmd. by destruct (alone _ d) as [[] ?]. }
  destruct (step_cmd n cmd d) as [r d1]. cbn [fst snd] in *. destruct (IH (n + 1) d1 Hd1 ltac:(lia) ltac:(lia) Hrest ltac:(lia)) as (H1 & H2 & H3).
  destruct (step_cmds (n + 1) rest d1) as [rs d2]. cbn in *. replace (n + (1 + zlen rest)) with (n + 1 + zlen rest) by lia.
  split_and!; [by constructor|done|lia].
Qed.

Lemma step_cmds_length n batch d : length (step_cmds n batch d).1 = length batch.
Proof.
  revert n d. induction batch as [|cmd rest IH]; intros n d; cbn [step_cmds]; [done|]. destruct (step_cmd n cmd d) as [r d1].
  specialize (IH (n + 1) d1). destruct (step_cmds _ rest d1). cbn in *. by rewrite IH.
Qed.

(** C15. Batching is transparent.  On an idle connection without faults a
    batch replies to every command and leaves the tables as if it had been
    split anywhere into two batches run one after the other: the same
    replies in the same order, the same tables, the same clock. *)
Theorem batching_transparent n b1 b2 d :
  db_ok config n d → 0 ≤ n → n + zlen (b1 ++ b2) < 2 ^ 63 → Forall cmd_ok (b1 ++ b2) → b1 ≠ [] → b2 ≠ [] →
  Z.of_nat (size (d_nodes d)) + zlen (b1 ++ b2) < 2 ^ 32 →
  execute_batch (b1 ++ b2) (idle d n) =
    (let! r1 := execute_batch b1 in let! r2 := execute_batch b2 in iret (r1 ++ r2)) (idle d n) ∧
  ∃ rs d', execute_batch (b1 ++ b2) (idle d n) = (Ok rs, idle d' (n + zlen (b1 ++ b2))) ∧ length rs = length (b1 ++ b2).
Proof.
  intros Hd Hn Hlen Hcs Hb1 Hb2 Hsize. destruct (step_cmds_ok n (b1 ++ b2) d Hd Hn Hlen Hcs Hsize) as (Hnp & _).
  assert (b1 ++ b2 ≠ []) as Hb by (by destruct b1). rewrite execute_batch_calm by done. split.
  - rewrite step_cmds_app in *. unfold ibind. destruct (step_cmds n b1 d) as [r1 d1] eqn:H1.
    destruct (step_cmds (n + zlen b1) b2 d1) as [r2 d2] eqn:H2. cbn [fst snd] in *. apply Forall_app in Hnp as [Hnp1 Hnp2].
    rewrite execute_batch_calm by (try done; by rewrite H1). rewrite H1. cbn [fst snd].
    destruct (flush_meta (n + zlen b1) d1) as [m Hm].
    assert (step_cmds (n + zlen b1) b2 (flush_counter (n + zlen b1) d1) = (r2, set_meta m d2)) as Hs2 by by rewrite Hm, step_cmds_blind, H2.
    rewrite execute_batch_calm by (try done; by rewrite Hs2). rewrite Hs2. cbn. rewrite zlen_app. unfold iret.
    replace (n + (zlen b1 + zlen b2)) with (n + zlen b1 + zlen b2) by lia. do 2 f_equal.
    pose proof (step_meta (n + zlen b1) b2 d1) as Hmeta. rewrite H2 in Hmeta. cbn in Hmeta.
    replace (set_meta m d2) with (flush_counter (n + zlen b1) d2); [by rewrite flush_twice|].
    apply (f_equal d_meta) in Hm. clear -Hm Hmeta. unfold flush_counter, update_counter in *. rewrite Hmeta.
    destruct (d_meta d1) as [[x|]|] eqn:Hx; cbn in Hm; rewrite ?Hx in Hm; subst m; destruct d2; cbn in *; by subst.
  - eexists _, _. split; [done|]. apply step_cmds_length.
Qed.


End batch.

(** Acknowledged writes can be lost.  When [COMMIT] fails, the batch is
    rolled back but its commands still reply as if they had succeeded: a pin
    is acknowledged and the database has no trace of it. *)
Theorem lost_commit_acknowledged `{Blake3} config d n r note :
  execute_batch [Pin r note] (mk_actor (mk_conn d d None [Works; Works; Works; Works; Works; Fails]) n config) =
    (Ok [Ok RUnit], mk_actor (mk_conn d d None []) (n + 1) config).
Proof.
  unfold execute_batch, run_commands, run_command, dispatch_cmd, as_reply, pin_impl, sql, insert_pin.
  unfold ibind, ignore, ibind, itry, imap_err, on_conn, zoom, begin_immediate, savepoint, release, execute, commit, rollback, statement, sql_tick.
  cbn -[insert_or_ignore]. destruct (insert_or_ignore _ _ _) as [k m]. cbn. unfold update_counter. cbn. by destruct (d_meta d) as [[]|].
Qed.
