(* ===== verification/MetaUpdate.v ===== *)
(** * Node updates

    What [UpdateNodes] does to every row it names, what its visit counter
    does at the edge of its column, and the values a stored row decodes
    to. *)

From Stdlib Require Import Floats.SpecFloat.
From S2P Require Import Prelude Types Fs Sql Meta MetaRead MetaInv MetaTree MetaSpec.

Section updates.
Context {HB : Blake3} (config : MetaConfig) (clock : Z) (Hclock : 0 ≤ clock < 2 ^ 63).

(** The row an update leaves in place of [r]. *)
Definition updated_row (u : NodeUpdate) (r : node_sql) : node_sql :=
  let opt {V} (o : option V) (f : V → node_sql → node_sql) r := match o with Some v => f v r | None => r end in
  opt (u_vns u) (λ n, set_n_vns (as_i64 n)) $
  opt (u_icount u) (λ n, set_n_icount (as_i64 n)) $
  (if u_touch u then set_n_visited clock else id) $
  (λ r, if u_visit_delta u =? 0 then r else set_n_visits (integer_affinity (sql_add (n_visits r) (u_visit_delta u))) r) $
  opt (u_attrs u) (λ b, set_n_attrs (Some b)) $
  opt (u_score u) (λ f, set_n_score (bind_f64 f)) $
  opt (u_status u) (λ s, set_n_status (status_to_sql s)) $
  set_n_updated clock r.

Definition alter_node (k : node_key) (f : node_sql → node_sql) (d : db) : db := set_nodes (alter f k (d_nodes d)) d.

Lemma alter_node_id k d : alter_node k (λ r, r) d = d.
Proof. unfold alter_node. rewrite alter_id; [by destruct d|done]. Qed.
Lemma alter_node_compose k f g d : alter_node k f (alter_node k g d) = alter_node k (f ∘ g) d.
Proof. unfold alter_node. cbn. by rewrite alter_alter_eq. Qed.

Lemma insert_alter {V} (f : V → V) (m : gmap node_key V) k r : m !! k = Some r → alter f k m = <[k := f r]> m.
Proof.
  intros Hk. apply map_eq. intros j. destruct (decide (j = k)) as [->|Hj]; [by rewrite lookup_alter_eq, lookup_insert_eq, Hk|].
  by rewrite lookup_alter_ne, lookup_insert_ne.
Qed.

Lemma alone_column {B} k f (c : unit → MC B) d : alone (ibind (set_column k f) c) d = alone (c tt) (alter_node k f d).
Proof.
  unfold alone, set_column, sql, ibind, imap_err, execute, statement, update_node, alter_node. cbn.
  destruct (d_nodes d !! k) as [r|] eqn:Hk; cbn; [by rewrite <-(insert_alter f _ _ _ Hk)|].
  rewrite alter_id' by done. by destruct d.
Qed.
Lemma alone_if_some {V B} k (o : option V) f (c : unit → MC B) d :
  alone (ibind (set_if_some k o f) c) d = alone (c tt) (alter_node k (λ r, match o with Some v => f v r | None => r end) d).
Proof. destruct o as [v|]; cbn; [apply alone_column|]. by rewrite alter_node_id. Qed.
Lemma alone_when_column {B} (b : bool) k f (c : unit → MC B) d :
  alone (ibind (if b then iret tt else set_column k f) c) d = alone (c tt) (alter_node k (λ r, if b then r else f r) d).
Proof. destruct b; [by rewrite alter_node_id|apply alone_column]. Qed.

Lemma alone_assoc {A B C} (c : MC A) (k : A → MC B) (h : B → MC C) d :
  alone (ibind (ibind c k) h) d = alone (ibind c (λ a, ibind (k a) h)) d.
Proof. unfold alone, ibind. by destruct (c _) as [[] ?]. Qed.

Lemma alone_apply_update {B} e u (c : unit → MC B) d :
  alone (ibind (apply_update e clock u) c) d = alone (c tt) (alter_node (key e (u_node u)) (updated_row u) d).
Proof.
  unfold apply_update. rewrite (stamp_now clock Hclock). rewrite alone_assoc, alone_column. do 3 rewrite alone_assoc, alone_if_some.
  rewrite alone_assoc, alone_when_column. rewrite alone_assoc.
  replace (if u_touch u then set_column (key e (u_node u)) (set_n_visited clock) else iret tt)
    with (if negb (u_touch u) then iret tt else set_column (key e (u_node u)) (set_n_visited clock)) by by destruct (u_touch u).
  rewrite alone_when_column, alone_assoc, !alone_if_some, !alter_node_compose. do 2 f_equal. unfold alter_node. f_equal. f_equal.
  unfold updated_row, compose. by destruct (u_touch u).
Qed.

Lemma alone_updates {B} e us (c : unit → MC B) d :
  alone (ibind (ifor us (apply_update e clock)) c) d = alone (c tt) (foldl (λ d u, alter_node (key e (u_node u)) (updated_row u) d) d us).
Proof.
  revert d. induction us as [|u us IH]; intros d; cbn [ifor foldl]; [done|]. by rewrite alone_assoc, alone_apply_update, IH.
Qed.

Definition missing (e : ExperimentId) (us : list NodeUpdate) (d : db) : list NodeId :=
  filter (λ n, d_nodes d !! key e n = None) (u_node <$> us).

Lemma alone_missing {B} e us (c : list NodeId → MC B) d :
  alone (ibind (missing_nodes e us) c) d = alone (c (missing e us d)) d.
Proof.
  revert c. induction us as [|u us IH]; intros c; cbn [missing_nodes]; [done|]. rewrite alone_assoc. unfold node_exists. rewrite alone_query, alone_assoc, IH.
  change (ibind (iret ?a) ?k) with (k a). cbv beta. f_equal. f_equal. unfold missing. rewrite fmap_cons, filter_cons.
  destruct (d_nodes d !! key e (u_node u)) as [r|]; [by rewrite bool_decide_eq_true_2, decide_False by eauto|].
  by rewrite bool_decide_eq_false_2, decide_True by (done || by intros []).
Qed.

Lemma update_nodes_eq e us d : us ≠ [] → alone (update_nodes_impl e us clock) d =
  if decide (missing e us d = []) then (Ok clock, foldl (λ d u, alter_node (key e (u_node u)) (updated_row u) d) d us)
  else (Err (MissingNodes (missing e us d)), d).
Proof.
  intros Hus. replace (update_nodes_impl e us clock) with
    (ibind (missing_nodes e us) (λ missing, fail_if negb (bool_decide (missing = [])) with MissingNodes missing in
       ifor us (apply_update e clock) ;! iret clock)) by by destruct us.
  rewrite alone_missing. destruct (decide (missing e us d = [])) as [->|Hm].
  - rewrite bool_decide_eq_true_2 by done. cbn [negb]. by rewrite alone_updates.
  - by rewrite bool_decide_eq_false_2.
Qed.

(** C34. Updating nodes.  If some id does not exist the call reports exactly
    the missing ids, in order, and changes nothing; otherwise every update is
    applied in order to the row it names, with the command's stamp, and no
    other row or table changes. *)
Theorem update_nodes_spec e us d : us ≠ [] →
  (missing e us d ≠ [] → alone (update_nodes_impl e us clock) d = (Err (MissingNodes (missing e us d)), d)) ∧
  (missing e us d = [] → alone (update_nodes_impl e us clock) d =
     (Ok clock, foldl (λ d u, alter_node (key e (u_node u)) (updated_row u) d) d us)).
Proof. intros Hus. rewrite update_nodes_eq by done. destruct (decide _); by split. Qed.

(** ** The visit counter *)

Lemma updated_visits u r : n_visits (updated_row u r) =
  if u_visit_delta u =? 0 then n_visits r else integer_affinity (sql_add (n_visits r) (u_visit_delta u)).
Proof.
  unfold updated_row. destruct (u_vns u), (u_icount u), (u_touch u), (u_attrs u), (u_score u), (u_status u), (u_visit_delta u =? 0); done.
Qed.
Lemma updated_row_step u r : row_step (clock + 1) r (updated_row u r).
Proof.
  unfold updated_row. split;
    try (destruct (u_vns u), (u_icount u), (u_touch u), (u_attrs u), (u_score u), (u_status u), (u_visit_delta u =? 0); done).
  - destruct (u_vns u), (u_icount u), (u_touch u), (u_attrs u), (u_score u), (u_status u), (u_visit_delta u =? 0); cbn; eauto.
  - unfold stamped. destruct (u_vns u), (u_icount u), (u_touch u), (u_attrs u), (u_score u), (u_status u), (u_visit_delta u =? 0); cbn; lia.
Qed.


(** ** The values of a stored row *)


Record row_typed (row : NodeRow) : Prop := {
  rt_experiment : experiment_ok (experiment_id row);
  rt_node : u64_ok (node_id row);
  rt_parent : ∀ p, parent_node_id row = Some p → u64_ok p;
  rt_depth : u32_ok (depth row);
  rt_ref : hash_ok (snapshot_ref_of row);
  rt_log : ∀ l, input_log_id row = Some l → hash_ok l;
  rt_visits : u64_ok (visit_count row);
  rt_icount : u64_ok (icount row);
  rt_vns : u64_ok (virtual_ns row);
  rt_stamps : created_at row ≤ updated_at row < clock ∧ 0 ≤ created_at row ∧ 0 ≤ last_visited_at row < clock;
}.

(** C35. Reading a node of a database that satisfies the invariant.  It never
    panics: there is no such row, or the row decodes to values in their
    types that name the node asked for, or its visit counter has left the
    integer range, and that is the only error. *)
Theorem get_node_typed d e n : db_ok config clock d → experiment_ok e → u64_ok n →
  match get_node e n d with
  | Ok None => d_nodes d !! key e n = None
  | Ok (Some row) => row_typed row ∧ experiment_id row = e ∧ node_id row = n
  | Err err => err = InvalidColumnType 8 ∧ ∃ r f, d_nodes d !! key e n = Some r ∧ n_visits r = SReal f
  | Panic => False
  end.
Proof.
  intros Hd He Hn. unfold get_node, select_node. destruct (d_nodes d !! key e n) as [r|] eqn:Hr; [|done].
  pose proof (no_rows _ _ (do_nodes _ _ _ Hd) _ _ Hr) as Hrow. pose proof (no_stamps _ _ (do_nodes _ _ _ Hd) _ _ Hr) as Hst.
  destruct (n_visits r) as [v|f] eqn:Hv; [|unfold row_to_node; rewrite Hv; cbn; by eauto]. destruct (ro_status _ _ Hrow) as [s Hs].
  rewrite (row_to_node_ok _ _ _ _ Hrow Hv Hs). cbn [rbind fmap]. destruct Hrow as [H1 H2 H3 H4 H5 H6 H7]. unfold stamped in Hst. cbn in Hst.
  split; [|split; [done|]; cbn; unfold node_id_to_sql; by rewrite as_u64_i64].
  split; cbn; try done; try apply as_u64_range; [|..].
  - intros p Hp. destruct (n_parent r); cbn in Hp; simplify_eq. apply as_u64_range.
  - rewrite !as_u64_id by (unfold u64_ok; lia). lia.
Qed.

End updates.
