(* ===== verification/MetaOpen.v ===== *)
(** * Opening the metadata database

    The migrations move a database file from any version to the current one
    and can be killed or fail at any statement; the clock a restart derives
    is ahead of every stamp. *)

From S2P Require Import Prelude Types Fs Sql Meta MetaRead MetaInv.

(** ** Transactions under faults *)

Section resting.
Context {D : Type}.

(** No transaction is open. *)
Definition resting (d : D) (s : conn D) : Prop := c_view s = d ∧ c_main s = d ∧ c_tx s = None.

Lemma resting_tick d s : resting d s → resting d (sql_tick s).2.
Proof. unfold sql_tick. by destruct (c_faults s). Qed.

Lemma resting_statement {A} (f : conn D → res SqlError A * conn D) d s : resting d s →
  (∃ e s', statement f s = (Err e, s') ∧ resting d s') ∨ ∃ s', statement f s = f s' ∧ resting d s' ∧ (c_faults s = [] → s' = s).
Proof.
  intros Hs. pose proof (resting_tick d s Hs) as Ht. unfold statement. destruct (sql_tick s) as [[] s'] eqn:He; cbn in Ht.
  - right. exists s'. split_and!; [done..|]. intros Hf. unfold sql_tick in He. rewrite Hf in He. by injection He.
  - left. eauto.
  - left. eexists _, _. split; [done|]. destruct Ht as (? & ? & ?). by split_and!.
Qed.

Lemma resting_query {A} (f : D → res SqlError A) d s : resting d s → ∃ s', resting d s' ∧
  ((∃ e, query f s = (Err e, s')) ∨ query f s = (f d, s')) ∧ (c_faults s = [] → query f s = (f d, s)).
Proof.
  intros Hs. destruct (resting_statement (λ c, (f (c_view c), c)) d s Hs) as [(e & s' & He & Hs')|(s' & He & Hs' & Hf)];
    exists s'; (split; [done|]); unfold query.
  - split; [by eauto|]. intros Hf. unfold statement, sql_tick in *. rewrite Hf in *. destruct Hs as (-> & _). done.
  - rewrite He. pose proof (proj1 Hs') as ->. split; [by auto|]. intros H0. by rewrite (Hf H0).
Qed.

(** Inside a transaction: a body works as it would without faults, or
    nothing of it is committed. *)
Definition plain {E A} (c : M (conn D) E A) : Prop := local c ∧ ∀ s t, c_tx s = Some t →
  c_main (c s).2 = c_main s ∧
  ∀ a, (c s).1 = Ok a → alone c (c_view s) = (Ok a, c_view (c s).2) ∧ c_tx (c s).2 = Some t.

Lemma plain_ret {E A} (a : A) : plain (E:=E) (iret a).
Proof. split; [apply local_ret|]. intros s t Ht. split; [done|]. intros a' [= <-]. done. Qed.
Lemma plain_execute {A} (f : D → res SqlError (A * D)) : plain (execute f).
Proof.
  split; [apply local_execute|]. intros s t Ht. rewrite (proj2 (run_execute f)). unfold execute, statement.
  destruct (sql_tick s) as [x s'] eqn:Hs.
  assert (c_view s' = c_view s ∧ c_main s' = c_main s ∧ c_tx s' = Some t) as (Hv & Hm & Ht')
    by (unfold sql_tick in Hs; destruct (c_faults s); by injection Hs as <- <-).
  destruct x; [|by split..]. rewrite Hv. destruct (f (c_view s)) as [[b d']|e|]; [|by split..]. unfold set_view. rewrite Ht'. cbn.
  split; [done|]. by intros a [= ->].
Qed.
Lemma plain_bind {E A B} (c : M (conn D) E A) (k : A → M (conn D) E B) : plain c → (∀ a, plain (k a)) → plain (ibind c k).
Proof.
  intros [Hl Hc] Hk. destruct (run_bind c k Hl (λ a, proj1 (Hk a))) as [Hlb Hab]. split; [done|]. intros s t Ht. rewrite Hab.
  destruct (Hc s t Ht) as [Hm Ha]. unfold ibind. destruct (c s) as [[a|e|] s1]; cbn in *; [|by split..].
  destruct (Ha a eq_refl) as [-> Ht1]. destruct (proj2 (Hk a) s1 t Ht1) as [Hm2 Ha2]. split; [congruence|]. intros b Hb. by destruct (Ha2 b Hb).
Qed.
Lemma plain_map_err {E F A} (g : E → F) (c : M (conn D) E A) : plain c → plain (imap_err g c).
Proof.
  intros [Hl Hc]. destruct (run_map_err g c Hl) as [Hlb Hab]. split; [done|]. intros s t Ht. rewrite Hab. destruct (Hc s t Ht) as [Hm Ha].
  unfold imap_err. destruct (c s) as [[a|e|] s1]; cbn in *; [|by split..]. split; [done|]. intros b [= <-]. destruct (Ha a eq_refl) as [-> ?]. done.
Qed.

Lemma resting_transaction {E A} (g : SqlError → E) (body : M (conn D) E A) d s : plain body → resting d s →
  let '(r, s') := in_transaction g body s in
  (∃ a d', r = Ok a ∧ alone body d = (Ok a, d') ∧ resting d' s') ∨ (∀ a, r ≠ Ok a) ∧ c_main s' = d.
Proof.
  intros [_ Hb] Hs. unfold in_transaction, ibind, imap_err at 1, begin_immediate.
  destruct (resting_statement (λ c, match c_tx c with Some _ => (Err SqliteFailure, c) | None => (Ok tt, set_tx (Some (mk_tx true [])) c) end) d s Hs)
    as [(e & s' & -> & Hs')|(s' & -> & (Hv & Hm & Ht) & _)].
  { right. split; [done|]. apply Hs'. }
  rewrite Ht. cbn [map_err fst snd]. set (s1 := set_tx _ s'). destruct (Hb s1 _ eq_refl) as [Hm1 Ha]. cbn [c_view c_main set_tx s1] in Hm1, Ha.
  assert (∀ s0 : conn D, c_main s0 = d → c_main (rollback s0).2 = d) as Hroll.
  { intros s0 H0. unfold rollback, statement, sql_tick. destruct (c_faults s0) as [|[]]; cbn; [destruct (c_tx s0)|destruct (c_tx s0)|..]; done. }
  assert (∀ s0, c_main s0 = d → let '(_, s2) := rollback s0 in c_main s2 = d) as Hroll2
    by (intros s0 H0; specialize (Hroll s0 H0); by destruct (rollback s0)).
  destruct (body s1) as [[a|e|] s2]; cbn in Hm1, Ha; [|specialize (Hroll2 s2 ltac:(congruence)); destruct (rollback s2); by right..].
  destruct (Ha a eq_refl) as [Hal Ht2]. unfold commit, statement. destruct (sql_tick s2) as [x s3] eqn:Hx.
  assert (c_view s3 = c_view s2 ∧ c_main s3 = c_main s2 ∧ c_tx s3 = c_tx s2) as (Hv3 & Hm3 & Ht3)
    by (unfold sql_tick in Hx; destruct (c_faults s2); by injection Hx as <- <-).
  destruct x; [rewrite Ht3, Ht2|..].
  - left. exists a, (c_view s2). split; [done|]. split; [by rewrite <-Hv|]. by rewrite <-Hv3.
  - specialize (Hroll2 s3 ltac:(congruence)). destruct (rollback s3). by right.
  - specialize (Hroll2 (rolled_back s3)). destruct (rollback (rolled_back s3)). right. split; [done|]. apply Hroll2. cbn. congruence.
Qed.

Lemma calm_transaction {E A} (g : SqlError → E) (body : M (conn D) E A) d a d' : local body → alone body d = (Ok a, d') →
  in_transaction g body (mk_conn d d None []) = (Ok a, mk_conn d' d' None []).
Proof.
  intros Hl Ha. unfold in_transaction, ibind. change (imap_err g begin_immediate (mk_conn d d None [])) with (@Ok E _ tt, mk_conn d d (Some (mk_tx true [])) []).
  cbv iota beta. rewrite Hl by done. cbn [c_view]. rewrite Ha. done.
Qed.

End resting.

(** ** Stages of a database file *)

Section stages.
Context {HB : Blake3} (config : MetaConfig) (new_uuid : bytes) (now : Z).

Definition rows_of (d : db) := (d_nodes d, d_logs d, d_kv d, d_pins d, d_tombs d).

Record rows_ok (n : Z) (d : db) : Prop := {
  ok_nodes : nodes_ok n d;
  ok_logs : map_Forall (log_ok config) (d_logs d);
  ok_kv : map_Forall kv_ok (d_kv d);
  ok_pins : map_Forall (λ r v, hash_ok r ∧ 0 ≤ p_created v < n) (d_pins d);
  ok_tombs : map_Forall (λ k t, (1 ≤ zlen k.1 ≤ EXPERIMENT_ID_MAX_BYTES ∧ i64_ok k.2) ∧ 0 ≤ t < n) (d_tombs d);
}.

(** A file without tables, with an unseeded [meta] table, at version 1 or at
    version 2, whose persisted counter [n] is ahead of its stamps. *)
Definition at_version (n : Z) (d : db) : Prop :=
  match d_meta d with
  | None => n = 0 ∧ d_gc d = None ∧ rows_of d = (∅, ∅, ∅, ∅, ∅)
  | Some None => n = 0 ∧ d_gc d = None
  | Some (Some m) => m_counter m = n ∧ (m_version m = 1 ∧ d_gc d = None ∨ m_version m = 2 ∧ ∃ g, d_gc d = Some (Some g))
  end.
Record stage (n : Z) (d : db) : Prop := {
  st_nonneg : 0 ≤ n;
  st_rows : rows_ok n d;
  st_version : at_version n d;
}.

(** The next version, with the same rows. *)
Definition follows (n : Z) (d d' : db) : Prop := stage n d' ∧ rows_of d' = rows_of d.

Lemma rows_ok_same n d d' : rows_of d' = rows_of d → rows_ok n d → rows_ok n d'.
Proof.
  intros Hr [[] ? ? ? ?]. unfold rows_of in Hr. injection Hr as Hn Hl Hk Hp Ht.
  split; rewrite ?Hn, ?Hl, ?Hk, ?Hp, ?Ht; try done. by split; rewrite ?Hn, ?Hl.
Qed.
Lemma follows_intro n d d' : stage n d → rows_of d' = rows_of d → at_version n d' → follows n d d'.
Proof. intros [Hn Hr _] He Hv. split; [|done]. split; [done|by eapply rows_ok_same|done]. Qed.
Lemma follows_trans n d d1 d2 : follows n d d1 → follows n d1 d2 → follows n d d2.
Proof. intros [_ H1] [H2 H3]. split; [done|congruence]. Qed.
Lemma follows_migrations n d m : stage n d → follows n d (set_migrations m d).
Proof. intros Hs. apply follows_intro; [done|done|]. apply Hs. Qed.

(** The bodies of the two steps. *)
Definition step_body (target : Z) : M (conn db) MetaError unit :=
  if target =? 1 then
    let! _ := sql (execute migration_001) in
    seed_meta_rows new_uuid now
  else
    let! _ := sql (execute migration_002) in
    let! _ := sql (execute (set_version 2)) in
    let! _ := sql (execute (λ d, let '(n, m) := insert_or_ignore 2 ("002_gc_state"%string, now) (d_migrations d) in
                                 Ok (n, set_migrations m d))) in
    iret tt.

Lemma step_body_eq t : t = 1 ∨ t = 2 → apply_migration_step new_uuid now t = in_transaction MSqlite (step_body t).
Proof. by intros [-> | ->]. Qed.
Lemma plain_step t : plain (step_body t).
Proof.
  unfold step_body, seed_meta_rows, sql. destruct (t =? 1);
    repeat first [apply plain_bind; [apply plain_map_err, plain_execute|intros _] | apply plain_ret].
Qed.

Definition version_of (d : db) : option Z :=
  match d_meta d with None => Some 0 | Some m => m_version <$> m end.

Lemma step_body_run n d v : stage n d → version_of d = Some v → v < 2 →
  (v = 0 ∨ v = 1) ∧ ∃ d', alone (step_body (v + 1)) d = (Ok tt, d') ∧ follows n d d' ∧ version_of d' = Some (v + 1).
Proof.
  intros Hs Hv Hlt. pose proof (st_version _ _ Hs) as Hat. destruct d as [no lo kv pi to me gc mi]. unfold at_version, version_of in *. cbn in *.
  destruct me as [[m|]|]; cbn in *; simplify_eq.
  - destruct Hat as [Hc [[Hv ->]|[Hv _]]]; [|lia]. rewrite Hv. split; [by right|]. change (1 + 1) with 2. cbn.
    unfold alone, step_body, sql, ibind, imap_err, execute, statement, sql_tick. cbn -[insert_or_ignore].
    destruct (insert_or_ignore _ _ mi) as [k mi']; (eexists; split; [done|]; split; [|done]); (apply follows_intro; [done|done|]); cbn; unfold at_version; cbn; eauto 6.
  - destruct Hat as (-> & -> & Hr). injection Hr as -> -> -> -> ->. split; [by left|]. change (0 + 1) with 1.
    unfold alone, step_body, seed_meta_rows, sql, ibind, imap_err, execute, statement, sql_tick. cbn -[insert_or_ignore].
    destruct (insert_or_ignore _ _ mi) as [k mi']; (eexists; split; [done|]; split; [|done]); (apply follows_intro; [done|done|]); cbn; unfold at_version; cbn; eauto 6.
Qed.

Lemma resting_execute {A} (f : db → res SqlError (A * db)) a d d' s : resting d s → f d = Ok (a, d') →
  let '(r, s') := execute f s in (∃ e, r = Err e ∧ resting d s') ∨ r = Ok a ∧ resting d' s'.
Proof.
  intros Hs Hf. unfold execute.
  destruct (resting_statement (λ c, match f (c_view c) with Ok (a, d) => (Ok a, set_view d c) | Err e => (Err e, c) | Panic => (Panic, c) end) d s Hs)
    as [(e & s' & -> & Hs')|(s' & -> & (Hv & Hm & Ht) & _)]; [left; eauto|].
  rewrite Hv, Hf. right. split; [done|]. unfold set_view. by rewrite Ht.
Qed.

(** The rows of [seed_meta_rows] on an unseeded table. *)
Definition seeded (d : db) : db := set_meta (Some (Some (mk_meta_sql 1 new_uuid 0))) d.

Lemma seeded_follows n d : stage n d → d_meta d = Some None → follows n d (seeded d) ∧ version_of (seeded d) = Some 1.
Proof.
  intros Hs Hm. pose proof (st_version _ _ Hs) as Hat. unfold at_version in Hat. rewrite Hm in Hat. destruct Hat as [-> Hg].
  split; [|done]. apply follows_intro; [done|done|]. unfold at_version. cbn. auto.
Qed.

Lemma seed_resting n d s : stage n d → d_meta d = Some None → resting d s →
  let '(r, s') := seed_meta_rows new_uuid now s in
  follows n d (c_main s') ∧ (r = Ok tt → ∃ d', resting d' s' ∧ version_of d' = Some 1).
Proof.
  intros Hst Hm Hs. destruct (seeded_follows n d Hst Hm) as [Hf Hv]. unfold seed_meta_rows, sql, ibind, imap_err.
  assert (follows n d d) as Hrefl by (split; [done|done]).
  pose proof (resting_execute (λ d, match d_meta d with None => Err SqliteFailure
    | Some None => Ok (1, set_meta (Some (Some (mk_meta_sql 1 new_uuid 0))) d) | Some (Some _) => Ok (0, d) end) 1 d (seeded d) s Hs ltac:(cbv beta; by rewrite Hm)) as H1.
  destruct (execute _ s) as [r1 s1]. destruct H1 as [(e & -> & Hs1)|[-> Hs1]]; [cbn; by destruct Hs1 as (_ & -> & _)|]. cbn [map_err].
  destruct (insert_or_ignore 1 ("001_initial"%string, now) (d_migrations (seeded d))) as [k mi] eqn:Hi.
  pose proof (resting_execute (λ d, let '(n, m) := insert_or_ignore 1 ("001_initial"%string, now) (d_migrations d) in Ok (n, set_migrations m d))
    k (seeded d) (set_migrations mi (seeded d)) s1 Hs1 ltac:(cbv beta; by rewrite Hi)) as H2.
  destruct (execute _ s1) as [r2 s2]. destruct H2 as [(e & -> & Hs2)|[-> Hs2]]; [cbn; by destruct Hs2 as (_ & -> & _)|]. cbn. split; [|by eauto].
  destruct Hs2 as (_ & -> & _). eapply follows_trans; [exact Hf|]. by apply follows_migrations, Hf.
Qed.

Lemma run_migration_resting fuel n d s : stage n d → resting d s →
  let '(r, s') := run_migration new_uuid now fuel s in
  follows n d (c_main s') ∧ (r = Ok tt → ∃ d', resting d' s' ∧ version_of d' = Some 2).
Proof.
  revert d s. induction fuel as [|fuel IH]; intros d s Hst Hs; cbn [run_migration].
  { cbn. by destruct Hs as (_ & -> & _). }
  assert (∀ d0 s0, follows n d d0 → resting d0 s0 → let '(r, s') := run_migration new_uuid now fuel s0 in
    follows n d (c_main s') ∧ (r = Ok tt → ∃ d', resting d' s' ∧ version_of d' = Some 2)) as Hnext.
  { intros d0 s0 Hf Hr. specialize (IH d0 s0 (proj1 Hf) Hr). destruct (run_migration _ _ fuel s0). destruct IH. split; [by eapply follows_trans|done]. }
  assert (∀ s0, resting d s0 → follows n d (c_main s0)) as Hrefl by (intros s0 (_ & -> & _); by split).
  unfold ibind at 1. unfold sql at 1, imap_err. destruct (resting_query (λ d, Ok (bool_decide (is_Some (d_meta d)))) d s Hs) as (s1 & Hs1 & [[e ->]| ->] & _); cbn [map_err]; [split; [by auto|done]|].
  assert (∃ s2 r, resting d s2 ∧ (r = Ok (version_of d) ∨ ∃ e, r = Err e) ∧
    (if bool_decide (is_Some (d_meta d)) then sql (query (λ d, match d_meta d with None => Err SqliteFailure | Some m => Ok (m_version <$> m) end)) else iret (Some 0)) s1 = (r, s2))
    as (s2 & r & Hs2 & Hr & Hq).
  { unfold version_of. destruct (d_meta d) as [m|] eqn:Hm; cbn; [|eauto 8]. unfold sql, imap_err.
    destruct (resting_query (λ d, match d_meta d with None => Err SqliteFailure | Some m => Ok (m_version <$> m) end) d s1 Hs1) as (s2 & Hs2 & [[e ->]| ->] & _);
      rewrite ?Hm; cbn; eauto 10. }
  unfold ibind at 1. rewrite Hq. destruct Hr as [->|[e ->]]; [|split; [by auto|done]]. destruct (version_of d) as [v|] eqn:Hv.
  - destruct (SUPPORTED_VERSION <? v) eqn:Hlt; [split; [by auto|done]|]. unfold SUPPORTED_VERSION in *. destruct (v =? 2) eqn:He.
    { b2p. subst v. split; [by auto|]. eauto. }
    b2p. destruct (step_body_run n d v Hst Hv ltac:(lia)) as (Hv01 & d' & Ha & Hf & Hv'). unfold ibind.
    rewrite step_body_eq by lia. pose proof (resting_transaction MSqlite _ d s2 (plain_step (v + 1)) Hs2) as Ht.
    destruct (in_transaction _ _ s2) as [r3 s3]. destruct Ht as [(? & d3 & -> & Ha3 & Hs3)|[Hno Hm3]].
    + rewrite Ha in Ha3. simplify_eq. by apply (Hnext d3).
    + destruct r3 as [[]|e|]; [by destruct (Hno tt)|..]; rewrite Hm3; by split; [split|].
  - assert (d_meta d = Some None) as Hm by (unfold version_of in Hv; destruct (d_meta d) as [[]|]; naive_solver).
    unfold ibind. pose proof (seed_resting n d s2 Hst Hm Hs2) as Hseed. destruct (seed_meta_rows _ _ s2) as [[[]|e|] s3]; destruct Hseed as [Hf Hn]; [|by split..].
    destruct (Hn eq_refl) as (d' & Hd' & _). apply (Hnext d'); [|done]. by destruct Hd' as (_ & <- & _).
Qed.

Lemma run_migration_calm n d v : stage n d → version_of d = Some v → ∀ fuel, (3 ≤ fuel + Z.to_nat v)%nat →
  ∃ d', run_migration new_uuid now fuel (mk_conn d d None []) = (Ok tt, mk_conn d' d' None []).
Proof.
  intros Hst Hv fuel. revert d v Hst Hv. induction fuel as [|fuel IH]; intros d v Hst Hv Hfuel.
  { pose proof (st_version _ _ Hst) as Hat. unfold at_version, version_of in *. destruct (d_meta d) as [[m|]|]; cbn in Hv; simplify_eq; lia. }
  assert (∀ k : option Z → M (conn db) MetaError unit,
    (let! has_meta := sql (query (λ d, Ok (bool_decide (is_Some (d_meta d))))) in
     let! version := (if (has_meta : bool) then sql (query (λ d, match d_meta d with None => Err SqliteFailure | Some m => Ok (m_version <$> m) end))
                      else iret (Some 0)) in k version) (mk_conn d d None []) = k (Some v) (mk_conn d d None [])) as Hread.
  { intros k. unfold version_of in Hv. unfold sql, ibind, imap_err, query, statement. cbn. destruct (d_meta d) as [m|] eqn:Hm; cbn.
    - by rewrite Hm, <-Hv.
    - by rewrite <-Hv. }
  cbn [run_migration]. rewrite Hread. destruct (decide (v < 2)) as [Hlt|Hge].
  - destruct (step_body_run n d v Hst Hv Hlt) as (H01 & d' & Ha & [Hst' _] & Hv'). destruct (IH d' (v + 1) Hst' Hv' ltac:(lia)) as [d2 Hd2].
    exists d2. rewrite (proj2 (Z.ltb_ge _ _)), (proj2 (Z.eqb_neq _ _)) by (unfold SUPPORTED_VERSION; lia). unfold ibind.
    rewrite step_body_eq by lia. by rewrite (calm_transaction _ _ d tt d' (proj1 (plain_step _)) Ha).
  - exists d. pose proof (st_version _ _ Hst) as Hat. unfold at_version, version_of in *. destruct (d_meta d) as [[m|]|]; cbn in Hv; simplify_eq; [|lia].
    destruct Hat as [_ [[]|[-> _]]]; [lia|]. done.
Qed.

Lemma run_migration_ends n d fuel : stage n d → (3 ≤ fuel)%nat →
  ∃ d', run_migration new_uuid now fuel (mk_conn d d None []) = (Ok tt, mk_conn d' d' None []).
Proof.
  intros Hst Hf. destruct (version_of d) as [v|] eqn:Hv; [eapply run_migration_calm; [done..|lia]|]. destruct fuel as [|fuel]; [lia|].
  assert (d_meta d = Some None) as Hm by (unfold version_of in Hv; destruct (d_meta d) as [[]|]; naive_solver).
  destruct (seeded_follows n d Hst Hm) as [[Hs1 _] Hv1]. cbn [run_migration]. unfold sql, ibind, imap_err, query, seed_meta_rows, sql, ibind, imap_err, execute, statement.
  cbn -[insert_or_ignore run_migration]. rewrite Hm. cbn -[insert_or_ignore run_migration]. rewrite Hm. cbn -[insert_or_ignore run_migration]. rewrite Hm.
  cbn -[insert_or_ignore run_migration]. destruct (insert_or_ignore _ _ _) as [k mi]. cbn -[run_migration].
  apply (run_migration_calm n (set_migrations mi (seeded d)) 1); [|done|cbn; lia]. by apply follows_migrations.
Qed.

Lemma max_col_lt (col : node_sql → Z) n d : 0 ≤ n → map_Forall (λ _ r, col r < n) (d_nodes d) → max_col col d ≤ n.
Proof.
  intros Hn Hc. unfold max_col. assert (Forall (λ z, z ≤ n) (col <$> (map_to_list (d_nodes d)).*2)) as Hall.
  { apply Forall_fmap, Forall_fmap, Forall_forall. intros [k r] Hk%elem_of_map_to_list. cbn. specialize (Hc k r Hk). cbn in Hc. lia. }
  destruct (col <$> _) as [|z l]; [lia|]. inversion_clear Hall as [|? ? Hz Hl]. induction Hl; cbn; lia.
Qed.

Lemma rederive_resting n d s : stage n d → version_of d = Some 2 → n + 1 < 2 ^ 63 → resting d s →
  let '(r, s') := rederive_counter s in resting d s' ∧ (r = Ok (n + 1) ∨ ∃ e, r = Err e) ∧ (c_faults s = [] → r = Ok (n + 1)).
Proof.
  intros Hst Hv Hn Hs. pose proof (st_nonneg _ _ Hst) as Hn0. pose proof (ok_nodes _ _ (st_rows _ _ Hst)) as Hno.
  assert (max_col n_created d ≤ n) as H1 by (apply max_col_lt; [done|]; intros k r Hk; specialize (no_stamps _ _ Hno k r Hk); unfold stamped; lia).
  assert (max_col n_updated d ≤ n) as H2 by (apply max_col_lt; [done|]; intros k r Hk; specialize (no_stamps _ _ Hno k r Hk); unfold stamped; lia).
  assert (∃ m, d_meta d = Some (Some m) ∧ m_counter m = n) as (m & Hm & Hc).
  { pose proof (st_version _ _ Hst) as Hat. unfold version_of in Hv. unfold at_version in Hat. destruct (d_meta d) as [[m|]|]; [|done..]. exists m. by split; [|apply Hat]. }
  assert (saturating_add (as_u64 (Z.max (Z.max n (max_col n_created d)) (max_col n_updated d))) 1 = n + 1) as Hval.
  { rewrite !Z.max_l by lia. rewrite as_u64_id by (unfold u64_ok; lia). unfold saturating_add, u64_max. lia. }
  unfold rederive_counter, sql, ibind, imap_err.
  destruct (resting_query (λ d, match d_meta d with None => Err SqliteFailure | Some m => Ok (default 0 (m_counter <$> m)) end) d s Hs) as (s1 & Hs1 & Hq1 & Hf1).
  rewrite Hm in *. cbn in Hq1, Hf1. rewrite Hc in *.
  destruct (resting_query (λ d, Ok (max_col n_created d)) d s1 Hs1) as (s2 & Hs2 & Hq2 & Hf2).
  destruct (resting_query (λ d, Ok (max_col n_updated d)) d s2 Hs2) as (s3 & Hs3 & Hq3 & Hf3).
  destruct Hq1 as [[e He1]|He1]; rewrite He1 in *; cbn; [split_and!; [done|by eauto|by intros Hf; specialize (Hf1 Hf)]|].
  destruct Hq2 as [[e He2]|He2]; rewrite He2 in *; cbn; [split_and!; [done|by eauto|]|].
  { intros Hf. specialize (Hf1 Hf). simplify_eq. by specialize (Hf2 Hf). }
  destruct Hq3 as [[e He3]|He3]; rewrite He3 in *; cbn; [split_and!; [done|by eauto|]|].
  { intros Hf. specialize (Hf1 Hf). simplify_eq. specialize (Hf2 Hf). simplify_eq. by specialize (Hf3 Hf). }
  rewrite Hval. auto.
Qed.

Lemma stage_ready n d : stage n d → version_of d = Some 2 → n + 1 < 2 ^ 63 → db_ok config (n + 1) d.
Proof.
  intros [Hn [Hno Hl Hk Hp Ht] Hat] Hv Hb. unfold at_version, version_of in *. destruct (d_meta d) as [[m|]|] eqn:Hm; [|done..].
  destruct Hat as [Hc Hg]. cbn in Hv. eapply (db_ok_mono config n); [lia|]. split; try done.
  2: { destruct Hg as [[? _]|[_ Hg]]; [|done]. injection Hv as Hv. lia. }
  exists m. rewrite Hc. split; [done|lia].
Qed.

Lemma open_meta_cases fuel n d s : stage n d → n + 1 < 2 ^ 63 → resting d s →
  let '(r, s') := open_meta new_uuid now fuel config s in
  follows n d (c_main s') ∧
  (∀ w, r = Ok w → actor_ok config w ∧ w_counter w = n + 1 ∧ c_main (w_conn w) = c_main s') ∧
  (s = mk_conn d d None [] → (3 ≤ fuel)%nat → ∃ w, r = Ok w).
Proof.
  intros Hst Hn Hs. unfold open_meta, ibind. pose proof (run_migration_resting fuel n d s Hst Hs) as Hm.
  pose proof (run_migration_ends n d fuel Hst) as Hcalm. destruct (run_migration new_uuid now fuel s) as [[[]|e|] s1] eqn:He; destruct Hm as [Hf Hok];
    [|split_and!; [done..|intros ->; intros [d' Hd']%Hcalm; congruence]..].
  destruct (Hok eq_refl) as (d' & Hd' & Hv). assert (c_main s1 = d') as Hmain by apply Hd'. rewrite Hmain in Hf.
  pose proof (rederive_resting n d' s1 (proj1 Hf) Hv Hn Hd') as Hr. destruct (rederive_counter s1) as [r s2]. destruct Hr as (Hs2 & Hr & Hrc).
  assert (follows n d (c_main s2)) as Hf2 by (by destruct Hs2 as (_ & -> & _)).
  assert (s = mk_conn d d None [] → (3 ≤ fuel)%nat → c_faults s1 = []) as Hfl by (intros ->; intros [d2 Hd2]%Hcalm; rewrite Hd2 in He; by injection He as <-).
  destruct Hr as [->|[e ->]]; [|split_and!; [done|done|intros H1 H2; by specialize (Hrc (Hfl H1 H2))]].
  split; [done|]. split; [|by eauto]. intros w [= <-]. split; [|done]. pose proof (stage_ready n d' (proj1 Hf) Hv Hn) as Hdb.
  pose proof (st_nonneg _ _ Hst). destruct Hs2 as (Hv2 & Hm2 & Ht2). split; cbn; [done|lia|]. split; [by rewrite Hv2|by rewrite Hm2|by rewrite Ht2].
Qed.



End stages.
