(* ===== verification/MetaHandle.v ===== *)
(** * The metadata handle

    What a call through [MetaDb] does to the committed contents, whatever
    statements fail: which snapshot references they hold, and how the clock
    moves.  This is what the garbage collector and the request handlers
    rely on. *)

From S2P Require Import Prelude Types Fs Sql Meta MetaRead MetaInv MetaTree MetaSpec MetaQuery MetaBatch.

(** ** Without a transaction, statements see what is committed *)

Definition coherent (s : conn db) : Prop := c_tx s = None → c_view s = c_main s.
Definition steady {E A} (c : M (conn db) E A) : Prop := ∀ s, coherent s → coherent (c s).2.

Create HintDb steady.

Lemma steady_ret {E A} (a : A) : steady (E:=E) (iret a).
Proof. by intros s. Qed.
Lemma steady_err {E A} (e : E) : steady (A:=A) (ierr e).
Proof. by intros s. Qed.
Lemma steady_panic {E A} : steady (E:=E) (A:=A) ipanic.
Proof. by intros s. Qed.
Lemma steady_of {E A} (r : res E A) : steady (iof r).
Proof. intros s. unfold iof. by destruct r. Qed.
Lemma steady_statement {A} (f : conn db → res SqlError A * conn db) : (∀ s, coherent s → coherent (f s).2) → steady (statement f).
Proof.
  intros Hf s Hs. unfold statement, sql_tick. destruct (c_faults s) as [|[] rest]; cbn; [by apply Hf|by apply Hf|done|by intros _].
Qed.
Lemma steady_query {A} (f : db → res SqlError A) : steady (query f).
Proof. by apply steady_statement. Qed.
Lemma steady_execute {A} (f : db → res SqlError (A * db)) : steady (execute f).
Proof.
  apply steady_statement. intros s Hs. destruct (f (c_view s)) as [[a d]|e|]; cbn; [|done..]. unfold set_view, coherent. cbn. by intros ->.
Qed.
Lemma steady_bind {E A B} (c : M (conn db) E A) (k : A → M (conn db) E B) : steady c → (∀ a, steady (k a)) → steady (ibind c k).
Proof. intros Hc Hk s Hs. specialize (Hc s Hs). unfold ibind. destruct (c s) as [[a|e|] s']; cbn in *; [by apply Hk|done..]. Qed.
Lemma steady_map_err {E F A} (f : E → F) (c : M (conn db) E A) : steady c → steady (imap_err f c).
Proof. intros Hc s Hs. specialize (Hc s Hs). unfold imap_err. by destruct (c s) as [[] s']. Qed.
Lemma steady_try {E F A} (c : M (conn db) E A) : steady c → steady (E:=F) (itry c).
Proof. intros Hc s Hs. specialize (Hc s Hs). unfold itry. by destruct (c s) as [[] s']. Qed.
Lemma steady_if {E A} (b : bool) (c c' : M (conn db) E A) : steady c → steady c' → steady (if b then c else c').
Proof. by destruct b. Qed.
Lemma steady_for {E A} (l : list A) (f : A → M (conn db) E unit) : (∀ a, steady (f a)) → steady (ifor l f).
Proof. intros Hf. induction l as [|a l IH]; [apply steady_ret|]. cbn [ifor]. by apply steady_bind. Qed.
#[export] Hint Resolve steady_ret steady_err steady_panic steady_of steady_query steady_execute : steady.

Ltac stead := repeat first [ progress intros | case_match | solve [auto with steady] | apply steady_bind | apply steady_map_err
  | apply steady_try | apply steady_for | apply steady_if ].

Section handle.
Context {HB : Blake3} (config : MetaConfig).

Lemma steady_put_log l c n : steady (put_input_log_impl l c n config).
Proof. unfold put_input_log_impl, sql. stead. Qed.

Lemma steady_dispatch cmd n : steady (dispatch_cmd cmd n config).
Proof.
  destruct cmd; cbn [dispatch_cmd]; apply steady_bind; try (intros; apply steady_ret).
  - unfold create_node_impl, check_parent_node, ensure_log, sql, fetch_node. stead.
  - unfold update_nodes_impl. destruct updates as [|u us]; [stead|]. generalize (u :: us) as l. intros l. apply steady_bind.
    + induction l as [|u' l IH]; cbn [missing_nodes]; [stead|]. unfold sql, node_exists. stead.
    + intros missing. unfold apply_update, set_column, set_if_some, sql. stead.
  - apply steady_put_log.
  - unfold put_metadata_impl, cas_failed, sql, select_gen. stead.
  - unfold delete_metadata_impl, sql, select_gen. stead.
  - unfold pin_impl, sql. stead.
  - unfold unpin_impl, sql. stead.
  - unfold prune_subtree_impl, sql, node_exists. stead.
  - unfold reap_tombstone_impl, sql, node_exists. stead.
  - unfold set_gc_state_impl, sql. stead.
Qed.

(** ** The actor *)

(** What every step of a batch keeps of the connection, given that its
    commands do. *)
Section upholds.
Context (J : conn db → Prop) (ok : ActorCmd → Prop).
Hypothesis J_begin : ∀ s, J s → J (begin_immediate s).2.
Hypothesis J_savepoint : ∀ i s, J s → J (savepoint i s).2.
Hypothesis J_rollback_to : ∀ i s, J s → J (rollback_to i s).2.
Hypothesis J_release : ∀ i s, J s → J (release i s).2.
Hypothesis J_commit : ∀ s, J s → J (commit s).2.
Hypothesis J_rollback : ∀ s, J s → J (rollback s).2.
Hypothesis J_counter : ∀ n s, J s → J (execute (update_counter n) s).2.
Hypothesis J_dispatch : ∀ cmd n s, ok cmd → J s → J (dispatch_cmd cmd n config s).2.

Definition upholds {E A} (c : M WriterActor E A) : Prop :=
  ∀ w, w_config w = config → J (w_conn w) → w_config (c w).2 = config ∧ J (w_conn (c w).2).

Lemma upholds_ret {E A} (a : A) : upholds (E:=E) (iret a).
Proof. by intros w. Qed.
Lemma upholds_bind {E A B} (c : M WriterActor E A) (k : A → M WriterActor E B) : upholds c → (∀ a, upholds (k a)) → upholds (ibind c k).
Proof. intros Hc Hk w Hw Hj. destruct (Hc w Hw Hj). unfold ibind. destruct (c w) as [[a|e|] w']; cbn in *; [by apply Hk|done..]. Qed.
Lemma upholds_try {E F A} (c : M WriterActor E A) : upholds c → upholds (E:=F) (itry c).
Proof. intros Hc w Hw Hj. specialize (Hc w Hw Hj). unfold itry. by destruct (c w) as [[] w']. Qed.
Lemma upholds_on_conn {E A} (c : M (conn db) E A) : (∀ s, J s → J (c s).2) → upholds (on_conn c).
Proof. intros Hc w Hw Hj. specialize (Hc _ Hj). unfold on_conn, zoom. by destruct (c (w_conn w)). Qed.
Lemma upholds_ignore {E F A} (c : M WriterActor E A) : upholds c → upholds (E:=F) (ignore c).
Proof. intros Hc. apply upholds_bind; [by apply upholds_try|]. intros. apply upholds_ret. Qed.

Lemma upholds_command i cmd : ok cmd → upholds (run_command i cmd).
Proof.
  intros Hok w Hw Hj. rewrite run_command_eq, Hw. specialize (J_dispatch cmd (w_counter w) (w_conn w) Hok Hj).
  destruct (dispatch_cmd cmd (w_counter w) config (w_conn w)) as [r s]. cbn in J_dispatch |- *.
  destruct r as [a|e|]; [| |done].
  - by apply (upholds_bind _ _ (upholds_ignore _ (upholds_on_conn _ (J_release i))) (λ _, upholds_ret (Ok a))).
  - apply (upholds_bind _ _ (upholds_ignore _ (upholds_on_conn _ (J_rollback_to i)))); [|done..]. intros _.
    apply (upholds_bind _ _ (upholds_ignore _ (upholds_on_conn _ (J_release i))) (λ _, upholds_ret (Err e))).
Qed.

Lemma upholds_commands i batch : Forall ok batch → upholds (run_commands i batch).
Proof.
  intros Hb. revert i. induction Hb as [|cmd batch Hc Hb IH]; intros i; cbn [run_commands]; [apply upholds_ret|].
  apply upholds_bind; [apply upholds_try, upholds_on_conn, J_savepoint|]. intros [|e|].
  - apply upholds_bind; [by apply upholds_command|]. intros r. apply upholds_bind; [apply IH|]. intros []. apply upholds_ret.
  - apply upholds_bind; [apply IH|]. intros []. apply upholds_ret.
  - apply upholds_bind; [apply IH|]. intros []. apply upholds_ret.
Qed.

Lemma upholds_batch batch : Forall ok batch → upholds (execute_batch batch).
Proof.
  intros Hb. unfold execute_batch. apply upholds_bind; [by apply upholds_try, upholds_on_conn|]. intros [|e|]; [|apply upholds_ret..].
  apply upholds_bind; [by apply upholds_commands|]. intros [dirty results]. apply upholds_bind.
  { destruct dirty; [|apply upholds_ret]. intros w Hw Hj. by apply (upholds_ignore (F:=Empty_set) _ (upholds_on_conn _ (J_counter _))). }
  intros _. apply upholds_bind; [by apply upholds_try, upholds_on_conn|]. intros done. apply upholds_bind; [|intros; apply upholds_ret].
  destruct done; [apply upholds_ret|by apply upholds_ignore, upholds_on_conn..].
Qed.
End upholds.

Lemma batch_steady batch w : w_config w = config → coherent (w_conn w) →
  w_config (execute_batch batch w).2 = config ∧ coherent (w_conn (execute_batch batch w).2).
Proof.
  intros Hw Hc. assert (∀ s t, coherent s → coherent (set_tx (Some t) s)) as Hset by done. assert (∀ s : conn db, coherent (rolled_back s)) as Hroll by done.
  assert (∀ s : conn db, coherent (committed s)) as Hcom by done.
  apply (upholds_batch coherent (λ _, True)); try done.
  - apply steady_statement. intros s Hs. by destruct (c_tx s) eqn:?.
  - intros i. by apply steady_statement.
  - intros i. apply steady_statement. intros s Hs. destruct (c_tx s) as [t|] eqn:Ht; cbn; [|done]. by destruct (find_save i (tx_saves t)) as [[]|].
  - intros i. apply steady_statement. intros s Hs. destruct (c_tx s) as [t|] eqn:Ht; cbn; [|done].
    destruct (find_save i (tx_saves t)) as [[d [|]]|]; cbn; [by destruct (tx_begun t)|by destruct (tx_begun t)|done].
  - apply steady_statement. intros s Hs. by destruct (c_tx s).
  - apply steady_statement. intros s Hs. by destruct (c_tx s).
  - intros n. apply steady_execute.
  - intros cmd n s _. apply steady_dispatch.
  - by apply Forall_true.
Qed.

Lemma batch_keeps (I : db → Prop) batch w :
  (∀ m d, I d → I (set_meta m d)) → (∀ cmd n d, cmd ∈ batch → I d → safe I d (dispatch_cmd cmd n config) (λ _ _, True)) →
  w_config w = config → conn_ok I (w_conn w) → conn_ok I (w_conn (execute_batch batch w).2).
Proof.
  intros Hmeta Hcmd Hw Hc. apply (upholds_batch (conn_ok I) (λ cmd, cmd ∈ batch)); try done.
  - apply keeps_begin.
  - apply keeps_savepoint.
  - apply keeps_rollback_to.
  - apply keeps_release.
  - apply keeps_commit.
  - apply keeps_rollback.
  - intros n. apply (safe_keeps _ _ (λ _ _, True)). intros d Hd. apply safe_execute. intros a d' Hu. split; [|done].
    unfold update_counter in Hu. destruct (d_meta d) as [[m|]|]; simplify_eq; [by apply Hmeta|done].
  - intros cmd n s Hin Hs. by apply (Hcmd cmd n (c_view s) Hin (ck_view _ _ Hs) s Hs).
  - by apply Forall_forall.
Qed.

(** ** Calls *)

Record meta_ok (m : MetaDb) : Prop := {
  mo_config : w_config (md_actor m) = config;
  mo_coherent : coherent (w_conn (md_actor m));
}.

(** With a transaction left open nothing can be committed any more. *)
Lemma batch_stuck batch w t : c_tx (w_conn w) = Some t → c_main (w_conn (execute_batch batch w).2) = c_main (w_conn w).
Proof.
  intros Ht. unfold execute_batch, ibind, itry, on_conn, zoom, begin_immediate, statement, sql_tick.
  destruct (c_faults (w_conn w)) as [|[] rest]; cbn; rewrite ?Ht; done.
Qed.

Lemma meta_call_actor cmd m :
  (meta_call cmd m).2 = m ∨ ∃ alive, (meta_call cmd m).2 = mk_meta (execute_batch [cmd] (md_actor m)).2 alive (md_read_faults m).
Proof.
  unfold meta_call. destruct (md_alive m); [|by left]. right. destruct (execute_batch [cmd] (md_actor m)) as [[[|r [|]]|e|] a]; cbn; eauto.
Qed.

Lemma meta_read_actor {A} (f : db → res MetaError A) m : md_actor (meta_read f m).2 = md_actor m ∧ md_alive (meta_read f m).2 = md_alive m.
Proof. unfold meta_read. by destruct (md_read_faults m) as [|[] ?]. Qed.
Lemma meta_read_ok {A} (f : db → res MetaError A) m : meta_ok m → meta_ok (meta_read f m).2.
Proof. intros [Hc Hs]. destruct (meta_read_actor f m) as [Ha _]. split; by rewrite Ha. Qed.
Lemma meta_read_db {A} (f : db → res MetaError A) m : md_db (meta_read f m).2 = md_db m.
Proof. unfold md_db. by destruct (meta_read_actor f m) as [-> _]. Qed.
Lemma meta_read_value {A} (f : db → res MetaError A) m a : (meta_read f m).1 = Ok a → f (md_db m) = Ok a.
Proof. unfold meta_read. by destruct (md_read_faults m) as [|[] ?]. Qed.

Lemma meta_call_ok cmd m : meta_ok m → meta_ok (meta_call cmd m).2.
Proof.
  intros [Hc Hs]. destruct (meta_call_actor cmd m) as [->|[alive ->]]; [by split|]. by destruct (batch_steady [cmd] (md_actor m) Hc Hs); split.
Qed.

Lemma meta_call_keeps (I : db → Prop) cmd m :
  (∀ x d, I d → I (set_meta x d)) → (∀ n d, I d → safe I d (dispatch_cmd cmd n config) (λ _ _, True)) →
  meta_ok m → I (md_db m) → I (md_db (meta_call cmd m).2).
Proof.
  intros Hmeta Hcmd [Hc Hs] Hi. destruct (meta_call_actor cmd m) as [->|[alive ->]]; [done|]. unfold md_db in *. cbn.
  destruct (c_tx (w_conn (md_actor m))) as [t|] eqn:Ht; [by rewrite (batch_stuck _ _ t)|].
  assert (conn_ok I (w_conn (md_actor m))) as Hok by (split; [by rewrite Hs|done|by rewrite Ht]).
  eapply ck_main, (batch_keeps I); [done| |done|done]. intros c n d ->%list_elem_of_singleton. apply Hcmd.
Qed.

(** The references a command brings. *)
Definition brought (cmd : ActorCmd) : list SnapshotRef :=
  match cmd with CreateNode p => [cp_ref p] | Pin r _ => [r] | _ => [] end.

Definition meta_refs (m : MetaDb) : list SnapshotRef := elements (root_blobs (md_db m)).

Lemma held_refs d (Φ : bytes → Prop) : held (λ _, Φ) Φ d ↔ ∀ r, r ∈ root_blobs d → Φ r.
Proof.
  split.
  - intros [Hn Hp] r [(k & v & Hk & <-)|[v Hv]]%elem_of_root_blobs; [by apply (Hn k v)|by apply (Hp r v)].
  - intros Hr. split; intros k v Hk; apply Hr, elem_of_root_blobs; [left|right]; eauto.
Qed.

(** A call leaves no reference it did not bring itself. *)
Lemma meta_call_refs cmd m r : meta_ok m → r ∈ meta_refs (meta_call cmd m).2 → r ∈ meta_refs m ∨ r ∈ brought cmd.
Proof.
  intros Hm. unfold meta_refs. rewrite !elem_of_elements. set (Φ r := r ∈ root_blobs (md_db m) ∨ r ∈ brought cmd).
  assert (held (λ _, Φ) Φ (md_db (meta_call cmd m).2)) as Hh.
  { apply (meta_call_keeps (held (λ _, Φ) Φ)); [done| |done|apply held_refs; by left]. intros n d Hd. apply dispatch_held; [done|].
    destruct cmd; try done; right; by left. }
  intros Hr. by apply (proj1 (held_refs _ Φ) Hh).
Qed.

End handle.
