(* ===== verification/GroupCommit.v ===== *)
(** * The group-commit barrier (crates/snapstore-store/src/lib.rs, [GroupCommit])

    A transition system of threads inside [barrier]: one step per critical
    section of the [state] mutex, the calls to [sync_fn] running outside
    it.  [notify_all] wakes every waiter; a waiter may also wake
    spuriously.  The ghost trace records when generations are stamped and
    when flushes start and end.  Generations stay below 2^64 (the counter
    grows by one per commit), so the increments do not wrap. *)

From S2P Require Import Prelude.

Record GcState := mk_gc { pending_gen : Z; completed_gen : Z; flushing : bool }.
Definition GroupCommit_new : GcState := mk_gc 0 0 false.

(** Where a thread is in [barrier]. *)
Inductive pc :=
  | Entering                       (* before the first lock *)
  | Looping (my_gen : Z)           (* about to look at the state *)
  | Waiting (my_gen : Z)           (* in [cv.wait] *)
  | Syncing (my_gen up_to : Z)     (* running [sync_fn] *)
  | Returned (my_gen : Z) (ok : bool).

Inductive event :=
  | Stamped (t : nat) (g : Z)
  | FlushStart (t : nat) (up_to : Z)
  | FlushEnd (t : nat) (up_to : Z) (ok : bool).

Record sys := mk_sys { gc : GcState; threads : list pc; trace : list event }.

Definition init (n : nat) : sys :=
  mk_sys GroupCommit_new (replicate n Entering) [].

(** [let my_gen = { g.pending_gen += 1; g.pending_gen }]. *)
Definition stamp (g : GcState) : Z * GcState :=
  let p := pending_gen g + 1 in (p, mk_gc p (completed_gen g) (flushing g)).

(** One pass of the loop under the lock: return, wait, or start a flush. *)
Definition loop_pass (g : GcState) (my_gen : Z) : pc * GcState :=
  if my_gen <=? completed_gen g then (Returned my_gen true, g)
  else if flushing g then (Waiting my_gen, g)
  else (Syncing my_gen (pending_gen g), mk_gc (pending_gen g) (completed_gen g) true).

(** The second critical section of a flusher. *)
Definition finish_flush (g : GcState) (flushing_up_to : Z) (ok : bool) : GcState :=
  mk_gc (pending_gen g)
    (if ok && (completed_gen g <? flushing_up_to) then flushing_up_to else completed_gen g) false.

Definition wake (p : pc) : pc := match p with Waiting g => Looping g | _ => p end.

(** A label: thread [t] moves; [ok] is the outcome of [sync_fn] if it was
    running. *)
Definition step (t : nat) (ok : bool) (s : sys) : option sys :=
  match threads s !! t with
  | Some Entering =>
      let '(g, st) := stamp (gc s) in
      Some (mk_sys st (<[t := Looping g]> (threads s)) (trace s ++ [Stamped t g]))
  | Some (Looping g) =>
      let '(p, st) := loop_pass (gc s) g in
      Some (mk_sys st (<[t := p]> (threads s))
              (trace s ++ match p with Syncing _ u => [FlushStart t u] | _ => [] end))
  | Some (Waiting g) => (* spurious wake-up *)
      Some (mk_sys (gc s) (<[t := Looping g]> (threads s)) (trace s))
  | Some (Syncing g u) =>
      Some (mk_sys (finish_flush (gc s) u ok) (wake <$> <[t := Returned g ok]> (threads s))
              (trace s ++ [FlushEnd t u ok]))
  | Some (Returned _ _) | None => None
  end.

Inductive reachable (n : nat) : sys → Prop :=
  | reach_init : reachable n (init n)
  | reach_step s t ok s' : reachable n s → step t ok s = Some s' → reachable n s'.

(** A successful flush that began after generation [g] was stamped and has
    ended: the sync the caller of generation [g] waits for. *)
Definition covered (tr : list event) (g : Z) : Prop :=
  ∃ t1 t t2 t' u t3 t4,
    tr = t1 ++ Stamped t g :: t2 ++ FlushStart t' u :: t3 ++ FlushEnd t' u true :: t4.

Lemma covered_app tr tr' g : covered tr g → covered (tr ++ tr') g.
Proof.
  intros (t1 & t & t2 & t' & u & t3 & t4 & ->). exists t1, t, t2, t', u, t3, (t4 ++ tr').
  rewrite <-!app_assoc. cbn. rewrite <-!app_assoc. cbn. by rewrite <-!app_assoc.
Qed.

(** Generation [g] was stamped before the flush that runs now started. *)
Definition in_flight (tr : list event) (t' : nat) (u g : Z) : Prop :=
  ∃ t1 t t2 t3, tr = t1 ++ Stamped t g :: t2 ++ FlushStart t' u :: t3.

Lemma in_flight_app tr tr' t' u g : in_flight tr t' u g → in_flight (tr ++ tr') t' u g.
Proof.
  intros (t1 & t & t2 & t3 & ->). exists t1, t, t2, (t3 ++ tr'). rewrite <-!app_assoc. cbn. by rewrite <-!app_assoc.
Qed.

Record gc_inv (s : sys) : Prop := {
  gi_flusher : flushing (gc s) = true → ∃ t g u, threads s !! t = Some (Syncing g u);
  gi_unique : ∀ t g u, threads s !! t = Some (Syncing g u) → flushing (gc s) = true ∧
    u ≤ pending_gen (gc s) ∧ g ≤ u ∧
    ∀ t' g' u', threads s !! t' = Some (Syncing g' u') → t' = t;
  gi_waiting : ∀ t g, threads s !! t = Some (Waiting g) → flushing (gc s) = true;
  gi_stamped : ∀ g, 0 < g ≤ pending_gen (gc s) → ∃ t, Stamped t g ∈ trace s;
  gi_gen : ∀ t g, threads s !! t = Some (Looping g) ∨ threads s !! t = Some (Waiting g) → 0 < g ≤ pending_gen (gc s);
  gi_completed : 0 ≤ completed_gen (gc s) ≤ pending_gen (gc s);
  gi_covered : ∀ g, 0 < g ≤ completed_gen (gc s) → covered (trace s) g;
  gi_in_flight : ∀ t g u, threads s !! t = Some (Syncing g u) →
    ∀ g', 0 < g' ≤ u → in_flight (trace s) t u g';
  gi_returned : ∀ t g, threads s !! t = Some (Returned g true) → covered (trace s) g;
  gi_syncing_pos : ∀ t g u, threads s !! t = Some (Syncing g u) → 0 < g;
}.

Lemma gc_inv_init n : gc_inv (init n).
Proof.
  assert (∀ t p, threads (init n) !! t = Some p → p = Entering) as He.
  { by intros t p [-> _]%lookup_replicate. }
  split; simpl; try (intros; lia); try done; intros *; try (intros [Hp|Hp]); try intros Hp; by apply He in Hp.
Qed.

(** Lookup in an updated thread map. *)
Ltac thread_cases H :=
  apply list_lookup_insert_Some in H as [(<- & H & _)|[? H]]; [simplify_eq|].

Lemma gc_inv_stamp s t :
  gc_inv s → threads s !! t = Some Entering →
  gc_inv (mk_sys (stamp (gc s)).2 (<[t := Looping (stamp (gc s)).1]> (threads s))
            (trace s ++ [Stamped t (stamp (gc s)).1])).
Proof.
  intros [H1 H2 H3 H4 H5 H6 H7 H8 H9 H10] Ht. split; cbn [gc threads trace stamp pending_gen completed_gen flushing fst snd].
  - intros (t' & g & u & Hf)%H1. exists t', g, u. rewrite list_lookup_insert_ne; [done|congruence].
  - intros t' g u Hu. thread_cases Hu. destruct (H2 _ _ _ Hu) as (? & ? & ? & Huq). split_and!; [done|lia|done|].
    intros t2 g2 u2 Hu2. thread_cases Hu2. by eapply Huq.
  - intros t' g Hw. thread_cases Hw. by eapply H3.
  - intros g Hg. destruct (decide (g = pending_gen (gc s) + 1)) as [->|].
    + exists t. set_solver.
    + destruct (H4 g ltac:(lia)) as [t' ?]. exists t'. set_solver.
  - intros t' g [Hl|Hl]; thread_cases Hl; [lia| |]; [pose proof (H5 t' g (or_introl Hl))|pose proof (H5 t' g (or_intror Hl))]; lia.
  - lia.
  - intros g Hg. by apply covered_app, H7.
  - intros t' g u Hu g' Hg'. thread_cases Hu. by eapply in_flight_app, H8.
  - intros t' g Hr. thread_cases Hr. by eapply covered_app, H9.
  - intros t' g u Hu. thread_cases Hu. by eapply H10.
Qed.

(** A step of the loop that does not start a flush. *)
Lemma gc_inv_move s t p p' :
  gc_inv s → threads s !! t = Some p → (∀ g u, p ≠ Syncing g u) → (∀ g u, p' ≠ Syncing g u) →
  (∀ g, p' = Waiting g → flushing (gc s) = true) →
  (∀ g, p' = Looping g ∨ p' = Waiting g → 0 < g ≤ pending_gen (gc s)) →
  (∀ g, p' = Returned g true → 0 < g ≤ completed_gen (gc s)) →
  gc_inv (mk_sys (gc s) (<[t := p']> (threads s)) (trace s ++ [])).
Proof.
  intros [H1 H2 H3 H4 H5 H6 H7 H8 H9 H10] Ht Hp Hp' Hw Hl Hr. rewrite app_nil_r. split; simpl; try done.
  - intros (t' & g & u & Hf)%H1. exists t', g, u. rewrite list_lookup_insert_ne; [done|]. intros ->.
    rewrite Ht in Hf. simplify_eq. by eapply Hp.
  - intros t' g u Hu. thread_cases Hu; [by destruct (Hp' g u)|]. destruct (H2 _ _ _ Hu) as (? & ? & ? & Huq).
    split_and!; [done|done|done|]. intros t2 g2 u2 Hu2. thread_cases Hu2; [by destruct (Hp' g2 u2)|]. by eapply Huq.
  - intros t' g Hg. thread_cases Hg; [by eapply Hw|by eapply H3].
  - intros t' g [Hg|Hg]; thread_cases Hg; eauto.
  - intros t' g u Hu. thread_cases Hu; [by destruct (Hp' g u)|]. by eapply H8.
  - intros t' g Hg. thread_cases Hg; [by apply H7, Hr|by eapply H9].
  - intros t' g u Hu. thread_cases Hu; [by destruct (Hp' g u)|]. by eapply H10.
Qed.

Lemma gc_inv_start s t g :
  gc_inv s → threads s !! t = Some (Looping g) → flushing (gc s) = false →
  gc_inv (mk_sys (mk_gc (pending_gen (gc s)) (completed_gen (gc s)) true)
            (<[t := Syncing g (pending_gen (gc s))]> (threads s))
            (trace s ++ [FlushStart t (pending_gen (gc s))])).
Proof.
  intros [H1 H2 H3 H4 H5 H6 H7 H8 H9 H10] Ht Hf. pose proof (H5 t g (or_introl Ht)) as Hg.
  assert (∀ t' g' u', threads s !! t' ≠ Some (Syncing g' u')) as Hno.
  { intros t' g' u' Hu. destruct (H2 _ _ _ Hu). congruence. }
  split; cbn [gc threads trace pending_gen completed_gen flushing]; try done.
  - intros _. exists t, g, (pending_gen (gc s)). by rewrite list_lookup_insert_eq by by eapply lookup_lt_Some.
  - intros t' g' u' Hu. thread_cases Hu; [|by destruct (Hno _ _ _ Hu)]. split_and!; [done|lia|lia|].
    intros t2 g2 u2 Hu2. thread_cases Hu2; [done|by destruct (Hno _ _ _ Hu2)].
  - intros g' Hg'. destruct (H4 g' Hg') as [t' ?]. exists t'. set_solver.
  - intros t' g' [Hl|Hl]; thread_cases Hl; eauto.
  - intros g' Hg'. by apply covered_app, H7.
  - intros t' g' u' Hu g2 Hg2. thread_cases Hu; [|by destruct (Hno _ _ _ Hu)].
    destruct (H4 g2 Hg2) as [t2 (t1 & t3 & Htr)%list_elem_of_split]. exists t1, t2, t3, [].
    rewrite Htr, <-app_assoc. done.
  - intros t' g' Hr. thread_cases Hr. by eapply covered_app, H9.
  - intros t' g' u' Hu. thread_cases Hu; [lia|by destruct (Hno _ _ _ Hu)].
Qed.

Lemma wake_lookup (m : list pc) t p : (wake <$> m) !! t = Some p → ∃ p', m !! t = Some p' ∧ p = wake p'.
Proof. rewrite list_lookup_fmap. destruct (m !! t) as [p'|]; [|done]. intros [= <-]. by exists p'. Qed.

Lemma gc_inv_finish s t g u ok :
  gc_inv s → threads s !! t = Some (Syncing g u) →
  gc_inv (mk_sys (finish_flush (gc s) u ok) (wake <$> <[t := Returned g ok]> (threads s))
            (trace s ++ [FlushEnd t u ok])).
Proof.
  intros [H1 H2 H3 H4 H5 H6 H7 H8 H9 H10] Ht. destruct (H2 _ _ _ Ht) as (Hf & Hup & Hgu & Huq).
  assert (ok = true → ∀ g', 0 < g' ≤ u → covered (trace s ++ [FlushEnd t u ok]) g') as Hcov.
  { intros -> g' Hg'. destruct (H8 _ _ _ Ht g' Hg') as (t1 & t2 & t3 & t4 & ->). exists t1, t2, t3, t, u, t4, [].
    rewrite <-!app_assoc. cbn. by rewrite <-!app_assoc. }
  assert (∀ t' p, (wake <$> <[t := Returned g ok]> (threads s)) !! t' = Some p →
    p = Returned g ok ∨ (∃ p', threads s !! t' = Some p' ∧ p = wake p' ∧ ∀ g' u', p' ≠ Syncing g' u')) as Hlk.
  { intros t' p (p' & Hp' & ->)%wake_lookup. apply list_lookup_insert_Some in Hp' as [(_ & <- & _)|[Hne Hp']]; [by left|right].
    exists p'. split_and!; [done|done|]. intros g' u' ->. apply Hne. by eapply eq_sym, Huq. }
  split; cbn [gc threads trace finish_flush pending_gen completed_gen flushing]; try done.
  - intros t' g' u' Hu. destruct (Hlk _ _ Hu) as [?|(p' & _ & Heq & Hn)]; [done|]. destruct p'; simplify_eq/=; by edestruct Hn.
  - intros t' g' Hu. destruct (Hlk _ _ Hu) as [?|(p' & _ & Heq & Hn)]; [done|]. by destruct p'.
  - intros g' Hg'. destruct (H4 g' Hg') as [t' ?]. exists t'. set_solver.
  - intros t' g' [Hl|Hl]; destruct (Hlk _ _ Hl) as [?|(p' & Hp & Heq & _)]; try done; destruct p'; simplify_eq/=; eauto.
  - pose proof (H10 _ _ _ Ht). destruct (ok && _); lia.
  - intros g' Hg'. destruct ok; simpl in Hg'; [|by apply covered_app, H7].
    destruct (completed_gen (gc s) <? u) eqn:Hc; [by apply Hcov|by apply covered_app, H7].
  - intros t' g' u' Hu. destruct (Hlk _ _ Hu) as [?|(p' & _ & Heq & Hn)]; [done|]. destruct p'; simplify_eq/=; by edestruct Hn.
  - intros t' g' Hu. destruct (Hlk _ _ Hu) as [Heq|(p' & Hp & Heq & Hn)].
    + simplify_eq. apply Hcov; [done|]. pose proof (H10 _ _ _ Ht). lia.
    + destruct p'; simplify_eq/=. by eapply covered_app, H9.
  - intros t' g' u' Hu. destruct (Hlk _ _ Hu) as [?|(p' & _ & Heq & Hn)]; [done|]. destruct p'; simplify_eq/=; by edestruct Hn.
Qed.

Lemma gc_inv_step s t ok s' : gc_inv s → step t ok s = Some s' → gc_inv s'.
Proof.
  intros Hi. unfold step. destruct (threads s !! t) as [[|g|g|g u|g b]|] eqn:Ht; [..|done|done].
  - cbn [stamp]. intros [= <-]. by apply gc_inv_stamp.
  - pose proof (gi_gen _ Hi t g (or_introl Ht)) as Hg. unfold loop_pass. destruct (g <=? completed_gen (gc s)) eqn:Hc; [|destruct (flushing (gc s)) eqn:Hf].
    + intros [= <-]. eapply gc_inv_move; [done|exact Ht|done..|naive_solver|]. intros g' [= <-]. lia.
    + intros [= <-]. eapply gc_inv_move; [done|exact Ht|done..| |done]. intros g' [?|?]; by simplify_eq.
    + intros [= <-]. by apply gc_inv_start.
  - intros [= <-]. pose proof (gi_gen _ Hi t g (or_intror Ht)) as Hg. rewrite <-(app_nil_r (trace s)).
    eapply gc_inv_move; [done|exact Ht|done..| |done]. intros g' [?|?]; by simplify_eq.
  - intros [= <-]. by apply gc_inv_finish.
Qed.

Lemma reachable_inv n s : reachable n s → gc_inv s.
Proof. induction 1; [apply gc_inv_init|by eapply gc_inv_step]. Qed.

(** ** Generations belong to threads *)

Definition my_gen (p : pc) : option Z :=
  match p with
  | Entering => None
  | Looping g | Waiting g | Syncing g _ | Returned g _ => Some g
  end.

Record own_inv (s : sys) : Prop := {
  oi_own : ∀ t p g, threads s !! t = Some p → my_gen p = Some g → Stamped t g ∈ trace s;
  oi_le : ∀ t g, Stamped t g ∈ trace s → g ≤ pending_gen (gc s);
  oi_uniq : ∀ t t' g, Stamped t g ∈ trace s → Stamped t' g ∈ trace s → t = t';
}.

(** A step of [t] that keeps its generation and stamps nothing. *)
Lemma own_inv_keep s st ths tr :
  own_inv s → pending_gen st = pending_gen (gc s) → (∀ t g, Stamped t g ∉ tr) →
  (∀ t p g, ths !! t = Some p → my_gen p = Some g → ∃ p', threads s !! t = Some p' ∧ my_gen p' = Some g) →
  own_inv (mk_sys st ths (trace s ++ tr)).
Proof.
  intros [H1 H2 H3] Hp Htr Hths.
  assert (∀ t g, Stamped t g ∈ trace s ++ tr → Stamped t g ∈ trace s) as Hin.
  { intros t g [?|Hi]%elem_of_app; [done|]. by apply Htr in Hi. }
  split; cbn [threads trace gc].
  - intros t p g Ht Hg. destruct (Hths t p g Ht Hg) as (p' & Ht' & Hg'). apply elem_of_app. left. by eapply H1.
  - intros t g Hi%Hin. rewrite Hp. by eapply H2.
  - intros t t' g Hi%Hin Hj%Hin. by eapply H3.
Qed.

Lemma own_inv_step s t ok s' : own_inv s → step t ok s = Some s' → own_inv s'.
Proof.
  intros Hi. unfold step. destruct (threads s !! t) as [[|g|g|g u|g b]|] eqn:Ht; [..|done|done].
  - cbn [stamp]. intros [= <-]. destruct Hi as [H1 H2 H3].
    assert (∀ t' g', Stamped t' g' ∈ trace s ++ [Stamped t (pending_gen (gc s) + 1)] →
      Stamped t' g' ∈ trace s ∧ g' ≤ pending_gen (gc s) ∨ t' = t ∧ g' = pending_gen (gc s) + 1) as Hin.
    { intros t' g' [Hi|Hi]%elem_of_app; [left; split; [done|by eapply H2]|].
      apply list_elem_of_singleton in Hi as [= -> ->]. by right. }
    split; cbn [threads trace gc pending_gen].
    + intros t' p g Hp Hg. apply elem_of_app. apply list_lookup_insert_Some in Hp as [(<- & <- & _)|[_ Hp]].
      * injection Hg as <-. right. set_solver.
      * left. by eapply H1.
    + intros t' g' [[_ ?]|[_ ->]]%Hin; lia.
    + intros t1 t2 g' [[Ha ?]|[-> ->]]%Hin [[Hb ?]|[-> ?]]%Hin; [by eapply H3|lia|lia|done].
  - unfold loop_pass. destruct (g <=? completed_gen (gc s)); [|destruct (flushing (gc s))];
      intros [= <-]; (apply own_inv_keep; [done|done|set_solver|]); intros t' p g' Hp Hg';
      apply list_lookup_insert_Some in Hp as [(<- & <- & _)|[_ Hp]]; eauto.
  - intros [= <-]. rewrite <-(app_nil_r (trace s)). apply own_inv_keep; [done|done|set_solver|].
    intros t' p g' Hp Hg'. apply list_lookup_insert_Some in Hp as [(<- & <- & _)|[_ Hp]]; eauto.
  - intros [= <-]. apply own_inv_keep; [done|done|set_solver|].
    intros t' p g' (p' & Hp & ->)%wake_lookup Hg'.
    apply list_lookup_insert_Some in Hp as [(<- & <- & _)|[_ Hp]]; [by eauto|]. exists p'. split; [done|]. by destruct p'.
Qed.

Lemma reachable_own n s : reachable n s → own_inv s.
Proof.
  induction 1; [|by eapply own_inv_step]. split; simpl; [|set_solver..].
  intros t p g [-> _]%lookup_replicate. done.
Qed.

(** ** Termination *)

Definition weight (p : pc) : nat :=
  match p with Entering => 3 | Looping _ => 2 | Waiting _ => 1 | Syncing _ _ => 1 | Returned _ _ => 0 end.
Definition live (p : pc) : nat := match p with Returned _ _ => 0 | _ => 1 end.
Definition measure (s : sys) : nat :=
  sum_list_with live (threads s) * S (length (threads s)) + sum_list_with weight (threads s).

Lemma sum_insert (f : pc → nat) l t p p' :
  l !! t = Some p → (sum_list_with f (<[t := p']> l) + f p = sum_list_with f l + f p')%nat.
Proof.
  revert t. induction l as [|x l IH]; intros [|t] Ht; simplify_eq/=; [lia|]. specialize (IH t Ht). lia.
Qed.
Lemma sum_wake_live l : sum_list_with live (wake <$> l) = sum_list_with live l.
Proof. induction l as [|x l IH]; csimpl; [lia|]. destruct x; simpl; lia. Qed.
Lemma sum_wake_weight l : (sum_list_with weight (wake <$> l) ≤ sum_list_with weight l + length l)%nat.
Proof. induction l as [|x l IH]; csimpl; [lia|]. destruct x; simpl; lia. Qed.

Lemma step_measure s t ok s' :
  step t ok s = Some s' → (∀ g, threads s !! t ≠ Some (Waiting g)) → (measure s' < measure s)%nat.
Proof.
  unfold step, measure. destruct (threads s !! t) as [p|] eqn:Ht; [|done].
  pose proof (λ p', sum_insert live _ t p p' Ht) as Hl. pose proof (λ p', sum_insert weight _ t p p' Ht) as Hw.
  destruct p as [|g|g|g u|g b]; [..|done].
  - cbn [stamp]. intros [= <-] _. cbn [threads]. rewrite length_insert.
    specialize (Hl (Looping (pending_gen (gc s) + 1))). specialize (Hw (Looping (pending_gen (gc s) + 1))). simpl in Hl, Hw. nia.
  - destruct (loop_pass (gc s) g) as [p' st] eqn:Hp. intros [= <-] _. cbn [threads]. rewrite length_insert.
    specialize (Hl p'). specialize (Hw p'). unfold loop_pass in Hp.
    destruct (g <=? _); [|destruct (flushing _)]; simplify_eq; simpl in Hl, Hw; nia.
  - intros _ Hn. by destruct (Hn g).
  - intros [= <-] _. cbn [threads]. rewrite length_fmap, length_insert, sum_wake_live.
    specialize (Hl (Returned g ok)). specialize (Hw (Returned g ok)). simpl in Hl, Hw.
    pose proof (sum_wake_weight (<[t := Returned g ok]> (threads s))) as Hk. rewrite length_insert in Hk. nia.
Qed.

(** ** Theorems *)

(** C12. The barrier is a durability barrier: a call that returned [Ok] is
    covered by one flush that started after the call had stamped its
    generation, hence after its pages were in the store, and that
    succeeded, whoever ran it and however many callers shared it. *)
Theorem barrier_covers n s t g :
  reachable n s → threads s !! t = Some (Returned g true) →
  ∃ t1 t2 t' u t3 t4,
    trace s = t1 ++ Stamped t g :: t2 ++ FlushStart t' u :: t3 ++ FlushEnd t' u true :: t4.
Proof.
  intros Hr Ht. destruct (gi_returned _ (reachable_inv _ _ Hr) _ _ Ht) as (t1 & t0 & t2 & t' & u & t3 & t4 & Htr).
  pose proof (reachable_own _ _ Hr) as Ho.
  assert (t0 = t) as -> by (eapply (oi_uniq _ Ho t0 t g); [rewrite Htr; set_solver|by eapply oi_own]).
  by exists t1, t2, t', u, t3, t4.
Qed.

(** One flush at a time, so concurrent commits never run [sync] in
    parallel, and the [flushing] flag tells whether one runs. *)
Theorem barrier_single_flusher n s :
  reachable n s →
  (flushing (gc s) = true ↔ ∃ t g u, threads s !! t = Some (Syncing g u)) ∧
  ∀ t t' g g' u u', threads s !! t = Some (Syncing g u) → threads s !! t' = Some (Syncing g' u') → t = t'.
Proof.
  intros Hi%reachable_inv. split.
  - split; [apply Hi|]. intros (t & g & u & Ht). by destruct (gi_unique _ Hi _ _ _ Ht).
  - intros t t' g g' u u' Ht Ht'. destruct (gi_unique _ Hi _ _ _ Ht') as (_ & _ & _ & Hu). by eapply Hu.
Qed.


(** Two callers, one flush: the first stamps and flushes, the second
    stamps before the flush starts and rides on it. *)
Fixpoint run (l : list (nat * bool)) (s : sys) : option sys :=
  match l with
  | [] => Some s
  | (t, ok) :: l => match step t ok s with Some s' => run l s' | None => None end
  end.

Lemma run_reachable n l s s' : reachable n s → run l s = Some s' → reachable n s'.
Proof.
  revert s. induction l as [|[t ok] l IH]; intros s Hr Hs; simplify_eq/=; [done|].
  destruct (step t ok s) as [s1|] eqn:Hst; [|done]. apply (IH s1); [by eapply reach_step|done].
Qed.

Lemma ex_reachable : ∃ s, reachable 2 s ∧ threads s = [Returned 1 true; Returned 2 true] ∧ length (trace s) = 4%nat.
Proof.
  destruct (run ((λ t, (t, true)) <$> [0; 1; 0; 1; 0; 1]%nat) (init 2)) as [s|] eqn:He; [|discriminate He].
  exists s. split; [eapply run_reachable, He; apply reach_init|]. vm_compute in He. by simplify_eq.
Qed.

Lemma barrier_covers_witness : ∃ s t1 t2 t' u t3 t4, reachable 2 s ∧
  trace s = t1 ++ Stamped 1 2 :: t2 ++ FlushStart t' u :: t3 ++ FlushEnd t' u true :: t4.
Proof.
  destruct ex_reachable as (s & Hr & Ht & _).
  destruct (barrier_covers 2 s 1 2 Hr ltac:(by rewrite Ht)) as (t1 & t2 & t' & u & t3 & t4 & Htr).
  exists s, t1, t2, t', u, t3, t4. split; [exact Hr|exact Htr].
Defined.

Lemma barrier_single_flusher_witness : ∃ s, reachable 2 s ∧ flushing (gc s) = false.
Proof.
  destruct ex_reachable as (s & Hr & Ht & _). exists s. split; [exact Hr|].
  destruct (barrier_single_flusher 2 s Hr) as [[H _] _]. destruct (flushing (gc s)); [|reflexivity].
  destruct (H eq_refl) as ([|[|t]] & g & u & Hx); rewrite Ht in Hx; discriminate Hx.
Defined.

