(* ===== verification/Pack.v ===== *)
(** * Pack files (crates/snapstore-pagestore/src/pack.rs)

    The append-only pack format: header, records, optional footer.  Writer
    methods run on the pair of the writer and the file system, because a
    [PackWriter] survives the failure of one of its calls.  Sizes and
    offsets are mathematical integers: a file is far smaller than 2^63
    bytes, so no [u64] sum below can wrap. *)

From S2P Require Import Prelude Types Fs.

(** ** Constants *)
Definition PACK_MAGIC : bytes := [Byte.x53; Byte.x50; Byte.x4b; Byte.x31].
Definition FOOTER_MAGIC : bytes := [Byte.x53; Byte.x50; Byte.x4b; Byte.x46].
Definition PACK_FORMAT_VERSION : Z := 1.
Definition PACK_MAX_BYTES : Z := 2 ^ 30.
Definition RECORD_HEADER_SIZE : Z := 32 + 1 + 4.
Definition PACK_HEADER_SIZE : Z := 20.
Definition PACK_FOOTER_SIZE : Z := 44.
Definition WRITE_BUF_FLUSH_THRESHOLD : Z := 4 * 1024 * 1024.

Inductive PackError :=
  | PIo (e : io_error)
  | Sealed
  | Full
  | BadPackMagic
  | BadFooterMagic
  | FooterCountMismatch (expected found : Z)
  | HashMismatch (off : Z)
  | TruncatedRecord (off : Z).
#[global] Instance PackError_eq_dec : EqDecision PackError.
Proof. solve_decision. Defined.

(** ** PackWriter *)

(** The body hasher is represented by the bytes it has been fed. *)
Record PackWriter := mk_writer {
  w_file : handle;
  w_pack_id : PackId;
  w_hashed : bytes;
  w_buf : bytes;
  w_offset : Z;
  w_count : Z;
  w_sealed : bool;
  w_max : Z;
}.

Abbreviation W A := (M (PackWriter * fs) PackError A).

Definition pack_header (pack_id created : Z) : bytes :=
  PACK_MAGIC ++ to_le 4 PACK_FORMAT_VERSION ++ to_le 4 pack_id ++ to_le 8 created.

Definition create_with_max_bytes (path : string) (pack_id : PackId) (created max : Z)
    : M fs PackError PackWriter :=
  let! file := imap_err PIo (open_create_new path) in
  let! file := imap_err PIo (write_all_h file (pack_header pack_id created)) in
  iret (mk_writer file pack_id [] [] PACK_HEADER_SIZE 0 false max).

Definition create (path : string) (pack_id : PackId) (created : Z) : M fs PackError PackWriter :=
  create_with_max_bytes path pack_id created PACK_MAX_BYTES.

(** The [while offset < file_len] scan of [reopen]. *)
Fixpoint reopen_loop (fuel : nat) (file : handle) (len offset count : Z) (hashed : bytes)
    : M fs PackError (Z * Z * bytes) :=
  match fuel with
  | O => ipanic
  | S fuel' =>
      if len <=? offset then iret (offset, count, hashed) else
      let remaining := len - offset in
      if remaining <? RECORD_HEADER_SIZE then iret (offset, count, hashed) else
      let! rec_header := imap_err PIo (read_exact_at file offset RECORD_HEADER_SIZE) in
      let n := from_le (sub 33 37 rec_header) in
      if PAGE_SIZE * 2 <? n then iret (offset, count, hashed) else
      if len <? offset + RECORD_HEADER_SIZE + n then iret (offset, count, hashed) else
      let! payload := imap_err PIo (read_exact_at file (offset + RECORD_HEADER_SIZE) n) in
      reopen_loop fuel' file len (offset + (RECORD_HEADER_SIZE + n)) (count + 1)
        (hashed ++ rec_header ++ payload)
  end.

Definition reopen (path : string) (pack_id : PackId) : M fs PackError PackWriter :=
  let! file := imap_err PIo (open_existing path) in
  let! magic := imap_err PIo (read_exact_at file 0 4) in
  fail_if negb (bool_decide (magic = PACK_MAGIC)) with BadPackMagic in
  let! len := imap_err PIo (file_len file) in
  let! ' (offset, count, hashed) :=
    reopen_loop (S (Z.to_nat len)) file len PACK_HEADER_SIZE 0 [] in
  let! file := imap_err PIo (open_existing path) in
  let! file := imap_err PIo (seek_start file offset) in
  iret (mk_writer file pack_id hashed [] offset count false PACK_MAX_BYTES).

Definition would_exceed_cap (w : PackWriter) : bool :=
  w_max w <? w_offset w + RECORD_HEADER_SIZE + PAGE_SIZE.

(** One raw-page record: hash, flags, length, payload. *)
Definition encode_record (hash payload : bytes) : bytes :=
  hash ++ [Byte.x01] ++ to_le 4 PAGE_SIZE ++ payload.

Definition flush_buf : W unit := λ '(w, s),
  if bool_decide (w_buf w = []) then (Ok tt, (w, s)) else
  let '(r, file, s') := write_all (w_file w) (w_buf w) s in
  let buf := match r with Ok _ => [] | _ => w_buf w end in
  (map_err PIo r,
   (mk_writer file (w_pack_id w) (w_hashed w) buf (w_offset w) (w_count w) (w_sealed w) (w_max w), s')).

Definition append (hash payload : bytes) : W Z := λ '(w, s),
  if w_sealed w then (Err Sealed, (w, s)) else
  if would_exceed_cap w then (Err Full, (w, s)) else
  let record_offset := w_offset w in
  let rec := encode_record hash payload in
  let w' := mk_writer (w_file w) (w_pack_id w) (w_hashed w ++ rec) (w_buf w ++ rec)
              (w_offset w + (RECORD_HEADER_SIZE + PAGE_SIZE)) (w_count w + 1) (w_sealed w) (w_max w) in
  (let! _ := if WRITE_BUF_FLUSH_THRESHOLD <=? zlen (w_buf w') then flush_buf else iret tt in
   iret record_offset) (w', s).

Definition pack_footer `{Blake3} (count : Z) (body : bytes) : bytes :=
  FOOTER_MAGIC ++ to_le 8 count ++ blake3 body.

(** Write the footer through the writer's cursor. *)
Definition write_footer `{Blake3} : W unit := λ '(w, s),
  let '(r, file, s') := write_all (w_file w) (pack_footer (w_count w) (w_hashed w)) s in
  (map_err PIo r,
   (mk_writer file (w_pack_id w) (w_hashed w) (w_buf w) (w_offset w) (w_count w) (w_sealed w) (w_max w), s')).

Definition mark_sealed : W unit := λ '(w, s),
  (Ok tt, (mk_writer (w_file w) (w_pack_id w) (w_hashed w) (w_buf w) (w_offset w) (w_count w) true (w_max w), s)).

Definition sync_writer : W unit := λ '(w, s),
  let '(r, s') := sync_data (w_file w) s in (map_err PIo r, (w, s')).

Definition guard_unsealed {A} (k : W A) : W A := λ '(w, s),
  if w_sealed w then (Err Sealed, (w, s)) else k (w, s).

Definition seal_no_sync `{Blake3} : W unit :=
  guard_unsealed (flush_buf ;! write_footer ;! mark_sealed).

Definition seal `{Blake3} : W unit :=
  guard_unsealed (flush_buf ;! sync_writer ;! write_footer ;! sync_writer ;! mark_sealed).

(** ** PackReader *)
Record PackReader := mk_reader { r_file : handle; r_pack_id : PackId; r_body_end : option Z }.

Fixpoint count_loop (fuel : nat) (file : handle) (body_end offset count : Z)
    : M fs PackError Z :=
  match fuel with
  | O => ipanic
  | S fuel' =>
      if body_end <=? offset then iret count else
      let remaining := body_end - offset in
      if remaining <? RECORD_HEADER_SIZE then iret count else
      let! ' (rec_header, file) := imap_err PIo (read_exact file RECORD_HEADER_SIZE) in
      let len := from_le (sub 33 37 rec_header) in
      let record_size := RECORD_HEADER_SIZE + len in
      if body_end <? offset + record_size then iret count else
      let! file := imap_err PIo (seek_current file len) in
      count_loop fuel' file body_end (offset + record_size) (count + 1)
  end.

Definition count_records_in_file (file : handle) (body_end : Z) : M fs PackError Z :=
  let! file := imap_err PIo (seek_start file PACK_HEADER_SIZE) in
  count_loop (S (Z.to_nat body_end)) file body_end PACK_HEADER_SIZE 0.

Definition open (path : string) (pack_id : PackId) : M fs PackError PackReader :=
  let! file := imap_err PIo (open_existing path) in
  let! ' (magic, file) := imap_err PIo (read_exact file 4) in
  fail_if negb (bool_decide (magic = PACK_MAGIC)) with BadPackMagic in
  let! len := imap_err PIo (file_len file) in
  fail_if len <? PACK_HEADER_SIZE + PACK_FOOTER_SIZE with BadFooterMagic in
  let! file := imap_err PIo (seek_start file (len - PACK_FOOTER_SIZE)) in
  let! ' (footer, file) := imap_err PIo (read_exact file PACK_FOOTER_SIZE) in
  fail_if negb (bool_decide (sub 0 4 footer = FOOTER_MAGIC)) with BadFooterMagic in
  let body_end := len - PACK_FOOTER_SIZE in
  let footer_record_count := from_le (sub 4 12 footer) in
  let! scanned := count_records_in_file file body_end in
  fail_if negb (scanned =? footer_record_count)
    with FooterCountMismatch footer_record_count scanned in
  iret (mk_reader file pack_id (Some body_end)).

Definition open_sealed_fast (path : string) (_pack_id : PackId) : M fs PackError handle :=
  let! file := imap_err PIo (open_existing path) in
  let! magic := imap_err PIo (read_exact_at file 0 4) in
  fail_if negb (bool_decide (magic = PACK_MAGIC)) with BadPackMagic in
  iret file.

Definition read_at_from_file `{Blake3} (file : handle) (off : Z) (expected : PageHash)
    : M fs PackError bytes :=
  let! record := imap_err (λ _, TruncatedRecord off)
    (read_exact_at file off (RECORD_HEADER_SIZE + PAGE_SIZE)) in
  let stored_hash := sub 0 32 record in
  let len := from_le (sub 33 37 record) in
  fail_if negb (len =? PAGE_SIZE) with TruncatedRecord off in
  let payload := sub RECORD_HEADER_SIZE (zlen record) record in
  fail_if negb (bool_decide (stored_hash = expected)) with HashMismatch off in
  fail_if negb (bool_decide (blake3 payload = stored_hash)) with HashMismatch off in
  iret payload.

(** The [loop] of [open_unsealed]: good records, end of the good prefix, and
    where to truncate. *)
Fixpoint unsealed_loop `{Blake3} (fuel : nat) (file : handle) (len offset good : Z)
    : M fs PackError (Z * Z * option Z) :=
  match fuel with
  | O => ipanic
  | S fuel' =>
      let remaining := saturating_sub len offset in
      if remaining =? 0 then iret (good, offset, None) else
      if remaining <? RECORD_HEADER_SIZE then iret (good, offset, Some offset) else
      let! ' (rec_header, file) := imap_err PIo (read_exact file RECORD_HEADER_SIZE) in
      let hash := sub 0 32 rec_header in
      let flags := from_le (sub 32 33 rec_header) in
      let n := from_le (sub 33 37 rec_header) in
      let expected_len := if negb (Z.land flags 1 =? 0) then PAGE_SIZE else n in
      if negb (n =? expected_len) || (PAGE_SIZE * 2 <? n) then iret (good, offset, Some offset) else
      let payload_remaining := saturating_sub len (offset + RECORD_HEADER_SIZE) in
      if payload_remaining <? n then iret (good, offset, Some offset) else
      let! ' (payload, file) := imap_err PIo (read_exact file n) in
      if negb (bool_decide (blake3 payload = hash)) then iret (good, offset, Some offset) else
      unsealed_loop fuel' file len (offset + (RECORD_HEADER_SIZE + n)) (good + 1)
  end.

Definition open_unsealed `{Blake3} (path : string) (pack_id : PackId)
    : M fs PackError (PackReader * Z) :=
  let! file := imap_err PIo (open_existing path) in
  let! ' (magic, file) := imap_err PIo (read_exact file 4) in
  fail_if negb (bool_decide (magic = PACK_MAGIC)) with BadPackMagic in
  let! len := imap_err PIo (file_len file) in
  let! file := imap_err PIo (seek_start file PACK_HEADER_SIZE) in
  let! ' (good, offset, truncate_at) :=
    unsealed_loop (S (Z.to_nat len)) file len PACK_HEADER_SIZE 0 in
  let final_body_end := default offset truncate_at in
  let! _ := match truncate_at with
            | Some trunc => imap_err PIo (set_len file trunc)
            | None => iret tt
            end in
  let! file := imap_err PIo (open_existing path) in
  iret (mk_reader file pack_id (Some final_body_end), good).

Definition read_at (r : PackReader) (off : Z) : M fs PackError (PageHash * bytes) :=
  let! rec_header := imap_err (λ _, TruncatedRecord off)
    (read_exact_at (r_file r) off RECORD_HEADER_SIZE) in
  let hash := sub 0 32 rec_header in
  let len := from_le (sub 33 37 rec_header) in
  let! payload := imap_err (λ _, TruncatedRecord off)
    (read_exact_at (r_file r) (off + RECORD_HEADER_SIZE) len) in
  iret (hash, payload).

Fixpoint scan_loop (fuel : nat) (file : handle) (scan_end offset : Z)
    (results : list (Z * PageHash)) : M fs PackError (list (Z * PageHash)) :=
  match fuel with
  | O => ipanic
  | S fuel' =>
      if scan_end <=? offset then iret results else
      let remaining := scan_end - offset in
      if remaining <? RECORD_HEADER_SIZE then iret results else
      let! rec_header := imap_err (λ _, TruncatedRecord offset)
        (read_exact_at file offset RECORD_HEADER_SIZE) in
      let hash := sub 0 32 rec_header in
      let len := from_le (sub 33 37 rec_header) in
      scan_loop fuel' file scan_end (offset + (RECORD_HEADER_SIZE + len))
        (results ++ [(offset, hash)])
  end.

Definition scan (r : PackReader) : M fs PackError (list (Z * PageHash)) :=
  let! len := imap_err PIo (file_len (r_file r)) in
  let scan_end := default len (r_body_end r) in
  scan_loop (S (Z.to_nat scan_end)) (r_file r) scan_end PACK_HEADER_SIZE [].

(** ** The format, as data *)

(** A record as it lies in a pack body. *)
Record rrec := mk_rrec { rr_hash : bytes; rr_flags : Init.Byte.byte; rr_payload : bytes }.

Definition encode_rrec (r : rrec) : bytes :=
  rr_hash r ++ [rr_flags r] ++ to_le 4 (zlen (rr_payload r)) ++ rr_payload r.
Definition body (rs : list rrec) : bytes := concat (encode_rrec <$> rs).

Definition rec_shape (r : rrec) : Prop :=
  zlen (rr_hash r) = 32 ∧ zlen (rr_payload r) < 2 ^ 32.

(** What recovery accepts as a valid record. *)
Definition good_rec `{Blake3} (r : rrec) : Prop :=
  blake3 (rr_payload r) = rr_hash r ∧ zlen (rr_payload r) ≤ PAGE_SIZE * 2 ∧
  (Z.land (from_le [rr_flags r]) 1 ≠ 0 → zlen (rr_payload r) = PAGE_SIZE).

(** What the writer writes. *)
Definition page_rec (hash payload : bytes) : rrec := mk_rrec hash Byte.x01 payload.

(** Offsets and hashes of the records of a body that starts at [off]. *)
Fixpoint locs (off : Z) (rs : list rrec) : list (Z * PageHash) :=
  match rs with
  | [] => []
  | r :: rest => (off, rr_hash r) :: locs (off + zlen (encode_rrec r)) rest
  end.

Lemma encode_page_rec hash payload :
  zlen payload = PAGE_SIZE → encode_rrec (page_rec hash payload) = encode_record hash payload.
Proof. unfold encode_rrec, encode_record. simpl. by intros ->. Qed.

Lemma good_shape `{Blake3} r : good_rec r → rec_shape r.
Proof. intros (Hh & ? & _). unfold PAGE_SIZE in *. split; [rewrite <-Hh; apply zlen_blake3|lia]. Qed.

Lemma good_page `{Blake3} payload :
  zlen payload = PAGE_SIZE → good_rec (page_rec (blake3 payload) payload).
Proof. intros Hl. split_and!; simpl; [done|rewrite Hl; done|done]. Qed.

Lemma body_cons r rs : body (r :: rs) = encode_rrec r ++ body rs.
Proof. done. Qed.
Lemma body_app rs1 rs2 : body (rs1 ++ rs2) = body rs1 ++ body rs2.
Proof. unfold body. by rewrite fmap_app, concat_app. Qed.

Lemma zlen_encode_rrec r : rec_shape r → zlen (encode_rrec r) = RECORD_HEADER_SIZE + zlen (rr_payload r).
Proof. intros [Hh _]. unfold encode_rrec, RECORD_HEADER_SIZE. zl. Qed.

Lemma locs_hashes off rs : (locs off rs).*2 = rr_hash <$> rs.
Proof. revert off. induction rs as [|r rs IH]; intros off; [done|]. cbn. by rewrite IH. Qed.

Lemma locs_app off rs1 rs2 : locs off (rs1 ++ rs2) = locs off rs1 ++ locs (off + zlen (body rs1)) rs2.
Proof.
  revert off. induction rs1 as [|r rs1 IH]; intros off; simpl.
  - f_equal. change (zlen (body [])) with 0. lia.
  - rewrite IH, body_cons, zlen_app. do 3 f_equal. lia.
Qed.

(** The fields of a record at the front of a buffer, as the loops read
    them. *)
Lemma rec_header_fields r (post : bytes) : rec_shape r →
  let hdr := sub 0 37 (encode_rrec r ++ post) in
  sub 0 32 hdr = rr_hash r ∧ sub 32 33 hdr = [rr_flags r] ∧
  from_le (sub 33 37 hdr) = zlen (rr_payload r) ∧
  sub 37 (37 + zlen (rr_payload r)) (encode_rrec r ++ post) = rr_payload r.
Proof.
  intros [Hh Hp]. pose proof (zlen_nonneg (rr_payload r)). pose proof (zlen_nonneg post).
  unfold encode_rrec. rewrite <-!app_assoc. cbv zeta.
  rewrite !sub_sub by lia. rewrite !Z.add_0_l.
  split_and!; [by field|by field| |by field].
  replace (sub 33 37 _) with (to_le 4 (zlen (rr_payload r))) by (symmetry; by field).
  apply from_to_le. split; [done|exact Hp].
Qed.

(** Conversely, a buffer whose front parses as a header with a payload that
    is present starts with a record. *)
Lemma rec_of_header (d : bytes) :
  37 + from_le (sub 33 37 (sub 0 37 d)) ≤ zlen d → 37 ≤ zlen d →
  ∃ r post, d = encode_rrec r ++ post ∧ rec_shape r ∧ rr_hash r = sub 0 32 (sub 0 37 d) ∧
    [rr_flags r] = sub 32 33 (sub 0 37 d) ∧
    zlen (rr_payload r) = from_le (sub 33 37 (sub 0 37 d)).
Proof.
  intros Hn Hl. rewrite !sub_sub in * by lia. rewrite !Z.add_0_l in *.
  set (n := from_le (sub 33 37 d)) in *.
  assert (0 ≤ n < 2 ^ 32) as Hb by (apply (from_le_sub_bound 33 37); lia).
  assert (zlen (sub 32 33 d) = 1) as H1 by (rewrite zlen_sub; lia).
  destruct (sub 32 33 d) as [|f [|? ?]] eqn:Hf; [done| |].
  2: { rewrite !zlen_cons in H1. pose proof (zlen_nonneg l). lia. }
  exists (mk_rrec (sub 0 32 d) f (sub 37 (37 + n) d)), (sub (37 + n) (zlen d) d).
  assert (zlen (sub 37 (37 + n) d) = n) as Hp by (rewrite zlen_sub; lia).
  split_and!; [|split; simpl|done|done|done]; [|rewrite zlen_sub; lia|rewrite Hp; lia].
  unfold encode_rrec. simpl rr_hash. simpl rr_flags. simpl rr_payload. rewrite Hp, <-Hf.
  rewrite (to_le_sub 4 n 33 37 d) by (done || lia).
  rewrite <-!app_assoc, <-!sub_split by lia. by rewrite sub_all.
Qed.

(** Records are self-delimiting. *)
Lemma encode_rrec_inj r1 r2 t1 t2 :
  rec_shape r1 → rec_shape r2 → encode_rrec r1 ++ t1 = encode_rrec r2 ++ t2 → r1 = r2 ∧ t1 = t2.
Proof.
  intros Hs1 Hs2 Heq.
  pose proof (rec_header_fields r1 t1 Hs1) as (A1 & A2 & A3 & A4).
  pose proof (rec_header_fields r2 t2 Hs2) as (B1 & B2 & B3 & B4).
  rewrite Heq in *. assert (r1 = r2) as ->.
  { destruct r1 as [h1 f1 p1], r2 as [h2 f2 p2]. simpl in *. rewrite B3 in A3. rewrite <-A3 in A4.
    rewrite B1 in A1. rewrite B2 in A2. rewrite B4 in A4. by simplify_eq. }
  split; [done|]. by apply app_inv_head in Heq.
Qed.

(** ** The scanning loops *)

(** No valid record starts here: where recovery stops. *)
Definition no_good_prefix `{Blake3} (junk : bytes) : Prop :=
  ∀ r rest, good_rec r → junk ≠ encode_rrec r ++ rest.

(** Reading the header and payload of the record at the cursor. *)
Lemma read_at_pre h (pre tail : bytes) a n s :
  calm s → content s (h_ino h) = pre ++ tail → 0 ≤ a → a + n ≤ zlen tail →
  read_exact_at h (zlen pre + a) n s = (Ok (sub a (a + n) tail), s).
Proof.
  intros Hs Hc ??. pose proof (zlen_nonneg pre).
  rewrite read_exact_at_calm by (rewrite ?Hc, ?zlen_app; done || lia).
  rewrite Hc, <-Z.add_assoc. by rewrite sub_shift.
Qed.

Lemma read_pre h (pre tail : bytes) a n s :
  calm s → content s (h_ino h) = pre ++ tail → h_pos h = zlen pre + a → 0 ≤ a → a + n ≤ zlen tail →
  read_exact h n s = (Ok (sub a (a + n) tail, mk_handle (h_ino h) (zlen pre + a + n)), s).
Proof.
  intros Hs Hc Hp ??. unfold read_exact. rewrite Hp.
  erewrite ibind_step by (by apply read_at_pre). done.
Qed.

Lemma imap_step {S E F A} (f : E → F) (c : M S E A) s a s' :
  c s = (Ok a, s') → imap_err f c s = (Ok a, s').
Proof. by intros H; apply imap_err_Ok. Qed.

Section unsealed.
Context `{Blake3}.

(** One iteration on a valid record. *)
Lemma unsealed_step fuel h pre r post g s :
  calm s → content s (h_ino h) = pre ++ encode_rrec r ++ post → h_pos h = zlen pre → good_rec r →
  unsealed_loop (S fuel) h (zlen (pre ++ encode_rrec r ++ post)) (zlen pre) g s =
  unsealed_loop fuel (mk_handle (h_ino h) (zlen (pre ++ encode_rrec r)))
    (zlen (pre ++ encode_rrec r ++ post)) (zlen (pre ++ encode_rrec r)) (g + 1) s.
Proof.
  intros Hs Hc Hp Hg. pose proof (good_shape r Hg) as Hsh.
  pose proof (zlen_encode_rrec r Hsh) as Hl. destruct Hg as (Hh & Hmax & Hfl).
  pose proof (rec_header_fields r post Hsh) as (A1 & A2 & A3 & A4).
  pose proof (zlen_nonneg (rr_payload r)). pose proof (zlen_nonneg pre). pose proof (zlen_nonneg post).
  unfold RECORD_HEADER_SIZE in Hl. cbn [unsealed_loop]. unfold saturating_sub, RECORD_HEADER_SIZE.
  set (n := zlen (rr_payload r)) in *.
  rewrite (proj2 (Z.eqb_neq _ _)), (proj2 (Z.ltb_ge _ _)) by (rewrite !zlen_app, Hl; lia).
  erewrite ibind_step by (apply imap_step, (read_pre h pre (encode_rrec r ++ post) 0); [done|done|lia|lia|rewrite zlen_app; lia]).
  cbv beta iota zeta. change (0 + (32 + 1 + 4)) with 37. rewrite A1, A2, A3.
  assert (negb (n =? (if negb (Z.land (from_le [rr_flags r]) 1 =? 0) then PAGE_SIZE else n))
    || (PAGE_SIZE * 2 <? n) = false) as ->.
  { rewrite (proj2 (Z.ltb_ge _ _)) by done. rewrite orb_false_r, negb_false_iff, Z.eqb_eq.
    destruct (_ =? 0) eqn:E; [done|]. b2p. by apply Hfl. }
  rewrite (proj2 (Z.ltb_ge _ n)) by (rewrite !zlen_app, Hl; lia).
  erewrite ibind_step by (apply imap_step, (read_pre _ pre (encode_rrec r ++ post) 37);
    [done|done|simpl; lia|lia|rewrite zlen_app; lia]).
  cbv beta iota zeta. rewrite A4, Hh, bool_decide_eq_true_2 by done. cbn [negb h_ino].
  do 2 f_equal; [f_equal|]; rewrite zlen_app, Hl; lia.
Qed.

(** One iteration where no valid record starts: stop, and truncate unless
    the file ends here. *)
Lemma unsealed_stop fuel h pre junk g s :
  calm s → content s (h_ino h) = pre ++ junk → h_pos h = zlen pre → no_good_prefix junk →
  unsealed_loop (S fuel) h (zlen (pre ++ junk)) (zlen pre) g s =
  (Ok (g, zlen pre, if decide (junk = []) then None else Some (zlen pre)), s).
Proof.
  intros Hs Hc Hp Hno. pose proof (zlen_nonneg junk) as Hj. pose proof (zlen_nonneg pre).
  cbn [unsealed_loop]. unfold saturating_sub, RECORD_HEADER_SIZE. rewrite zlen_app.
  replace (Z.max 0 (zlen pre + zlen junk - zlen pre)) with (zlen junk) by lia.
  destruct (decide (junk = [])) as [->|Hne]; [done|].
  rewrite (proj2 (Z.eqb_neq _ _)) by (intros ?; by apply Hne, zlen_0_nil).
  destruct (zlen junk <? _) eqn:Hlt; [done|]. b2p.
  erewrite ibind_step by (apply imap_step, (read_pre h pre junk 0); [done|done|lia|lia|lia]).
  cbv beta iota zeta. change (0 + (32 + 1 + 4)) with 37.
  set (n := from_le (sub 33 37 (sub 0 37 junk))).
  assert (0 ≤ n) by apply from_le_bound.
  destruct (_ || _) eqn:Hsz; [done|]. apply orb_false_iff in Hsz as [Hfl Hmax]. b2p.
  destruct (_ <? n) eqn:Hrem; [done|]. b2p.
  erewrite ibind_step by (apply imap_step, (read_pre _ pre junk 37);
    [done|done|simpl; lia|lia|lia]).
  cbv beta iota zeta. destruct (bool_decide _) eqn:Hh; [|done]. exfalso. b2p.
  destruct (rec_of_header junk) as (r & post & Hd & Hsh & Hr1 & Hr2 & Hr3); [lia..|].
  fold n in Hr3. apply (Hno r post); [|done].
  destruct (rec_header_fields r post Hsh) as (_ & _ & _ & Hpay). rewrite <-Hd, Hr3 in Hpay.
  split_and!; [|lia|].
  - rewrite Hr1, <-Hh, <-Hpay. done.
  - rewrite Hr2. intros Hodd. rewrite (proj2 (Z.eqb_neq _ 0)) in Hfl by done. simpl in Hfl. lia.
Qed.

Lemma good_prefix_dec (d : bytes) :
  (∃ r post, good_rec r ∧ d = encode_rrec r ++ post) ∨ no_good_prefix d.
Proof.
  destruct (decide (37 ≤ zlen d ∧ 37 + from_le (sub 33 37 (sub 0 37 d)) ≤ zlen d)) as [[H1 H2]|Hno].
  - destruct (rec_of_header d) as (r & post & -> & Hsh & _); [done..|].
    destruct (decide (blake3 (rr_payload r) = rr_hash r ∧ zlen (rr_payload r) ≤ PAGE_SIZE * 2 ∧
      (Z.land (from_le [rr_flags r]) 1 ≠ 0 → zlen (rr_payload r) = PAGE_SIZE))) as [Hg|Hg]; [left; by exists r, post|].
    right. intros r' rest Hg' Heq. apply encode_rrec_inj in Heq as [-> _]; [done|done|by apply good_shape].
  - right. intros r rest Hg ->. apply Hno. pose proof (good_shape r Hg) as Hsh.
    destruct (rec_header_fields r rest Hsh) as (_ & _ & -> & _).
    rewrite zlen_app, zlen_encode_rrec by done. unfold RECORD_HEADER_SIZE.
    pose proof (zlen_nonneg rest). pose proof (zlen_nonneg (rr_payload r)). lia.
Qed.

(** The loop finds the longest valid prefix and stops after it. *)
Lemma unsealed_loop_spec fuel h pre tail g s :
  calm s → content s (h_ino h) = pre ++ tail → h_pos h = zlen pre → (length tail < fuel)%nat →
  ∃ rs junk, tail = body rs ++ junk ∧ Forall good_rec rs ∧ no_good_prefix junk ∧
    unsealed_loop fuel h (zlen (pre ++ tail)) (zlen pre) g s =
    (Ok (g + zlen rs, zlen (pre ++ body rs),
      if decide (junk = []) then None else Some (zlen (pre ++ body rs))), s).
Proof.
  revert h pre tail g. induction fuel as [|fuel IH]; intros h pre tail g Hs Hc Hp Hf; [lia|].
  destruct (good_prefix_dec tail) as [(r & post & Hg & ->)|Hno].
  - rewrite unsealed_step by done. pose proof (zlen_encode_rrec r (good_shape r Hg)) as Hl.
    rewrite app_assoc in Hc |- *. unfold RECORD_HEADER_SIZE in Hl.
    pose proof (zlen_nonneg (rr_payload r)).
    destruct (IH (mk_handle (h_ino h) (zlen (pre ++ encode_rrec r))) (pre ++ encode_rrec r) post (g + 1))
      as (rs & junk & -> & Hrs & Hj & ->); [done|done|done|rewrite length_app in Hf; unfold zlen in Hl; lia|].
    exists (r :: rs), junk. rewrite body_cons, zlen_cons, <-!app_assoc.
    split_and!; [done|by constructor|done|]. do 4 f_equal. lia.
  - exists [], tail. split_and!; [done|done|done|]. change (body []) with (@nil Init.Byte.byte).
    rewrite app_nil_r, unsealed_stop by done. do 4 f_equal. rewrite zlen_nil. lia.
Qed.

(** The valid prefix is unique: whatever valid records a buffer starts
    with, recovery keeps them. *)
Lemma recovered_prefix rs1 rs2 tail junk :
  Forall good_rec rs1 → Forall good_rec rs2 → no_good_prefix junk →
  body rs1 ++ tail = body rs2 ++ junk → rs1 `prefix_of` rs2.
Proof.
  intros H1. revert rs2. induction H1 as [|r rs1 Hr _ IH]; intros rs2 H2 Hno Heq.
  - apply prefix_nil.
  - rewrite body_cons, <-app_assoc in Heq. destruct rs2 as [|r2 rs2].
    + by destruct (Hno r (body rs1 ++ tail) Hr).
    + inversion H2; subst. rewrite body_cons, <-app_assoc in Heq.
      apply encode_rrec_inj in Heq as [-> Heq]; [|by apply good_shape..].
      apply prefix_cons. by apply IH.
Qed.
End unsealed.

(** The other loops, over a body they read to its end. *)

Lemma scan_loop_spec fuel h pre rs post acc s :
  calm s → content s (h_ino h) = pre ++ body rs ++ post → Forall rec_shape rs →
  (length rs < fuel)%nat →
  scan_loop fuel h (zlen (pre ++ body rs)) (zlen pre) acc s = (Ok (acc ++ locs (zlen pre) rs), s).
Proof.
  revert pre acc fuel. induction rs as [|r rs IH]; intros pre acc fuel Hs Hc Hsh Hf;
    (destruct fuel as [|fuel]; [lia|]); cbn [scan_loop].
  - change (body []) with (@nil Init.Byte.byte). rewrite app_nil_r, Z.leb_refl. simpl.
    by rewrite app_nil_r.
  - inversion Hsh as [|?? Hr Hsh']; subst. rewrite body_cons in *.
    pose proof (zlen_encode_rrec r Hr) as Hl. unfold RECORD_HEADER_SIZE in *.
    pose proof (zlen_nonneg (rr_payload r)). pose proof (zlen_nonneg (body rs)).
    pose proof (zlen_nonneg post).
    rewrite <-app_assoc in Hc. pose proof (rec_header_fields r (body rs ++ post) Hr) as (A1 & _ & A3 & _).
    rewrite (proj2 (Z.leb_gt _ _)), (proj2 (Z.ltb_ge _ _)) by (rewrite !zlen_app; lia).
    erewrite ibind_step by (apply imap_step; rewrite <-(Z.add_0_r (zlen pre)); apply (read_at_pre h pre);
      [done|done|lia|rewrite !zlen_app; lia]).
    change (0 + (32 + 1 + 4)) with 37. cbv beta zeta. rewrite A1, A3.
    replace (zlen pre + (32 + 1 + 4 + zlen (rr_payload r))) with (zlen (pre ++ encode_rrec r))
      by (rewrite zlen_app; lia).
    rewrite app_assoc. rewrite IH; [|done|by rewrite <-app_assoc|done|simpl in Hf; lia].
    simpl. by rewrite <-app_assoc, zlen_app.
Qed.

Lemma count_loop_spec fuel h pre rs post c s :
  calm s → content s (h_ino h) = pre ++ body rs ++ post → h_pos h = zlen pre → Forall rec_shape rs →
  (length rs < fuel)%nat →
  count_loop fuel h (zlen (pre ++ body rs)) (zlen pre) c s = (Ok (c + zlen rs), s).
Proof.
  revert h pre c fuel. induction rs as [|r rs IH]; intros h pre c fuel Hs Hc Hp Hsh Hf;
    (destruct fuel as [|fuel]; [lia|]); cbn [count_loop].
  - change (body []) with (@nil Init.Byte.byte). rewrite app_nil_r, Z.leb_refl.
    by rewrite zlen_nil, Z.add_0_r.
  - inversion Hsh as [|?? Hr Hsh']; subst. rewrite body_cons in *.
    pose proof (zlen_encode_rrec r Hr) as Hl. unfold RECORD_HEADER_SIZE in *.
    pose proof (zlen_nonneg (rr_payload r)). pose proof (zlen_nonneg (body rs)).
    pose proof (zlen_nonneg post).
    rewrite <-app_assoc in Hc. pose proof (rec_header_fields r (body rs ++ post) Hr) as (A1 & _ & A3 & _).
    rewrite (proj2 (Z.leb_gt _ _)), (proj2 (Z.ltb_ge _ _)) by (rewrite !zlen_app; lia).
    erewrite ibind_step by (apply imap_step, (read_pre h pre (encode_rrec r ++ body rs ++ post) 0);
      [done|done|lia|lia|rewrite !zlen_app; lia]).
    change (0 + (32 + 1 + 4)) with 37. cbv beta iota zeta. rewrite A3.
    rewrite (proj2 (Z.ltb_ge _ _)) by (rewrite !zlen_app; lia).
    erewrite ibind_step by (apply imap_step; unfold seek_current; by rewrite syscall_calm).
    replace (zlen pre + (32 + 1 + 4 + zlen (rr_payload r))) with (zlen (pre ++ encode_rrec r))
      by (rewrite zlen_app; lia).
    cbv beta. rewrite app_assoc. rewrite IH;
      [|done|by rewrite <-app_assoc|simpl; rewrite zlen_app; lia|done|simpl in Hf; lia].
    by rewrite zlen_cons, Z.add_assoc.
Qed.

Lemma reopen_loop_spec fuel h pre rs c hashed s :
  calm s → content s (h_ino h) = pre ++ body rs →
  Forall (λ r, rec_shape r ∧ zlen (rr_payload r) ≤ PAGE_SIZE * 2) rs →
  (length rs < fuel)%nat →
  reopen_loop fuel h (zlen (pre ++ body rs)) (zlen pre) c hashed s =
    (Ok (zlen (pre ++ body rs), c + zlen rs, hashed ++ body rs), s).
Proof.
  revert pre c hashed fuel. induction rs as [|r rs IH]; intros pre c hashed fuel Hs Hc Hsh Hf;
    (destruct fuel as [|fuel]; [lia|]); cbn [reopen_loop].
  - change (body []) with (@nil Init.Byte.byte). rewrite !app_nil_r, Z.leb_refl.
    by rewrite zlen_nil, Z.add_0_r.
  - inversion Hsh as [|?? [Hr Hmax] Hsh']; subst. rewrite body_cons in *.
    pose proof (zlen_encode_rrec r Hr) as Hl. unfold RECORD_HEADER_SIZE in *.
    pose proof (zlen_nonneg (rr_payload r)). pose proof (zlen_nonneg (body rs)).
    pose proof (rec_header_fields r (body rs) Hr) as (A1 & A2 & A3 & A4).
    rewrite (proj2 (Z.leb_gt _ _)), (proj2 (Z.ltb_ge _ (32 + 1 + 4))) by (rewrite !zlen_app; lia).
    erewrite ibind_step by (apply imap_step; rewrite <-(Z.add_0_r (zlen pre)); apply (read_at_pre h pre);
      [done|done|lia|rewrite !zlen_app; lia]).
    change (0 + (32 + 1 + 4)) with 37. cbv beta iota zeta. rewrite A3.
    rewrite (proj2 (Z.ltb_ge _ _)) by done.
    rewrite (proj2 (Z.ltb_ge _ _)) by (rewrite !zlen_app; lia).
    erewrite ibind_step by (apply imap_step, (read_at_pre h pre);
      [done|done|lia|rewrite !zlen_app; lia]).
    replace (zlen pre + (32 + 1 + 4 + zlen (rr_payload r))) with (zlen (pre ++ encode_rrec r))
      by (rewrite zlen_app; lia).
    assert (sub 0 37 (encode_rrec r ++ body rs) ++
      sub (32 + 1 + 4) (32 + 1 + 4 + zlen (rr_payload r)) (encode_rrec r ++ body rs) = encode_rrec r) as ->.
    { change (32 + 1 + 4) with 37. rewrite <-sub_split by lia.
      rewrite sub_app_l by lia. apply sub_all; lia. }
    cbv beta. rewrite app_assoc. rewrite IH; [|done|by rewrite <-app_assoc|done|simpl in Hf; lia].
    by rewrite zlen_cons, Z.add_assoc, <-!app_assoc.
Qed.

(** ** The writer *)

Definition header_ok (hdr : bytes) : Prop := zlen hdr = PACK_HEADER_SIZE ∧ sub 0 4 hdr = PACK_MAGIC.

(** The writer [w] has appended exactly [rs] to the unsealed pack that
    starts with [hdr]; what is not in the file yet is in its buffer. *)
Record writer_ok (w : PackWriter) (hdr : bytes) (rs : list rrec) (s : fs) : Prop := {
  wo_file : is_Some (fs_files s !! h_ino (w_file w));
  wo_hdr : header_ok hdr;
  wo_data : content s (h_ino (w_file w)) ++ w_buf w = hdr ++ body rs;
  wo_pos : h_pos (w_file w) = zlen (content s (h_ino (w_file w)));
  wo_hashed : w_hashed w = body rs;
  wo_offset : w_offset w = zlen (hdr ++ body rs);
  wo_count : w_count w = zlen rs;
  wo_open : w_sealed w = false;
  wo_shape : Forall rec_shape rs;
}.

Lemma header_ok_pack id cr : header_ok (pack_header id cr).
Proof.
  assert (zlen PACK_MAGIC = 4) by done. unfold header_ok, pack_header, PACK_HEADER_SIZE.
  split; [zl|by field].
Qed.

Lemma create_ok p id cr max s :
  calm s → fs_dir s !! p = None →
  ∃ w, create_with_max_bytes p id cr max s =
      (Ok w, set_content (fs_next s) (pack_header id cr) (fresh_file p s)) ∧
    writer_ok w (pack_header id cr) [] (set_content (fs_next s) (pack_header id cr) (fresh_file p s)) ∧
    w_max w = max ∧ w_pack_id w = id ∧ w_buf w = [] ∧ h_ino (w_file w) = fs_next s.
Proof.
  intros Hs Hp. unfold create_with_max_bytes.
  assert (open_create_new p s = (Ok (mk_handle (fs_next s) 0), fresh_file p s)) as Ho.
  { unfold open_create_new. rewrite syscall_calm by done. by rewrite Hp. }
  erewrite ibind_step by (apply imap_step, Ho).
  assert (content (fresh_file p s) (fs_next s) = []) as Hc
    by (unfold content; simpl; by rewrite lookup_insert_eq).
  erewrite ibind_step.
  2: { apply imap_step. unfold write_all_h. rewrite write_all_calm by done. simpl h_ino. simpl h_pos.
       rewrite Hc. change 0 with (zlen (@nil Init.Byte.byte)) at 2. rewrite write_bytes_end. reflexivity. }
  eexists. split; [reflexivity|]. simpl. split; [|done].
  pose proof (header_ok_pack id cr) as Hh.
  split; simpl; rewrite ?content_set_content; try done.
  - unfold set_content. simpl. rewrite lookup_insert_eq. by eexists.
Qed.

Lemma create_exists p id cr max s i :
  calm s → fs_dir s !! p = Some i →
  create_with_max_bytes p id cr max s = (Err (PIo EAlreadyExists), s).
Proof.
  intros Hs Hp. unfold create_with_max_bytes, ibind, imap_err, open_create_new.
  rewrite syscall_calm by done. by rewrite Hp.
Qed.

Lemma flush_ok w hdr rs s :
  writer_ok w hdr rs s → calm s →
  ∃ w', flush_buf (w, s) = (Ok tt, (w', set_content (h_ino (w_file w)) (hdr ++ body rs) s)) ∧
    writer_ok w' hdr rs (set_content (h_ino (w_file w)) (hdr ++ body rs) s) ∧
    w_buf w' = [] ∧ w_max w' = w_max w ∧ w_pack_id w' = w_pack_id w ∧ h_ino (w_file w') = h_ino (w_file w).
Proof.
  intros [[f Hf] Hh Hd Hp Hha Ho Hc Hop Hsh] Hs. unfold flush_buf.
  destruct (decide (w_buf w = [])) as [Hb|Hb].
  - rewrite bool_decide_eq_true_2 by done. rewrite Hb, app_nil_r in Hd.
    rewrite <-Hd, (set_content_id _ _ f Hf). exists w. split_and!; [done|split; try done|done..].
    by rewrite Hb, app_nil_r.
  - rewrite bool_decide_eq_false_2 by done. rewrite write_all_calm by done.
    rewrite Hp, write_bytes_end, Hd. eexists. split; [reflexivity|]. simpl. split_and!; [|done..].
    split; simpl; rewrite ?content_set_content, ?app_nil_r; try done.
    + rewrite lookup_insert_eq. by eexists.
    + rewrite <-Hd, zlen_app. lia.
Qed.

Lemma append_ok w hdr rs s hash payload :
  writer_ok w hdr rs s → calm s → zlen hash = 32 → zlen payload = PAGE_SIZE →
  would_exceed_cap w = false →
  ∃ w' c, append hash payload (w, s) = (Ok (zlen (hdr ++ body rs)), (w', set_content (h_ino (w_file w)) c s)) ∧
    writer_ok w' hdr (rs ++ [page_rec hash payload]) (set_content (h_ino (w_file w)) c s) ∧
    w_max w' = w_max w ∧ w_pack_id w' = w_pack_id w ∧ h_ino (w_file w') = h_ino (w_file w).
Proof.
  intros Hw Hs Hhash Hpay Hcap. unfold append. rewrite (wo_open _ _ _ _ Hw), Hcap.
  set (w1 := mk_writer _ _ _ _ _ _ _ _).
  assert (writer_ok w1 hdr (rs ++ [page_rec hash payload]) s) as Hw1.
  { pose proof Hw as [Hf Hh Hd Hp Hha Ho Hc Hop Hsh]. subst w1.
    assert (encode_record hash payload = body [page_rec hash payload]) as He.
    { unfold body. simpl. rewrite app_nil_r. by rewrite encode_page_rec. }
    split; simpl; rewrite ?body_app, ?He; try done.
    - by rewrite app_assoc, Hd, <-app_assoc.
    - by rewrite Hha.
    - rewrite app_assoc, zlen_app, Ho. f_equal. rewrite <-He, <-encode_page_rec by done.
      rewrite zlen_encode_rrec; [simpl; by rewrite Hpay|]. split; simpl; [done|]. rewrite Hpay. done.
    - rewrite zlen_app, Hc. done.
    - apply Forall_app. split; [done|]. constructor; [|done]. split; simpl; [done|]. rewrite Hpay. done. }
  destruct (_ <=? zlen (w_buf w1)).
  - destruct (flush_ok w1 hdr _ s Hw1 Hs) as (w2 & Hfl & Hw2 & _ & Hm & Hid & Hi).
    exists w2, (hdr ++ body (rs ++ [page_rec hash payload])).
    erewrite ibind_step by exact Hfl. unfold iret. rewrite (wo_offset _ _ _ _ Hw).
    split_and!; [done|exact Hw2|done..].
  - destruct (wo_file _ _ _ _ Hw) as [f Hf].
    exists w1, (content s (h_ino (w_file w))). rewrite (set_content_id _ _ f Hf).
    erewrite ibind_step by reflexivity. unfold iret. rewrite (wo_offset _ _ _ _ Hw).
    split_and!; [done|exact Hw1|done..].
Qed.

Section packs.
Context `{Blake3}.

Lemma zlen_pack_footer c b : zlen (pack_footer c b) = PACK_FOOTER_SIZE.
Proof. assert (zlen FOOTER_MAGIC = 4) by done. unfold pack_footer, PACK_FOOTER_SIZE. zl. Qed.

(** A complete sealed pack. *)
Definition sealed_bytes (hdr : bytes) (rs : list rrec) : bytes :=
  hdr ++ body rs ++ pack_footer (zlen rs) (body rs).

Lemma seal_no_sync_ok w hdr rs s :
  writer_ok w hdr rs s → calm s →
  ∃ w', seal_no_sync (w, s) = (Ok tt, (w', set_content (h_ino (w_file w)) (sealed_bytes hdr rs) s)) ∧
    w_sealed w' = true.
Proof.
  intros Hw Hs. unfold seal_no_sync, guard_unsealed. rewrite (wo_open _ _ _ _ Hw).
  destruct (flush_ok w hdr rs s Hw Hs) as (w1 & Hfl & Hw1 & Hb & _ & _ & Hi).
  erewrite ibind_step by exact Hfl.
  destruct Hw1 as [_ _ _ Hp Hha _ Hc _ _]. rewrite Hi in *. rewrite content_set_content in Hp.
  erewrite ibind_step.
  2: { unfold write_footer. rewrite write_all_calm by done.
       rewrite Hi, content_set_content, Hp, write_bytes_end, Hc, Hha, set_content_twice, <-app_assoc.
       reflexivity. }
  unfold mark_sealed. by eexists.
Qed.

(** Durable contents equal current contents. *)
Definition synced (s : fs) (i : ino) : Prop := durable s i = content s i.

Lemma sync_data_calm h s :
  calm s →
  sync_data h s = (Ok tt, set_files (<[h_ino h := mk_file (content s (h_ino h)) (content s (h_ino h))]> (fs_files s)) s).
Proof. intros Hs. unfold sync_data. by rewrite syscall_calm. Qed.

Lemma sync_data_synced h s s' : calm s → sync_data h s = (Ok tt, s') →
  synced s' (h_ino h) ∧ content s' (h_ino h) = content s (h_ino h) ∧ calm s' ∧
  fs_dir s' = fs_dir s ∧ fs_ddir s' = fs_ddir s ∧
  (∀ j, j ≠ h_ino h → content s' j = content s j ∧ durable s' j = durable s j).
Proof.
  intros Hs. rewrite sync_data_calm by done. intros Heq. injection Heq as <-.
  unfold synced, content, durable. simpl. rewrite !lookup_insert_eq.
  split_and!; [done..|]. intros j Hj. by rewrite !lookup_insert_ne by done.
Qed.

(** [seal]: the same file image, and it is durable. *)
Lemma seal_eq w hdr rs s :
  writer_ok w hdr rs s → calm s →
  ∃ w', seal (w, s) = (Ok tt, (w',
    set_files (<[h_ino (w_file w) := mk_file (sealed_bytes hdr rs) (sealed_bytes hdr rs)]> (fs_files s)) s)) ∧
    w_sealed w' = true.
Proof.
  intros Hw Hs. unfold seal, guard_unsealed. rewrite (wo_open _ _ _ _ Hw).
  destruct (flush_ok w hdr rs s Hw Hs) as (w1 & Hfl & Hw1 & Hb & _ & _ & Hi).
  erewrite ibind_step by exact Hfl. set (i := h_ino (w_file w)) in *.
  destruct Hw1 as [_ _ _ Hp Hha _ Hc _ _]. rewrite Hi in *. rewrite content_set_content in Hp.
  erewrite ibind_step by (unfold sync_writer; rewrite sync_data_calm by done; reflexivity).
  rewrite Hi, content_set_content. cbn [fs_files set_content set_files]. rewrite insert_insert_eq.
  erewrite ibind_step.
  2: { unfold write_footer. rewrite write_all_calm by done. rewrite Hi. unfold content at 1. cbn [fs_files set_files].
       rewrite lookup_insert_eq. cbn [f_data]. rewrite Hp, write_bytes_end, Hc, Hha, <-app_assoc. reflexivity. }
  cbn [w_file w_pack_id w_hashed w_buf w_offset w_count w_sealed w_max].
  erewrite ibind_step by (unfold sync_writer; rewrite sync_data_calm by done; reflexivity).
  cbn [w_file h_ino]. rewrite !content_set_content. unfold set_content, set_files. cbn [fs_files fs_dir fs_ddir fs_next fs_faults].
  rewrite !insert_insert_eq. by eexists.
Qed.

Lemma seal_ok w hdr rs s :
  writer_ok w hdr rs s → calm s →
  ∃ w' s', seal (w, s) = (Ok tt, (w', s')) ∧ w_sealed w' = true ∧
    content s' (h_ino (w_file w)) = sealed_bytes hdr rs ∧ synced s' (h_ino (w_file w)) ∧
    calm s' ∧ fs_dir s' = fs_dir s ∧
    (∀ j, j ≠ h_ino (w_file w) → content s' j = content s j ∧ durable s' j = durable s j).
Proof.
  intros Hw Hs. destruct (seal_eq w hdr rs s Hw Hs) as (w' & He & Hse). eexists w', _. split; [exact He|].
  unfold synced, content, durable. cbn [fs_files set_files]. rewrite !lookup_insert_eq.
  split_and!; [done..|]. intros j Hj. by rewrite !lookup_insert_ne by done.
Qed.

Lemma length_body_ge rs : Forall rec_shape rs → (length rs ≤ length (body rs))%nat.
Proof.
  induction 1 as [|r rs Hr _ IH]; [done|].
  rewrite body_cons, length_app. pose proof (zlen_encode_rrec r Hr) as Hl.
  unfold zlen, RECORD_HEADER_SIZE in Hl. simpl. lia.
Qed.

(** Scanning up to the end of a body lists its records. *)
Lemma scan_ok r hdr rs post s :
  calm s → header_ok hdr → content s (h_ino (r_file r)) = hdr ++ body rs ++ post →
  Forall rec_shape rs → r_body_end r = Some (zlen (hdr ++ body rs)) →
  scan r s = (Ok (locs PACK_HEADER_SIZE rs), s).
Proof.
  intros Hs [Hh _] Hc Hsh Hb. unfold scan.
  erewrite ibind_step by (apply imap_step; unfold file_len; rewrite syscall_calm by done; reflexivity).
  rewrite Hb. simpl default. rewrite <-Hh. rewrite (scan_loop_spec _ _ hdr rs post); [done..|].
  pose proof (length_body_ge rs Hsh). unfold zlen. rewrite Nat2Z.id, length_app. lia.
Qed.

(** Opening a sealed pack finds every record. *)
Lemma open_sealed_ok p i hdr rs id s :
  calm s → fs_dir s !! p = Some i → content s i = sealed_bytes hdr rs → header_ok hdr →
  Forall rec_shape rs → zlen rs < 2 ^ 64 →
  ∃ r, open p id s = (Ok r, s) ∧ scan r s = (Ok (locs PACK_HEADER_SIZE rs), s) ∧
    r_body_end r = Some (zlen (hdr ++ body rs)) ∧ h_ino (r_file r) = i.
Proof.
  intros Hs Hp Hc [Hh Hm] Hsh Hn. unfold open. pose proof (zlen_nonneg (body rs)).
  set (ft := pack_footer (zlen rs) (body rs)) in *.
  assert (zlen ft = 44) as Hft by apply zlen_pack_footer.
  assert (zlen (sealed_bytes hdr rs) = 20 + zlen (body rs) + 44) as Hlen
    by (unfold sealed_bytes; fold ft; rewrite !zlen_app, Hh, Hft; unfold PACK_HEADER_SIZE; lia).
  erewrite ibind_step by (apply imap_step; unfold open_existing; rewrite syscall_calm, Hp by done; reflexivity).
  erewrite ibind_step by (apply imap_step, read_exact_calm; cbn [h_ino h_pos]; [done|lia|rewrite Hc; lia]).
  cbn [h_ino h_pos]. cbv beta iota.
  replace (sub _ _ (content s i)) with PACK_MAGIC.
  2: { rewrite Hc. unfold sealed_bytes. unfold PACK_HEADER_SIZE in Hh. rewrite sub_app_l by lia. by rewrite <-Hm. }
  rewrite bool_decide_eq_true_2 by done. cbn [negb].
  erewrite ibind_step by (apply imap_step; unfold file_len; rewrite syscall_calm by done; reflexivity).
  cbn [h_ino]. rewrite Hc, Hlen. unfold PACK_FOOTER_SIZE. rewrite (proj2 (Z.ltb_ge _ _)) by (unfold PACK_HEADER_SIZE; lia).
  erewrite ibind_step by (apply imap_step; unfold seek_start; rewrite syscall_calm by done; reflexivity).
  erewrite ibind_step by (apply imap_step, read_exact_calm; cbn [h_ino h_pos]; [done|lia|rewrite Hc; lia]).
  cbn [h_ino h_pos]. cbv beta iota.
  assert (sealed_bytes hdr rs = (hdr ++ body rs) ++ ft) as Hsb by (unfold sealed_bytes; by rewrite app_assoc).
  assert (zlen (hdr ++ body rs) = 20 + zlen (body rs)) as Hb by (rewrite zlen_app, Hh; done).
  replace (sub _ _ (content s i)) with ft.
  2: { rewrite Hc, Hsb, sub_app_r by lia. symmetry. apply sub_all; lia. }
  assert (zlen FOOTER_MAGIC = 4) as HFM by done.
  assert (sub 0 4 ft = FOOTER_MAGIC) as -> by (unfold ft, pack_footer; by field).
  rewrite bool_decide_eq_true_2 by done. cbn [negb].
  assert (from_le (sub 4 12 ft) = zlen rs) as ->.
  { unfold ft, pack_footer. rewrite sub_app_exact by zl. apply from_to_le.
    split; [apply zlen_nonneg|done]. }
  unfold count_records_in_file.
  erewrite ibind_step.
  2: { erewrite ibind_step by (apply imap_step; unfold seek_start; rewrite syscall_calm by done; reflexivity).
       replace (20 + zlen (body rs) + 44 - 44) with (zlen (hdr ++ body rs)) by lia.
       rewrite <-Hh. apply (count_loop_spec _ _ hdr rs ft); simpl; [done| |done|done|].
       - by rewrite Hc, Hsb, <-app_assoc.
       - pose proof (length_body_ge rs Hsh). unfold zlen in *. rewrite !length_app in *. lia. }
  rewrite Z.add_0_l, Z.eqb_refl. cbn [negb]. eexists. split; [reflexivity|]. simpl.
  split_and!; [|f_equal; lia|done]. eapply scan_ok; [done|by split|..|done|simpl; f_equal; lia].
  simpl. by rewrite Hc.
Qed.
End packs.

Section recovery.
Context `{Blake3}.

(** ** Reading records *)

(** A page record: what every record of a healthy pack is. *)
Definition page_ok (r : rrec) : Prop :=
  zlen (rr_payload r) = PAGE_SIZE ∧ blake3 (rr_payload r) = rr_hash r.

Lemma page_ok_shape r : page_ok r → rec_shape r.
Proof. intros [Hl Hh]. split; [rewrite <-Hh; apply zlen_blake3|rewrite Hl; done]. Qed.

Lemma locs_split off rs o h :
  (o, h) ∈ locs off rs →
  ∃ rs1 r rs2, rs = rs1 ++ r :: rs2 ∧ rr_hash r = h ∧ o = off + zlen (body rs1).
Proof.
  revert off. induction rs as [|r rs IH]; intros off; simpl; [by intros ?%elem_of_nil|].
  intros [Heq|Hin]%elem_of_cons.
  - simplify_eq. exists [], r, rs. split_and!; [done|done|]. change (zlen (body [])) with 0. lia.
  - destruct (IH _ Hin) as (rs1 & r' & rs2 & -> & Hh & ->). exists (r :: rs1), r', rs2.
    split_and!; [done|done|]. rewrite body_cons, zlen_app. lia.
Qed.

Lemma read_back_ok h hdr rs post off hash s :
  calm s → header_ok hdr → content s (h_ino h) = hdr ++ body rs ++ post →
  Forall page_ok rs → (off, hash) ∈ locs PACK_HEADER_SIZE rs →
  ∃ r, r ∈ rs ∧ rr_hash r = hash ∧ read_at_from_file h off hash s = (Ok (rr_payload r), s).
Proof.
  intros Hs [Hh _] Hc Hok Hin. destruct (locs_split _ _ _ _ Hin) as (rs1 & r & rs2 & -> & <- & ->).
  apply Forall_app in Hok as [_ [Hr _]%Forall_cons]. pose proof (page_ok_shape r Hr) as Hsh.
  destruct Hr as [Hpl Hhash]. pose proof (zlen_encode_rrec r Hsh) as Hl.
  pose proof (zlen_nonneg (body rs1)). pose proof (zlen_nonneg (body rs2)). pose proof (zlen_nonneg post).
  rewrite body_app, body_cons in Hc.
  assert (content s (h_ino h) = (hdr ++ body rs1) ++ encode_rrec r ++ body rs2 ++ post) as Hc'
    by (rewrite Hc, <-!app_assoc; done).
  pose proof (rec_header_fields r (body rs2 ++ post) Hsh) as (A1 & _ & A3 & A4).
  unfold read_at_from_file, RECORD_HEADER_SIZE, PAGE_SIZE in *.
  replace (PACK_HEADER_SIZE + zlen (body rs1)) with (zlen (hdr ++ body rs1) + 0) by (rewrite zlen_app; lia).
  erewrite ibind_step by (apply imap_step, read_at_pre; [done|exact Hc'|lia|rewrite !zlen_app; lia]).
  cbv zeta. set (rec := sub 0 (0 + _) _).
  assert (zlen rec = 4133) as Hrec by (subst rec; rewrite zlen_sub; rewrite ?zlen_app; lia).
  assert (sub 0 32 rec = rr_hash r) as ->.
  { subst rec. rewrite sub_sub by lia. rewrite sub_sub in A1 by lia. exact A1. }
  assert (from_le (sub 33 37 rec) = 4096) as ->.
  { subst rec. rewrite sub_sub by lia. rewrite sub_sub in A3 by lia. rewrite <-Hpl. exact A3. }
  assert (sub (32 + 1 + 4) (zlen rec) rec = rr_payload r) as ->.
  { rewrite Hrec. subst rec. rewrite sub_sub by lia. rewrite Hpl in A4. exact A4. }
  rewrite Hhash, !bool_decide_eq_true_2 by done. exists r. split_and!; [set_solver|done|done].
Qed.

(** Whatever the file holds and whatever faults occur, an [Ok] read is the
    page that was asked for. *)
Lemma read_sound h off hash s payload s' :
  read_at_from_file h off hash s = (Ok payload, s') →
  blake3 payload = hash ∧ zlen payload = PAGE_SIZE.
Proof.
  unfold read_at_from_file. rewrite ibind_Ok. intros (rec & s1 & Hr & Hk).
  apply imap_err_Ok, read_exact_at_Ok in Hr as (Ho & Hlen & Hrec).
  unfold RECORD_HEADER_SIZE, PAGE_SIZE in *.
  assert (zlen rec = 4133) as Hl by (subst rec; rewrite zlen_sub; lia).
  destruct (_ =? _) eqn:Hn; simpl in Hk; [|done].
  destruct (bool_decide (sub 0 32 rec = hash)) eqn:Hh1; simpl in Hk; [|done].
  destruct (bool_decide (blake3 _ = sub 0 32 rec)) eqn:Hh2; simpl in Hk; [|done].
  b2p. injection Hk as <- _. split; [congruence|]. rewrite Hl, zlen_sub; lia.
Qed.

(** ** Recovery of an unsealed pack *)

Lemma open_unsealed_ok p i hdr tail id s :
  calm s → fs_dir s !! p = Some i → content s i = hdr ++ tail → header_ok hdr →
  is_Some (fs_files s !! i) →
  ∃ r rs junk, tail = body rs ++ junk ∧ Forall good_rec rs ∧ no_good_prefix junk ∧
    open_unsealed p id s = (Ok (r, zlen rs), set_content i (hdr ++ body rs) s) ∧
    r_body_end r = Some (zlen (hdr ++ body rs)) ∧ h_ino (r_file r) = i.
Proof.
  intros Hs Hp Hc [Hh Hm] [f Hf]. unfold open_unsealed.
  erewrite ibind_step by (apply imap_step; unfold open_existing; rewrite syscall_calm, Hp by done; reflexivity).
  pose proof (zlen_nonneg tail). unfold PACK_HEADER_SIZE in Hh.
  erewrite ibind_step by (apply imap_step, read_exact_calm; cbn [h_ino h_pos]; [done|lia|rewrite Hc, zlen_app; lia]).
  cbn [h_ino h_pos]. cbv beta iota. replace (sub _ _ (content s i)) with PACK_MAGIC
    by (rewrite Hc, sub_app_l by lia; by rewrite <-Hm).
  rewrite bool_decide_eq_true_2 by done. cbn [negb].
  erewrite ibind_step by (apply imap_step; unfold file_len; rewrite syscall_calm by done; reflexivity).
  erewrite ibind_step by (apply imap_step; unfold seek_start; rewrite syscall_calm by done; reflexivity).
  cbn [h_ino]. rewrite Hc. unfold PACK_HEADER_SIZE. rewrite <-Hh.
  destruct (unsealed_loop_spec (S (Z.to_nat (zlen (hdr ++ tail)))) (mk_handle i (zlen hdr)) hdr tail 0 s)
    as (rs & junk & Ht & Hg & Hno & Hloop); [done|done|done|unfold zlen; rewrite length_app; lia|].
  erewrite ibind_step by exact Hloop. cbv beta iota zeta.
  assert ((match (if decide (junk = []) then None else Some (zlen (hdr ++ body rs))) with
    | Some trunc => imap_err PIo (set_len (mk_handle i (zlen hdr)) trunc)
    | None => iret tt end) s = (Ok tt, set_content i (hdr ++ body rs) s)) as Htr.
  { destruct (decide (junk = [])) as [->|Hne].
    - rewrite app_nil_r in Ht. rewrite <-Ht, <-Hc, (set_content_id _ _ f Hf). done.
    - apply imap_step. unfold set_len. rewrite syscall_calm by done. cbn [h_ino]. rewrite Hc, Ht.
      rewrite app_assoc. unfold zlen. rewrite Nat2Z.id, take_app_length.
      replace (_ - _)%nat with 0%nat by (rewrite (length_app _ junk); lia). by rewrite app_nil_r. }
  erewrite ibind_step by exact Htr.
  erewrite ibind_step by (apply imap_step; unfold open_existing; rewrite syscall_calm by done; simpl; rewrite Hp; reflexivity).
  rewrite Z.add_0_l. eexists _, rs, junk. split_and!; [done..|reflexivity| |reflexivity].
  simpl. by destruct (decide (junk = [])).
Qed.

Lemma reopen_ok p i hdr rs id s :
  calm s → fs_dir s !! p = Some i → content s i = hdr ++ body rs → header_ok hdr →
  is_Some (fs_files s !! i) → Forall good_rec rs →
  ∃ w, reopen p id s = (Ok w, s) ∧ writer_ok w hdr rs s ∧ w_max w = PACK_MAX_BYTES ∧
    w_buf w = [] ∧ w_pack_id w = id ∧ h_ino (w_file w) = i.
Proof.
  intros Hs Hp Hc [Hh Hm] Hf Hg. unfold reopen.
  erewrite ibind_step by (apply imap_step; unfold open_existing; rewrite syscall_calm, Hp by done; reflexivity).
  pose proof (zlen_nonneg (body rs)). unfold PACK_HEADER_SIZE in Hh.
  erewrite ibind_step by (apply imap_step, read_exact_at_calm; cbn [h_ino]; [done|lia|rewrite Hc, zlen_app; lia]).
  cbn [h_ino]. replace (sub _ _ (content s i)) with PACK_MAGIC
    by (rewrite Hc, sub_app_l by lia; by rewrite <-Hm).
  rewrite bool_decide_eq_true_2 by done. cbn [negb].
  erewrite ibind_step by (apply imap_step; unfold file_len; rewrite syscall_calm by done; reflexivity).
  cbn [h_ino]. rewrite Hc. unfold PACK_HEADER_SIZE. rewrite <-Hh.
  assert (Forall rec_shape rs) as Hsh by (eapply Forall_impl; [exact Hg|intros ?; apply good_shape]).
  erewrite ibind_step.
  2: { apply (reopen_loop_spec _ _ hdr rs); [done|done| |].
       - eapply Forall_impl; [exact Hg|]. intros r Hr. split; [by apply good_shape|apply Hr].
       - pose proof (length_body_ge rs Hsh). unfold zlen. rewrite Nat2Z.id, length_app. lia. }
  cbv beta iota.
  erewrite ibind_step by (apply imap_step; unfold open_existing; rewrite syscall_calm, Hp by done; reflexivity).
  erewrite ibind_step by (apply imap_step; unfold seek_start; rewrite syscall_calm by done; reflexivity).
  eexists. split; [reflexivity|]. split_and!; [|done..]. split; simpl; try done.
  - by rewrite Hc, app_nil_r.
  - by rewrite Hc.
Qed.
End recovery.

Section pack_theorems.
Context `{Blake3}.

(** Appending to an unsealed pack: a page that would cross the cap is
    refused and nothing changes; otherwise the call returns the offset at
    which the record starts, and the pack holds the old records followed by
    the new one (in the file or still in the buffer), also when the append
    flushed. *)
Theorem append_spec w hdr rs s hash payload :
  writer_ok w hdr rs s → calm s → zlen hash = 32 → zlen payload = PAGE_SIZE →
  if would_exceed_cap w then append hash payload (w, s) = (Err Full, (w, s))
  else ∃ off w' s', append hash payload (w, s) = (Ok off, (w', s')) ∧
    writer_ok w' hdr (rs ++ [page_rec hash payload]) s' ∧
    locs PACK_HEADER_SIZE (rs ++ [page_rec hash payload])
      = locs PACK_HEADER_SIZE rs ++ [(off, hash)] ∧
    off + (RECORD_HEADER_SIZE + PAGE_SIZE) ≤ w_max w.
Proof.
  intros Hw Hs Hh Hp. destruct (would_exceed_cap w) eqn:Hcap.
  - unfold append. by rewrite (wo_open _ _ _ _ Hw), Hcap.
  - destruct (append_ok w hdr rs s hash payload) as (w' & c & Ha & Hw' & _); [done..|].
    eexists _, w', _. split_and!; [exact Ha|exact Hw'| |].
    + rewrite locs_app. do 3 f_equal. rewrite zlen_app, (proj1 (wo_hdr _ _ _ _ Hw)). done.
    + unfold would_exceed_cap in Hcap. b2p. rewrite (wo_offset _ _ _ _ Hw) in Hcap. lia.
Qed.

(** A pack written by any sequence of appends and sealed is recognised
    as sealed, and scanning it lists exactly the appended records, in
    order, at the offsets the appends returned. *)
Theorem seal_open_scan w hdr rs s p id :
  writer_ok w hdr rs s → calm s → fs_dir s !! p = Some (h_ino (w_file w)) → zlen rs < 2 ^ 64 →
  ∃ w' s' r, seal_no_sync (w, s) = (Ok tt, (w', s')) ∧ open p id s' = (Ok r, s') ∧
    scan r s' = (Ok (locs PACK_HEADER_SIZE rs), s').
Proof.
  intros Hw Hs Hp Hn. destruct (seal_no_sync_ok w hdr rs s Hw Hs) as (w' & Hseal & _).
  destruct (open_sealed_ok p (h_ino (w_file w)) hdr rs id
    (set_content (h_ino (w_file w)) (sealed_bytes hdr rs) s)) as (r & Ho & Hsc & _);
    [done|done|apply content_set_content|apply Hw|apply Hw|done|].
  by eexists _, _, r.
Qed.

(** The durable seal used for compaction output returns [Ok] only with
    the whole sealed image (records and footer) on stable storage. *)
Theorem seal_durable w hdr rs s :
  writer_ok w hdr rs s → calm s →
  ∃ w' s', seal (w, s) = (Ok tt, (w', s')) ∧
    durable s' (h_ino (w_file w)) = sealed_bytes hdr rs ∧
    content s' (h_ino (w_file w)) = sealed_bytes hdr rs.
Proof.
  intros Hw Hs. destruct (seal_ok w hdr rs s Hw Hs) as (w' & s' & Hseal & _ & Hc & Hsy & _).
  exists w', s'. split; [done|]. split; [|done]. by rewrite Hsy.
Qed.

(** C31. Crash recovery of a pack.  Let the file start with valid records
    [rs] (in particular, everything that was on stable storage) followed by
    an arbitrary tail.  Opening it as an unsealed pack succeeds, keeps a
    list of valid records that extends [rs], cuts everything after them,
    and lists exactly them; opening again changes nothing; and the reopened
    writer continues after the last of them. *)
Theorem unsealed_recovery p i hdr rs tail id s :
  calm s → fs_dir s !! p = Some i → header_ok hdr → is_Some (fs_files s !! i) →
  Forall good_rec rs → content s i = hdr ++ body rs ++ tail →
  ∃ r rs' s', rs `prefix_of` rs' ∧ Forall good_rec rs' ∧
    open_unsealed p id s = (Ok (r, zlen rs'), s') ∧ content s' i = hdr ++ body rs' ∧
    scan r s' = (Ok (locs PACK_HEADER_SIZE rs'), s') ∧
    (∃ r2, open_unsealed p id s' = (Ok (r2, zlen rs'), s')) ∧
    (∃ w, reopen p id s' = (Ok w, s') ∧ writer_ok w hdr rs' s').
Proof.
  intros Hs Hp Hh Hf Hg Hc.
  destruct (open_unsealed_ok p i hdr (body rs ++ tail) id s) as (r & rs' & junk & Ht & Hg' & Hno & Ho & Hb & Hi);
    [done..|].
  set (s' := set_content i (hdr ++ body rs') s) in *.
  assert (content s' i = hdr ++ body rs') as Hc' by apply content_set_content.
  assert (is_Some (fs_files s' !! i)) as Hf' by (unfold s', set_content; simpl; rewrite lookup_insert_eq; by eexists).
  assert (Forall rec_shape rs') as Hsh by (eapply Forall_impl; [exact Hg'|intros ?; apply good_shape]).
  exists r, rs', s'. split_and!; [by eapply recovered_prefix|done|exact Ho|done| | |].
  - apply (scan_ok r hdr rs' []); [done|done| |done|done]. by rewrite Hi, Hc', app_nil_r.
  - destruct (open_unsealed_ok p i hdr (body rs') id s') as (r2 & rs2 & junk2 & Ht2 & Hg2 & Hno2 & Ho2 & _);
      [done..|].
    assert (rs2 = rs' ∧ junk2 = []) as [-> ->].
    { assert (rs' `prefix_of` rs2) as [k ->].
      { apply (recovered_prefix rs' rs2 [] junk2); [done..|]. by rewrite app_nil_r. }
      rewrite body_app, <-app_assoc in Ht2. rewrite <-(app_nil_r (body rs')) in Ht2 at 1.
      apply app_inv_head in Ht2. destruct k as [|x k]; [by rewrite app_nil_r|].
      exfalso. rewrite body_cons in Ht2. apply (f_equal zlen) in Ht2. rewrite !zlen_app in Ht2.
      apply Forall_app in Hg2 as [_ [Hx _]%Forall_cons]. apply good_shape, zlen_encode_rrec in Hx.
      unfold RECORD_HEADER_SIZE in Hx. rewrite zlen_nil in Ht2.
      pose proof (zlen_nonneg (rr_payload x)). pose proof (zlen_nonneg (body k)).
      pose proof (zlen_nonneg junk2). lia. }
    exists r2. rewrite Ho2. subst s'. by rewrite set_content_twice.
  - destruct (reopen_ok p i hdr rs' id s') as (w & Hr & Hw & _); [done..|]. by exists w.
Qed.

(** Whatever bytes a pack file holds, whatever offset is used and
    whatever faults occur, a read that returns [Ok] returns a 4096-byte
    page whose BLAKE3 is the hash that was asked for. *)
Theorem read_returns_requested_page h off hash s payload s' :
  read_at_from_file h off hash s = (Ok payload, s') →
  blake3 payload = hash ∧ zlen payload = PAGE_SIZE.
Proof. apply read_sound. Qed.

(** A flush that fails after [k] bytes leaves the cursor advanced and
    the buffer intact, so the next flush, which reports success, writes the
    buffer again behind the partial copy: every buffered record ends up
    [k] bytes after the offset its append returned. *)
Theorem flush_retry_displaces w hdr rs s k :
  writer_ok w hdr rs s → w_buf w ≠ [] → fs_faults s = [Some k] →
  ∃ w1 s1 w2 s2, flush_buf (w, s) = (Err (PIo EOther), (w1, s1)) ∧
    flush_buf (w1, s1) = (Ok tt, (w2, s2)) ∧
    content s2 (h_ino (w_file w)) =
      content s (h_ino (w_file w)) ++ take k (w_buf w) ++ w_buf w.
Proof.
  intros Hw Hb Hf. unfold flush_buf at 1. rewrite bool_decide_eq_false_2 by done.
  unfold write_all, tick. rewrite Hf. simpl. do 4 eexists. split; [reflexivity|].
  unfold flush_buf. cbn [w_buf w_file]. rewrite bool_decide_eq_false_2 by done.
  rewrite write_all_calm by done. split; [reflexivity|]. simpl.
  rewrite !content_set_content, (wo_pos _ _ _ _ Hw). change (content (set_faults [] s)) with (content s).
  rewrite write_bytes_end, <-zlen_app, write_bytes_end. by rewrite <-app_assoc.
Qed.
End pack_theorems.

(** ** Concrete instances *)
Section examples.
#[local] Existing Instance toy_blake3.

Definition ex_page : bytes := zeros 4096.
Definition ex_rec : rrec := page_rec (blake3 ex_page) ex_page.
Definition ex_hdr : bytes := pack_header 0 1700000000.

(** A pack with one record still in the writer's buffer. *)
Definition ex_fs (data : bytes) (faults : list (option nat)) : fs :=
  mk_fs {["p" := 0%N]} ∅ {[0%N := mk_file data []]} 1%N faults.
Definition ex_writer : PackWriter :=
  mk_writer (mk_handle 0%N (zlen ex_hdr)) 0 (body [ex_rec]) (body [ex_rec])
    (zlen (ex_hdr ++ body [ex_rec])) 1 false PACK_MAX_BYTES.

Lemma zlen_ex_page : zlen ex_page = PAGE_SIZE.
Proof. apply zlen_zeros. Qed.

Lemma ex_hdr_ok : header_ok ex_hdr.
Proof. apply header_ok_pack. Qed.

#[local] Opaque ex_page ex_hdr body blake3.

Lemma ex_content d fl : content (ex_fs d fl) 0%N = d.
Proof. done. Qed.

Lemma ex_writer_ok fl : writer_ok ex_writer ex_hdr [ex_rec] (ex_fs ex_hdr fl).
Proof.
  split; cbn [ex_writer w_file w_buf w_hashed w_offset w_count w_sealed h_ino h_pos]; try done.
  constructor; [|done]. apply good_shape, good_page, zlen_ex_page.
Qed.

Lemma append_spec_witness :
  ∃ off w' s', append (blake3 ex_page) ex_page (ex_writer, ex_fs ex_hdr []) = (Ok off, (w', s')) ∧
    writer_ok w' ex_hdr ([ex_rec] ++ [page_rec (blake3 ex_page) ex_page]) s'.
Proof.
  destruct (append_spec ex_writer ex_hdr [ex_rec] (ex_fs ex_hdr []) (blake3 ex_page) ex_page
    (ex_writer_ok []) eq_refl (zlen_blake3 _) zlen_ex_page) as (off & w' & s' & Ha & Hw & _).
  exists off, w', s'. split; [exact Ha|exact Hw].
Defined.

Lemma seal_open_scan_witness :
  ∃ w' s' r, seal_no_sync (ex_writer, ex_fs ex_hdr []) = (Ok tt, (w', s')) ∧ open "p" 0 s' = (Ok r, s') ∧
    scan r s' = (Ok [(20, blake3 ex_page)], s').
Proof.
  apply (seal_open_scan ex_writer ex_hdr [ex_rec] (ex_fs ex_hdr []) "p" 0);
    [apply ex_writer_ok|reflexivity|reflexivity|reflexivity].
Defined.

Lemma seal_durable_witness :
  ∃ w' s', seal (ex_writer, ex_fs ex_hdr []) = (Ok tt, (w', s')) ∧
    durable s' 0%N = sealed_bytes ex_hdr [ex_rec].
Proof.
  destruct (seal_durable ex_writer ex_hdr [ex_rec] (ex_fs ex_hdr []))
    as (w' & s' & Hs & Hd & _); [apply ex_writer_ok|reflexivity|]. exists w', s'. split; [exact Hs|exact Hd].
Defined.

Lemma unsealed_recovery_witness :
  let s := ex_fs (ex_hdr ++ body [ex_rec] ++ [Byte.x01; Byte.x02]) [] in
  ∃ r rs' s', [ex_rec] `prefix_of` rs' ∧ open_unsealed "p" 0 s = (Ok (r, zlen rs'), s').
Proof.
  intros s. destruct (unsealed_recovery "p" 0%N ex_hdr [ex_rec] [Byte.x01; Byte.x02] 0 s)
    as (r & rs' & s' & Hp & _ & Ho & _).
  - reflexivity.
  - reflexivity.
  - exact ex_hdr_ok.
  - by eexists.
  - constructor; [|done]. apply good_page, zlen_ex_page.
  - reflexivity.
  - exists r, rs', s'. split; [exact Hp|exact Ho].
Defined.

Lemma read_returns_requested_page_witness :
  ∃ payload s', read_at_from_file (mk_handle 0%N 0) 20 (blake3 ex_page) (ex_fs (ex_hdr ++ body [ex_rec]) []) =
      (Ok payload, s') ∧ blake3 payload = blake3 ex_page.
Proof.
  destruct (read_back_ok (mk_handle 0%N 0) ex_hdr [ex_rec] [] 20 (blake3 ex_page)
    (ex_fs (ex_hdr ++ body [ex_rec]) [])) as (r & _ & _ & Hr).
  - reflexivity.
  - exact ex_hdr_ok.
  - rewrite app_nil_r. reflexivity.
  - constructor; [|done]. split; [apply zlen_ex_page|done].
  - by left.
  - do 2 eexists. split; [exact Hr|]. by apply (read_returns_requested_page _ _ _ _ _ _ Hr).
Defined.

Lemma flush_retry_displaces_witness :
  ∃ w1 s1 w2 s2, flush_buf (ex_writer, ex_fs ex_hdr [Some 10%nat]) = (Err (PIo EOther), (w1, s1)) ∧
    flush_buf (w1, s1) = (Ok tt, (w2, s2)) ∧
    content s2 0%N = ex_hdr ++ take 10 (body [ex_rec]) ++ body [ex_rec].
Proof.
  apply (flush_retry_displaces ex_writer ex_hdr [ex_rec] (ex_fs ex_hdr [Some 10%nat]) 10);
    [apply ex_writer_ok|discriminate|reflexivity].
Defined.
End examples.
