(* ===== verification/Index.v ===== *)
(** * The page index and its sidecars (crates/snapstore-pagestore/src/index.rs)

    [ShardedIndex] is 256 maps selected by the first hash byte.  The locks
    are not modelled: each operation takes one shard lock (or scans shards
    one at a time) and is modelled as one atomic step. *)

From S2P Require Import Prelude Types Fs Pack.

Definition SHARD_COUNT : nat := 256.

Inductive IndexError :=
  | IIo (e : io_error)
  | BadCrc
  | SidecarTruncated
  | IPack (e : PackError).

Abbreviation ShardedIndex := (list (gmap PageHash PageLoc)).

Definition index_new : ShardedIndex := replicate SHARD_COUNT ∅.

Definition shard_for (h : PageHash) : nat :=
  match h with [] => 0%nat | b :: _ => Z.to_nat (byte.unsigned b) end.

Definition shard (idx : ShardedIndex) (i : nat) : gmap PageHash PageLoc := default ∅ (idx !! i).

Definition index_get (idx : ShardedIndex) (h : PageHash) : option PageLoc :=
  shard idx (shard_for h) !! h.

(** [guard.entry(hash).or_insert(loc)]. *)
Definition or_insert (m : gmap PageHash PageLoc) (h : PageHash) (l : PageLoc) :=
  match m !! h with Some _ => m | None => <[h := l]> m end.

Definition index_insert (idx : ShardedIndex) (h : PageHash) (l : PageLoc) : ShardedIndex :=
  let i := shard_for h in <[i := or_insert (shard idx i) h l]> idx.

Definition repoint_if_in_pack (idx : ShardedIndex) (h : PageHash) (expected : PackId)
    (new_loc : PageLoc) : bool * ShardedIndex :=
  let i := shard_for h in
  match shard idx i !! h with
  | Some l =>
      if pack l =? expected then (true, <[i := <[h := new_loc]> (shard idx i)]> idx)
      else (false, idx)
  | None => (false, idx)
  end.

Definition remove_if_in_pack (idx : ShardedIndex) (h : PageHash) (expected : PackId)
    : bool * ShardedIndex :=
  let i := shard_for h in
  match shard idx i !! h with
  | Some l =>
      if pack l =? expected then (true, <[i := delete h (shard idx i)]> idx) else (false, idx)
  | None => (false, idx)
  end.

(** Every shard in turn; a map is iterated in an unspecified order. *)
Definition entries_for_pack (idx : ShardedIndex) (p : PackId) : list (PageHash * PageLoc) :=
  concat ((λ m, filter (λ e, pack e.2 = p) (map_to_list m)) <$> idx).

(** Group by shard, then fill each shard under its lock. *)
Definition bucket (i : nat) (es : list (PageHash * PageLoc)) : list (PageHash * PageLoc) :=
  filter (λ e, shard_for e.1 = i) es.

Definition fill_shard (m : gmap PageHash PageLoc) (es : list (PageHash * PageLoc)) :=
  fold_left (λ m e, or_insert m e.1 e.2) es m.

Definition insert_batch (idx : ShardedIndex) (es : list (PageHash * PageLoc)) : ShardedIndex :=
  let buckets := (λ i, bucket i es) <$> seq 0 SHARD_COUNT in
  fold_left (λ idx ib, if bool_decide (ib.2 = []) then idx
                       else <[ib.1 := fill_shard (shard idx ib.1) ib.2]> idx)
    (imap pair buckets) idx.

Definition index_len (idx : ShardedIndex) : nat := sum_list (size <$> idx).

(** ** Sidecar files *)

Definition SIDECAR_ENTRY_SIZE : Z := 44.

(** [a.as_bytes().cmp(b.as_bytes())]: lexicographic, shorter first. *)
Fixpoint bytes_leb (a b : bytes) : bool :=
  match a, b with
  | [], _ => true
  | _ :: _, [] => false
  | x :: a', y :: b' =>
      if byte.unsigned x <? byte.unsigned y then true
      else if byte.unsigned y <? byte.unsigned x then false
      else bytes_leb a' b'
  end.

Definition sort_entries (es : list (PageHash * PageLoc)) : list (PageHash * PageLoc) :=
  stable_sort (λ a b, bytes_leb a.1 b.1) es.

Definition encode_entry (e : PageHash * PageLoc) : bytes :=
  e.1 ++ to_le 4 (pack e.2) ++ to_le 8 (offset e.2).

Definition encode_sidecar `{Crc32} (es : list (PageHash * PageLoc)) : bytes :=
  let es := sort_entries es in
  let buf := to_le 4 (zlen es mod 2 ^ 32) ++ concat (encode_entry <$> es) in
  buf ++ to_le 4 (crc32 buf).

Fixpoint parse_sidecar_entries (d : bytes) (base : Z) (n : nat)
    : res IndexError (list (PageHash * PageLoc)) :=
  match n with
  | O => Ok []
  | S n' =>
      let? h := slice base (base + 32) d in
      let? p := slice (base + 32) (base + 36) d in
      let? o := slice (base + 36) (base + 44) d in
      let? rest := parse_sidecar_entries d (base + SIDECAR_ENTRY_SIZE) n' in
      Ok ((h, mk_loc (from_le p) (from_le o)) :: rest)
  end.

(** The parsing half of [load_sidecar]. *)
Definition decode_sidecar `{Crc32} (data : bytes) : res IndexError (list (PageHash * PageLoc)) :=
  bail_if zlen data <? 8 with SidecarTruncated in
  let? payload := slice 0 (zlen data - 4) data in
  let? crc_bytes := slice (zlen data - 4) (zlen data) data in
  bail_if negb (from_le crc_bytes =? crc32 payload) with BadCrc in
  bail_if zlen payload <? 4 with SidecarTruncated in
  let? b := slice 0 4 payload in let entry_count := from_le b in
  let? entries_bytes := slice 4 (zlen payload) payload in
  bail_if zlen entries_bytes <? entry_count * SIDECAR_ENTRY_SIZE with SidecarTruncated in
  parse_sidecar_entries entries_bytes 0 (Z.to_nat entry_count).

Definition load_sidecar `{Crc32} (path : string) (idx : ShardedIndex)
    : M fs IndexError (Z * ShardedIndex) :=
  let! data := imap_err IIo (read_file path) in
  let! batch := iof (decode_sidecar data) in
  iret (zlen batch, insert_batch idx batch).

(** [path.with_extension("idx.tmp")] of a path that ends in [.idx]. *)
Definition sidecar_tmp (path : string) : string := (path +:+ ".tmp")%string.

Definition write_sidecar_entries `{Crc32} (path : string) (es : list (PageHash * PageLoc))
    : M fs IndexError unit :=
  let buf := encode_sidecar es in
  let tmp_path := sidecar_tmp path in
  let! file := imap_err IIo (open_truncate tmp_path) in
  imap_err IIo (write_all_ file buf) ;!
  imap_err IIo (sync_data file) ;!
  imap_err IIo (rename tmp_path path).

Definition write_sidecar `{Crc32} (idx : ShardedIndex) (path : string) (p : PackId)
    : M fs IndexError unit :=
  write_sidecar_entries path (entries_for_pack idx p).

Definition records_to_entries (p : PackId) (rs : list (Z * PageHash)) : list (PageHash * PageLoc) :=
  (λ '(o, h), (h, mk_loc p o)) <$> rs.

Definition rebuild_from_pack `{Blake3} (path : string) (p : PackId) (is_sealed : bool)
    : M fs IndexError (list (PageHash * PageLoc)) :=
  let! records :=
    imap_err IPack
      (if is_sealed then let! reader := open path p in scan reader
       else let! ' (reader, _) := open_unsealed path p in scan reader) in
  iret (records_to_entries p records).

(** ** The index is one map *)

(** Every shard holds only its own hashes. *)
Definition index_ok (idx : ShardedIndex) : Prop :=
  length idx = SHARD_COUNT ∧
  ∀ i m h, idx !! i = Some m → is_Some (m !! h) → shard_for h = i.

Definition flat (idx : ShardedIndex) : gmap PageHash PageLoc := foldr (∪) ∅ idx.

Lemma shard_for_lt h : (shard_for h < SHARD_COUNT)%nat.
Proof.
  destruct h as [|b h]; simpl; [unfold SHARD_COUNT; lia|].
  pose proof (byte.unsigned_range b). unfold SHARD_COUNT. lia.
Qed.

Lemma union_lookup (l : ShardedIndex) h j :
  (∀ i m, l !! i = Some m → i ≠ j → m !! h = None) →
  foldr (∪) ∅ l !! h = shard l j !! h.
Proof.
  revert j. induction l as [|m l IH]; intros j Hl; simpl; [done|].
  rewrite lookup_union. destruct j as [|j].
  - assert (foldr (∪) ∅ l !! h = None) as ->.
    { rewrite (IH (length l)).
      - unfold shard. by rewrite (lookup_ge_None_2 l (length l)) by lia.
      - intros i m' Hi Hne. by apply (Hl (S i)). }
    unfold shard. simpl. by destruct (m !! h).
  - rewrite (Hl 0%nat m eq_refl) by done. rewrite (IH j).
    + unfold shard. simpl. by destruct (default ∅ (l !! j) !! h).
    + intros i m' Hi Hne. apply (Hl (S i)); [done|lia].
Qed.

Lemma flat_lookup idx h : index_ok idx → flat idx !! h = index_get idx h.
Proof.
  intros [_ Hok]. apply union_lookup. intros i m Hi Hne.
  apply eq_None_not_Some. intros Hs. by specialize (Hok i m h Hi Hs).
Qed.

Lemma shard_lookup idx i : index_ok idx → (i < SHARD_COUNT)%nat → idx !! i = Some (shard idx i).
Proof.
  intros [Hl _] Hi. unfold shard. destruct (lookup_lt_is_Some_2 idx i) as [m ->]; [lia|done].
Qed.

(** Updating one shard with a map that holds only its hashes. *)
Lemma index_ok_update idx i m :
  index_ok idx → (∀ h, is_Some (m !! h) → shard_for h = i) → index_ok (<[i := m]> idx).
Proof.
  intros [Hl Hok] Hm. split; [by rewrite length_insert|].
  intros j m' h Hj Hs. destruct (decide (i = j)) as [->|Hne].
  - destruct (decide (j < length idx)%nat).
    + rewrite list_lookup_insert_eq in Hj by done. simplify_eq. by apply Hm.
    + rewrite list_insert_ge in Hj by lia. by eapply Hok.
  - rewrite list_lookup_insert_ne in Hj by done. by eapply Hok.
Qed.

Lemma get_update idx i m h :
  index_ok idx → (i < SHARD_COUNT)%nat →
  index_get (<[i := m]> idx) h = if decide (shard_for h = i) then m !! h else index_get idx h.
Proof.
  intros [Hl _] Hi. unfold index_get, shard. destruct (decide (shard_for h = i)) as [->|Hne].
  - by rewrite list_lookup_insert_eq by lia.
  - by rewrite list_lookup_insert_ne.
Qed.

Lemma shard_keys idx i h : index_ok idx → is_Some (shard idx i !! h) → shard_for h = i.
Proof.
  intros [_ Hok] Hs. unfold shard in Hs. destruct (idx !! i) as [m|] eqn:Hi; simpl in Hs.
  - by eapply Hok.
  - rewrite lookup_empty in Hs. by destruct Hs.
Qed.

Lemma or_insert_lookup m h l h' :
  or_insert m h l !! h' = if decide (h = h') then Some (default l (m !! h)) else m !! h'.
Proof.
  unfold or_insert. destruct (m !! h) as [x|] eqn:Hm; case_decide; subst; simpl.
  - done.
  - done.
  - by rewrite lookup_insert_eq.
  - by rewrite lookup_insert_ne.
Qed.

Lemma index_ok_new : index_ok index_new.
Proof.
  split; [apply length_replicate|]. intros i m h [-> _]%lookup_replicate. rewrite lookup_empty.
  by intros [].
Qed.

Lemma index_insert_refines idx h l :
  index_ok idx →
  index_ok (index_insert idx h l) ∧ flat (index_insert idx h l) = or_insert (flat idx) h l.
Proof.
  intros Hok. assert (index_ok (index_insert idx h l)) as Hok'.
  { apply index_ok_update; [done|]. intros h'. rewrite or_insert_lookup. case_decide; [by subst|].
    by apply shard_keys. }
  split; [done|]. apply map_eq. intros h'.
  rewrite flat_lookup, or_insert_lookup, !flat_lookup by done. unfold index_insert.
  rewrite get_update by (done || apply shard_for_lt). rewrite or_insert_lookup.
  destruct (decide (shard_for h' = shard_for h)) as [Hs|Hs]; case_decide; subst; try done.
  unfold index_get. by rewrite Hs.
Qed.

(** Whether a hash is mapped into a given pack. *)
Definition in_pack (m : gmap PageHash PageLoc) (h : PageHash) (p : PackId) : bool :=
  match m !! h with Some l => pack l =? p | None => false end.

Lemma repoint_refines idx h p l :
  index_ok idx →
  let '(hit, idx') := repoint_if_in_pack idx h p l in
  hit = in_pack (flat idx) h p ∧ index_ok idx' ∧
  flat idx' = if hit then <[h := l]> (flat idx) else flat idx.
Proof.
  intros Hok. unfold repoint_if_in_pack, in_pack. rewrite flat_lookup by done. unfold index_get.
  destruct (shard idx (shard_for h) !! h) as [l0|] eqn:Hl; [|done].
  destruct (pack l0 =? p); [|done]. split; [done|]. set (idx' := <[_ := _]> idx).
  assert (index_ok idx') as Hok'.
  { apply index_ok_update; [done|]. intros h' Hs. destruct (decide (h = h')) as [->|]; [done|].
    rewrite lookup_insert_ne in Hs by done. by eapply shard_keys. }
  split; [done|]. apply map_eq. intros h'. rewrite flat_lookup by done. unfold idx'.
  rewrite get_update by (done || apply shard_for_lt).
  destruct (decide (h = h')) as [->|Hne].
  - by rewrite decide_True, !lookup_insert_eq by done.
  - rewrite !lookup_insert_ne, flat_lookup by done. case_decide as Hs; [|done].
    unfold index_get. by rewrite Hs.
Qed.

Lemma remove_refines idx h p :
  index_ok idx →
  let '(hit, idx') := remove_if_in_pack idx h p in
  hit = in_pack (flat idx) h p ∧ index_ok idx' ∧
  flat idx' = if hit then delete h (flat idx) else flat idx.
Proof.
  intros Hok. unfold remove_if_in_pack, in_pack. rewrite flat_lookup by done. unfold index_get.
  destruct (shard idx (shard_for h) !! h) as [l0|] eqn:Hl; [|done].
  destruct (pack l0 =? p); [|done]. split; [done|]. set (idx' := <[_ := _]> idx).
  assert (index_ok idx') as Hok'.
  { apply index_ok_update; [done|]. intros h' Hs. destruct (decide (h = h')) as [->|]; [done|].
    rewrite lookup_delete_ne in Hs by done. by eapply shard_keys. }
  split; [done|]. apply map_eq. intros h'. rewrite flat_lookup by done. unfold idx'.
  rewrite get_update by (done || apply shard_for_lt).
  destruct (decide (h = h')) as [->|Hne].
  - by rewrite decide_True, !lookup_delete_eq by done.
  - rewrite !lookup_delete_ne, flat_lookup by done. case_decide as Hs; [|done].
    unfold index_get. by rewrite Hs.
Qed.

(** ** [insert_batch] is repeated [insert] *)

Lemma fill_shard_keys m es i :
  (∀ h, is_Some (m !! h) → shard_for h = i) → Forall (λ e, shard_for e.1 = i) es →
  ∀ h, is_Some (fill_shard m es !! h) → shard_for h = i.
Proof.
  intros Hm Hes. revert m Hm. induction Hes as [|e es He _ IH]; intros m Hm; [done|].
  apply IH. intros h. rewrite or_insert_lookup. case_decide; [by subst|apply Hm].
Qed.

Lemma fill_shard_ext m m' k h :
  m !! h = m' !! h → fill_shard m k !! h = fill_shard m' k !! h.
Proof.
  revert m m'. induction k as [|e k IH]; intros m m' Heq; [done|]. apply IH.
  rewrite !or_insert_lookup. by case_decide; [subst; rewrite Heq|].
Qed.

Lemma fill_shard_lookup m es h :
  fill_shard m es !! h = fill_shard m (bucket (shard_for h) es) !! h.
Proof.
  revert m. induction es as [|e es IH]; intros m; [done|]. unfold bucket. rewrite filter_cons.
  cbn [fill_shard fold_left]. case_decide as He; [apply IH|].
  change (fold_left _ es (or_insert m e.1 e.2)) with (fill_shard (or_insert m e.1 e.2) es).
  rewrite IH. apply fill_shard_ext. rewrite or_insert_lookup. case_decide; [by subst|done].
Qed.

(** Shard by shard: after the buckets [j..] have been poured, shard [i] is
    filled iff its turn has come. *)
Lemma pour_spec es n j idx :
  index_ok idx → (j + n = SHARD_COUNT)%nat →
  let idx' := fold_left (λ idx ib, if bool_decide (ib.2 = []) then idx
                           else <[ib.1 := fill_shard (shard idx ib.1) ib.2]> idx)
                (imap (λ i b, ((j + i)%nat, b)) ((λ i, bucket i es) <$> seq j n)) idx in
  index_ok idx' ∧
  ∀ h, index_get idx' h =
    if decide (j ≤ shard_for h)%nat then fill_shard (shard idx (shard_for h)) (bucket (shard_for h) es) !! h
    else index_get idx h.
Proof.
  revert j idx. induction n as [|n IH]; intros j idx Hok Hj; cbv zeta.
  { split; [done|]. intros h. pose proof (shard_for_lt h). by rewrite decide_False by (simpl in *; lia). }
  cbn [seq fmap list_fmap imap]. cbn [fold_left fst snd]. rewrite Nat.add_0_r.
  set (idx1 := if bool_decide (bucket j es = []) then idx else _).
  assert (index_ok idx1 ∧ ∀ i, shard idx1 i = if decide (i = j) then fill_shard (shard idx j) (bucket j es)
    else shard idx i) as [Hok1 Hsh1].
  { subst idx1. case_bool_decide as Hb.
    - split; [done|]. intros i. case_decide; [|done]. subst. by rewrite Hb.
    - split.
      + apply index_ok_update; [done|]. apply fill_shard_keys; [intros h; by apply shard_keys|].
        apply Forall_forall. intros e He. by apply list_elem_of_filter in He as [? _].
      + intros i. unfold shard at 1. destruct (decide (i = j)) as [->|Hne].
        * rewrite list_lookup_insert_eq; [done|]. destruct Hok. lia.
        * by rewrite list_lookup_insert_ne. }
  rewrite (imap_ext _ (λ i b, ((S j + i)%nat, b))) by (intros; simpl; f_equal; lia).
  destruct (IH (S j) idx1) as [Hok2 Hget]; [done|lia|]. split; [done|]. intros h. rewrite Hget.
  destruct (decide (S j ≤ shard_for h)%nat) as [Hlt|Hge].
  - rewrite decide_True by lia. rewrite Hsh1, decide_False by lia. done.
  - unfold index_get. rewrite Hsh1. case_decide as Heq; [|by rewrite decide_False by lia].
    by rewrite Heq, decide_True by lia.
Qed.

Lemma insert_batch_refines idx es :
  index_ok idx →
  index_ok (insert_batch idx es) ∧ flat (insert_batch idx es) = fill_shard (flat idx) es.
Proof.
  intros Hok. destruct (pour_spec es SHARD_COUNT 0 idx Hok eq_refl) as [Hok' Hget].
  unfold insert_batch. change (imap pair _) with
    (imap (λ i b, ((0 + i)%nat, b)) ((λ i, bucket i es) <$> seq 0 SHARD_COUNT)).
  split; [exact Hok'|]. apply map_eq. intros h. rewrite flat_lookup by exact Hok'. rewrite Hget.
  rewrite decide_True, (fill_shard_lookup (flat idx)) by lia. apply fill_shard_ext.
  by rewrite flat_lookup.
Qed.

Lemma entries_for_pack_elem idx p h l :
  index_ok idx → (h, l) ∈ entries_for_pack idx p ↔ flat idx !! h = Some l ∧ pack l = p.
Proof.
  intros Hok. rewrite flat_lookup by done. unfold entries_for_pack.
  rewrite elem_of_concat. setoid_rewrite list_elem_of_fmap. split.
  - intros (k & (m & -> & Hm) & He). apply list_elem_of_filter in He as [Hp He].
    apply elem_of_map_to_list in He. apply list_elem_of_lookup in Hm as [i Hi].
    split; [|done]. unfold index_get. rewrite (proj2 Hok i m h Hi) by done. unfold shard. by rewrite Hi.
  - intros [Hg Hp]. eexists. split.
    + exists (shard idx (shard_for h)). split; [done|]. eapply list_elem_of_lookup_2.
      apply shard_lookup; [done|apply shard_for_lt].
    + apply list_elem_of_filter. split; [done|]. by apply elem_of_map_to_list.
Qed.

Lemma entries_for_pack_NoDup idx p : index_ok idx → NoDup (entries_for_pack idx p).*1.
Proof.
  intros [_ Hok]. unfold entries_for_pack.
  assert (∀ i m h, idx !! i = Some m → is_Some (m !! h) → shard_for h = (0 + i)%nat) as Hk by done.
  clear Hok. revert Hk. generalize 0%nat. induction idx as [|m idx IH]; intros k Hk; csimpl; [constructor|].
  rewrite fmap_app. apply NoDup_app. split_and!.
  - apply (sublist_NoDup _ (map_to_list m).*1); [apply NoDup_fst_map_to_list|apply fmap_sublist, sublist_filter].
  - intros h ([h1 l1] & -> & [_ H1%elem_of_map_to_list]%list_elem_of_filter)%list_elem_of_fmap.
    intros ([h2 l2] & Heq & (es & Hes & H2)%elem_of_concat)%list_elem_of_fmap. cbn in Heq. subst h2.
    apply list_elem_of_fmap in Hes as (m2 & -> & [j Hj]%list_elem_of_lookup). apply list_elem_of_filter in H2 as [_ H2%elem_of_map_to_list].
    pose proof (Hk 0%nat m h1 eq_refl ltac:(by eexists)). pose proof (Hk (S j) m2 h1 Hj ltac:(by eexists)). lia.
  - apply (IH (S k)). intros i m' h Hi Hs. rewrite (Hk (S i) m' h Hi Hs). lia.
Qed.

Lemma index_len_flat idx : index_ok idx → index_len idx = size (flat idx).
Proof.
  intros [_ Hok]. unfold index_len, flat.
  assert (∀ i j m m', idx !! i = Some m → idx !! j = Some m' → i ≠ j → m ##ₘ m') as Hd.
  { intros i j m m' Hi Hj Hne. apply map_disjoint_spec. intros h x y Hx Hy.
    pose proof (Hok i m h Hi ltac:(by eexists)). pose proof (Hok j m' h Hj ltac:(by eexists)). congruence. }
  clear Hok. induction idx as [|m idx IH]; csimpl; [by rewrite map_size_empty|].
  rewrite map_size_disj_union, IH; [done| |].
  - intros i j m1 m2 Hi Hj Hne. by apply (Hd (S i) (S j)); [..|congruence].
  - assert (∀ i m', idx !! i = Some m' → m ##ₘ m') as Hm by (intros i m' Hi; by apply (Hd 0%nat (S i))).
    clear -Hm. induction idx as [|m' idx IH]; simpl; [apply map_disjoint_empty_r|].
    apply map_disjoint_union_r_2; [by apply (Hm 0%nat)|]. apply IH. intros i. apply (Hm (S i)).
Qed.

(** C28. The sharded index refines one first-writer-wins map: under the
    shard invariant (which every operation keeps) lookups, insertion,
    bucketed batch insertion, compare-and-repoint, compare-and-remove, the
    per-pack listing and the entry count are those of the flat map. *)
Theorem index_refines_map idx :
  index_ok idx →
  (∀ h, index_get idx h = flat idx !! h) ∧
  (∀ h l, index_ok (index_insert idx h l) ∧ flat (index_insert idx h l) = or_insert (flat idx) h l) ∧
  (∀ es, index_ok (insert_batch idx es) ∧
    flat (insert_batch idx es) = fold_left (λ m e, or_insert m e.1 e.2) es (flat idx)) ∧
  (∀ h p l, let '(hit, idx') := repoint_if_in_pack idx h p l in
    hit = in_pack (flat idx) h p ∧ index_ok idx' ∧
    flat idx' = if hit then <[h := l]> (flat idx) else flat idx) ∧
  (∀ h p, let '(hit, idx') := remove_if_in_pack idx h p in
    hit = in_pack (flat idx) h p ∧ index_ok idx' ∧
    flat idx' = if hit then delete h (flat idx) else flat idx) ∧
  (∀ p h l, (h, l) ∈ entries_for_pack idx p ↔ flat idx !! h = Some l ∧ pack l = p) ∧
  index_len idx = size (flat idx).
Proof.
  intros Hok. split_and!.
  - intros h. by rewrite flat_lookup.
  - intros h l. by apply index_insert_refines.
  - intros es. by apply insert_batch_refines.
  - intros h p l. by apply repoint_refines.
  - intros h p. by apply remove_refines.
  - intros p h l. by apply entries_for_pack_elem.
  - by apply index_len_flat.
Qed.

Lemma index_refines_map_witness :
  let idx := index_insert index_new zero_hash (mk_loc 3 20) in
  index_ok idx ∧ index_get idx zero_hash = Some (mk_loc 3 20) ∧
  index_get idx zero_hash = flat idx !! zero_hash.
Proof.
  intros idx. assert (index_ok idx) as Hok by apply index_insert_refines, index_ok_new.
  split_and!; [exact Hok|vm_compute; reflexivity|]. by apply (index_refines_map idx Hok).
Defined.

(** ** Sidecar encoding *)

Definition entry_wf (e : PageHash * PageLoc) : Prop :=
  hash_ok e.1 ∧ u32_ok (pack e.2) ∧ u64_ok (offset e.2).

Lemma zlen_encode_sentry e : entry_wf e → zlen (encode_entry e) = 44.
Proof. intros (Hh%hash_ok_zlen & _ & _). unfold encode_entry. zl. Qed.

Lemma zlen_encode_sentries es : Forall entry_wf es → zlen (concat (encode_entry <$> es)) = 44 * zlen es.
Proof.
  induction 1 as [|e es He _ IH]; csimpl; [done|].
  rewrite zlen_app, IH, zlen_encode_sentry, zlen_cons by done. lia.
Qed.

Lemma parse_encode_sidecar pre es :
  Forall entry_wf es →
  parse_sidecar_entries (pre ++ concat (encode_entry <$> es)) (zlen pre) (length es) = Ok es.
Proof.
  intros Hes. revert pre. induction Hes as [|e es He _ IH]; intros pre; [done|]. csimpl.
  pose proof (zlen_encode_sentry e He) as Hl. destruct He as (Hh%hash_ok_zlen & Hp & Ho).
  specialize (IH (pre ++ encode_entry e)). rewrite <-app_assoc in IH.
  replace (zlen pre + SIDECAR_ENTRY_SIZE) with (zlen (pre ++ encode_entry e))
    by (unfold SIDECAR_ENTRY_SIZE; rewrite zlen_app; lia).
  set (T := concat _) in *. pose proof (zlen_nonneg pre). pose proof (zlen_nonneg T).
  rewrite IH. rewrite !slice_ok by (rewrite ?zlen_app; lia). cbn [rbind].
  rewrite <-(Z.add_0_r (zlen pre)) at 1. rewrite !sub_shift by lia.
  unfold encode_entry. rewrite <-!app_assoc.
  assert (sub 0 32 (e.1 ++ to_le 4 (pack e.2) ++ to_le 8 (offset e.2) ++ T) = e.1) as -> by by field.
  rewrite (sub_app_exact 32 36) by zl.
  assert (sub 36 44 (e.1 ++ to_le 4 (pack e.2) ++ to_le 8 (offset e.2) ++ T) = to_le 8 (offset e.2)) as -> by by field.
  rewrite !from_to_le by done. by destruct e as [? []].
Qed.

Lemma sort_entries_perm es : sort_entries es ≡ₚ es.
Proof. apply stable_sort_perm. Qed.

Lemma decode_sidecar_encode `{Crc32} es :
  Forall entry_wf es → zlen es < 2 ^ 32 → decode_sidecar (encode_sidecar es) = Ok (sort_entries es).
Proof.
  intros Hes Hn. unfold decode_sidecar, encode_sidecar. set (ss := sort_entries es).
  assert (Forall entry_wf ss) as Hss by (unfold ss; by rewrite sort_entries_perm).
  assert (zlen ss = zlen es) as Hl by (unfold zlen, ss; by rewrite (Permutation_length (sort_entries_perm es))).
  pose proof (zlen_encode_sentries ss Hss) as Hc. pose proof (zlen_nonneg ss).
  set (T := concat _) in *. rewrite (Z.mod_small (zlen ss)) by lia.
  set (buf := to_le 4 (zlen ss) ++ T). assert (zlen buf = 4 + 44 * zlen ss) as Hb by (subst buf; zl).
  rewrite (proj2 (Z.ltb_ge _ _)) by zl. rewrite !slice_ok by zl. cbn [rbind].
  rewrite zlen_app, zlen_to_le. change (Z.of_nat 4) with 4.
  replace (zlen buf + 4 - 4) with (zlen buf) by lia.
  rewrite (sub_app_l 0), (sub_all 0) by lia. rewrite (sub_app_r (zlen buf)), (sub_all (zlen buf - zlen buf)) by zl.
  rewrite from_to_le by apply crc32_range. rewrite Z.eqb_refl. cbn [negb].
  rewrite (proj2 (Z.ltb_ge (zlen buf) 4)) by lia. rewrite !slice_ok by lia. cbn [rbind]. subst buf.
  rewrite (sub_app_l 0 4), (sub_all 0 4) by zl. rewrite from_to_le by lia.
  rewrite (sub_app_r 4), sub_all by zl. unfold SIDECAR_ENTRY_SIZE.
  rewrite (proj2 (Z.ltb_ge _ _)) by lia. unfold zlen. rewrite Nat2Z.id.
  apply (parse_encode_sidecar [] ss Hss).
Qed.

Lemma parse_sidecar_total d base n :
  0 ≤ base → base + 44 * Z.of_nat n ≤ zlen d → ∃ es, parse_sidecar_entries d base n = Ok es.
Proof.
  revert base. induction n as [|n IH]; intros base ??; simpl; [by eexists|].
  rewrite !slice_ok by lia. simpl. unfold SIDECAR_ENTRY_SIZE.
  destruct (IH (base + 44)) as [es ->]; [lia..|]. by eexists.
Qed.

(** ** The order on hashes *)
Lemma bytes_leb_refl a : bytes_leb a a.
Proof. induction a as [|x a IH]; simpl; [done|]. by rewrite !Z.ltb_irrefl. Qed.
Lemma bytes_leb_total a b : bytes_leb a b ∨ bytes_leb b a.
Proof.
  revert b. induction a as [|x a IH]; intros [|y b]; simpl; [by left|by left|by right|].
  destruct (byte.unsigned x <? byte.unsigned y) eqn:E1; [by left|].
  destruct (byte.unsigned y <? byte.unsigned x) eqn:E2; [by right|]. apply IH.
Qed.
Lemma bytes_leb_trans a b c : bytes_leb a b → bytes_leb b c → bytes_leb a c.
Proof.
  revert b c. induction a as [|x a IH]; intros [|y b] [|z c]; simpl; try done.
  repeat case_match; b2p; try done; try lia. apply IH.
Qed.
Lemma bytes_leb_antisym a b : bytes_leb a b → bytes_leb b a → a = b.
Proof.
  revert b. induction a as [|x a IH]; intros [|y b]; simpl; try done.
  repeat case_match; b2p; try done; try lia. intros ??.
  assert (x = y) as -> by (apply byte.unsigned_inj; lia). f_equal. by apply IH.
Qed.

(** Entries with distinct hashes have one sorted order. *)
Lemma sort_entries_unique es es' : es ≡ₚ es' → NoDup es.*1 → sort_entries es = sort_entries es'.
Proof.
  intros Hp Hnd.
  assert (∀ l, StronglySorted (λ a b : PageHash * PageLoc, bytes_leb a.1 b.1) (sort_entries l)) as Hs.
  { intros l. apply stable_sort_sorted; [intros x y z; apply bytes_leb_trans|intros x y; apply bytes_leb_total]. }
  eapply StronglySorted_unique_strong; [|apply Hs|apply Hs|].
  - intros x1 x2 Hx1 Hx2 H1 H2. rewrite sort_entries_perm in Hx1. rewrite sort_entries_perm, <-Hp in Hx2.
    pose proof (bytes_leb_antisym _ _ H1 H2) as Heq.
    apply list_elem_of_lookup in Hx1 as [i Hi], Hx2 as [j Hj].
    assert (i = j) as ->; [|by simplify_eq].
    eapply (NoDup_lookup es.*1); [done|by rewrite list_lookup_fmap, Hi|].
    by rewrite list_lookup_fmap, Hj, Heq.
  - by rewrite !sort_entries_perm.
Qed.

Section sidecars.
Context `{Crc32}.

Lemma decode_sidecar_not_panic data : decode_sidecar data ≠ Panic.
Proof.
  unfold decode_sidecar. case_match; [done|b2p]. rewrite !(slice_ok _ _ data) by lia. cbn [rbind].
  case_match; [done|]. case_match; [done|b2p]. rewrite !slice_ok by lia. cbn [rbind].
  case_match; [done|b2p]. unfold SIDECAR_ENTRY_SIZE in *.
  match goal with |- parse_sidecar_entries ?d ?b (Z.to_nat ?c) ≠ _ =>
    assert (0 ≤ c) by apply from_le_bound;
    destruct (parse_sidecar_total d b (Z.to_nat c)) as [es ->] end; [lia|lia|done].
Qed.

(** A sidecar read back is the list of entries that was written, in
    hash order; its bytes depend only on which entries they are, not on the
    order the index scan produced them in. *)
Theorem sidecar_roundtrip es :
  Forall entry_wf es → zlen es < 2 ^ 32 →
  decode_sidecar (encode_sidecar es) = Ok (sort_entries es) ∧ sort_entries es ≡ₚ es ∧
  (NoDup es.*1 → ∀ es', es' ≡ₚ es → encode_sidecar es' = encode_sidecar es).
Proof.
  intros Hes Hn. split_and!; [by apply decode_sidecar_encode|apply sort_entries_perm|].
  intros Hnd es' Hp. unfold encode_sidecar. by rewrite (sort_entries_unique es es').
Qed.

Lemma sidecar_tmp_ne path : sidecar_tmp path ≠ path.
Proof.
  unfold sidecar_tmp. intros Heq. apply (f_equal String.length) in Heq.
  assert (String.length (path +:+ ".tmp") = String.length path + 4)%nat as Hl.
  { clear. induction path as [|c p IH]; simpl; [done|]. by rewrite IH. }
  rewrite Hl in Heq. lia.
Qed.

Lemma write_sidecar_replace path es s :
  write_sidecar_entries path es s =
  imap_err IIo (replace_file (sidecar_tmp path) path (encode_sidecar es)) s.
Proof.
  unfold write_sidecar_entries, replace_file, stage_file, ibind, imap_err.
  destruct (open_truncate _ s) as [[h| |] s0]; simpl; [|done..].
  destruct (write_all_ h _ s0) as [[| |] s1]; simpl; [|done..].
  destruct (sync_data h s1) as [[| |] s2]; simpl; [|done..]. done.
Qed.

(** Writing a sidecar is all or nothing: under any sequence of I/O
    faults the name afterwards denotes either exactly what it denoted
    before or the complete new sidecar; [Ok] means the latter, with its
    bytes on stable storage; and no other file than the temporary one
    changes. *)
Theorem sidecar_write_atomic path es s r s' :
  fs_wf s → write_sidecar_entries path es s = (r, s') →
  fs_wf s' ∧
  (named s' path = named s path ∨ named s' path = Some (encode_sidecar es)) ∧
  (r = Ok tt → named s' path = Some (encode_sidecar es) ∧
     ∃ i, fs_dir s' !! path = Some i ∧ durable s' i = encode_sidecar es) ∧
  (∀ q, q ≠ path → q ≠ sidecar_tmp path → named s' q = named s q) ∧ r ≠ Panic.
Proof.
  intros Hwf Hw. pose proof (write_sidecar_replace path es s) as Heq. rewrite Hw in Heq.
  unfold imap_err in Heq. destruct (replace_file _ _ _ s) as [r0 s0] eqn:Hr. simplify_eq.
  destruct (replace_file_cases _ _ _ _ _ _ Hwf (sidecar_tmp_ne path) Hr) as (Hwf' & Hor & Hok & Hfr & Hnp).
  split_and!; [done|destruct Hor; [left; by apply same_file_named|by right]| |
    intros; by apply same_file_named, Hfr|by destruct r0]. intros Hr0. apply Hok. by destruct r0 as [[]| |].
Qed.
End sidecars.

Section sidecar_examples.
#[local] Existing Instance toy_crc32.
Definition ex_entries : list (PageHash * PageLoc) :=
  [(to_le 32 5, mk_loc 2 4153); (zero_hash, mk_loc 2 20)].
Definition ex_disk : fs := mk_fs {["pack-00000002.idx" := 0%N]} ∅ {[0%N := mk_file [Byte.x00] []]} 1%N [None; Some 3%nat].

Lemma sidecar_roundtrip_witness :
  decode_sidecar (encode_sidecar ex_entries) = Ok (sort_entries ex_entries).
Proof.
  apply (sidecar_roundtrip ex_entries); [|reflexivity].
  repeat constructor; try done; apply length_to_le.
Defined.

Lemma ex_disk_wf : fs_wf ex_disk.
Proof.
  split; simpl.
  - intros p i [<- <-]%lookup_singleton_Some. by eexists.
  - intros p q i [<- _]%lookup_singleton_Some [<- _]%lookup_singleton_Some. done.
  - intros i [f [<- _]%lookup_singleton_Some]. done.
Qed.

(** The second call (the write) fails after three bytes: the old sidecar is
    still there. *)
Lemma sidecar_write_atomic_witness :
  ∃ r s', write_sidecar_entries "pack-00000002.idx" ex_entries ex_disk = (r, s') ∧
    (named s' "pack-00000002.idx" = named ex_disk "pack-00000002.idx"
     ∨ named s' "pack-00000002.idx" = Some (encode_sidecar ex_entries)).
Proof.
  destruct (write_sidecar_entries "pack-00000002.idx" ex_entries ex_disk) as [r s'] eqn:H.
  exists r, s'. split; [reflexivity|].
  by apply (sidecar_write_atomic "pack-00000002.idx" ex_entries ex_disk r s' ex_disk_wf H).
Defined.
End sidecar_examples.
