(* ===== verification/Names.v ===== *)
(** * Pack and sidecar file names
      (crates/snapstore-pagestore/src/ingest.rs and read_cache.rs) *)

From S2P Require Import Prelude Types Fs Index.

(** Lower-case hexadecimal digits of [n], most significant first, [k] of
    them: [{:08x}]. *)
Definition hex_digit (d : Z) : Ascii.ascii :=
  Ascii.ascii_of_N (Z.to_N (if d <? 10 then 48 + d else 87 + d)).
Fixpoint hex_string (k : nat) (n : Z) : string :=
  match k with
  | O => ""
  | S k' => String (hex_digit (n / 16 ^ Z.of_nat k' mod 16)) (hex_string k' n)
  end.

Definition pack_path (id : PackId) : string := ("pack-" +:+ hex_string 8 id +:+ ".spk")%string.
Definition sidecar_path (id : PackId) : string := ("pack-" +:+ hex_string 8 id +:+ ".idx")%string.

(** ** Reading names back *)

Definition hex_val (c : Ascii.ascii) : option Z :=
  let n := Z.of_N (Ascii.N_of_ascii c) in
  if (48 <=? n) && (n <=? 57) then Some (n - 48)
  else if (97 <=? n) && (n <=? 102) then Some (n - 87)
  else if (65 <=? n) && (n <=? 70) then Some (n - 55)
  else None.

Fixpoint hex_digits (acc : Z) (s : string) : option Z :=
  match s with
  | EmptyString => Some acc
  | String c rest => d ← hex_val c; hex_digits (acc * 16 + d) rest
  end.

(** [u32::from_str_radix(s, 16)]: digits with an optional leading plus. *)
Definition from_str_radix16 (s : string) : option Z :=
  match s with
  | EmptyString => None
  | String c rest =>
      n ← (if Ascii.eqb c (Ascii.ascii_of_nat 43) then
             (if String.eqb rest "" then None else hex_digits 0 rest)
           else hex_digits 0 s);
      if n <? 2 ^ 32 then Some n else None
  end.

Definition strip_prefix (p s : string) : option string :=
  if String.prefix p s
  then Some (String.substring (String.length p) (String.length s - String.length p) s) else None.
Definition strip_suffix (p s : string) : option string :=
  let n := (String.length s - String.length p)%nat in
  if (String.length p <=? String.length s)%nat
     && String.eqb (String.substring n (String.length p) s) p
  then Some (String.substring 0 n s) else None.

Definition parse_pack_name (name : string) : option PackId :=
  rest ← strip_prefix "pack-" name;
  hex ← strip_suffix ".spk" rest;
  if (String.length hex =? 8)%nat then from_str_radix16 hex else None.

(** ** Names and ids correspond *)

Lemma hex_val_digit d : 0 ≤ d < 16 → hex_val (hex_digit d) = Some d.
Proof.
  intros Hd. assert (d ∈ seqZ 0 16) as Hin by (apply elem_of_seqZ; lia).
  assert (Forall (λ d, hex_val (hex_digit d) = Some d) (seqZ 0 16)) as Hall by (vm_compute; repeat constructor).
  rewrite Forall_forall in Hall. by apply Hall.
Qed.

Lemma hex_digits_string k n acc :
  0 ≤ n → hex_digits acc (hex_string k n) = Some (acc * 16 ^ Z.of_nat k + n mod 16 ^ Z.of_nat k).
Proof.
  intros Hn. revert acc. induction k as [|k IH]; intros acc.
  - simpl. f_equal. rewrite Z.mod_1_r. lia.
  - cbn [hex_string hex_digits]. rewrite hex_val_digit by (apply Z.mod_pos_bound; lia). cbn [mbind option_bind].
    rewrite IH. f_equal. set (m := 16 ^ Z.of_nat k).
    assert (0 < m) as Hm by (apply Z.pow_pos_nonneg; lia).
    replace (16 ^ Z.of_nat (S k)) with (m * 16) by (unfold m; rewrite Nat2Z.inj_succ, Z.pow_succ_r; lia).
    rewrite (Z.rem_mul_r n m 16) by lia. ring.
Qed.

Lemma length_hex_string k n : String.length (hex_string k n) = k.
Proof. induction k as [|k IH]; simpl; [done|]. by rewrite IH. Qed.

Lemma string_app_length s p :
  String.length (s +:+ p) = (String.length s + String.length p)%nat.
Proof. induction s as [|c s IH]; simpl; [done|by rewrite IH]. Qed.

Lemma substring_all s : String.substring 0 (String.length s) s = s.
Proof. induction s as [|c s IH]; simpl; [done|by rewrite IH]. Qed.

Lemma substring_app s p : String.substring (String.length s) (String.length p) (s +:+ p) = p.
Proof. induction s as [|c s IH]; simpl; [apply substring_all|done]. Qed.

Lemma strip_prefix_app p s : strip_prefix p (p +:+ s) = Some s.
Proof.
  unfold strip_prefix. assert (String.prefix p (p +:+ s) = true) as ->.
  { apply String.prefix_correct. induction p as [|c p IH]; simpl; [by destruct s|by rewrite IH]. }
  f_equal. rewrite string_app_length.
  replace (String.length p + String.length s - String.length p)%nat with (String.length s) by lia.
  apply substring_app.
Qed.

Lemma strip_suffix_app p s : strip_suffix p (s +:+ p) = Some s.
Proof.
  unfold strip_suffix. rewrite string_app_length.
  replace (String.length s + String.length p - String.length p)%nat with (String.length s) by lia.
  rewrite (proj2 (Nat.leb_le _ _)) by lia.
  rewrite substring_app, String.eqb_refl. simpl. f_equal. induction s as [|c s IH]; simpl; [by destruct p|by rewrite IH].
Qed.

Lemma parse_pack_path id : u32_ok id → parse_pack_name (pack_path id) = Some id.
Proof.
  intros Hid. unfold parse_pack_name, pack_path. rewrite strip_prefix_app. cbn [mbind option_bind].
  rewrite strip_suffix_app. cbn [mbind option_bind]. rewrite length_hex_string. cbn [Nat.eqb].
  assert (hex_digits 0 (hex_string 8 id) = Some id) as Hd.
  { rewrite hex_digits_string by apply Hid. f_equal. rewrite Z.mod_small; [lia|]. exact Hid. }
  assert (∃ c rest, hex_string 8 id = String c rest ∧ is_Some (hex_val c)) as (c & rest & Hs & Hv).
  { eexists _, _. split; [reflexivity|]. eexists. apply hex_val_digit, Z.mod_pos_bound. lia. }
  rewrite Hs in *. unfold from_str_radix16.
  assert (Ascii.eqb c (Ascii.ascii_of_nat 43) = false) as ->.
  { apply Ascii.eqb_neq. intros ->. vm_compute in Hv. by destruct Hv. }
  rewrite Hd. cbn [mbind option_bind]. destruct Hid. by rewrite (proj2 (Z.ltb_lt _ _)).
Qed.

Lemma pack_path_inj a b : u32_ok a → u32_ok b → pack_path a = pack_path b → a = b.
Proof.
  intros Ha Hb Heq. assert (Some a = Some b) as [=]; [|done].
  rewrite <-(parse_pack_path a), <-(parse_pack_path b) by done. by f_equal.
Qed.

Lemma strip_suffix_other p q s :
  String.length q = String.length p → q ≠ p → strip_suffix p (s +:+ q) = None.
Proof.
  intros Hl Hne. unfold strip_suffix. rewrite string_app_length, <-Hl.
  replace (String.length s + String.length q - String.length q)%nat with (String.length s) by lia.
  rewrite substring_app, (proj2 (String.eqb_neq _ _)) by done. by rewrite andb_false_r.
Qed.

(** No sidecar name, and no temporary one, is a pack name. *)
Lemma parse_sidecar_path b : parse_pack_name (sidecar_path b) = None.
Proof.
  unfold parse_pack_name, sidecar_path. rewrite strip_prefix_app. cbn [mbind option_bind].
  by rewrite strip_suffix_other.
Qed.

Lemma parse_sidecar_tmp b : parse_pack_name (sidecar_tmp (sidecar_path b)) = None.
Proof.
  unfold parse_pack_name, sidecar_tmp, sidecar_path.
  replace (("pack-" +:+ hex_string 8 b +:+ ".idx") +:+ ".tmp")
    with ("pack-" +:+ (hex_string 8 b +:+ ".idx") +:+ ".tmp") by done.
  rewrite strip_prefix_app. cbn [mbind option_bind]. by rewrite strip_suffix_other.
Qed.

Lemma pack_path_ne_sidecar a b : u32_ok a →
  pack_path a ≠ sidecar_path b ∧ pack_path a ≠ sidecar_tmp (sidecar_path b).
Proof.
  intros Ha. split; intros Heq; apply (f_equal parse_pack_name) in Heq; rewrite parse_pack_path in Heq by done.
  - by rewrite parse_sidecar_path in Heq.
  - by rewrite parse_sidecar_tmp in Heq.
Qed.
