(* ===== verification/ReadCache.v ===== *)
(** * The read-handle cache (crates/snapstore-pagestore/src/read_cache.rs)

    An LRU of open handles to sealed packs, kept as a map with a generation
    per entry.  The mutex is held for single map operations only; each is
    one atomic step here. *)

From S2P Require Import Prelude Types Fs Pack Names.

(** ** LruHandleMap *)
Record LruHandleMap := mk_lru {
  lru_entries : gmap PackId (handle * Z);
  lru_generation : Z;
  lru_capacity : nat;
}.

Definition lru_new (capacity : nat) : LruHandleMap := mk_lru ∅ 0 capacity.

Definition lru_get (m : LruHandleMap) (p : PackId) : option handle * LruHandleMap :=
  let gen := saturating_add (lru_generation m) 1 in
  match lru_entries m !! p with
  | Some (file, _) =>
      (Some file, mk_lru (<[p := (file, gen)]> (lru_entries m)) gen (lru_capacity m))
  | None => (None, mk_lru (lru_entries m) gen (lru_capacity m))
  end.

(** [entries.iter().min_by_key(|(_, (_, g))| *g)]: the first entry, in
    iteration order, with the least generation. *)
Fixpoint min_gen (best : PackId * (handle * Z)) (l : list (PackId * (handle * Z)))
    : PackId * (handle * Z) :=
  match l with
  | [] => best
  | e :: rest => min_gen (if e.2.2 <? best.2.2 then e else best) rest
  end.

Definition lru_victim (m : gmap PackId (handle * Z)) : option PackId :=
  match map_to_list m with
  | [] => None
  | e :: rest => Some (min_gen e rest).1
  end.

Definition lru_insert (m : LruHandleMap) (p : PackId) (file : handle) : LruHandleMap :=
  match lru_entries m !! p with
  | Some (old, _) =>
      let gen := saturating_add (lru_generation m) 1 in
      mk_lru (<[p := (old, gen)]> (lru_entries m)) gen (lru_capacity m)
  | None =>
      let entries :=
        if (lru_capacity m <=? size (lru_entries m))%nat then
          match lru_victim (lru_entries m) with
          | Some victim => delete victim (lru_entries m)
          | None => lru_entries m
          end
        else lru_entries m in
      let gen := saturating_add (lru_generation m) 1 in
      mk_lru (<[p := (file, gen)]> entries) gen (lru_capacity m)
  end.

Definition lru_remove (m : LruHandleMap) (p : PackId) : LruHandleMap :=
  mk_lru (delete p (lru_entries m)) (lru_generation m) (lru_capacity m).

(** ** ReadHandleCache *)
Definition cache_new (capacity : nat) : LruHandleMap := lru_new (Nat.max capacity 1).

Definition get_or_open (p : PackId) : M (LruHandleMap * fs) PackError handle := λ '(m, s),
  let '(hit, m) := lru_get m p in
  match hit with
  | Some h => (Ok h, (m, s))
  | None =>
      match open_sealed_fast (pack_path p) p s with
      | (Ok file, s') => (Ok file, (lru_insert m p file, s'))
      | (Err e, s') => (Err e, (m, s'))
      | (Panic, s') => (Panic, (m, s'))
      end
  end.

Definition invalidate (m : LruHandleMap) (p : PackId) : LruHandleMap := lru_remove m p.

(** ** The cache is a least-recently-used list *)

(** [l] lists the cached packs, most recently used first. *)
Record lru_rel (m : LruHandleMap) (l : list PackId) : Prop := {
  lr_dom : ∀ p, p ∈ l ↔ is_Some (lru_entries m !! p);
  lr_sorted : StronglySorted (λ p q, ∀ fp gp fq gq,
    lru_entries m !! p = Some (fp, gp) → lru_entries m !! q = Some (fq, gq) → gq < gp) l;
  lr_gen : ∀ p f g, lru_entries m !! p = Some (f, g) → g ≤ lru_generation m;
  lr_cap : (length l ≤ lru_capacity m)%nat;
}.

(** The list operations the cache implements. *)
Definition touch (p : PackId) (l : list PackId) : list PackId := p :: filter (.≠ p) l.
Definition spec_get (p : PackId) (l : list PackId) : list PackId :=
  if bool_decide (p ∈ l) then touch p l else l.
Definition spec_insert (cap : nat) (p : PackId) (l : list PackId) : list PackId :=
  if bool_decide (p ∈ l) then touch p l else p :: take (cap - 1) l.

Lemma StronglySorted_filter {A} (R : A → A → Prop) (P : A → Prop) `{∀ x, Decision (P x)} l :
  StronglySorted R l → StronglySorted R (filter P l).
Proof.
  induction 1 as [|x l _ IH Hx]; [constructor|]. rewrite filter_cons. case_decide; [|done].
  constructor; [done|]. rewrite Forall_forall in Hx |- *. intros y [_ Hy]%list_elem_of_filter. by apply Hx.
Qed.

Lemma StronglySorted_impl {A} (R R' : A → A → Prop) l :
  (∀ x y, x ∈ l → y ∈ l → R x y → R' x y) → StronglySorted R l → StronglySorted R' l.
Proof.
  intros Himp Hs. induction Hs as [|x l _ IH Hx]; [constructor|]. constructor.
  - apply IH. intros. apply Himp; [by right..|done].
  - rewrite Forall_forall in Hx |- *. intros y Hy. apply Himp; [by left|by right|by apply Hx].
Qed.

Lemma lru_rel_nodup m l : lru_rel m l → NoDup l.
Proof.
  intros [Hd Hs _ _]. assert (∀ p, p ∈ l → is_Some (lru_entries m !! p)) as Hin by (intros p; apply Hd).
  clear Hd. induction Hs as [|p l _ IH Hp]; constructor.
  - intros Hpl. rewrite Forall_forall in Hp. specialize (Hp p Hpl).
    destruct (Hin p ltac:(by left)) as [[f g] Hf]. specialize (Hp f g f g Hf Hf). lia.
  - apply IH. intros q Hq. apply Hin. by right.
Qed.

Lemma lru_rel_size m l : lru_rel m l → size (lru_entries m) = length l.
Proof.
  intros Hr. pose proof (lru_rel_nodup m l Hr) as Hnd.
  rewrite <-(size_list_to_set (C:=gset PackId) l Hnd), <-size_dom. f_equal. apply set_eq. intros p.
  rewrite elem_of_dom, elem_of_list_to_set. symmetry. apply Hr.
Qed.

(** Refreshing one entry with a new, largest generation. *)
Lemma touch_rel m l p f g :
  lru_rel m l → lru_generation m < u64_max → lru_entries m !! p = Some (f, g) →
  lru_rel (mk_lru (<[p := (f, saturating_add (lru_generation m) 1)]> (lru_entries m))
    (saturating_add (lru_generation m) 1) (lru_capacity m)) (touch p l).
Proof.
  intros Hr Hlt Hp. pose proof (lru_rel_nodup m l Hr) as Hnd. destruct Hr as [Hd Hs Hg Hc].
  assert (saturating_add (lru_generation m) 1 = lru_generation m + 1) as ->
    by (unfold saturating_add; lia). unfold touch. split; simpl.
  - intros q. rewrite elem_of_cons, list_elem_of_filter. destruct (decide (q = p)) as [->|Hne].
    + rewrite lookup_insert_eq. split; [by eexists|by left].
    + rewrite lookup_insert_ne, <-Hd by done. naive_solver.
  - constructor.
    + eapply StronglySorted_impl; [|by apply StronglySorted_filter].
      intros x y [Hx _]%list_elem_of_filter [Hy _]%list_elem_of_filter HR fx gx fy gy.
      rewrite !lookup_insert_ne by done. by apply HR.
    + apply Forall_forall. intros q [Hq _]%list_elem_of_filter fp gp fq gq.
      rewrite lookup_insert_eq, lookup_insert_ne by done. intros ? Hq'. simplify_eq.
      specialize (Hg _ _ _ Hq'). lia.
  - intros q fq gq. destruct (decide (q = p)) as [->|Hne].
    + rewrite lookup_insert_eq. intros; simplify_eq. lia.
    + rewrite lookup_insert_ne by done. intros Hq. specialize (Hg _ _ _ Hq). lia.
  - assert (p ∈ l) as Hpl by (apply Hd; by eexists).
    assert (length (filter (.≠ p) l) < length l)%nat; [|lia].
    clear -Hpl. induction l as [|x l IH]; [by apply elem_of_nil in Hpl|]. rewrite filter_cons.
    case_decide; simpl.
    + apply elem_of_cons in Hpl as [->|?]; [done|]. apply -> Nat.succ_lt_mono. by apply IH.
    + pose proof (length_filter (.≠ p) l). lia.
Qed.

Lemma min_gen_spec e l :
  min_gen e l ∈ e :: l ∧ ∀ x, x ∈ e :: l → (min_gen e l).2.2 ≤ x.2.2.
Proof.
  revert e. induction l as [|y l IH]; intros e; simpl.
  - split; [by left|]. intros x [->|?%elem_of_nil]%elem_of_cons; done.
  - destruct (IH (if y.2.2 <? e.2.2 then y else e)) as [H1 H2]. split.
    + case_match; set_solver.
    + intros x Hx. destruct (y.2.2 <? e.2.2) eqn:E; b2p.
      * apply elem_of_cons in Hx as [->|[->|Hx]%elem_of_cons]; [|apply H2; by left|apply H2; by right].
        specialize (H2 y ltac:(by left)). lia.
      * apply elem_of_cons in Hx as [->|[->|Hx]%elem_of_cons]; [apply H2; by left| |apply H2; by right].
        specialize (H2 e ltac:(by left)). lia.
Qed.

(** The victim of an eviction is the last of the list. *)
Lemma lru_victim_last m l q :
  lru_rel m (l ++ [q]) → lru_victim (lru_entries m) = Some q.
Proof.
  intros Hr. pose proof Hr as [Hd Hs _ _]. unfold lru_victim.
  destruct (map_to_list (lru_entries m)) as [|e rest] eqn:Hm.
  { apply map_to_list_empty_iff in Hm. pose proof (Hd q) as [Hq _]. rewrite Hm, lookup_empty in Hq.
    by destruct Hq as [? ?]; [set_solver|]. }
  destruct (min_gen_spec e rest) as [Hin Hmin]. rewrite <-Hm in Hin, Hmin.
  destruct (min_gen e rest) as [v [fv gv]]. simpl. f_equal.
  apply elem_of_map_to_list in Hin.
  destruct (decide (v = q)) as [|Hne]; [done|exfalso].
  assert (v ∈ l ++ [q]) as Hv by (apply Hd; by eexists).
  apply elem_of_app in Hv as [Hv|Hv]; [|by apply list_elem_of_singleton in Hv].
  destruct (proj1 (Hd q) ltac:(set_solver)) as [[fq gq] Hq].
  pose proof (Hmin (q, (fq, gq)) ltac:(by apply elem_of_map_to_list)) as Hle. simpl in Hle.
  pose proof (StronglySorted_app_1_elem_of _ l [q] v q Hs Hv ltac:(by left) _ _ _ _ Hin Hq). lia.
Qed.

Lemma lru_remove_rel m l p : lru_rel m l → lru_rel (lru_remove m p) (filter (.≠ p) l).
Proof.
  intros [Hd Hs Hg Hc]. split; simpl.
  - intros q. rewrite list_elem_of_filter, Hd, lookup_delete_is_Some. naive_solver.
  - eapply StronglySorted_impl; [|by apply StronglySorted_filter].
    intros x y _ _ HR fx gx fy gy [_ Hx]%lookup_delete_Some [_ Hy]%lookup_delete_Some. by eapply HR.
  - intros q f g [_ Hq]%lookup_delete_Some. by eapply Hg.
  - pose proof (length_filter (.≠ p) l). lia.
Qed.

Lemma lru_new_rel cap : lru_rel (lru_new cap) [].
Proof.
  split; simpl; [|constructor|by intros|lia].
  intros p. rewrite lookup_empty. split; [by intros ?%elem_of_nil|by intros []].
Qed.

(** Adding a fresh entry to a map with room. *)
Lemma lru_push_rel m l p f :
  lru_rel m l → lru_generation m < u64_max → lru_entries m !! p = None →
  (S (length l) ≤ lru_capacity m)%nat →
  lru_rel (mk_lru (<[p := (f, saturating_add (lru_generation m) 1)]> (lru_entries m))
    (saturating_add (lru_generation m) 1) (lru_capacity m)) (p :: l).
Proof.
  intros [Hd Hs Hg Hc] Hlt Hp Hcap.
  assert (saturating_add (lru_generation m) 1 = lru_generation m + 1) as ->
    by (unfold saturating_add; lia).
  assert (∀ q, q ∈ l → q ≠ p) as Hne by (intros q Hq ->; apply Hd in Hq; rewrite Hp in Hq; by destruct Hq).
  split; simpl; [| | |lia].
  - intros q. rewrite elem_of_cons, Hd, lookup_insert_is_Some. naive_solver.
  - constructor.
    + eapply StronglySorted_impl; [|done]. intros x y Hx Hy HR fx gx fy gy.
      rewrite !lookup_insert_ne by (symmetry; by apply Hne). by apply HR.
    + apply Forall_forall. intros q Hq fp gp fq gq.
      rewrite lookup_insert_eq, lookup_insert_ne by (symmetry; by apply Hne).
      intros ? Hq'. simplify_eq. specialize (Hg _ _ _ Hq'). lia.
  - intros q fq gq [[<- ?]|[_ Hq]]%lookup_insert_Some; [simplify_eq; lia|].
    specialize (Hg _ _ _ Hq). lia.
Qed.


Lemma filter_ne_last (l : list PackId) q : NoDup (l ++ [q]) → filter (.≠ q) (l ++ [q]) = l.
Proof.
  induction l as [|x l IH]; intros Hnd; simpl app; rewrite filter_cons.
  - rewrite decide_False by (intros Hq; by destruct Hq). done.
  - simpl in Hnd. apply NoDup_cons in Hnd as [Hx Hnd]. rewrite decide_True.
    + f_equal. by apply IH.
    + intros ->. apply Hx. set_solver.
Qed.

(** The generation-stamped map is a least-recently-used cache: while
    the generation counter has not saturated, lookups, insertions and
    invalidations act on the recency list as the textbook LRU does, the
    number of cached handles never exceeds the capacity, and a hit returns
    the handle that was stored. *)
Theorem lru_refines_list m l p f :
  lru_rel m l → lru_generation m < u64_max → (1 ≤ lru_capacity m)%nat →
  lru_rel (lru_get m p).2 (spec_get p l) ∧
  (lru_get m p).1 = fst <$> lru_entries m !! p ∧
  lru_rel (lru_insert m p f) (spec_insert (lru_capacity m) p l) ∧
  lru_rel (lru_remove m p) (filter (.≠ p) l).
Proof.
  intros Hr Hlt Hcap. pose proof (lru_rel_nodup m l Hr) as Hnd. pose proof (lru_rel_size m l Hr) as Hsz.
  split_and!; [| | |by apply lru_remove_rel].
  - unfold lru_get, spec_get. destruct (lru_entries m !! p) as [[f' g]|] eqn:Hp; simpl.
    + rewrite bool_decide_eq_true_2 by (apply Hr; by eexists). by eapply touch_rel.
    + rewrite bool_decide_eq_false_2 by (rewrite (lr_dom _ _ Hr), Hp; by intros []).
      destruct Hr as [Hd Hs Hg Hc]. split; simpl; [done|done| |done].
      intros q fq gq Hq. specialize (Hg _ _ _ Hq). unfold saturating_add. lia.
  - unfold lru_get. by destruct (lru_entries m !! p) as [[f' g]|].
  - unfold lru_insert, spec_insert. destruct (lru_entries m !! p) as [[f' g]|] eqn:Hp.
    { rewrite bool_decide_eq_true_2 by (apply Hr; by eexists). by eapply touch_rel. }
    rewrite bool_decide_eq_false_2 by (rewrite (lr_dom _ _ Hr), Hp; by intros []).
    rewrite Hsz. destruct (Nat.leb_spec (lru_capacity m) (length l)) as [Hfull|Hroom].
    + pose proof (lr_cap _ _ Hr). destruct l as [|q x _] using rev_ind; [simpl in *; lia|].
      rewrite (lru_victim_last m x q Hr). rewrite length_app in *. simpl in *.
      replace (lru_capacity m - 1)%nat with (length x) by lia. rewrite take_app_length.
      pose proof (lru_remove_rel m _ q Hr) as Hrem. rewrite filter_ne_last in Hrem by done.
      apply (lru_push_rel (lru_remove m q) x p f Hrem); [done| |simpl; lia].
      simpl. apply lookup_delete_None. by right.
    + rewrite take_ge by lia. by apply lru_push_rel; [..|lia].
Qed.

Lemma lru_refines_list_witness :
  let m := lru_insert (lru_insert (lru_new 2) 0 (mk_handle 10%N 0)) 1 (mk_handle 11%N 0) in
  lru_rel m [1; 0] ∧
  lru_rel (lru_insert (lru_get m 0).2 2 (mk_handle 12%N 0)) [2; 0].
Proof.
  assert (lru_rel (lru_insert (lru_new 2) 0 (mk_handle 10%N 0)) [0]) as H1.
  { apply (lru_refines_list (lru_new 2) [] 0 (mk_handle 10%N 0)); [apply lru_new_rel|reflexivity|repeat constructor]. }
  assert (lru_rel (lru_insert (lru_insert (lru_new 2) 0 (mk_handle 10%N 0)) 1 (mk_handle 11%N 0)) [1; 0]) as H2.
  { apply (lru_refines_list _ [0] 1 (mk_handle 11%N 0) H1); [reflexivity|repeat constructor]. }
  split; [exact H2|].
  pose proof (proj1 (lru_refines_list _ [1; 0] 0 (mk_handle 0%N 0) H2 eq_refl ltac:(repeat constructor))) as H3.
  apply (lru_refines_list _ [0; 1] 2 (mk_handle 12%N 0) H3); [reflexivity|repeat constructor].
Defined.
