(* ===== verification/PageStore.v ===== *)
(** * The page store (crates/snapstore-pagestore/src/ingest.rs)

    Content-addressed pages over packs, index and handle cache.  Methods
    run on the pair of the store and the file system; a method that holds
    the [active] mutex for its whole body is one atomic step.  [unix_now]
    is the clock, which only ends up in pack headers.  Pack ids stay below
    2^32 (a store would have to create four billion packs), so the [u32]
    increments do not wrap. *)

From S2P Require Import Prelude Types Fs Pack Index Names ReadCache.

Inductive StoreError :=
  | SIo (e : io_error)
  | SPack (e : PackError)
  | SIndex (e : IndexError).

Record StoreOptions := mk_opts {
  write_buf_size : Z; max_pack_bytes : Z; read_handle_cap : nat }.

Definition default_options : StoreOptions := mk_opts (4 * 1024 * 1024) PACK_MAX_BYTES 256.

Record IngestOutcome := mk_outcome { o_hash : PageHash; o_loc : PageLoc; newly_written : bool }.

Record ActiveState := mk_active {
  a_writer : PackWriter;
  a_pack_id : PackId;
  a_dirty : gset PackId;
  a_new_files : bool;
  a_next : PackId;
}.

Record PageStore := mk_store {
  ps_index : ShardedIndex;
  ps_active : ActiveState;
  ps_opts : StoreOptions;
  ps_cache : LruHandleMap;
}.

Abbreviation P A := (M (PageStore * fs) StoreError A).

Definition set_index i ps := mk_store i (ps_active ps) (ps_opts ps) (ps_cache ps).
Definition set_active a ps := mk_store (ps_index ps) a (ps_opts ps) (ps_cache ps).
Definition set_cache c ps := mk_store (ps_index ps) (ps_active ps) (ps_opts ps) c.
Definition set_writer w a := mk_active w (a_pack_id a) (a_dirty a) (a_new_files a) (a_next a).
Definition set_dirty d a := mk_active (a_writer a) (a_pack_id a) d (a_new_files a) (a_next a).
Definition set_new_files b a := mk_active (a_writer a) (a_pack_id a) (a_dirty a) b (a_next a).
Definition set_next n a := mk_active (a_writer a) (a_pack_id a) (a_dirty a) (a_new_files a) n.

(** Lifting the components' computations. *)
Definition on_fs {A} (c : M fs StoreError A) : P A :=
  zoom snd (λ s w, (w.1, s)) c.
Definition on_writer {A} (c : W A) : P A :=
  imap_err SPack (zoom (λ w, (a_writer (ps_active w.1), w.2))
    (λ ws w, (set_active (set_writer ws.1 (ps_active w.1)) w.1, ws.2)) c).
Definition on_cache {A} (c : M (LruHandleMap * fs) PackError A) : M (PageStore * fs) PackError A :=
  zoom (λ w, (ps_cache w.1, w.2)) (λ cs w, (set_cache cs.1 w.1, cs.2)) c.
Definition get_store : P PageStore := λ w, (Ok w.1, w).
Definition mod_active (f : ActiveState → ActiveState) : P unit := λ w,
  (Ok tt, (set_active (f (ps_active w.1)) w.1, w.2)).
Definition mod_index (f : ShardedIndex → ShardedIndex) : P unit := λ w,
  (Ok tt, (set_index (f (ps_index w.1)) w.1, w.2)).
Definition mod_cache (f : LruHandleMap → LruHandleMap) : P unit := λ w,
  (Ok tt, (set_cache (f (ps_cache w.1)) w.1, w.2)).

(** ** Discovering packs *)

Definition discover_packs : M fs StoreError (list PackId) :=
  let! names := imap_err SIo read_dir in
  iret (sort_by_key (λ id, id) (omap parse_pack_name names)).

Definition remove_file_if_exists (path : string) : M fs StoreError unit := λ s,
  match remove_file path s with
  | (Ok _, s') => (Ok tt, s')
  | (Err ENotFound, s') => (Ok tt, s')
  | (Err e, s') => (Err (SIo e), s')
  | (Panic, s') => (Panic, s')
  end.

(** Result slots, and a lookup: slot, hash and location. *)
Abbreviation outcome_slots := (list (option IngestOutcome)).
Abbreviation lookup_t := (nat * PageHash * PageLoc)%type.
Abbreviation read_slots := (list (option bytes)).

Section store.
Context `{Blake3, Crc32} (unix_now : Z).

(** ** Rotation *)
Definition rotate_locked : P PackId :=
  let! ps := get_store in
  let old_pack_id := a_pack_id (ps_active ps) in
  mod_active (λ a, set_dirty ({[old_pack_id]} ∪ a_dirty a) a) ;!
  on_writer seal_no_sync ;!
  let! ps := get_store in
  on_fs (imap_err SIndex (write_sidecar (ps_index ps) (sidecar_path old_pack_id) old_pack_id)) ;!
  let! ps := get_store in
  let new_id := a_next (ps_active ps) in
  mod_active (set_next (new_id + 1)) ;!
  let! writer := on_fs (imap_err SPack
    (create_with_max_bytes (pack_path new_id) new_id unix_now (max_pack_bytes (ps_opts ps)))) in
  mod_active (λ a, mk_active writer new_id (a_dirty a) true (a_next a)) ;!
  iret new_id.

Definition rotate_active : P PackId :=
  let! ps := get_store in
  let a := ps_active ps in
  if (w_count (a_writer a) =? 0) && (a_pack_id a + 1 =? a_next a) then iret (a_pack_id a)
  else rotate_locked.

(** ** Ingest *)

(** [batch_dedup]: each distinct hash with the index of its first
    occurrence. *)
Fixpoint batch_dedup (i : nat) (hashes : list PageHash) (seen : list (PageHash * nat))
    : list (PageHash * nat) :=
  match hashes with
  | [] => seen
  | h :: rest =>
      batch_dedup (S i) rest (if bool_decide (h ∈ seen.*1) then seen else seen ++ [(h, i)])
  end.

(** Step 3: probe the index. *)
Fixpoint probe (idx : ShardedIndex) (uniq : list (PageHash * nat)) (out : outcome_slots)
    (to_write : list (PageHash * nat)) : outcome_slots * list (PageHash * nat) :=
  match uniq with
  | [] => (out, to_write)
  | (h, i) :: rest =>
      match index_get idx h with
      | Some l => probe idx rest (<[i := Some (mk_outcome h l false)]> out) to_write
      | None => probe idx rest out (to_write ++ [(h, i)])
      end
  end.

(** Step 4: one miss, under the [active] lock. *)
Definition write_miss (pages : list bytes) (out : outcome_slots) (hi : PageHash * nat) : P outcome_slots :=
  let '(h, i) := hi in
  let! ps := get_store in
  match index_get (ps_index ps) h with
  | Some l => iret (<[i := Some (mk_outcome h l false)]> out)
  | None =>
      let! _ := if would_exceed_cap (a_writer (ps_active ps)) then rotate_locked
                else iret (a_pack_id (ps_active ps)) in
      match pages !! i with
      | None => ipanic
      | Some page =>
          let! off := on_writer (append h page) in
          let! ps := get_store in
          let current_pack_id := a_pack_id (ps_active ps) in
          let l := mk_loc current_pack_id off in
          mod_active (λ a, set_dirty ({[current_pack_id]} ∪ a_dirty a) a) ;!
          mod_index (λ idx, index_insert idx h l) ;!
          iret (<[i := Some (mk_outcome h l true)]> out)
      end
  end.

Fixpoint write_misses (pages : list bytes) (out : outcome_slots) (to_write : list (PageHash * nat))
    : P outcome_slots :=
  match to_write with
  | [] => iret out
  | hi :: rest => let! out := write_miss pages out hi in write_misses pages out rest
  end.

(** Step 5: duplicates within the batch, then unwrap. *)
Fixpoint fill_outcomes (idx : ShardedIndex) (hashes : list PageHash) (out : outcome_slots)
    : res StoreError (list IngestOutcome) :=
  match hashes, out with
  | h :: hs, o :: os =>
      let? x := match o with
                | Some x => Ok x
                | None => let? l := expect (index_get idx h) in Ok (mk_outcome h l false)
                end in
      let? rest := fill_outcomes idx hs os in
      Ok (x :: rest)
  | _, _ => Ok []
  end.

(** [iter] is the iteration order of the [batch_dedup] hash map. *)
Definition ingest (iter : list (PageHash * nat) → list (PageHash * nat)) (pages : list bytes)
    : P (list IngestOutcome) :=
  if bool_decide (pages = []) then iret [] else
  let hashes := blake3 <$> pages in
  let uniq := iter (batch_dedup 0 hashes []) in
  let! ps := get_store in
  let '(out, to_write) := probe (ps_index ps) uniq (replicate (length pages) None) [] in
  let! out := write_misses pages out to_write in
  let! ps := get_store in
  iof (fill_outcomes (ps_index ps) hashes out).

(** ** Reads *)
Definition read_from_cached_handle (h : PageHash) (l : PageLoc) : P bytes :=
  let! file := imap_err (λ e, match e with PIo io => SIo io | other => SPack other end)
    (on_cache (get_or_open (pack l))) in
  on_fs (imap_err SPack (read_at_from_file file (offset l) h)).

(** Both shapes of ENOENT. *)
Definition is_not_found (e : StoreError) : bool :=
  match e with SPack (PIo ENotFound) | SIo ENotFound => true | _ => false end.

Definition read_sealed_with_retry (h : PageHash) (l : PageLoc) : P (option bytes) := λ w,
  match read_from_cached_handle h l w with
  | (Ok data, w') => (Ok (Some data), w')
  | (Err e, w') =>
      if is_not_found e then
        (mod_cache (λ c, invalidate c (pack l)) ;!
         let! ps := get_store in
         match index_get (ps_index ps) h with
         | None => iret None
         | Some new_loc =>
             if bool_decide (new_loc = l) then ierr (SIo ENotFound)
             else let! data := read_from_cached_handle h new_loc in iret (Some data)
         end) w'
      else (Err e, w')
  | (Panic, w') => (Panic, w')
  end.

(** Resolve hashes to locations. *)
Fixpoint resolve (idx : ShardedIndex) (i : nat) (hashes : list PageHash) : list lookup_t :=
  match hashes with
  | [] => []
  | h :: rest =>
      match index_get idx h with
      | Some l => (i, h, l) :: resolve idx (S i) rest
      | None => resolve idx (S i) rest
      end
  end.

(** [(loc.pack.0, loc.offset)] order. *)
Definition loc_leb (a b : lookup_t) : bool :=
  (pack a.2 <? pack b.2) || ((pack a.2 =? pack b.2) && (offset a.2 <=? offset b.2)).

(** The leading run of lookups in one pack, and the rest. *)
Fixpoint split_run (p : PackId) (ls : list lookup_t) : list lookup_t * list lookup_t :=
  match ls with
  | [] => ([], [])
  | x :: rest =>
      if pack x.2 =? p then let '(g, r) := split_run p rest in (x :: g, r) else ([], ls)
  end.

(** One read through a handle already fetched for the run. *)
Definition read_in_group (file : handle) (x : lookup_t) : P (nat * option bytes) := λ w,
  let '(i, h, l) := x in
  match read_at_from_file file (offset l) h w.2 with
  | (Ok data, s') => (Ok (i, Some data), (w.1, s'))
  | (Err (PIo ENotFound), s') =>
      (let! d := read_sealed_with_retry h l in iret (i, d)) (w.1, s')
  | (Err e, s') => (Err (SPack e), (w.1, s'))
  | (Panic, s') => (Panic, (w.1, s'))
  end.

Fixpoint read_group (file : handle) (group : list lookup_t) : P (list (nat * option bytes)) :=
  match group with
  | [] => iret []
  | x :: rest =>
      let! r := read_in_group file x in
      let! rs := read_group file rest in
      iret (r :: rs)
  end.

Fixpoint read_retry_each (group : list lookup_t) (out : read_slots) : P read_slots :=
  match group with
  | [] => iret out
  | (i, h, l) :: rest =>
      let! d := read_sealed_with_retry h l in
      read_retry_each rest (<[i := d]> out)
  end.

Definition store_reads (reads : list (nat * option bytes)) (out : read_slots) : read_slots :=
  fold_left (λ out r, <[r.1 := r.2]> out) reads out.

(** The [while group_start < sealed_lookups.len()] loop. *)
Fixpoint read_sealed (fuel : nat) (ls : list lookup_t) (out : read_slots) : P read_slots :=
  match fuel with
  | O => ipanic
  | S fuel' =>
      match ls with
      | [] => iret out
      | x :: _ =>
          let p := pack x.2 in
          let '(group, rest) := split_run p ls in
          let! opened := itry (on_cache (get_or_open p)) in
          let! out :=
            match opened with
            | Ok file => let! reads := read_group file group in iret (store_reads reads out)
            | _ => read_retry_each group out
            end in
          read_sealed fuel' rest out
      end
  end.

(** One read of the active pack: header, then payload, then both checks. *)
Definition read_active_one (x : lookup_t) : P bytes :=
  let '(_, h, l) := x in
  let! ps := get_store in
  let file := w_file (a_writer (ps_active ps)) in
  let trunc := SPack (TruncatedRecord (offset l)) in
  let! rec_header := on_fs (imap_err (λ _, trunc) (read_exact_at file (offset l) RECORD_HEADER_SIZE)) in
  let stored_hash := sub 0 32 rec_header in
  let len := from_le (sub 33 37 rec_header) in
  fail_if negb (len =? PAGE_SIZE) with trunc in
  let! payload := on_fs (imap_err (λ _, trunc)
    (read_exact_at file (offset l + RECORD_HEADER_SIZE) len)) in
  fail_if negb (bool_decide (stored_hash = h)) with SPack (HashMismatch (offset l)) in
  fail_if negb (bool_decide (blake3 payload = stored_hash)) with SPack (HashMismatch (offset l)) in
  iret payload.

Fixpoint read_active (ls : list lookup_t) (out : read_slots) : P read_slots :=
  match ls with
  | [] => iret out
  | x :: rest => let! d := read_active_one x in read_active rest (<[x.1.1 := Some d]> out)
  end.

Definition get_batch (hashes : list PageHash) : P read_slots :=
  if bool_decide (hashes = []) then iret [] else
  let results := replicate (length hashes) None in
  let! ps := get_store in
  let lookups := resolve (ps_index ps) 0 hashes in
  if bool_decide (lookups = []) then iret results else
  let active_pack_id := a_pack_id (ps_active ps) in
  let active_lookups := filter (λ x : lookup_t, pack x.2 = active_pack_id) lookups in
  let sealed_lookups := filter (λ x : lookup_t, pack x.2 ≠ active_pack_id) lookups in
  let sealed_lookups := stable_sort loc_leb sealed_lookups in
  let! results := read_sealed (S (length sealed_lookups)) sealed_lookups results in
  if bool_decide (active_lookups = []) then iret results else
  let active_lookups := sort_by_key (λ x : lookup_t, offset x.2) active_lookups in
  let! ps := get_store in
  let current_active_id := a_pack_id (ps_active ps) in
  let rerouted := filter (λ x : lookup_t, pack x.2 ≠ current_active_id) active_lookups in
  let active_lookups := filter (λ x : lookup_t, pack x.2 = current_active_id) active_lookups in
  let! _ := if bool_decide (active_lookups = []) then iret tt else on_writer flush_buf in
  let! results := read_active active_lookups results in
  read_retry_each rerouted results.

Definition get (h : PageHash) : P (option bytes) :=
  let! results := get_batch [h] in
  iof (expect (head results)).

Definition contains_batch (hashes : list PageHash) : P (list bool) :=
  let! ps := get_store in
  iret ((λ h, bool_decide (is_Some (index_get (ps_index ps) h))) <$> hashes).

Definition unique_pages : P Z :=
  let! ps := get_store in iret (Z.of_nat (index_len (ps_index ps))).

(** ** Durability *)

(** [iter] is the iteration order of the dirty set. *)
Definition sync_pack (id : PackId) : M fs StoreError unit :=
  imap_err SIo (let! file := open_existing (pack_path id) in sync_data file).

Definition sync (iter : gset PackId → list PackId) : P unit :=
  on_writer flush_buf ;!
  let! ps := get_store in
  let dirty := {[a_pack_id (ps_active ps)]} ∪ a_dirty (ps_active ps) in
  mod_active (set_dirty ∅) ;!
  ifor (iter dirty) (λ id, on_fs (sync_pack id)) ;!
  let! ps := get_store in
  if a_new_files (ps_active ps) then
    on_fs (imap_err SIo sync_dir) ;! mod_active (set_new_files false)
  else iret tt.

(** ** Surfaces for the garbage collector *)
Definition active_pack_id : P PackId :=
  let! ps := get_store in iret (a_pack_id (ps_active ps)).

Definition sealed_pack_ids : P (list PackId) :=
  let! active_id := active_pack_id in
  let! ids := on_fs discover_packs in
  iret (filter (.≠ active_id) ids).

Definition pack_entries (p : PackId) : P (list (PageHash * PageLoc)) :=
  let! ps := get_store in iret (entries_for_pack (ps_index ps) p).

Definition store_repoint_if_in_pack (h : PageHash) (p : PackId) (l : PageLoc) : P bool := λ w,
  let '(hit, idx) := repoint_if_in_pack (ps_index w.1) h p l in (Ok hit, (set_index idx w.1, w.2)).
Definition store_remove_if_in_pack (h : PageHash) (p : PackId) : P bool := λ w,
  let '(hit, idx) := remove_if_in_pack (ps_index w.1) h p in (Ok hit, (set_index idx w.1, w.2)).
Definition invalidate_pack_handle (p : PackId) : P unit := mod_cache (λ c, invalidate c p).

Definition scan_pack (p : PackId) : P (list (Z * PageHash)) :=
  on_fs (imap_err SPack (let! reader := open (pack_path p) p in scan reader)).

Definition read_record (p : PackId) (off : Z) (expected : PageHash) : P bytes :=
  read_from_cached_handle expected (mk_loc p off).

Record GcPackWriter := mk_gc_writer {
  g_writer : PackWriter; g_pack_id : PackId; g_entries : list (PageHash * Z) }.

Definition create_gc_pack : P GcPackWriter :=
  let! ps := get_store in
  let id := a_next (ps_active ps) in
  mod_active (set_next (id + 1)) ;!
  let! writer := on_fs (imap_err SPack
    (create_with_max_bytes (pack_path id) id unix_now (max_pack_bytes (ps_opts ps)))) in
  iret (mk_gc_writer writer id []).

Definition gc_append (h : PageHash) (payload : bytes) : M (GcPackWriter * fs) StoreError Z := λ '(g, s),
  match append h payload (g_writer g, s) with
  | (Ok off, (w, s')) =>
      (Ok off, (mk_gc_writer w (g_pack_id g) (g_entries g ++ [(h, off)]), s'))
  | (Err e, (w, s')) => (Err (SPack e), (mk_gc_writer w (g_pack_id g) (g_entries g), s'))
  | (Panic, (w, s')) => (Panic, (mk_gc_writer w (g_pack_id g) (g_entries g), s'))
  end.

Definition seal_and_publish (g : GcPackWriter) : M fs StoreError (PackId * list (PageHash * Z)) := λ s,
  match seal (g_writer g, s) with
  | (Ok _, (_, s')) =>
      let loc_entries := (λ '(h, o), (h, mk_loc (g_pack_id g) o)) <$> g_entries g in
      (imap_err SIndex (write_sidecar_entries (sidecar_path (g_pack_id g)) loc_entries) ;!
       iret (g_pack_id g, g_entries g)) s'
  | (Err e, (_, s')) => (Err (SPack e), s')
  | (Panic, (_, s')) => (Panic, s')
  end.

Definition delete_pack (p : PackId) : P unit :=
  mod_active (λ a, set_dirty (a_dirty a ∖ {[p]}) a) ;!
  on_fs (remove_file_if_exists (sidecar_path p)) ;!
  on_fs (remove_file_if_exists (pack_path p)) ;!
  on_fs (imap_err SIo sync_dir).

(** ** Opening a store *)

(** [PackReader::open(path, PackId(0)).is_ok() || ...]: the second operand
    stats the file and is false on every branch. *)
Definition is_pack_sealed (p : PackId) : M fs StoreError bool := λ s,
  match open (pack_path p) 0 s with
  | (Ok _, s') => (Ok true, s')
  | (Err _, s') => let '(_, s'') := path_len (pack_path p) s' in (Ok false, s'')
  | (Panic, s') => (Panic, s')
  end.

(** Re-read each record and feed the reconstructed header and the payload
    to the body hasher. *)
Fixpoint rehash (reader : PackReader) (records : list (Z * PageHash)) (fed : bytes)
    : M fs PackError bytes :=
  match records with
  | [] => iret fed
  | (off, h) :: rest =>
      let! ' (_, payload) := read_at reader off in
      let rec_header := h ++ [Byte.x01] ++ to_le 4 (zlen payload) in
      rehash reader rest (fed ++ rec_header ++ payload)
  end.

(** [OpenOptions::append(true)]: writes go to the end of the file. *)
Definition open_append (path : string) : io handle :=
  syscall (λ s, match fs_dir s !! path with
                | Some i => (Ok (mk_handle i (zlen (content s i))), s)
                | None => (Err ENotFound, s) end).

Definition seal_existing_pack (p : PackId) : M fs StoreError (list (PageHash * Z)) :=
  let! ' (reader, _) := imap_err SPack (open_unsealed (pack_path p) p) in
  let! records := imap_err SPack (scan reader) in
  let! fed := imap_err SPack (rehash reader records []) in
  let! file := imap_err SIo (open_append (pack_path p)) in
  imap_err SIo (write_all_ file (pack_footer (zlen records) fed)) ;!
  imap_err SIo (sync_data file) ;!
  iret ((λ r, (r.2, r.1)) <$> records).

Definition reopen_pack_for_append (p : PackId) (idx : ShardedIndex)
    : M fs StoreError (PackWriter * ShardedIndex) :=
  let! ' (reader, _) := imap_err SPack (open_unsealed (pack_path p) p) in
  let! records := imap_err SPack (scan reader) in
  let idx := insert_batch idx (records_to_entries p records) in
  let! writer := imap_err SPack (reopen (pack_path p) p) in
  iret (writer, idx).

(** [pack_ids.retain(..)]: drop and unlink files shorter than a header. *)
Fixpoint retain_full (ids : list PackId) : M fs StoreError (list PackId) :=
  match ids with
  | [] => iret []
  | id :: rest =>
      let! len := itry (path_len (pack_path id)) in
      let! keep :=
        match len with
        | Ok n => if n <? PACK_HEADER_SIZE
                  then let! _ := itry (remove_file (pack_path id)) in iret false
                  else iret true
        | _ => iret true
        end in
      let! kept := retain_full rest in
      iret (if keep : bool then id :: kept else kept)
  end.

Fixpoint classify (ids : list PackId) : M fs StoreError (list PackId * list PackId) :=
  match ids with
  | [] => iret ([], [])
  | id :: rest =>
      let! b := is_pack_sealed id in
      let! ' (sealed, unsealed) := classify rest in
      iret (if b : bool then (id :: sealed, unsealed) else (sealed, id :: unsealed))
  end.

(** Seal every unsealed pack but the last; the last one is left for
    appending. *)
Fixpoint seal_older (unsealed : list PackId) (idx : ShardedIndex)
    : M fs StoreError (list PackId * option PackId * ShardedIndex) :=
  match unsealed with
  | [] => iret ([], None, idx)
  | [last] => iret ([], Some last, idx)
  | id :: rest =>
      let! pairs := seal_existing_pack id in
      let entries := (λ '(h, o), (h, mk_loc id o)) <$> pairs in
      imap_err SIndex (write_sidecar_entries (sidecar_path id) entries) ;!
      let idx := insert_batch idx entries in
      let! ' (sealed, active, idx) := seal_older rest idx in
      iret (id :: sealed, active, idx)
  end.

(** Load each sealed pack's sidecar, or rebuild it from the pack. *)
Fixpoint load_sealed (ids : list PackId) (idx : ShardedIndex) : M fs StoreError ShardedIndex :=
  match ids with
  | [] => iret idx
  | id :: rest =>
      let! loaded := itry (load_sidecar (sidecar_path id) idx) in
      let! idx :=
        match loaded with
        | Ok (_, idx') => iret idx'
        | _ =>
            let! entries := imap_err SIndex (rebuild_from_pack (pack_path id) id true) in
            imap_err SIndex (write_sidecar_entries (sidecar_path id) entries) ;!
            iret (insert_batch idx entries)
        end in
      load_sealed rest idx
  end.

Definition open_store (opts : StoreOptions) : M fs StoreError PageStore :=
  imap_err SIo (syscall (iret tt)) ;! (* create_dir_all *)
  let! ids := discover_packs in
  let! ids := retain_full ids in
  let! ' (sealed, unsealed) := classify ids in
  let unsealed := sort_by_key (λ id, id) unsealed in
  let! ' (newly_sealed, active, idx) := seal_older unsealed index_new in
  let! idx := load_sealed (sealed ++ newly_sealed) idx in
  let! ' (writer, id, new_file, ids, idx) :=
    match active with
    | Some existing =>
        let! ' (writer, idx) := reopen_pack_for_append existing idx in
        iret (writer, existing, false, ids, idx)
    | None =>
        let new_id := match last ids with Some id => id + 1 | None => 0 end in
        let! writer := imap_err SPack
          (create_with_max_bytes (pack_path new_id) new_id unix_now (max_pack_bytes opts)) in
        iret (writer, new_id, true, ids ++ [new_id], idx)
    end in
  let next := match ids with [] => 0 | id :: rest => fold_left Z.max rest id + 1 end in
  iret (mk_store idx (mk_active writer id ∅ new_file next) opts
          (cache_new (read_handle_cap opts))).
End store.
