(* ===== verification/PageStoreInv.v ===== *)
(** * Correctness of the page store

    The abstract state of a page store is a map from pack ids to the
    records of each pack.  [store_inv] relates it to the store and the file
    system; every operation is characterised on it. *)

From S2P Require Import Prelude Types Fs Pack Index Names ReadCache PageStore.

(** The abstract store: the header and the records of each pack. *)
Abbreviation packs_t := (gmap PackId (bytes * list rrec)).

Section store_inv.
Context `{Blake3, Crc32}.


(** A sealed pack on disk. *)
Definition sealed_at (s : fs) (id : PackId) (hdr : bytes) (rs : list rrec) : Prop :=
  header_ok hdr ∧ ∃ i, fs_dir s !! pack_path id = Some i ∧ content s i = sealed_bytes hdr rs.

(** The active pack: its writer, positioned on the named file. *)
Definition active_at (s : fs) (a : ActiveState) (hdr : bytes) (rs : list rrec) : Prop :=
  writer_ok (a_writer a) hdr rs s ∧ fs_dir s !! pack_path (a_pack_id a) = Some (h_ino (w_file (a_writer a))).

Record store_inv (packs : packs_t) (ps : PageStore) (s : fs) : Prop := {
  si_wf : fs_wf s;
  si_index : index_ok (ps_index ps);
  si_active : ∃ hdr rs, packs !! a_pack_id (ps_active ps) = Some (hdr, rs) ∧ active_at s (ps_active ps) hdr rs;
  si_sealed : ∀ id hdr rs, id ≠ a_pack_id (ps_active ps) → packs !! id = Some (hdr, rs) → sealed_at s id hdr rs;
  si_pages : ∀ id hdr rs, packs !! id = Some (hdr, rs) → Forall page_ok rs;
  si_loc : ∀ h l, flat (ps_index ps) !! h = Some l →
    ∃ hdr rs, packs !! pack l = Some (hdr, rs) ∧ (offset l, h) ∈ locs PACK_HEADER_SIZE rs;
  si_ids : ∀ id, is_Some (packs !! id) → 0 ≤ id < a_next (ps_active ps);
  si_fresh : ∀ id, u32_ok id → a_next (ps_active ps) ≤ id → fs_dir s !! pack_path id = None;
  si_cache : ∀ p f g, lru_entries (ps_cache ps) !! p = Some (f, g) →
    p ≠ a_pack_id (ps_active ps) ∧ is_Some (packs !! p) ∧ fs_dir s !! pack_path p = Some (h_ino f);
  si_next : a_next (ps_active ps) ≤ 2 ^ 32;
}.

Lemma si_u32 packs ps s id : store_inv packs ps s → is_Some (packs !! id) → u32_ok id.
Proof. intros Hi Hid. pose proof (si_ids _ _ _ Hi id Hid). pose proof (si_next _ _ _ Hi). split; lia. Qed.

Lemma si_active_u32 packs ps s : store_inv packs ps s → u32_ok (a_pack_id (ps_active ps)).
Proof. intros Hi. destruct (si_active _ _ _ Hi) as (hdr & rs & Hp & _). eapply si_u32; [done|]. by rewrite Hp. Qed.

(** ** Frames *)

Lemma writer_ok_frame w hdr rs s s' :
  fs_files s' !! h_ino (w_file w) = fs_files s !! h_ino (w_file w) →
  writer_ok w hdr rs s → writer_ok w hdr rs s'.
Proof.
  intros Hf [? ? ? ? ? ? ? ? ?].
  assert (content s' (h_ino (w_file w)) = content s (h_ino (w_file w))) as Hc by (unfold content; by rewrite Hf).
  split; rewrite ?Hf, ?Hc; done.
Qed.

Lemma sealed_at_frame s s' id hdr rs :
  same_file (pack_path id) s s' → sealed_at s id hdr rs → sealed_at s' id hdr rs.
Proof.
  intros Hsf (Hh & i & Hi & Hc). split; [done|]. exists i.
  destruct (same_file_content _ _ _ _ Hsf Hi) as (-> & -> & _). done.
Qed.

Lemma active_at_frame s s' a hdr rs :
  same_file (pack_path (a_pack_id a)) s s' → active_at s a hdr rs → active_at s' a hdr rs.
Proof.
  intros [Hd Hf] [Hw Hi]. split; [|by rewrite Hd]. eapply writer_ok_frame; [|done]. by apply Hf.
Qed.

(** Every pack keeps its file. *)
Definition packs_same (packs : packs_t) (s s' : fs) : Prop :=
  ∀ id, is_Some (packs !! id) → same_file (pack_path id) s s'.

(** A change elsewhere on the disk keeps the invariant. *)
Lemma store_inv_frame packs ps s s' :
  store_inv packs ps s → fs_wf s' → packs_same packs s s' →
  (∀ id, u32_ok id → a_next (ps_active ps) ≤ id → fs_dir s' !! pack_path id = None) →
  store_inv packs ps s'.
Proof.
  intros [Hwf Hix (hdr & rs & Hp & Ha) Hse Hpg Hloc Hids Hfr Hca Hnx] Hwf' Hsame Hfr'.
  split; try done.
  - exists hdr, rs. split; [done|]. eapply active_at_frame; [|done]. apply Hsame. by eexists.
  - intros id hdr' rs' Hne Hid. eapply sealed_at_frame; [|by apply Hse]. apply Hsame. by eexists.
  - intros p f g Hpf. destruct (Hca p f g Hpf) as (? & ? & Hd). split_and!; [done|done|].
    destruct (Hsame p) as [-> _]; done.
Qed.

(** The active inode belongs to no other pack. *)
Lemma active_ino_ne packs ps s id :
  store_inv packs ps s → id ≠ a_pack_id (ps_active ps) → is_Some (packs !! id) →
  fs_dir s !! pack_path id ≠ Some (h_ino (w_file (a_writer (ps_active ps)))).
Proof.
  intros Hi Hne Hid Heq. destruct (si_active _ _ _ Hi) as (hdr & rs & Hp & _ & Hd).
  apply Hne, pack_path_inj; [by eapply si_u32|by eapply si_active_u32|]. by eapply (fw_inj _ (si_wf _ _ _ Hi)).
Qed.

(** ** The writer's operations on the store *)

Lemma on_writer_step {A} (c : W A) ps s a w' s' :
  c (a_writer (ps_active ps), s) = (Ok a, (w', s')) →
  on_writer c (ps, s) = (Ok a, (set_active (set_writer w' (ps_active ps)) ps, s')).
Proof. intros Hc. unfold on_writer. apply imap_step. unfold zoom. cbn [fst snd]. by rewrite Hc. Qed.

Lemma on_fs_step {A} (c : M fs StoreError A) ps s a s' :
  c s = (Ok a, s') → on_fs c (ps, s) = (Ok a, (ps, s')).
Proof. intros Hc. unfold on_fs, zoom. cbn [fst snd]. by rewrite Hc. Qed.

Lemma on_cache_step {A} (c : M (LruHandleMap * fs) PackError A) ps s r m' s' :
  c (ps_cache ps, s) = (r, (m', s')) → on_cache c (ps, s) = (r, (set_cache m' ps, s')).
Proof. intros Hc. unfold on_cache, zoom. cbn [fst snd]. by rewrite Hc. Qed.

(** Replace the active writer by one that holds [rs'] in the same file. *)
Lemma store_inv_write packs ps s w' hdr rs c :
  store_inv packs ps s →
  packs !! a_pack_id (ps_active ps) = Some (hdr, rs) →
  h_ino (w_file w') = h_ino (w_file (a_writer (ps_active ps))) →
  ∀ rs', writer_ok w' hdr rs' (set_content (h_ino (w_file (a_writer (ps_active ps)))) c s) →
  Forall page_ok rs' → rs `prefix_of` rs' →
  store_inv (<[a_pack_id (ps_active ps) := (hdr, rs')]> packs)
    (set_active (set_writer w' (ps_active ps)) ps)
    (set_content (h_ino (w_file (a_writer (ps_active ps)))) c s).
Proof.
  intros Hi Hp Hino rs' Hw Hpg Hpre. set (i := h_ino (w_file (a_writer (ps_active ps)))) in *. set (id0 := a_pack_id (ps_active ps)) in *.
  assert (is_Some (fs_files s !! i)) as Hfi.
  { destruct (si_active _ _ _ Hi) as (h' & r' & _ & [[Hf _ _ _ _ _ _ _ _] _]). exact Hf. }
  split; simpl.
  - apply fs_wf_set_content; [apply Hi|done].
  - apply Hi.
  - exists hdr, rs'. rewrite lookup_insert_eq. split; [done|]. split; simpl; [done|].
    rewrite Hino. destruct (si_active _ _ _ Hi) as (h' & r' & _ & _ & Hd). exact Hd.
  - intros id hdr' rs0 Hne. rewrite lookup_insert_ne by done. intros Hid.
    eapply sealed_at_frame; [|by eapply (si_sealed _ _ _ Hi)]. apply same_file_set_content.
    eapply active_ino_ne; [done|done|by eexists].
  - intros id hdr' rs0 [[<- ?]|[_ Hid]]%lookup_insert_Some; [by simplify_eq|]. by eapply (si_pages _ _ _ Hi).
  - intros h l Hl. destruct (si_loc _ _ _ Hi h l Hl) as (hdr' & rs0 & Hid & Hin).
    destruct (decide (pack l = id0)) as [Heq|Hne].
    + rewrite Heq, lookup_insert_eq. exists hdr, rs'. split; [done|]. rewrite Heq in Hid.
      fold id0 in Hp. rewrite Hp in Hid. simplify_eq. destruct Hpre as [k ->]. rewrite locs_app. set_solver.
    + rewrite lookup_insert_ne by done. by exists hdr', rs0.
  - intros id Hid. apply (si_ids _ _ _ Hi). apply lookup_insert_is_Some in Hid as [<-|[_ ?]]; [by eexists|done].
  - intros id. apply (si_fresh _ _ _ Hi).
  - intros p f g Hpf. destruct (si_cache _ _ _ Hi p f g Hpf) as (Hne & Hid & Hd).
    split_and!; [done| |done]. rewrite lookup_insert_ne by done. done.
  - apply Hi.
Qed.

Lemma store_flush packs ps s :
  store_inv packs ps s → calm s →
  ∃ w' c, on_writer flush_buf (ps, s) =
    (Ok tt, (set_active (set_writer w' (ps_active ps)) ps,
      set_content (h_ino (w_file (a_writer (ps_active ps)))) c s)) ∧
    w_buf w' = [] ∧ w_max w' = w_max (a_writer (ps_active ps)) ∧
    h_ino (w_file w') = h_ino (w_file (a_writer (ps_active ps))) ∧
    store_inv packs (set_active (set_writer w' (ps_active ps)) ps)
      (set_content (h_ino (w_file (a_writer (ps_active ps)))) c s) ∧
    (∀ hdr rs, packs !! a_pack_id (ps_active ps) = Some (hdr, rs) → c = hdr ++ body rs).
Proof.
  intros Hi Hs. destruct (si_active _ _ _ Hi) as (hdr & rs & Hp & Hw & Hd).
  destruct (flush_ok _ _ _ _ Hw Hs) as (w' & Hfl & Hw' & Hb & Hm & _ & Hino).
  exists w', (hdr ++ body rs). split_and!; [|done|done|done| |].
  - by apply on_writer_step.
  - rewrite <-(insert_id packs (a_pack_id (ps_active ps)) (hdr, rs)) by done.
    eapply store_inv_write; [done..|by eapply (si_pages _ _ _ Hi)|done].
  - intros hdr' rs' Heq. rewrite Hp in Heq. by simplify_eq.
Qed.

(** ** Rotation *)

Lemma same_file_fresh q p s b :
  fs_wf s → q ≠ p → same_file q s (set_content (fs_next s) b (fresh_file p s)).
Proof.
  intros Hwf Hq. assert (∀ j, fs_dir s !! q = Some j → j ≠ fs_next s) as Hne.
  { intros j Hj ->. pose proof (fw_next _ Hwf _ (fw_named _ Hwf _ _ Hj)). lia. }
  split; simpl; [by rewrite lookup_insert_ne|]. intros j Hj. specialize (Hne j Hj).
  by rewrite !lookup_insert_ne by done.
Qed.

Lemma fs_wf_create s p b :
  fs_wf s → fs_dir s !! p = None → fs_wf (set_content (fs_next s) b (fresh_file p s)).
Proof.
  intros Hwf Hp. apply fs_wf_set_content; [by apply fs_wf_fresh|]. simpl. rewrite lookup_insert_eq.
  by eexists.
Qed.

Lemma write_sidecar_entries_calm path es s :
  fs_wf s → calm s →
  ∃ s', write_sidecar_entries path es s = (Ok tt, s') ∧ calm s' ∧ fs_wf s' ∧
    named s' path = Some (encode_sidecar es) ∧
    ∀ q, q ≠ path → q ≠ sidecar_tmp path → same_file q s s'.
Proof.
  intros Hwf Hs. destruct (replace_file_calm (sidecar_tmp path) path (encode_sidecar es) s Hs) as (s' & Hr & Hs').
  destruct (replace_file_cases _ _ _ _ _ _ Hwf (sidecar_tmp_ne path) Hr) as (Hwf' & _ & Hok & Hfr & _).
  exists s'. rewrite write_sidecar_replace. split_and!; [by apply imap_step|done|done|by apply Hok|done].
Qed.

(** Adding a freshly created, empty active pack after the old one was
    sealed. *)
Lemma store_inv_rotated packs ps s s3 w nid hdr0 rs0 hdr :
  store_inv packs ps s → nid = a_next (ps_active ps) → nid < 2 ^ 32 →
  packs !! a_pack_id (ps_active ps) = Some (hdr0, rs0) →
  fs_wf s3 → writer_ok w hdr [] s3 → fs_dir s3 !! pack_path nid = Some (h_ino (w_file w)) →
  sealed_at s3 (a_pack_id (ps_active ps)) hdr0 rs0 →
  (∀ id, is_Some (packs !! id) → fs_dir s3 !! pack_path id = fs_dir s !! pack_path id) →
  (∀ id, is_Some (packs !! id) → id ≠ a_pack_id (ps_active ps) → same_file (pack_path id) s s3) →
  (∀ id, u32_ok id → nid < id → fs_dir s3 !! pack_path id = None) →
  ∀ dirty nf,
  store_inv (<[nid := (hdr, [])]> packs)
    (mk_store (ps_index ps) (mk_active w nid dirty nf (nid + 1)) (ps_opts ps) (ps_cache ps)) s3.
Proof.
  intros Hi Hn Hlt Hp0 Hwf3 Hw Hnm Hse0 Hdir Hsame Hfr dirty nf.
  assert (∀ id, is_Some (packs !! id) → id ≠ nid) as Hne.
  { intros id Hid ->. pose proof (si_ids _ _ _ Hi _ Hid). lia. }
  split; simpl.
  - done.
  - apply Hi.
  - exists hdr, []. rewrite lookup_insert_eq. by split.
  - intros id hdr' rs' Hid. rewrite lookup_insert_ne by done. intros Hl.
    destruct (decide (id = a_pack_id (ps_active ps))) as [->|Hida].
    + by rewrite Hp0 in Hl; simplify_eq.
    + eapply sealed_at_frame; [|by eapply (si_sealed _ _ _ Hi)]. apply Hsame; [by eexists|done].
  - intros id hdr' rs' [[<- ?]|[_ Hid]]%lookup_insert_Some; [by simplify_eq; constructor|].
    by eapply (si_pages _ _ _ Hi).
  - intros h l Hl. destruct (si_loc _ _ _ Hi h l Hl) as (hdr' & rs' & Hid & Hin).
    exists hdr', rs'. rewrite lookup_insert_ne; [done|]. symmetry. apply Hne. by eexists.
  - intros id Hid. apply lookup_insert_is_Some in Hid as [<-|[_ Hid]].
    + destruct (si_active _ _ _ Hi) as (? & ? & Hpa & _).
      pose proof (si_ids _ _ _ Hi _ ltac:(by eexists)). lia.
    + pose proof (si_ids _ _ _ Hi _ Hid). lia.
  - intros id Hid Hle. apply Hfr; [done|lia].
  - intros p f g Hpf. destruct (si_cache _ _ _ Hi p f g Hpf) as (Hpa & Hid & Hd).
    split_and!; [by apply Hne| |by rewrite Hdir].
    rewrite lookup_insert_ne; [done|]. symmetry. by apply Hne.
  - lia.
Qed.

Lemma rotate_ok unix_now packs ps s :
  store_inv packs ps s → calm s → a_next (ps_active ps) < 2 ^ 32 →
  let nid := a_next (ps_active ps) in
  ∃ w s', rotate_locked unix_now (ps, s) =
      (Ok nid, (mk_store (ps_index ps)
         (mk_active w nid ({[a_pack_id (ps_active ps)]} ∪ a_dirty (ps_active ps)) true (nid + 1))
         (ps_opts ps) (ps_cache ps), s')) ∧
    calm s' ∧ w_max w = max_pack_bytes (ps_opts ps) ∧ w_offset w = PACK_HEADER_SIZE ∧
    (∀ id, is_Some (packs !! id) → id ≠ a_pack_id (ps_active ps) → same_file (pack_path id) s s') ∧
    store_inv (<[nid := (pack_header nid unix_now, [])]> packs)
      (mk_store (ps_index ps)
         (mk_active w nid ({[a_pack_id (ps_active ps)]} ∪ a_dirty (ps_active ps)) true (nid + 1))
         (ps_opts ps) (ps_cache ps)) s'.
Proof.
  intros Hi Hs Hlt nid. destruct (si_active _ _ _ Hi) as (hdr & rs & Hp & Hw & Hd).
  set (id0 := a_pack_id (ps_active ps)) in *. set (i0 := h_ino (w_file (a_writer (ps_active ps)))) in *.
  assert (u32_ok id0) as Hu0 by by eapply si_active_u32.
  assert (u32_ok nid) as Hun.
  { split; [|done]. pose proof (si_ids _ _ _ Hi id0 ltac:(by eexists)). lia. }
  destruct (seal_no_sync_ok _ _ _ _ Hw Hs) as (w1 & Hseal & _). fold i0 in Hseal.
  set (s1 := set_content i0 (sealed_bytes hdr rs) s) in *.
  assert (fs_wf s1) as Hwf1 by (apply fs_wf_set_content; [apply Hi|apply Hw]).
  destruct (write_sidecar_entries_calm (sidecar_path id0) (entries_for_pack (ps_index ps) id0) s1 Hwf1 Hs)
    as (s2 & Hsc & Hs2 & Hwf2 & _ & Hfr2).
  assert (∀ id, u32_ok id → same_file (pack_path id) s1 s2) as Hsame2.
  { intros id Hid. destruct (pack_path_ne_sidecar id id0 Hid). by apply Hfr2. }
  assert (fs_dir s2 !! pack_path nid = None) as Hnone.
  { rewrite (proj1 (Hsame2 nid Hun)). by apply (si_fresh _ _ _ Hi). }
  destruct (create_ok (pack_path nid) nid unix_now (max_pack_bytes (ps_opts ps)) s2 Hs2 Hnone)
    as (w & Hcr & Hw3 & Hmax & _ & Hbuf & Hino).
  set (s3 := set_content (fs_next s2) _ (fresh_file (pack_path nid) s2)) in *.
  assert (∀ id, u32_ok id → id ≠ nid → same_file (pack_path id) s1 s3) as Hsame3.
  { intros id Hid Hne. eapply same_file_trans; [by apply Hsame2|]. apply same_file_fresh; [done|].
    intros Heq. by apply Hne, pack_path_inj. }
  assert (∀ id, is_Some (packs !! id) → u32_ok id ∧ id ≠ nid) as Hids.
  { intros id Hid. split; [by eapply si_u32|]. pose proof (si_ids _ _ _ Hi id Hid). lia. }
  assert (∀ id, is_Some (packs !! id) → id ≠ id0 → same_file (pack_path id) s s3) as Hother.
  { intros id Hid Hne0. destruct (Hids id Hid) as [Hu Hne]. eapply same_file_trans; [|by apply Hsame3].
    apply same_file_set_content. by eapply active_ino_ne. }
  exists w, s3. split_and!; [|done|done| |exact Hother|].
  - unfold rotate_locked. erewrite ibind_step by reflexivity. cbv zeta.
    erewrite ibind_step by reflexivity. erewrite ibind_step by (apply on_writer_step; exact Hseal).
    erewrite ibind_step by reflexivity. erewrite ibind_step by (apply on_fs_step, imap_step; exact Hsc).
    erewrite ibind_step by reflexivity. erewrite ibind_step by reflexivity.
    erewrite ibind_step by (apply on_fs_step, imap_step; exact Hcr). reflexivity.
  - rewrite (wo_offset _ _ _ _ Hw3). change (body []) with (@nil Init.Byte.byte).
    rewrite app_nil_r. apply (wo_hdr _ _ _ _ Hw3).
  - eapply store_inv_rotated; [done|done|done|exact Hp|by apply fs_wf_create|exact Hw3| | | |exact Hother|].
    + rewrite Hino. simpl. by rewrite lookup_insert_eq.
    + destruct (Hids id0 ltac:(by eexists)) as [_ Hne]. split; [apply Hw|]. exists i0.
      destruct (same_file_content _ _ _ i0 (Hsame3 id0 Hu0 Hne) Hd) as (Hd3 & Hc3 & _).
      split; [exact Hd3|]. etransitivity; [exact Hc3|apply content_set_content].
    + intros id Hid. destruct (Hids id Hid) as [Hu Hne]. by rewrite (proj1 (Hsame3 id Hu Hne)).
    + intros id Hu Hgt. rewrite (proj1 (Hsame3 id Hu ltac:(lia))). apply (si_fresh _ _ _ Hi); [done|lia].
Qed.

End store_inv.
