(* ===== verification/PageStoreIngest.v ===== *)
(** * Ingest is correct

    Functional specification of [PageStore::ingest] on the invariant of
    PageStoreInv: one outcome per page, exact deduplication within the
    batch and against the index, and preservation of the invariant across
    pack rotations. *)

From S2P Require Import Prelude Types Fs Pack Index Names ReadCache PageStore PageStoreInv.

Section ingest.
Context `{Blake3, Crc32} (unix_now : Z) (N : Prop).

(** Every record outside the dirty set is on stable storage.  [N] guards the
    clause on names, which does not hold while packs are being deleted. *)
Definition dirty_upto (packs : packs_t) (ps : PageStore) (s : fs) : Prop :=
  (∀ id hdr rs, packs !! id = Some (hdr, rs) → id ∉ a_dirty (ps_active ps) → rs ≠ [] →
     ∃ i, fs_dir s !! pack_path id = Some i ∧ durable s i = content s i ∧
       (id = a_pack_id (ps_active ps) → w_buf (a_writer (ps_active ps)) = [])) ∧
  (N → a_new_files (ps_active ps) = false →
     ∀ id, is_Some (packs !! id) → fs_ddir s !! pack_path id = fs_dir s !! pack_path id) ∧
  (∀ id, id ∈ a_dirty (ps_active ps) → is_Some (packs !! id)).

Definition store_upto (packs : packs_t) (ps : PageStore) (s : fs) : Prop :=
  store_inv packs ps s ∧ dirty_upto packs ps s.

(** Packs only grow, at the end. *)
Definition packs_le (packs packs' : packs_t) : Prop :=
  ∀ id hdr rs, packs !! id = Some (hdr, rs) → ∃ rs', packs' !! id = Some (hdr, rs ++ rs').

#[export] Instance packs_le_preorder : PreOrder packs_le.
Proof.
  split.
  - intros p id hdr rs Hid. exists []. by rewrite app_nil_r.
  - intros p q r Hpq Hqr id hdr rs Hid. destruct (Hpq _ _ _ Hid) as [rs1 H1].
    destruct (Hqr _ _ _ H1) as [rs2 H2]. exists (rs1 ++ rs2). by rewrite app_assoc.
Qed.

Lemma packs_le_fresh packs id v : packs !! id = None → packs_le packs (<[id := v]> packs).
Proof.
  intros Hn id' hdr rs Hid. exists []. rewrite app_nil_r, lookup_insert_ne; [done|]. congruence.
Qed.

(** The index only grows, with records of the active pack or a later one. *)
Definition grows (ps ps' : PageStore) : Prop :=
  a_pack_id (ps_active ps) ≤ a_pack_id (ps_active ps') ∧
  ∀ h l, flat (ps_index ps') !! h = Some l →
    flat (ps_index ps) !! h = Some l ∨ a_pack_id (ps_active ps) ≤ pack l.

#[export] Instance grows_preorder : PreOrder grows.
Proof.
  split; [by intros ps; split; [lia|naive_solver]|]. intros p q r [H1 H2] [H3 H4]. split; [lia|].
  intros h l [Hl|Hl]%H4; [by apply H2|right; lia].
Qed.

Lemma rotate_upto_at packs ps s :
  store_upto packs ps s → calm s → a_next (ps_active ps) < 2 ^ 32 →
  let packs' := <[a_next (ps_active ps) := (pack_header (a_next (ps_active ps)) unix_now, [])]> packs in
  ∃ ps' s', rotate_locked unix_now (ps, s) = (Ok (a_next (ps_active ps)), (ps', s')) ∧
    store_upto packs' ps' s' ∧ calm s' ∧ packs_le packs packs' ∧ grows ps ps' ∧
    ps_opts ps' = ps_opts ps ∧ ps_index ps' = ps_index ps ∧ ps_cache ps' = ps_cache ps ∧
    a_pack_id (ps_active ps') = a_next (ps_active ps) ∧
    a_next (ps_active ps') = a_next (ps_active ps) + 1 ∧
    w_offset (a_writer (ps_active ps')) = PACK_HEADER_SIZE ∧
    w_max (a_writer (ps_active ps')) = max_pack_bytes (ps_opts ps).
Proof.
  intros [Hi (Hd1 & Hd2 & Hd3)] Hs Hlt.
  destruct (rotate_ok unix_now packs ps s Hi Hs Hlt) as (w & s' & Hr & Hs' & Hm & Ho & Hsame & Hi').
  assert (packs !! a_next (ps_active ps) = None) as Hnone.
  { apply eq_None_not_Some. intros Hid. pose proof (si_ids _ _ _ Hi _ Hid). lia. }
  intros packs'. eexists _, s'. split; [exact Hr|]. split.
  2: { split_and!; try done; [by apply packs_le_fresh|]. split; [|naive_solver]. simpl.
       destruct (si_active _ _ _ Hi) as (? & ? & Hp & _). pose proof (si_ids _ _ _ Hi _ (mk_is_Some _ _ Hp)). lia. }
  split; [exact Hi'|]. split_and!; simpl; [|done|].
  2: { intros id Hid. apply lookup_insert_is_Some'. right. destruct (si_active _ _ _ Hi) as (? & ? & Hp & _).
       apply elem_of_union in Hid as [->%elem_of_singleton|?]; [by eexists|by apply Hd3]. }
  intros id hdr rs [[<- ?]|[Hne Hid]]%lookup_insert_Some Hnd Hrs; [by simplify_eq|].
  assert (id ≠ a_pack_id (ps_active ps)) as Hida by set_solver.
  destruct (Hd1 id hdr rs Hid ltac:(set_solver) Hrs) as (i & Hdir & Hdur & _).
  destruct (same_file_content _ _ _ i (Hsame id ltac:(by eexists) Hida) Hdir) as (Hdir' & Hc & Hdu).
  exists i. split_and!; [done|congruence|done].
Qed.

Lemma rotate_upto packs ps s :
  store_upto packs ps s → calm s → a_next (ps_active ps) < 2 ^ 32 →
  ∃ packs' ps' s', rotate_locked unix_now (ps, s) = (Ok (a_next (ps_active ps)), (ps', s')) ∧
    store_upto packs' ps' s' ∧ calm s' ∧ packs_le packs packs' ∧ grows ps ps' ∧
    ps_opts ps' = ps_opts ps ∧ ps_index ps' = ps_index ps ∧ ps_cache ps' = ps_cache ps ∧
    a_pack_id (ps_active ps') = a_next (ps_active ps) ∧
    a_next (ps_active ps') = a_next (ps_active ps) + 1 ∧
    w_offset (a_writer (ps_active ps')) = PACK_HEADER_SIZE ∧
    w_max (a_writer (ps_active ps')) = max_pack_bytes (ps_opts ps).
Proof.
  intros Hok Hs Hlt. destruct (rotate_upto_at packs ps s Hok Hs Hlt) as (ps' & s' & Hr). by eexists _, ps', s'.
Qed.

(** Appending one page: the record is in the active pack and the index
    names it. *)
Lemma append_upto_at packs ps s page hdr rs :
  store_upto packs ps s → calm s → zlen page = PAGE_SIZE →
  would_exceed_cap (a_writer (ps_active ps)) = false →
  index_get (ps_index ps) (blake3 page) = None →
  let id := a_pack_id (ps_active ps) in let off := zlen (hdr ++ body rs) in
  let packs' := <[id := (hdr, rs ++ [page_rec (blake3 page) page])]> packs in
  packs !! id = Some (hdr, rs) →
  ∃ w' c,
    let s' := set_content (h_ino (w_file (a_writer (ps_active ps)))) c s in
    let ps' := mk_store (index_insert (ps_index ps) (blake3 page) (mk_loc id off))
       (mk_active w' id ({[id]} ∪ a_dirty (ps_active ps)) (a_new_files (ps_active ps)) (a_next (ps_active ps)))
       (ps_opts ps) (ps_cache ps) in
    on_writer (append (blake3 page) page) (ps, s) =
      (Ok off, (set_active (set_writer w' (ps_active ps)) ps, s')) ∧
    store_upto packs' ps' s' ∧ calm s' ∧ packs_le packs packs' ∧ grows ps ps' ∧
    flat (ps_index ps') = <[blake3 page := mk_loc id off]> (flat (ps_index ps)) ∧ w_max w' = w_max (a_writer (ps_active ps)).
Proof.
  intros [Hi (Hd1 & Hd2 & Hd3)] Hs Hpl Hcap Hnew id off packs' Hid0. subst off packs'. destruct (si_active _ _ _ Hi) as (hdr' & rs' & Hp & Hw & Hd).
  assert (hdr' = hdr ∧ rs' = rs) as [-> ->] by (subst id; rewrite Hid0 in Hp; by simplify_eq).
  destruct (append_ok _ _ _ _ (blake3 page) page Hw Hs (zlen_blake3 page) Hpl Hcap)
    as (w' & c & Ha & Hw' & Hm & _ & Hino).
  set (i := h_ino (w_file (a_writer (ps_active ps)))) in *. set (s' := set_content i c s) in *.
  assert (store_inv (<[id := (hdr, rs ++ [page_rec (blake3 page) page])]> packs)
    (set_active (set_writer w' (ps_active ps)) ps) s') as Hi1.
  { eapply store_inv_write; [done|done|done|done| |by eexists].
    apply Forall_app. split; [by eapply (si_pages _ _ _ Hi)|]. by repeat constructor. }
  destruct (index_insert_refines (ps_index ps) (blake3 page) (mk_loc id (zlen (hdr ++ body rs))) (si_index _ _ _ Hi))
    as [Hok Hfl].
  assert (flat (index_insert (ps_index ps) (blake3 page) (mk_loc id (zlen (hdr ++ body rs)))) =
    <[blake3 page := mk_loc id (zlen (hdr ++ body rs))]> (flat (ps_index ps))) as Hfl'.
  { rewrite Hfl. unfold or_insert. by rewrite flat_lookup, Hnew by apply Hi. }
  exists w', c. cbv zeta. split_and!; [by apply on_writer_step| |done| | |done|done].
  - split.
    + destruct Hi1 as [Ha1 Ha2 Ha3 Ha4 Ha5 Ha6 Ha7 Ha8 Ha9 Ha10]. split; try done. simpl. intros h l.
      rewrite Hfl'. intros [[<- <-]|[Hne Hl]]%lookup_insert_Some; [|by apply Ha6].
      simpl. rewrite lookup_insert_eq. exists hdr, (rs ++ [page_rec (blake3 page) page]). split; [done|].
      rewrite locs_app. apply elem_of_app. right. rewrite zlen_app, (proj1 (wo_hdr _ _ _ _ Hw)). set_solver.
    + split_and!; simpl.
      * intros id' hdr' rs' Hid' Hnd Hne. rewrite lookup_insert_ne in Hid' by set_solver.
        destruct (Hd1 id' hdr' rs' Hid' ltac:(set_solver) Hne) as (j & Hj & Hdu & _).
        assert (j ≠ i) as Hji. { intros ->. eapply (active_ino_ne _ _ _ id'); [exact Hi|set_solver|by eexists|exact Hj]. }
        exists j. split_and!; [done| |set_solver].
        subst s'. by rewrite durable_set_content, content_set_content_ne by done.
      * intros HN Hnf id' Hid'. apply Hd2; [done|done|]. apply lookup_insert_is_Some in Hid' as [<-|[_ ?]]; [by eexists|done].
      * intros id' Hid'. apply lookup_insert_is_Some'.
        apply elem_of_union in Hid' as [->%elem_of_singleton|?]; [by left|right; by apply Hd3].
  - intros id' hdr' rs' Hid'. destruct (decide (id = id')) as [<-|Hne].
    + rewrite lookup_insert_eq. subst id. rewrite Hid0 in Hid'. simplify_eq. by eexists.
    + exists []. by rewrite lookup_insert_ne, app_nil_r.
  - split; [simpl; subst id; lia|]. simpl. intros h l. rewrite Hfl'.
    intros [[_ <-]|[_ Hl]]%lookup_insert_Some; [right; subst id; simpl; lia|by left].
Qed.

Lemma append_upto packs ps s page :
  store_upto packs ps s → calm s → zlen page = PAGE_SIZE →
  would_exceed_cap (a_writer (ps_active ps)) = false →
  index_get (ps_index ps) (blake3 page) = None →
  let id := a_pack_id (ps_active ps) in
  ∃ off w' s' packs',
    let ps' := mk_store (index_insert (ps_index ps) (blake3 page) (mk_loc id off))
       (mk_active w' id ({[id]} ∪ a_dirty (ps_active ps)) (a_new_files (ps_active ps)) (a_next (ps_active ps)))
       (ps_opts ps) (ps_cache ps) in
    on_writer (append (blake3 page) page) (ps, s) =
      (Ok off, (set_active (set_writer w' (ps_active ps)) ps, s')) ∧
    store_upto packs' ps' s' ∧ calm s' ∧ packs_le packs packs' ∧ grows ps ps' ∧
    flat (ps_index ps') = <[blake3 page := mk_loc id off]> (flat (ps_index ps)).
Proof.
  intros Hok Hs Hl Hcap Hn id. destruct (si_active _ _ _ (proj1 Hok)) as (hdr & rs & Hp & _).
  destruct (append_upto_at packs ps s page hdr rs Hok Hs Hl Hcap Hn Hp) as (w' & c & ? & ? & ? & ? & ? & ? & _). by eexists _, w', _, _.
Qed.

(** A store on which the next [n] pages fit: the cap admits one record per
    pack and the pack ids do not run out. *)
Definition has_room (ps : PageStore) (n : nat) : Prop :=
  PACK_HEADER_SIZE + RECORD_HEADER_SIZE + PAGE_SIZE ≤ max_pack_bytes (ps_opts ps) ∧
  a_next (ps_active ps) + Z.of_nat n ≤ 2 ^ 32.

(** The [active] section for one page that is not in the index. *)
Lemma write_miss_ok packs ps s pages page out i n :
  store_upto packs ps s → calm s → has_room ps (S n) →
  pages !! i = Some page → zlen page = PAGE_SIZE →
  flat (ps_index ps) !! blake3 page = None →
  ∃ l packs' ps' s',
    write_miss unix_now pages out (blake3 page, i) (ps, s) =
      (Ok (<[i := Some (mk_outcome (blake3 page) l true)]> out), (ps', s')) ∧
    store_upto packs' ps' s' ∧ calm s' ∧ has_room ps' n ∧ packs_le packs packs' ∧ grows ps ps' ∧
    flat (ps_index ps') = <[blake3 page := l]> (flat (ps_index ps)).
Proof.
  intros Hok Hs [Hr1 Hr2] Hpage Hlen Hnew. rewrite flat_lookup in Hnew by apply Hok.
  assert (∃ x packs1 ps1 s1,
    (if would_exceed_cap (a_writer (ps_active ps)) then rotate_locked unix_now
     else iret (a_pack_id (ps_active ps))) (ps, s) = (Ok x, (ps1, s1)) ∧
    store_upto packs1 ps1 s1 ∧ calm s1 ∧ packs_le packs packs1 ∧ grows ps ps1 ∧ has_room ps1 n ∧
    ps_index ps1 = ps_index ps ∧ would_exceed_cap (a_writer (ps_active ps1)) = false)
    as (x & packs1 & ps1 & s1 & Hrot & Hok1 & Hs1 & Hle1 & Hg1 & Hroom1 & Hidx & Hcap).
  { destruct (would_exceed_cap (a_writer (ps_active ps))) eqn:Hcap.
    - destruct (rotate_upto packs ps s Hok Hs ltac:(lia))
        as (packs1 & ps1 & s1 & Hr & Hok1 & Hs1 & Hle & Hg & Ho & Hx & _ & _ & Hn & Hoff & Hmax).
      exists (a_next (ps_active ps)), packs1, ps1, s1. split; [exact Hr|].
      split; [exact Hok1|]. split_and!; [done|done|done| |done|].
      + split; [by rewrite Ho|lia].
      + unfold would_exceed_cap. rewrite Hoff, Hmax. lia.
    - exists (a_pack_id (ps_active ps)), packs, ps, s. split; [done|]. split; [exact Hok|].
      split_and!; [done|done|done|split; [done|lia]|done|done]. }
  destruct (append_upto packs1 ps1 s1 page Hok1 Hs1 Hlen Hcap ltac:(by rewrite Hidx))
    as (off & w' & s' & packs' & Ha & Hok' & Hs' & Hle & Hg & Hfl).
  eexists _, packs', _, s'. split; [|split; [exact Hok'|split_and!]].
  - unfold write_miss. erewrite ibind_step by reflexivity. cbv beta iota. cbn [fst]. rewrite Hnew.
    erewrite ibind_step by exact Hrot. rewrite Hpage. erewrite ibind_step by exact Ha. reflexivity.
  - exact Hs'.
  - exact Hroom1.
  - by etrans.
  - by etrans.
  - cbn [ps_index]. etransitivity; [exact Hfl|]. by rewrite Hidx.
Qed.

(** ** Batch-local bookkeeping *)

(** [(h, i)]: the batch's first occurrence of [h] is at [i]. *)
Definition first_at (hashes : list PageHash) (h : PageHash) (i : nat) : Prop :=
  hashes !! i = Some h ∧ ∀ j, (j < i)%nat → hashes !! j ≠ Some h.

Lemma first_at_exists hashes h : h ∈ hashes → ∃ i, first_at hashes h i.
Proof.
  induction hashes as [|x hs IH]; [by intros ?%not_elem_of_nil|].
  destruct (decide (x = h)) as [->|Hne]; [exists 0%nat; split; [done|lia]|].
  intros [->|Hin]%elem_of_cons; [done|]. destruct (IH Hin) as (i & Hi & Hj). exists (S i). split; [done|].
  intros [|j] Hlt; simpl; [congruence|]. apply Hj. lia.
Qed.

Lemma batch_dedup_gen pre hs seen :
  NoDup seen.*1 → (∀ h i, (h, i) ∈ seen ↔ first_at pre h i) →
  let r := batch_dedup (length pre) hs seen in
  NoDup r.*1 ∧ ∀ h i, (h, i) ∈ r ↔ first_at (pre ++ hs) h i.
Proof.
  revert pre seen. induction hs as [|x hs IH]; intros pre seen Hnd Hs; cbn [batch_dedup].
  { by rewrite app_nil_r. }
  assert (x ∈ seen.*1 ↔ x ∈ pre) as Hx.
  { rewrite list_elem_of_fmap. split.
    - intros ([y i] & -> & Hin). apply Hs in Hin as [Hin _]. by apply list_elem_of_lookup_2 in Hin.
    - intros (i & Hi)%first_at_exists. exists (x, i). split; [done|]. by apply Hs. }
  assert (∀ h i, first_at (pre ++ [x]) h i ↔ first_at pre h i ∨ (h = x ∧ i = length pre ∧ x ∉ pre)) as Hfirst.
  { intros h i. split.
    - intros [Hi Hj]. apply lookup_snoc_Some in Hi as [[Hlt Hi]|[Hi ->]].
      + left. split; [done|]. intros j Hlt' Hjj. apply (Hj j Hlt'). by apply lookup_app_l_Some.
      + right. split_and!; [done|done|]. intros [j Hjj]%list_elem_of_lookup_1.
        apply (Hj j); [|by apply lookup_app_l_Some]. apply lookup_lt_Some in Hjj. lia.
    - intros [[Hi Hj]|(-> & -> & Hn)].
      + split; [by apply lookup_app_l_Some|]. intros j Hlt. apply lookup_lt_Some in Hi.
        rewrite lookup_app_l by lia. by apply Hj.
      + split; [by rewrite list_lookup_middle|]. intros j Hlt. rewrite lookup_app_l by lia.
        intros Hjj%list_elem_of_lookup_2. done. }
  specialize (IH (pre ++ [x]) (if bool_decide (x ∈ seen.*1) then seen else seen ++ [(x, length pre)])).
  rewrite length_app, Nat.add_1_r, <-app_assoc in IH. apply IH.
  - case_bool_decide; [done|]. rewrite fmap_app. apply NoDup_app. split_and!; [done| |apply NoDup_singleton].
    intros y Hy ->%list_elem_of_singleton. done.
  - intros h i. rewrite Hfirst, <-Hs. case_bool_decide as Hin; [naive_solver|].
    rewrite elem_of_app, list_elem_of_singleton. rewrite Hx in Hin. naive_solver.
Qed.

Lemma batch_dedup_spec hashes :
  NoDup (batch_dedup 0 hashes []).*1 ∧
  ∀ h i, (h, i) ∈ batch_dedup 0 hashes [] ↔ first_at hashes h i.
Proof.
  apply (batch_dedup_gen []); [apply NoDup_nil_2|]. intros h i. split; [by intros ?%not_elem_of_nil|].
  intros [Hi _]. by rewrite lookup_nil in Hi.
Qed.

(** The outcome slots once the first occurrences in [done] are settled:
    [idx0] is the index before the batch, [idx] the current one. *)
Definition slots_ok (idx0 idx : gmap PageHash PageLoc) (hashes : list PageHash)
    (done : list (PageHash * nat)) (out : outcome_slots) : Prop :=
  length out = length hashes ∧
  ∀ h i, hashes !! i = Some h →
    ((h, i) ∈ done → ∃ l, out !! i = Some (Some (mk_outcome h l (bool_decide (idx0 !! h = None)))) ∧ idx !! h = Some l) ∧
    ((h, i) ∉ done → out !! i = Some None).

Lemma slots_ok_init idx hashes : slots_ok idx idx hashes [] (replicate (length hashes) None).
Proof.
  split; [apply length_replicate|]. intros h i Hi. split; [by intros ?%not_elem_of_nil|]. intros _.
  apply lookup_replicate_2. by eapply lookup_lt_Some.
Qed.

Lemma slots_ok_step idx0 idx idx' hashes done out h i l :
  slots_ok idx0 idx hashes done out → idx ⊆ idx' → hashes !! i = Some h → idx' !! h = Some l →
  slots_ok idx0 idx' hashes ((h, i) :: done)
    (<[i := Some (mk_outcome h l (bool_decide (idx0 !! h = None)))]> out).
Proof.
  intros [Hlen Hs] Hsub Hi Hl. split; [by rewrite length_insert|]. intros h' j Hj.
  destruct (decide (i = j)) as [<-|Hne].
  - rewrite Hj in Hi. simplify_eq. rewrite list_lookup_insert_eq by (rewrite Hlen; by eapply lookup_lt_Some).
    split; [by eexists|]. intros Hn. destruct Hn. apply elem_of_cons. by left.
  - rewrite list_lookup_insert_ne by done. destruct (Hs h' j Hj) as [H1 H2]. split.
    + intros [?|Hin]%elem_of_cons; [by simplify_eq|]. destruct (H1 Hin) as (l' & Ho & Hl').
      exists l'. split; [done|]. by eapply lookup_weaken.
    + intros Hn. apply H2. intros Hin. apply Hn, elem_of_cons. by right.
Qed.

Lemma slots_ok_done idx0 idx hashes done done' out :
  (∀ x, x ∈ done ↔ x ∈ done') → slots_ok idx0 idx hashes done out → slots_ok idx0 idx hashes done' out.
Proof. intros Hd [Hl Hs]. split; [done|]. intros h i Hi. rewrite <-!Hd. by apply Hs. Qed.

Lemma probe_ok idx hashes uniq done out tw :
  index_ok idx → (∀ h i, (h, i) ∈ uniq → hashes !! i = Some h) →
  slots_ok (flat idx) (flat idx) hashes done out →
  ∃ out', probe idx uniq out tw =
      (out', tw ++ filter (λ x, flat idx !! x.1 = None) uniq) ∧
    slots_ok (flat idx) (flat idx) hashes (filter (λ x, flat idx !! x.1 ≠ None) uniq ++ done) out'.
Proof.
  intros Hok. revert done out tw. induction uniq as [|[h i] uniq IH]; intros done out tw Hu Hs.
  { exists out. by rewrite app_nil_r. }
  cbn [probe]. rewrite !filter_cons. cbn [fst]. rewrite <-flat_lookup by done.
  assert (∀ h i, (h, i) ∈ uniq → hashes !! i = Some h) as Hu' by (intros; apply Hu; set_solver).
  destruct (flat idx !! h) as [l|] eqn:Hl.
  - rewrite decide_False by done. rewrite decide_True by done.
    pose proof (slots_ok_step _ _ (flat idx) _ _ _ h i l Hs ltac:(done) ltac:(apply Hu; set_solver) Hl) as Hs'.
    rewrite Hl, bool_decide_false in Hs' by done.
    destruct (IH _ _ tw Hu' Hs') as (out' & Hp & Ho). exists out'. split; [done|].
    eapply slots_ok_done; [|exact Ho]. set_solver.
  - rewrite decide_True by done. rewrite decide_False by naive_solver.
    destruct (IH done out (tw ++ [(h, i)]) Hu' Hs) as (out' & Hp & Ho). exists out'.
    rewrite <-app_assoc in Hp. done.
Qed.

Lemma write_misses_ok idx0 pages tw packs ps s done out k :
  Forall (λ p, zlen p = PAGE_SIZE) pages →
  store_upto packs ps s → calm s → has_room ps (length tw + k) → NoDup tw.*1 →
  (∀ h i, (h, i) ∈ tw → (blake3 <$> pages) !! i = Some h ∧ idx0 !! h = None ∧ flat (ps_index ps) !! h = None) →
  slots_ok idx0 (flat (ps_index ps)) (blake3 <$> pages) done out →
  ∃ out' packs' ps' s',
    write_misses unix_now pages out tw (ps, s) = (Ok out', (ps', s')) ∧
    store_upto packs' ps' s' ∧ calm s' ∧ packs_le packs packs' ∧ grows ps ps' ∧
    has_room ps' k ∧ flat (ps_index ps) ⊆ flat (ps_index ps') ∧
    dom (flat (ps_index ps')) = dom (flat (ps_index ps)) ∪ list_to_set tw.*1 ∧
    slots_ok idx0 (flat (ps_index ps')) (blake3 <$> pages) (tw ++ done) out'.
Proof.
  intros Hlens. revert packs ps s done out. induction tw as [|[h i] tw IH];
    intros packs ps s done out Hok Hs Hroom Hnd Htw Hsl.
  { exists out, packs, ps, s. split_and!; try done. set_solver. }
  cbn [fmap list_fmap fst] in Hnd. apply NoDup_cons in Hnd as [Hnh Hnd].
  destruct (Htw h i ltac:(set_solver)) as (Hi & Hi0n & Hn). pose proof Hi as Hi0.
  rewrite list_lookup_fmap in Hi. destruct (pages !! i) as [page|] eqn:Hp; [|done]. simplify_eq/=.
  destruct (write_miss_ok packs ps s pages page out i (length tw + k) Hok Hs Hroom Hp
    ltac:(by eapply Forall_lookup_1 in Hlens) Hn) as (l & packs1 & ps1 & s1 & Hw & Hok1 & Hs1 & Hroom1 & Hle & Hg & Hfl).
  assert (flat (ps_index ps) ⊆ flat (ps_index ps1)) as Hsub by (rewrite Hfl; by apply insert_subseteq).
  pose proof (slots_ok_step idx0 _ (flat (ps_index ps1)) _ _ _ (blake3 page) i l Hsl Hsub Hi0
    ltac:(by rewrite Hfl, lookup_insert_eq)) as Hsl1. rewrite bool_decide_true in Hsl1 by done.
  assert (∀ h j, (h, j) ∈ tw →
    (blake3 <$> pages) !! j = Some h ∧ idx0 !! h = None ∧ flat (ps_index ps1) !! h = None) as Htw1.
  { intros h' j Hj. destruct (Htw h' j ltac:(set_solver)) as (A1 & A2 & A3). split_and!; [done|done|].
    rewrite Hfl, lookup_insert_ne; [done|]. intros <-. apply Hnh, list_elem_of_fmap. by exists (blake3 page, j). }
  destruct (IH packs1 ps1 s1 _ _ Hok1 Hs1 Hroom1 Hnd Htw1 Hsl1)
    as (out' & packs' & ps' & s' & Hws & Hok' & Hs' & Hle' & Hg' & Hk' & Hsub' & Hdom & Hsl').
  exists out', packs', ps', s'. split; [|split; [exact Hok'|split_and!]].
  - cbn [write_misses]. erewrite ibind_step by exact Hw. exact Hws.
  - done.
  - by etrans.
  - by etrans.
  - done.
  - by etrans.
  - rewrite Hdom, Hfl. set_solver.
  - eapply slots_ok_done; [|exact Hsl']. set_solver.
Qed.

Lemma fill_outcomes_ok idx hashes out :
  length out = length hashes →
  (∀ i h, hashes !! i = Some h → out !! i = Some None → is_Some (index_get idx h)) →
  ∃ r, fill_outcomes idx hashes out = Ok r ∧ length r = length hashes ∧
    ∀ i h, hashes !! i = Some h →
      (∀ x, out !! i = Some (Some x) → r !! i = Some x) ∧
      (∀ l, out !! i = Some None → index_get idx h = Some l → r !! i = Some (mk_outcome h l false)).
Proof.
  revert out. induction hashes as [|h hs IH]; intros [|o os] Hlen Hn; simplify_eq/=.
  { exists []. done. }
  destruct (IH os ltac:(lia)) as (r & Hr & Hl & Hs). { intros i. apply (Hn (S i)). }
  assert (∃ x, match o with Some x => Ok x
               | None => let? l := expect (index_get idx h) in Ok (mk_outcome h l false) end = Ok (E:=StoreError) x ∧
    (∀ y, o = Some y → x = y) ∧ (∀ l, o = None → index_get idx h = Some l → x = mk_outcome h l false))
    as (x & Hx & Hx1 & Hx2).
  { destruct o as [y|]; [exists y; split_and!; [done|by intros ? [= ->]|done]|].
    destruct (Hn 0%nat h eq_refl eq_refl) as [l Hl0]. rewrite Hl0. eexists. split; [reflexivity|]. naive_solver. }
  rewrite Hx. cbn. rewrite Hr. exists (x :: r). split; [done|]. simpl. split; [lia|].
  intros [|i] h' Hi; simplify_eq/=; [|by apply Hs]. split; [intros ? [= ->]; f_equal; by apply Hx1|].
  intros l [= ->] Hl'. f_equal. by apply Hx2.
Qed.

(** The first occurrence in the batch of a page the store did not have. *)
Definition is_new (idx0 : ShardedIndex) (pages : list bytes) (i : nat) (page : bytes) : Prop :=
  flat idx0 !! blake3 page = None ∧ ∀ j q, (j < i)%nat → pages !! j = Some q → blake3 q ≠ blake3 page.

(** What [ingest] promises, from [ps] to [ps'] with result [out]. *)
Record ingested (pages : list bytes) (ps ps' : PageStore) (out : list IngestOutcome) : Prop := {
  ig_length : length out = length pages;
  ig_grows : flat (ps_index ps) ⊆ flat (ps_index ps');
  ig_dom : dom (flat (ps_index ps')) = dom (flat (ps_index ps)) ∪ list_to_set (blake3 <$> pages);
  ig_outcome : ∀ i page, pages !! i = Some page →
    ∃ l b, out !! i = Some (mk_outcome (blake3 page) l b) ∧
      index_get (ps_index ps') (blake3 page) = Some l ∧ (b = true ↔ is_new (ps_index ps) pages i page);
}.

Lemma outcomes_ingested pages ps ps' out0 uniq :
  index_ok (ps_index ps') → flat (ps_index ps) ⊆ flat (ps_index ps') →
  dom (flat (ps_index ps')) = dom (flat (ps_index ps)) ∪ list_to_set (blake3 <$> pages) →
  (∀ h i, (h, i) ∈ uniq ↔ first_at (blake3 <$> pages) h i) →
  slots_ok (flat (ps_index ps)) (flat (ps_index ps')) (blake3 <$> pages) uniq out0 →
  ∃ out, fill_outcomes (ps_index ps') (blake3 <$> pages) out0 = Ok out ∧ ingested pages ps ps' out.
Proof.
  intros Hok Hsub Hdom Hu [Hlen Hs].
  assert (∀ i h, (blake3 <$> pages) !! i = Some h → is_Some (index_get (ps_index ps') h)) as Hin.
  { intros i h Hi. rewrite <-flat_lookup by done. apply elem_of_dom. rewrite Hdom. apply elem_of_union_r.
    apply elem_of_list_to_set. by eapply list_elem_of_lookup_2. }
  destruct (fill_outcomes_ok (ps_index ps') _ out0 Hlen) as (r & Hr & Hrl & Hrs). { intros; by eapply Hin. }
  exists r. split; [done|]. split; [by rewrite Hrl, length_fmap|done|done|].
  intros i page Hp. assert ((blake3 <$> pages) !! i = Some (blake3 page)) as Hi by by rewrite list_lookup_fmap, Hp.
  assert (first_at (blake3 <$> pages) (blake3 page) i ↔
    ∀ j q, (j < i)%nat → pages !! j = Some q → blake3 q ≠ blake3 page) as Hfa.
  { split.
    - intros [_ Hj] j q Hlt Hq Heq. apply (Hj j Hlt). by rewrite list_lookup_fmap, Hq, <-Heq.
    - intros Hj. split; [done|]. intros j Hlt. rewrite list_lookup_fmap.
      destruct (pages !! j) as [q|] eqn:Hq; [|done]. intros [= Heq]. by eapply Hj. }
  destruct (Hs _ _ Hi) as [H1 H2]. destruct (Hrs _ _ Hi) as [H3 H4].
  destruct (decide ((blake3 page, i) ∈ uniq)) as [Hd|Hd].
  - destruct (H1 Hd) as (l & Ho & Hl). exists l, (bool_decide (flat (ps_index ps) !! blake3 page = None)).
    split_and!; [by apply H3|by rewrite <-flat_lookup|]. rewrite bool_decide_eq_true. unfold is_new.
    apply Hu in Hd. pose proof (proj1 Hfa Hd). naive_solver.
  - destruct (Hin _ _ Hi) as [l Hl]. exists l, false. split_and!; [by apply H4; [apply H2|]|done|].
    split; [done|]. intros [_ Hf]. destruct Hd. by apply Hu, (proj2 Hfa).
Qed.

Lemma has_room_le ps m n : (m ≤ n)%nat → has_room ps n → has_room ps m.
Proof. intros ? []. split; [done|lia]. Qed.

Lemma ingest_upto iter packs ps s pages k :
  (∀ l, iter l ≡ₚ l) → store_upto packs ps s → calm s →
  Forall (λ p, zlen p = PAGE_SIZE) pages → has_room ps (length pages + k) →
  ∃ out packs' ps' s',
    ingest unix_now iter pages (ps, s) = (Ok out, (ps', s')) ∧
    ingested pages ps ps' out ∧ store_upto packs' ps' s' ∧ calm s' ∧ packs_le packs packs' ∧ grows ps ps' ∧ has_room ps' k.
Proof.
  intros Hiter Hok Hs Hlens Hroom. unfold ingest. case_bool_decide as Hnil.
  { subst. exists [], packs, ps, s. split; [done|]. split; [|done]. split; [done|done| |done].
    simpl. set_solver. }
  set (hashes := blake3 <$> pages). set (uniq := iter (batch_dedup 0 hashes [])).
  destruct (batch_dedup_spec hashes) as [Hnd Hu]. rewrite <-(Hiter (batch_dedup 0 hashes [])) in Hnd.
  fold uniq in Hnd. assert (∀ h i, (h, i) ∈ uniq ↔ first_at hashes h i) as Hu'
    by (intros h i; rewrite <-Hu; unfold uniq; by rewrite Hiter). clear Hu. rename Hu' into Hu.
  assert (∀ h i, (h, i) ∈ uniq → hashes !! i = Some h) as Hu1 by (intros h i [? _]%Hu; done).
  assert (index_ok (ps_index ps)) as Hix by apply Hok.
  pose proof (slots_ok_init (flat (ps_index ps)) hashes) as Hs0. unfold hashes at 2 in Hs0. rewrite length_fmap in Hs0.
  destruct (probe_ok (ps_index ps) hashes uniq [] _ [] Hix Hu1 Hs0) as (out0 & Hpr & Hs1).
  set (tw := filter (λ x, flat (ps_index ps) !! x.1 = None) uniq) in *.
  assert (NoDup tw.*1) as Hndw by (eapply sublist_NoDup; [exact Hnd|]; apply fmap_sublist, sublist_filter).
  assert (length tw ≤ length pages)%nat as Hlen.
  { rewrite <-(length_fmap fst tw), <-(length_fmap blake3 pages). apply submseteq_length, NoDup_submseteq; [done|].
    intros h ([h' i] & -> & [_ Hin]%list_elem_of_filter)%list_elem_of_fmap.
    apply Hu1 in Hin. by eapply list_elem_of_lookup_2. }
  assert (∀ h i, (h, i) ∈ tw →
    hashes !! i = Some h ∧ flat (ps_index ps) !! h = None ∧ flat (ps_index ps) !! h = None) as Htw.
  { intros h i [Hn Hin]%list_elem_of_filter. split_and!; [by apply Hu1|done|done]. }
  destruct (write_misses_ok (flat (ps_index ps)) pages tw packs ps s _ out0 k Hlens Hok Hs
    (has_room_le _ (length tw + k) (length pages + k) ltac:(lia) Hroom) Hndw Htw Hs1)
    as (out1 & packs' & ps' & s' & Hw & Hok' & Hs' & Hle & Hg & Hk & Hsub & Hdom & Hs2).
  destruct (outcomes_ingested pages ps ps' out1 uniq) as (out & Hf & Hig); [apply Hok'|done| |done| |].
  - rewrite Hdom. apply set_eq. intros h. rewrite !elem_of_union, !elem_of_list_to_set, elem_of_dom. split.
    + intros [?|([h' i] & -> & [_ Hin]%list_elem_of_filter)%list_elem_of_fmap]; [by left|right].
      apply Hu1 in Hin. by eapply list_elem_of_lookup_2.
    + intros [?|(i & Hi)%first_at_exists]; [by left|]. destruct (flat (ps_index ps) !! h) as [l|] eqn:Hl; [left; by eexists|].
      right. apply list_elem_of_fmap. exists (h, i). split; [done|]. apply list_elem_of_filter. split; [done|].
      by apply Hu.
  - eapply slots_ok_done; [|exact Hs2]. intros x. unfold tw. rewrite !elem_of_app, !list_elem_of_filter, elem_of_nil.
    clear. cbv beta. destruct (decide (flat (ps_index ps) !! x.1 = None)); tauto.
  - exists out, packs', ps', s'. split; [|done]. erewrite ibind_step by reflexivity. cbn [fst]. rewrite Hpr.
    cbv beta iota. erewrite ibind_step by exact Hw. erewrite ibind_step by reflexivity. cbn [fst].
    fold hashes in Hf. by rewrite Hf.
Qed.

End ingest.

(** ** Between garbage collections *)

Section whole.
Context `{Blake3, Crc32} (unix_now : Z).

Definition dirty_ok (packs : packs_t) (ps : PageStore) (s : fs) : Prop :=
  (∀ id hdr rs, packs !! id = Some (hdr, rs) → id ∉ a_dirty (ps_active ps) → rs ≠ [] →
     ∃ i, fs_dir s !! pack_path id = Some i ∧ durable s i = content s i ∧
       (id = a_pack_id (ps_active ps) → w_buf (a_writer (ps_active ps)) = [])) ∧
  (a_new_files (ps_active ps) = false →
     ∀ id, is_Some (packs !! id) → fs_ddir s !! pack_path id = fs_dir s !! pack_path id) ∧
  (∀ id, id ∈ a_dirty (ps_active ps) → is_Some (packs !! id)).

Definition store_ok (packs : packs_t) (ps : PageStore) (s : fs) : Prop :=
  store_inv packs ps s ∧ dirty_ok packs ps s.

Lemma store_upto_True packs ps s : store_upto True packs ps s ↔ store_ok packs ps s.
Proof. unfold store_upto, store_ok, dirty_upto, dirty_ok. naive_solver. Qed.

Lemma rotate_store_ok packs ps s :
  store_ok packs ps s → calm s → a_next (ps_active ps) < 2 ^ 32 →
  ∃ packs' ps' s', rotate_locked unix_now (ps, s) = (Ok (a_next (ps_active ps)), (ps', s')) ∧
    store_ok packs' ps' s' ∧ calm s' ∧ packs_le packs packs' ∧
    ps_opts ps' = ps_opts ps ∧ ps_index ps' = ps_index ps ∧ ps_cache ps' = ps_cache ps ∧
    a_pack_id (ps_active ps') = a_next (ps_active ps) ∧
    a_next (ps_active ps') = a_next (ps_active ps) + 1 ∧
    w_offset (a_writer (ps_active ps')) = PACK_HEADER_SIZE ∧
    w_max (a_writer (ps_active ps')) = max_pack_bytes (ps_opts ps).
Proof.
  intros Hok%store_upto_True Hs Hlt. destruct (rotate_upto unix_now True packs ps s Hok Hs Hlt)
    as (packs' & ps' & s' & Hr & Hok'%store_upto_True & Hs' & Hle & _ & H'). by exists packs', ps', s'.
Qed.

Lemma ingest_ok iter packs ps s pages :
  (∀ l, iter l ≡ₚ l) → store_ok packs ps s → calm s →
  Forall (λ p, zlen p = PAGE_SIZE) pages → has_room ps (length pages) →
  ∃ out packs' ps' s',
    ingest unix_now iter pages (ps, s) = (Ok out, (ps', s')) ∧
    ingested pages ps ps' out ∧ store_ok packs' ps' s' ∧ calm s' ∧ packs_le packs packs'.
Proof.
  rewrite <-(Nat.add_0_r (length pages)).
  intros Hi Hok%store_upto_True Hs Hl Hr. destruct (ingest_upto unix_now True iter packs ps s pages 0 Hi Hok Hs Hl Hr)
    as (out & packs' & ps' & s' & He & Hig & Hok'%store_upto_True & Hs' & Hle & _). by exists out, packs', ps', s'.
Qed.

End whole.
