(* ===== verification/PageStoreRead.v ===== *)
(** * Reads are correct

    Functional specification of [PageStore::get_batch]: every slot of the
    result is the page its hash names, and the ingest/read round trip. *)

From S2P Require Import Prelude Types Fs Pack Index Names ReadCache PageStore PageStoreInv PageStoreIngest.

Section reads.
Context `{Blake3, Crc32} (unix_now : Z).

(** [d] is the payload of a record for [h] in the pack [l] names. *)
Definition page_of (packs : packs_t) (l : PageLoc) (h : PageHash) (d : bytes) : Prop :=
  ∃ hdr rs r, packs !! pack l = Some (hdr, rs) ∧ r ∈ rs ∧ rr_hash r = h ∧ rr_payload r = d.

Lemma page_of_hash packs ps s l h d :
  store_inv packs ps s → page_of packs l h d → blake3 d = h ∧ zlen d = PAGE_SIZE.
Proof.
  intros Hi (hdr & rs & r & Hp & Hr & <- & <-). pose proof (si_pages _ _ _ Hi _ _ _ Hp) as Hok.
  rewrite Forall_forall in Hok. destruct (Hok r Hr). by split.
Qed.

(** ** Through the handle cache *)

Lemma lru_insert_lookup m p f q v :
  lru_entries m !! p = None → lru_entries (lru_insert m p f) !! q = Some v →
  (q = p ∧ v.1 = f) ∨ lru_entries m !! q = Some v.
Proof.
  intros Hp. unfold lru_insert. rewrite Hp. simpl. intros [[-> <-]|[Hne Hq]]%lookup_insert_Some; [by left|right].
  case_match; [|done]. case_match; [|done]. by apply lookup_delete_Some in Hq as [_ ?].
Qed.

Lemma store_inv_cache packs ps s m :
  store_inv packs ps s →
  (∀ p f g, lru_entries m !! p = Some (f, g) →
    p ≠ a_pack_id (ps_active ps) ∧ is_Some (packs !! p) ∧ fs_dir s !! pack_path p = Some (h_ino f)) →
  store_inv packs (set_cache m ps) s.
Proof. intros [] Hm. by split. Qed.

Lemma open_sealed_fast_ok p id hdr rs s :
  calm s → sealed_at s id hdr rs → fs_wf s →
  ∃ f, open_sealed_fast (pack_path id) p s = (Ok f, s) ∧ fs_dir s !! pack_path id = Some (h_ino f).
Proof.
  intros Hs ([Hh Hm] & i & Hi & Hc) Hwf. exists (mk_handle i 0). split; [|done]. unfold open_sealed_fast.
  erewrite ibind_step by (apply imap_step; unfold open_existing; rewrite syscall_calm, Hi by done; reflexivity).
  unfold PACK_HEADER_SIZE in Hh. pose proof (zlen_nonneg (body rs ++ pack_footer (zlen rs) (body rs))).
  erewrite ibind_step by (apply imap_step, read_exact_at_calm; cbn [h_ino];
    [done|lia|rewrite Hc; unfold sealed_bytes; rewrite zlen_app; lia]).
  cbn [h_ino]. rewrite Hc. unfold sealed_bytes. rewrite Z.add_0_l, sub_app_l, Hm by lia.
  by rewrite bool_decide_eq_true_2.
Qed.

Lemma get_or_open_ok packs ps s p :
  store_inv packs ps s → calm s → is_Some (packs !! p) → p ≠ a_pack_id (ps_active ps) →
  ∃ f m, get_or_open p (ps_cache ps, s) = (Ok f, (m, s)) ∧
    fs_dir s !! pack_path p = Some (h_ino f) ∧ store_inv packs (set_cache m ps) s.
Proof.
  intros Hi Hs [[hdr rs] Hp] Hne. unfold get_or_open, lru_get.
  destruct (lru_entries (ps_cache ps) !! p) as [[f g]|] eqn:Hf.
  - eexists f, _. split; [reflexivity|]. destruct (si_cache _ _ _ Hi _ _ _ Hf) as (_ & _ & Hd).
    split; [done|]. apply store_inv_cache; [done|]. simpl.
    intros q f' g' [[<- [= <- <-]]|[_ Hq]]%lookup_insert_Some; [|by eapply (si_cache _ _ _ Hi)].
    split_and!; [done|by eexists|done].
  - pose proof (si_sealed _ _ _ Hi _ _ _ Hne Hp) as Hse.
    destruct (open_sealed_fast_ok p p hdr rs s Hs Hse (si_wf _ _ _ Hi)) as (f & Ho & Hd). rewrite Ho.
    eexists f, _. split; [reflexivity|]. split; [done|]. apply store_inv_cache; [done|].
    intros q f' g' Hq. apply lru_insert_lookup in Hq as [[-> Hq]|Hq]; [|by eapply (si_cache _ _ _ Hi)|done].
    simpl in Hq. subst. split_and!; [done|by eexists|done].
Qed.

(** A lookup of [hashes] that the index resolved. *)
Definition valid (hashes : list PageHash) (ps : PageStore) (x : lookup_t) : Prop :=
  hashes !! x.1.1 = Some x.1.2 ∧ flat (ps_index ps) !! x.1.2 = Some x.2.

Lemma read_in_group_ok packs ps s hashes f x :
  store_inv packs ps s → calm s → valid hashes ps x → pack x.2 ≠ a_pack_id (ps_active ps) →
  fs_dir s !! pack_path (pack x.2) = Some (h_ino f) →
  ∃ d, read_in_group f x (ps, s) = (Ok (x.1.1, Some d), (ps, s)) ∧ page_of packs x.2 x.1.2 d.
Proof.
  destruct x as [[i h] l]. intros Hi Hs [_ Hl] Hne Hf. cbn [fst snd] in *.
  destruct (si_loc _ _ _ Hi _ _ Hl) as (hdr & rs & Hp & Hin).
  destruct (si_sealed _ _ _ Hi _ _ _ Hne Hp) as (Hh & j & Hj & Hc). rewrite Hf in Hj. injection Hj as <-.
  destruct (read_back_ok f hdr rs _ (offset l) h s Hs Hh Hc (si_pages _ _ _ Hi _ _ _ Hp) Hin) as (r & Hr & Hrh & Hrd).
  exists (rr_payload r). unfold read_in_group. cbn [snd fst]. rewrite Hrd. split; [done|]. by exists hdr, rs, r.
Qed.

(** Result slots once the lookups in [done] are read. *)
Definition got (packs : packs_t) (hashes : list PageHash) (done : list lookup_t) (out : read_slots) : Prop :=
  length out = length hashes ∧
  ∀ i h, hashes !! i = Some h →
    (∀ l, (i, h, l) ∈ done → ∃ d, out !! i = Some (Some d) ∧ page_of packs l h d) ∧
    ((∀ l, (i, h, l) ∉ done) → out !! i = Some None).

Lemma got_init packs hashes : got packs hashes [] (replicate (length hashes) None).
Proof.
  split; [apply length_replicate|]. intros i h Hi. split; [by intros l ?%not_elem_of_nil|]. intros _.
  apply lookup_replicate_2. by eapply lookup_lt_Some.
Qed.

Lemma got_step packs hashes ps done out x d :
  Forall (valid hashes ps) done → valid hashes ps x → page_of packs x.2 x.1.2 d →
  got packs hashes done out → got packs hashes (x :: done) (<[x.1.1 := Some d]> out).
Proof.
  destruct x as [[i h] l]. cbn [fst snd]. intros Hdone [Hi Hl] Hd [Hlen Hg]. cbn [fst snd] in *.
  split; [by rewrite length_insert|]. intros j h' Hj. destruct (decide (i = j)) as [<-|Hne].
  - rewrite Hj in Hi. simplify_eq. rewrite list_lookup_insert_eq by (rewrite Hlen; by eapply lookup_lt_Some).
    split; [|intros Hn; by destruct (Hn l); left]. intros l' Hin. exists d. split; [done|].
    apply elem_of_cons in Hin as [?|Hin]; [by simplify_eq|].
    rewrite Forall_forall in Hdone. destruct (Hdone _ Hin) as [_ Hl']. cbn in Hl'. rewrite Hl in Hl'. by simplify_eq.
  - rewrite list_lookup_insert_ne by done. destruct (Hg j h' Hj) as [H1 H2]. split.
    + intros l' [?|Hin]%elem_of_cons; [by simplify_eq|]. by apply H1.
    + intros Hn. apply H2. intros l' Hin. apply (Hn l'). by right.
Qed.

Lemma got_done packs hashes done done' out :
  (∀ x, x ∈ done ↔ x ∈ done') → got packs hashes done out → got packs hashes done' out.
Proof. intros Hd [Hl Hs]. split; [done|]. intros i h Hi. setoid_rewrite <-Hd. by apply Hs. Qed.

(** ** Sealed packs *)

Lemma read_group_ok packs ps s hashes f p group :
  store_inv packs ps s → calm s → p ≠ a_pack_id (ps_active ps) →
  fs_dir s !! pack_path p = Some (h_ino f) →
  Forall (valid hashes ps) group → Forall (λ x, pack x.2 = p) group →
  ∃ reads, read_group f group (ps, s) = (Ok reads, (ps, s)) ∧
    Forall2 (λ (x : lookup_t) r, ∃ d, r = (x.1.1, Some d) ∧ page_of packs x.2 x.1.2 d) group reads.
Proof.
  intros Hi Hs Hne Hf. induction group as [|x group IH]; intros Hv Hp; [by exists []|].
  apply Forall_cons in Hv as [Hx Hv]. apply Forall_cons in Hp as [Hxp Hp]. subst p.
  destruct (read_in_group_ok packs ps s hashes f x Hi Hs Hx Hne Hf) as (d & Hr & Hd).
  destruct (IH Hv Hp) as (reads & Hrs & Hf2). exists ((x.1.1, Some d) :: reads). split.
  - cbn [read_group]. erewrite ibind_step by exact Hr. by erewrite ibind_step by exact Hrs.
  - constructor; [by exists d|done].
Qed.

Lemma store_reads_got packs hashes ps group reads dn out :
  Forall (valid hashes ps) dn → Forall (valid hashes ps) group →
  Forall2 (λ (x : lookup_t) r, ∃ d, r = (x.1.1, Some d) ∧ page_of packs x.2 x.1.2 d) group reads →
  got packs hashes dn out → got packs hashes (group ++ dn) (store_reads reads out).
Proof.
  intros Hd Hv Hf. revert dn out Hd. induction Hf as [|x r group reads (d & -> & Hp) Hf IH]; intros dn out Hd Hg; [done|].
  apply Forall_cons in Hv as [Hx Hv]. cbn [store_reads fold_left fst snd].
  eapply got_done; [|apply (IH Hv (x :: dn)); [by constructor|by eapply got_step]].
  intros y. rewrite !elem_of_app, !elem_of_cons. tauto.
Qed.

Lemma split_run_spec p ls g r :
  split_run p ls = (g, r) → ls = g ++ r ∧ Forall (λ x, pack x.2 = p) g.
Proof.
  revert g. induction ls as [|x ls IH]; intros g; cbn [split_run]; [intros [= <- <-]; by split|].
  destruct (pack x.2 =? p) eqn:Hx.
  - destruct (split_run p ls) as [g' r'] eqn:Hs. intros [= <- <-]. destruct (IH g' eq_refl) as [-> Hg].
    split; [done|]. constructor; [lia|done].
  - intros [= <- <-]. by split.
Qed.

Lemma valid_cache hashes ps m x : valid hashes (set_cache m ps) x ↔ valid hashes ps x.
Proof. done. Qed.

Lemma read_sealed_ok packs hashes fuel ls ps s dn out :
  (length ls < fuel)%nat → store_inv packs ps s → calm s →
  Forall (valid hashes ps) ls → Forall (λ x, pack x.2 ≠ a_pack_id (ps_active ps)) ls →
  Forall (valid hashes ps) dn → got packs hashes dn out →
  ∃ out' m, read_sealed fuel ls out (ps, s) = (Ok out', (set_cache m ps, s)) ∧
    store_inv packs (set_cache m ps) s ∧ got packs hashes (ls ++ dn) out'.
Proof.
  revert ls ps dn out. induction fuel as [|fuel IH]; intros ls ps dn out Hfuel Hi Hs Hv Hp Hd Hg; [lia|].
  cbn [read_sealed]. destruct ls as [|x ls0] eqn:Hls.
  { exists out, (ps_cache ps). by destruct ps. }
  rewrite <-Hls in *. destruct (split_run (pack x.2) ls) as [g r] eqn:Hsr.
  destruct (split_run_spec _ _ _ _ Hsr) as [Heq Hgp].
  assert (valid hashes ps x ∧ pack x.2 ≠ a_pack_id (ps_active ps)) as [Hx Hxp].
  { rewrite Hls in Hv, Hp. by inversion Hv; inversion Hp. }
  assert (length r < length ls)%nat as Hlr.
  { rewrite Heq, length_app. destruct g as [|y g]; [|simpl; lia]. exfalso. rewrite Hls in Hsr. cbn [split_run] in Hsr.
    rewrite Z.eqb_refl in Hsr. by destruct (split_run (pack x.2) ls0). }
  destruct (si_loc _ _ _ Hi _ _ (proj2 Hx)) as (hdr & rs & Hpk & _).
  destruct (get_or_open_ok packs ps s (pack x.2) Hi Hs ltac:(by eexists) Hxp) as (f & m & Ho & Hf & Hi1).
  assert (Forall (valid hashes ps) g ∧ Forall (valid hashes ps) r) as [Hvg Hvr] by (by rewrite Heq in Hv; apply Forall_app in Hv).
  destruct (read_group_ok packs (set_cache m ps) s hashes f (pack x.2) g Hi1 Hs Hxp Hf Hvg Hgp) as (reads & Hrd & Hf2).
  pose proof (store_reads_got packs hashes ps g reads dn out Hd Hvg Hf2 Hg) as Hg1.
  destruct (IH r (set_cache m ps) (g ++ dn) (store_reads reads out)) as (out' & m' & Hr & Hi2 & Hg2);
    [lia|done|done|done| |by apply Forall_app|done|].
  { rewrite Heq in Hp. by apply Forall_app in Hp as [_ ?]. }
  exists out', m'. split; [|split; [exact Hi2|]].
  - erewrite ibind_step by (unfold itry; erewrite on_cache_step by exact Ho; reflexivity).
    cbv beta iota. erewrite ibind_step by (erewrite ibind_step by exact Hrd; reflexivity). exact Hr.
  - eapply got_done; [|exact Hg2]. intros y. rewrite Heq, !elem_of_app. tauto.
Qed.

(** ** The active pack *)

(** The active pack with its buffer flushed. *)
Definition flushed (packs : packs_t) (ps : PageStore) (s : fs) : Prop :=
  ∃ hdr rs, packs !! a_pack_id (ps_active ps) = Some (hdr, rs) ∧ header_ok hdr ∧
    content s (h_ino (w_file (a_writer (ps_active ps)))) = hdr ++ body rs.

Lemma read_active_one_ok packs ps s hashes x :
  store_inv packs ps s → calm s → flushed packs ps s →
  valid hashes ps x → pack x.2 = a_pack_id (ps_active ps) →
  ∃ d, read_active_one x (ps, s) = (Ok d, (ps, s)) ∧ page_of packs x.2 x.1.2 d.
Proof.
  destruct x as [[i h] l]. intros Hi Hs (hdr & rs & Hp & [Hh _] & Hc) [_ Hl] Hpk. cbn [fst snd] in *.
  destruct (si_loc _ _ _ Hi _ _ Hl) as (hdr' & rs' & Hp' & Hin). rewrite Hpk, Hp in Hp'.
  injection Hp' as <- <-.
  pose proof (si_pages _ _ _ Hi _ _ _ Hp) as Hok.
  destruct (locs_split _ _ _ _ Hin) as (rs1 & r & rs2 & -> & <- & Hoff).
  apply Forall_app in Hok as [_ [Hr _]%Forall_cons]. pose proof (page_ok_shape r Hr) as Hsh.
  destruct Hr as [Hpl Hhash]. pose proof (zlen_encode_rrec r Hsh) as Hlr.
  pose proof (zlen_nonneg (body rs1)). pose proof (zlen_nonneg (body rs2)).
  assert (content s (h_ino (w_file (a_writer (ps_active ps)))) = (hdr ++ body rs1) ++ encode_rrec r ++ body rs2) as Hc'
    by (rewrite Hc, body_app, body_cons, <-!app_assoc; done).
  pose proof (rec_header_fields r (body rs2) Hsh) as (A1 & _ & A3 & A4).
  assert (offset l = zlen (hdr ++ body rs1) + 0) as Ho by (rewrite zlen_app; lia).
  exists (rr_payload r). split; [|by exists hdr, (rs1 ++ r :: rs2), r; split_and!; [by rewrite Hpk|set_solver|..]].
  unfold read_active_one. erewrite ibind_step by reflexivity. cbn [fst]. rewrite Ho.
  erewrite ibind_step by (apply on_fs_step, imap_step, read_at_pre; [done|exact Hc'|lia|];
    unfold RECORD_HEADER_SIZE, PAGE_SIZE in *; rewrite !zlen_app; lia).
  cbv zeta. rewrite !Z.add_0_l. unfold RECORD_HEADER_SIZE in *. change (32 + 1 + 4) with 37 in *. rewrite A1, A3, Hpl.
  rewrite Z.eqb_refl. cbn [negb]. rewrite Z.add_0_r.
  erewrite ibind_step by (apply on_fs_step, imap_step, read_at_pre; [done|exact Hc'|lia|];
    rewrite !zlen_app; unfold PAGE_SIZE in *; lia).
  rewrite Hpl in A4. rewrite A4, Hhash, !bool_decide_eq_true_2 by done. done.
Qed.

Lemma read_active_ok packs ps s hashes ls dn out :
  store_inv packs ps s → calm s → flushed packs ps s →
  Forall (valid hashes ps) ls → Forall (λ x, pack x.2 = a_pack_id (ps_active ps)) ls →
  Forall (valid hashes ps) dn → got packs hashes dn out →
  ∃ out', read_active ls out (ps, s) = (Ok out', (ps, s)) ∧ got packs hashes (ls ++ dn) out'.
Proof.
  intros Hi Hs Hfl. revert dn out. induction ls as [|x ls IH]; intros dn out Hv Hp Hd Hg; [by exists out|].
  apply Forall_cons in Hv as [Hx Hv]. apply Forall_cons in Hp as [Hxp Hp].
  destruct (read_active_one_ok packs ps s hashes x Hi Hs Hfl Hx Hxp) as (d & Hr & Hpg).
  destruct (IH (x :: dn) (<[x.1.1 := Some d]> out)) as (out' & Hrs & Hg');
    [done|done|by constructor|by eapply got_step|].
  exists out'. split; [cbn [read_active]; by erewrite ibind_step by exact Hr|].
  eapply got_done; [|exact Hg']. intros y. rewrite !elem_of_app, !elem_of_cons. tauto.
Qed.

Lemma resolve_spec idx hashes pre x :
  x ∈ resolve idx (length pre) hashes ↔
  (length pre ≤ x.1.1)%nat ∧ (pre ++ hashes) !! x.1.1 = Some x.1.2 ∧ index_get idx x.1.2 = Some x.2.
Proof.
  revert pre. induction hashes as [|h hs IH]; intros pre; cbn [resolve].
  { rewrite elem_of_nil, app_nil_r. split; [done|]. intros (Hle & Hx & _). apply lookup_lt_Some in Hx. lia. }
  specialize (IH (pre ++ [h])). rewrite length_app, Nat.add_1_r, <-app_assoc in IH. cbn [app] in IH.
  assert (∀ i, (length pre ≤ i)%nat ↔ i = length pre ∨ (S (length pre) ≤ i)%nat) as Hle by lia.
  destruct x as [[i h'] l]. cbn [fst snd] in *. destruct (index_get idx h) as [l0|] eqn:Hl.
  - rewrite elem_of_cons, IH, Hle. split.
    + intros [[= -> -> ->]|]; [|tauto]. rewrite list_lookup_middle by done. tauto.
    + intros [[->|?] [Hi Hg]]; [|tauto]. rewrite list_lookup_middle in Hi by done. left. by simplify_eq.
  - rewrite IH, Hle. split; [tauto|]. intros [[->|?] [Hi Hg]]; [|tauto].
    rewrite list_lookup_middle in Hi by done. by simplify_eq.
Qed.

(** Flushing keeps the store as it is. *)
Lemma flush_upto N packs ps s :
  store_upto N packs ps s → calm s →
  ∃ w s', on_writer flush_buf (ps, s) = (Ok tt, (set_active (set_writer w (ps_active ps)) ps, s')) ∧
    calm s' ∧ store_upto N packs (set_active (set_writer w (ps_active ps)) ps) s' ∧
    flushed packs (set_active (set_writer w (ps_active ps)) ps) s' ∧ w_buf w = [].
Proof.
  intros [Hi (Hd1 & Hd2 & Hd3)] Hs. destruct (si_active _ _ _ Hi) as (hdr & rs & Hp & Hw & Hd).
  destruct (store_flush packs ps s Hi Hs) as (w & c & Hf & Hb & _ & Hino & Hi' & Hc).
  specialize (Hc hdr rs Hp). subst c. set (i := h_ino (w_file (a_writer (ps_active ps)))) in *.
  eexists w, _. split; [exact Hf|]. split; [done|]. split; [|split; [|done]].
  - split; [exact Hi'|]. split_and!; simpl; [|done|done].
    intros id hdr' rs' Hid Hnd Hrs. destruct (Hd1 id hdr' rs' Hid Hnd Hrs) as (j & Hj & Hdu & Hbuf).
    exists j. split_and!; [done| |done]. rewrite durable_set_content.
    destruct (decide (i = j)) as [<-|Hne]; [|by rewrite content_set_content_ne].
    rewrite content_set_content, Hdu. destruct (decide (id = a_pack_id (ps_active ps))) as [Heq|Hne].
    + rewrite <-(wo_data _ _ _ _ Hw), (Hbuf Heq), app_nil_r. done.
    + exfalso. by eapply active_ino_ne; [exact Hi|exact Hne|by eexists|exact Hj].
  - exists hdr, rs. simpl. rewrite Hino. fold i. rewrite content_set_content.
    split_and!; [done|apply Hw|done].
Qed.

(** ** [get_batch] *)

(** What [get_batch] promises. *)
Definition answers (packs : packs_t) (ps : PageStore) (hashes : list PageHash) (out : read_slots) : Prop :=
  length out = length hashes ∧
  ∀ i h, hashes !! i = Some h →
    match index_get (ps_index ps) h with
    | None => out !! i = Some None
    | Some l => ∃ d, out !! i = Some (Some d) ∧ page_of packs l h d
    end.

Lemma got_answers packs ps s hashes dn out :
  store_inv packs ps s → (∀ x, x ∈ dn ↔ x ∈ resolve (ps_index ps) 0 hashes) →
  got packs hashes dn out → answers packs ps hashes out.
Proof.
  intros Hi Hdn [Hlen Hg]. split; [done|]. intros i h Hh. destruct (Hg i h Hh) as [H1 H2].
  destruct (index_get (ps_index ps) h) as [l|] eqn:Hl.
  - apply H1, Hdn. apply (resolve_spec _ _ []). split_and!; [simpl; lia|done|done].
  - apply H2. intros l Hin. apply Hdn, (resolve_spec _ _ []) in Hin as (_ & _ & Hx). cbn [fst snd] in Hx. congruence.
Qed.

Lemma valid_resolve ps hashes : index_ok (ps_index ps) → Forall (valid hashes ps) (resolve (ps_index ps) 0 hashes).
Proof.
  intros Hok. apply Forall_forall. intros x (_ & Hx & Hl)%(resolve_spec _ _ []). split; [done|].
  by rewrite flat_lookup.
Qed.

Lemma filter_all_id {A} (P : A → Prop) `{∀ x, Decision (P x)} (l : list A) : Forall P l → filter P l = l.
Proof. induction 1; [done|]. rewrite filter_cons, decide_True by done. by f_equal. Qed.

Lemma filter_none_nil {A} (P : A → Prop) `{∀ x, Decision (P x)} (l : list A) :
  Forall (λ x, ¬ P x) l → filter P l = [].
Proof. induction 1; [done|]. rewrite filter_cons, decide_False by done. done. Qed.

Lemma get_batch_upto N packs ps s hashes :
  store_upto N packs ps s → calm s →
  ∃ out ps' s', get_batch hashes (ps, s) = (Ok out, (ps', s')) ∧ calm s' ∧
    store_upto N packs ps' s' ∧ ps_index ps' = ps_index ps ∧ ps_opts ps' = ps_opts ps ∧
    a_pack_id (ps_active ps') = a_pack_id (ps_active ps) ∧
    a_next (ps_active ps') = a_next (ps_active ps) ∧ answers packs ps hashes out.
Proof.
  intros Hok Hs. pose proof (proj1 Hok) as Hi. unfold get_batch. case_bool_decide as Hnil.
  { subst. exists [], ps, s. split_and!; done. }
  erewrite ibind_step by reflexivity. cbn [fst]. cbv zeta.
  pose proof (valid_resolve ps hashes (si_index _ _ _ Hi)) as Hv. set (lk := resolve (ps_index ps) 0 hashes) in *.
  case_bool_decide as Hlk.
  { exists (replicate (length hashes) None), ps, s. split; [done|]. split_and!; try done.
    eapply got_answers; [done| |apply got_init]. intros x. fold lk. by rewrite Hlk. }
  set (act := filter (λ x : lookup_t, pack x.2 = a_pack_id (ps_active ps)) lk).
  set (sld := stable_sort loc_leb (filter (λ x : lookup_t, pack x.2 ≠ a_pack_id (ps_active ps)) lk)).
  assert (∀ x, x ∈ sld ↔ pack x.2 ≠ a_pack_id (ps_active ps) ∧ x ∈ lk) as Hsld.
  { intros x. unfold sld. by rewrite stable_sort_perm, list_elem_of_filter. }
  rewrite Forall_forall in Hv.
  destruct (read_sealed_ok packs hashes (S (length sld)) sld ps s [] (replicate (length hashes) None))
    as (out1 & m & Hr1 & Hi1 & Hg1); [lia|done|done| | |done|apply got_init|].
  { apply Forall_forall. intros x [_ Hx]%Hsld. by apply Hv. }
  { apply Forall_forall. by intros x [Hx _]%Hsld. }
  rewrite app_nil_r in Hg1. erewrite ibind_step by exact Hr1.
  assert (store_upto N packs (set_cache m ps) s) as Hok1 by (split; [done|apply Hok]).
  case_bool_decide as Hact.
  { exists out1, (set_cache m ps), s. split; [done|]. split; [done|]. split; [exact Hok1|]. split_and!; try done.
    eapply got_answers; [done| |exact Hg1]. intros x. rewrite Hsld. split; [by intros [_ ?]|]. intros Hx.
    split; [|done]. intros Heq. assert (x ∈ act) as Hxa by by apply list_elem_of_filter.
    rewrite Hact in Hxa. by apply not_elem_of_nil in Hxa. }
  erewrite ibind_step by reflexivity. cbn [fst]. cbv zeta. cbn [ps_active set_cache].
  set (act' := sort_by_key (λ x : lookup_t, offset x.2) act).
  assert (∀ x, x ∈ act' ↔ pack x.2 = a_pack_id (ps_active ps) ∧ x ∈ lk) as Hact'.
  { intros x. unfold act', sort_by_key. by rewrite stable_sort_perm; unfold act; rewrite list_elem_of_filter. }
  assert (Forall (λ x : lookup_t, pack x.2 = a_pack_id (ps_active ps)) act') as Hall
    by (apply Forall_forall; by intros x [? _]%Hact').
  rewrite (filter_all_id (λ x : lookup_t, pack x.2 = _)) by done.
  rewrite (filter_none_nil (λ x : lookup_t, pack x.2 ≠ _)) by (eapply Forall_impl; [done|]; naive_solver).
  rewrite bool_decide_eq_false_2.
  2: { unfold act'. intros Heq. apply Hact. apply Permutation_nil_r. rewrite <-Heq. symmetry. apply stable_sort_perm. }
  destruct (flush_upto N packs (set_cache m ps) s Hok1 Hs) as (w & s2 & Hfl & Hs2 & Hok2 & Hflu & _).
  destruct (read_active_ok packs _ s2 hashes act' sld out1 (proj1 Hok2) Hs2 Hflu) as (out2 & Hr2 & Hg2);
    [| |apply Forall_forall; intros x [_ Hx]%Hsld; by apply Hv|done|].
  { apply Forall_forall. intros x [_ Hx]%Hact'. by apply Hv. }
  { done. }
  eexists out2, _, s2. split; [erewrite ibind_step by exact Hfl; by erewrite ibind_step by exact Hr2|].
  split; [done|]. split; [exact Hok2|]. split_and!; try done.
  eapply got_answers; [done| |exact Hg2]. intros x. rewrite elem_of_app, Hact', Hsld. fold lk.
  destruct (decide (pack x.2 = a_pack_id (ps_active ps))); tauto.
Qed.

Lemma flush_store_ok packs ps s :
  store_ok packs ps s → calm s →
  ∃ w s', on_writer flush_buf (ps, s) = (Ok tt, (set_active (set_writer w (ps_active ps)) ps, s')) ∧
    calm s' ∧ store_ok packs (set_active (set_writer w (ps_active ps)) ps) s' ∧
    flushed packs (set_active (set_writer w (ps_active ps)) ps) s' ∧ w_buf w = [].
Proof. setoid_rewrite <-store_upto_True. apply flush_upto. Qed.

Lemma get_batch_ok packs ps s hashes :
  store_ok packs ps s → calm s →
  ∃ out ps' s', get_batch hashes (ps, s) = (Ok out, (ps', s')) ∧ calm s' ∧
    store_ok packs ps' s' ∧ ps_index ps' = ps_index ps ∧ ps_opts ps' = ps_opts ps ∧
    a_next (ps_active ps') = a_next (ps_active ps) ∧ answers packs ps hashes out.
Proof. setoid_rewrite <-store_upto_True. intros Hok Hs. destruct (get_batch_upto True packs ps s hashes Hok Hs) as (out & ps' & s' & ?). exists out, ps', s'. naive_solver. Qed.

End reads.
