(* ===== verification/PageStoreSync.v ===== *)
(** * Durability of the page store

    [PageStore::sync] puts every indexed page on stable storage: after a
    crash the directory and the durable bytes still hold it.  The file
    also shows what a failed [sync] loses. *)

From S2P Require Import Prelude Types Fs Faults Pack Index Names ReadCache PageStore PageStoreInv.
From S2P Require Import PageStoreIngest PageStoreRead.

Section sync.
Context `{Blake3, Crc32} (unix_now : Z).

(** ** Successful runs saw no fault *)

Lemma quiet_flush_buf : quiet flush_buf.
Proof.
  intros [w s] [] [w' s']. unfold flush_buf. change (erase (w, s)) with (w, erase s). cbv beta iota.
  case_bool_decide; [by intros [= <- <-]|].
  destruct (write_all (w_file w) (w_buf w) s) as [[[[]| |] h'] s1] eqn:Hw; [|done..].
  rewrite (write_all_erase _ _ _ _ _ Hw). by intros [= <- <-].
Qed.
Lemma quiet_append h p : quiet (append h p).
Proof.
  intros [w s] a [w' s']. unfold append. change (erase (w, s)) with (w, erase s). cbv beta iota zeta.
  destruct (w_sealed w); [done|]. destruct (would_exceed_cap w); [done|].
  set (k := ibind _ _). assert (quiet k) as Hk; [|apply Hk].
  apply quiet_bind; [apply quiet_if; [apply quiet_flush_buf|apply quiet_ret]|]. intros _. apply quiet_ret.
Qed.
Lemma quiet_write_footer : quiet write_footer.
Proof.
  intros [w s] [] [w' s']. unfold write_footer. change (erase (w, s)) with (w, erase s). cbv beta iota.
  destruct (write_all _ _ s) as [[[[]| |] h'] s1] eqn:Hw; [|done..].
  rewrite (write_all_erase _ _ _ _ _ Hw). by intros [= <- <-].
Qed.
Lemma quiet_seal_no_sync : quiet seal_no_sync.
Proof.
  assert (quiet (flush_buf ;! write_footer ;! mark_sealed)) as Hk.
  { apply quiet_bind; [apply quiet_flush_buf|]. intros _. apply quiet_bind; [apply quiet_write_footer|].
    intros _ [w s] a [w' s'] [= <- <- <-]. done. }
  intros [w s] a [w' s']. unfold seal_no_sync, guard_unsealed. change (erase (w, s)) with (w, erase s). cbv beta iota.
  destruct (w_sealed w); [done|]. apply Hk.
Qed.
Lemma quiet_write_sidecar_entries path es : quiet (write_sidecar_entries path es).
Proof. unfold write_sidecar_entries. auto 10 with quiet. Qed.
Lemma quiet_create path id cr max : quiet (create_with_max_bytes path id cr max).
Proof. unfold create_with_max_bytes. auto 10 with quiet. Qed.

Lemma quiet_on_fs {A} (c : M fs StoreError A) : quiet c → quiet (on_fs c).
Proof. by apply quiet_zoom. Qed.
Lemma quiet_on_writer {A} (c : W A) : quiet c → quiet (on_writer c).
Proof. intros. by apply quiet_map_err, quiet_zoom. Qed.
Lemma quiet_get_store : quiet get_store.
Proof. intros w a w' [= <- <-]. done. Qed.
Lemma quiet_mod_active f : quiet (mod_active f).
Proof. intros w [] w' [= <-]. done. Qed.
Lemma quiet_mod_index f : quiet (mod_index f).
Proof. intros w [] w' [= <-]. done. Qed.
#[local] Hint Resolve quiet_flush_buf quiet_append quiet_seal_no_sync quiet_write_sidecar_entries quiet_create
  quiet_on_fs quiet_on_writer quiet_get_store quiet_mod_active quiet_mod_index : quiet.

Lemma quiet_rotate_locked : quiet (rotate_locked unix_now).
Proof. unfold rotate_locked, write_sidecar. auto 20 with quiet. Qed.
#[local] Hint Resolve quiet_rotate_locked : quiet.

Lemma quiet_write_miss pages out hi : quiet (write_miss unix_now pages out hi).
Proof.
  destruct hi as [h i]. apply quiet_bind; [auto with quiet|]. intros ps. case_match; [auto with quiet|].
  apply quiet_bind; [auto with quiet|]. intros _. case_match; auto 20 with quiet.
Qed.
Lemma quiet_write_misses pages out tw : quiet (write_misses unix_now pages out tw).
Proof.
  revert out. induction tw as [|hi tw IH]; intros out; cbn [write_misses]; [auto with quiet|].
  apply quiet_bind; [apply quiet_write_miss|done].
Qed.
Lemma quiet_ingest iter pages : quiet (ingest unix_now iter pages).
Proof.
  unfold ingest. apply quiet_if; [auto with quiet|]. apply quiet_bind; [auto with quiet|]. intros ps.
  destruct (probe _ _ _ _) as [out tw]. apply quiet_bind; [apply quiet_write_misses|]. auto 20 with quiet.
Qed.
Lemma quiet_sync iter : quiet (sync iter).
Proof.
  unfold sync, sync_pack. apply quiet_bind; [auto with quiet|]. intros _. apply quiet_bind; [auto with quiet|].
  intros ps. apply quiet_bind; [auto with quiet|]. intros _. apply quiet_bind; [auto 20 with quiet|].
  intros _. apply quiet_bind; [auto with quiet|]. intros ps2. apply quiet_if; auto 20 with quiet.
Qed.

(** The invariant does not depend on the oracle. *)
Lemma store_ok_faults packs ps s l : store_ok packs ps (set_faults l s) ↔ store_ok packs ps s.
Proof.
  assert (∀ s s', same_disk s s' → store_ok packs ps s → store_ok packs ps s') as Hgo.
  { intros s1 s2 Hsd [Hi (Hd1 & Hd2 & Hd3)]. pose proof Hsd as (Hdir & Hddir & Hfi & _). split.
    - apply store_inv_frame with s1; [done|by eapply same_disk_wf, Hi|intros id _; by apply same_disk_file|].
      rewrite Hdir. apply Hi.
    - split_and!; [|by rewrite Hdir, Hddir|done]. intros id hdr rs Hid Hnd Hrs.
      destruct (Hd1 id hdr rs Hid Hnd Hrs) as (i & Hi1 & Hi2 & Hi3). exists i.
      rewrite Hdir, (same_disk_durable _ _ _ Hsd), (same_disk_content _ _ _ Hsd). done. }
  split; apply Hgo; done.
Qed.

(** ** [sync] *)

(** [s'] has the names and contents of [s] and at least its durable
    contents. *)
Record synced_from (s s' : fs) : Prop := {
  sf_dir : fs_dir s' = fs_dir s;
  sf_content : ∀ i, content s' i = content s i;
  sf_files : ∀ i, is_Some (fs_files s !! i) → is_Some (fs_files s' !! i);
  sf_durable : ∀ i, durable s i = content s i → durable s' i = content s' i;
  sf_wf : fs_wf s → fs_wf s';
}.

Lemma synced_refl s : synced_from s s.
Proof. by split. Qed.
Lemma synced_trans s1 s2 s3 : synced_from s1 s2 → synced_from s2 s3 → synced_from s1 s3.
Proof. intros [] []. split; intros; auto; congruence. Qed.

Lemma store_inv_synced packs ps s s' : store_inv packs ps s → synced_from s s' → store_inv packs ps s'.
Proof.
  intros [Hwf Hix (hdr & rs & Hp & Hw & Hd) Hse Hpg Hloc Hids Hfr Hca Hnx] [Hdir Hc Hf _ Hw'].
  split; rewrite ?Hdir; try done; [by apply Hw'| |].
  - exists hdr, rs. split; [done|]. split; [|by rewrite Hdir]. destruct Hw. split; rewrite ?Hc; auto.
  - intros id hdr' rs' Hne Hid. destruct (Hse id hdr' rs' Hne Hid) as (Hh & i & Hi1 & Hi2).
    split; [done|]. exists i. by rewrite Hdir, Hc.
Qed.

Lemma sync_pack_ok id i s :
  calm s → fs_dir s !! pack_path id = Some i → is_Some (fs_files s !! i) →
  ∃ s', sync_pack id s = (Ok tt, s') ∧ calm s' ∧ synced_from s s' ∧ fs_ddir s' = fs_ddir s ∧
    durable s' i = content s' i ∧ ∀ j, j ≠ i → fs_files s' !! j = fs_files s !! j.
Proof.
  intros Hs Hi Hf. destruct (sync_data (mk_handle i 0) s) as [r s'] eqn:Hsy.
  assert (r = Ok tt ∧ calm s') as [-> Hs'].
  { unfold sync_data in Hsy. rewrite syscall_calm in Hsy by done. by simplify_eq. }
  pose proof (sync_data_cases _ _ _ _ Hsy) as [[? _]|(_ & Hd & Hn & Hdd & Hdu & Hc & Hfo & Hwf)]; [done|].
  cbn [h_ino] in *. exists s'. split_and!; [|done| |done|by rewrite Hdu, Hc|done].
  - unfold sync_pack. apply imap_step. erewrite ibind_step; [exact Hsy|].
    unfold open_existing. by rewrite syscall_calm, Hi.
  - split; [done|done| | |auto].
    + intros j Hj. destruct (decide (j = i)) as [->|Hne]; [|by rewrite Hfo].
      unfold sync_data in Hsy. rewrite syscall_calm in Hsy by done. simplify_eq. simpl. rewrite lookup_insert_eq. by eexists.
    + intros j Hj. destruct (decide (j = i)) as [->|Hne]; [by rewrite Hdu, Hc|].
      unfold durable, content in *. by rewrite Hfo.
Qed.

Lemma sync_packs_ok ids ps s :
  calm s → fs_wf s → Forall (λ id, is_Some (fs_dir s !! pack_path id)) ids →
  ∃ s', ifor ids (λ id, on_fs (sync_pack id)) (ps, s) = (Ok tt, (ps, s')) ∧ calm s' ∧ synced_from s s' ∧
    fs_ddir s' = fs_ddir s ∧
    ∀ id i, id ∈ ids → fs_dir s !! pack_path id = Some i → durable s' i = content s' i.
Proof.
  revert s. induction ids as [|id ids IH]; intros s Hs Hwf Hids.
  { exists s. split_and!; [done|done|apply synced_refl|done|]. by intros ? ? ?%not_elem_of_nil. }
  apply Forall_cons in Hids as [[i Hi] Hids].
  destruct (sync_pack_ok id i s Hs Hi (fw_named _ Hwf _ _ Hi)) as (s1 & H1 & Hs1 & Hsy1 & Hdd1 & Hdu1 & _).
  destruct (IH s1 Hs1 (sf_wf _ _ Hsy1 Hwf)) as (s2 & H2 & Hs2 & Hsy2 & Hdd2 & Hdu2).
  { by rewrite (sf_dir _ _ Hsy1). }
  exists s2. split_and!; [|done|by eapply synced_trans|congruence|].
  - cbn [ifor]. by erewrite ibind_step by (apply on_fs_step; exact H1).
  - intros id' j [->|Hin]%elem_of_cons Hj.
    + rewrite Hi in Hj. simplify_eq. by apply (sf_durable _ _ Hsy2).
    + apply (Hdu2 id'); [done|]. by rewrite (sf_dir _ _ Hsy1).
Qed.

(** What survives a crash: durable names with durable bytes. *)
Definition crash (s : fs) : fs :=
  mk_fs (fs_ddir s) (fs_ddir s) ((λ f, mk_file (f_durable f) (f_durable f)) <$> fs_files s) (fs_next s) [].

Lemma content_crash s i : content (crash s) i = durable s i.
Proof. unfold content, durable. simpl. rewrite lookup_fmap. by destruct (fs_files s !! i). Qed.

(** Every record of every pack survives a crash. *)
Definition all_durable (packs : packs_t) (s : fs) : Prop :=
  ∀ id hdr rs, packs !! id = Some (hdr, rs) → rs ≠ [] →
    ∃ i post, fs_dir (crash s) !! pack_path id = Some i ∧ content (crash s) i = hdr ++ body rs ++ post.

Lemma store_inv_named packs ps s id :
  store_inv packs ps s → is_Some (packs !! id) → is_Some (fs_dir s !! pack_path id).
Proof.
  intros Hi [[hdr rs] Hid]. destruct (decide (id = a_pack_id (ps_active ps))) as [->|Hne].
  - destruct (si_active _ _ _ Hi) as (? & ? & _ & _ & Hd). by eexists.
  - destruct (si_sealed _ _ _ Hi _ _ _ Hne Hid) as (_ & i & Hi' & _). by eexists.
Qed.

Lemma sync_upto N iter packs ps s :
  (∀ X, iter X ≡ₚ elements X) → store_upto N packs ps s → calm s →
  ∃ ps' s', sync iter (ps, s) = (Ok tt, (ps', s')) ∧ calm s' ∧ store_upto N packs ps' s' ∧
    ps_index ps' = ps_index ps ∧ a_pack_id (ps_active ps') = a_pack_id (ps_active ps) ∧
    a_next (ps_active ps') = a_next (ps_active ps) ∧ a_dirty (ps_active ps') = ∅ ∧ a_new_files (ps_active ps') = false.
Proof.
  intros Hiter Hok Hs. destruct (flush_upto N packs ps s Hok Hs) as (w & s1 & Hfl & Hs1 & Hok1 & Hflu & Hbuf).
  set (ps1 := set_active (set_writer w (ps_active ps)) ps) in *. destruct Hok1 as [Hi1 (Hd1 & Hd2 & Hd3)].
  set (dirty := {[a_pack_id (ps_active ps1)]} ∪ a_dirty (ps_active ps1)).
  set (ps2 := set_active (set_dirty ∅ (ps_active ps1)) ps1).
  pose proof (λ id, store_inv_named packs ps1 s1 id Hi1) as Hnamed.
  assert (∀ id, id ∈ dirty → is_Some (packs !! id)) as Hdp.
  { intros id [->%elem_of_singleton|?]%elem_of_union; [|by apply Hd3].
    destruct (si_active _ _ _ Hi1) as (? & ? & Hp & _). by eexists. }
  destruct (sync_packs_ok (iter dirty) ps2 s1 Hs1 (si_wf _ _ _ Hi1)) as (s2 & Hsy & Hs2 & Hf2 & Hdd2 & Hdu2).
  { apply Forall_forall. intros id. rewrite Hiter, elem_of_elements. auto. }
  assert (store_inv packs ps2 s2) as Hi2 by (eapply store_inv_synced; [|exact Hf2]; by destruct Hi1).
  assert (∀ id hdr rs, packs !! id = Some (hdr, rs) → rs ≠ [] ∨ id ∈ dirty →
    ∃ i, fs_dir s2 !! pack_path id = Some i ∧ durable s2 i = content s2 i) as Hdur.
  { intros id hdr rs Hid Hrs. destruct (Hnamed id ltac:(by eexists)) as [i Hi]. exists i.
    rewrite (sf_dir _ _ Hf2). split; [done|]. destruct (decide (id ∈ dirty)) as [Hin|Hin].
    - apply (Hdu2 id); [by rewrite Hiter, elem_of_elements|done].
    - apply (sf_durable _ _ Hf2). destruct (Hd1 id hdr rs Hid ltac:(set_solver) ltac:(naive_solver)) as (j & Hj & Hjd & _).
      congruence. }
  set (nf := a_new_files (ps_active ps1)). set (s3 := if nf then set_ddir (fs_dir s2) s2 else s2).
  set (ps3 := if nf then set_active (set_new_files false (ps_active ps2)) ps2 else ps2).
  assert (store_inv packs ps3 s3) as Hi3.
  { subst ps3 s3. destruct nf; [|done].
    apply store_inv_frame with s2; [by destruct Hi2|apply fs_wf_set_ddir, Hi2|done|apply Hi2]. }
  exists ps3, s3. split_and!; [| | |subst ps3; by destruct nf..|subst ps3; by destruct nf eqn:Hnf].
  - unfold sync. erewrite ibind_step by exact Hfl. erewrite ibind_step by reflexivity. cbn [fst]. cbv zeta.
    erewrite ibind_step by reflexivity. erewrite ibind_step by exact Hsy. erewrite ibind_step by reflexivity.
    cbn [fst ps2 set_active set_dirty ps_active a_new_files]. fold nf. subst s3 ps3. destruct nf; [|done].
    rewrite (ibind_step _ _ (ps2, s2) tt (ps2, set_ddir (fs_dir s2) s2)); [reflexivity|].
    apply on_fs_step, imap_step. unfold sync_dir.
    erewrite ibind_step by (rewrite syscall_calm by done; reflexivity). by rewrite syscall_calm.
  - subst s3. by destruct nf.
  - split; [done|]. unfold dirty_upto. assert (fs_dir s3 = fs_dir s2 ∧ durable s3 = durable s2 ∧ content s3 = content s2) as (-> & -> & ->)
      by (subst s3; by destruct nf). split_and!.
    + intros id hdr rs Hid _ Hrs. destruct (Hdur id hdr rs Hid ltac:(by left)) as (i & Hi & Hd).
      exists i. split_and!; [done|done|]. intros _. subst ps3. by destruct nf.
    + intros HN _ id Hid. subst s3. destruct nf eqn:Hnf; [done|]. rewrite Hdd2, (sf_dir _ _ Hf2). by apply Hd2.
    + subst ps3. destruct nf; set_solver.
Qed.

Lemma sync_ok iter packs ps s :
  (∀ X, iter X ≡ₚ elements X) → store_ok packs ps s → calm s →
  ∃ ps' s', sync iter (ps, s) = (Ok tt, (ps', s')) ∧ calm s' ∧ store_ok packs ps' s' ∧
    ps_index ps' = ps_index ps ∧ a_dirty (ps_active ps') = ∅ ∧ a_new_files (ps_active ps') = false.
Proof.
  intros Hi Hok%store_upto_True Hs. destruct (sync_upto True iter packs ps s Hi Hok Hs)
    as (ps' & s' & Hr & Hs' & Hok'%store_upto_True & ?). exists ps', s'. naive_solver.
Qed.

Lemma clean_all_durable packs ps s :
  store_ok packs ps s → a_dirty (ps_active ps) = ∅ → a_new_files (ps_active ps) = false → all_durable packs s.
Proof.
  intros [Hi (Hd1 & Hd2 & _)] Hdi Hnf id hdr rs Hid Hrs.
  destruct (Hd1 id hdr rs Hid ltac:(set_solver) Hrs) as (i & Hdir & Hdu & Hbuf). exists i.
  destruct (decide (id = a_pack_id (ps_active ps))) as [->|Hne].
  - destruct (si_active _ _ _ Hi) as (hdr' & rs' & Hp & Hw & Hn). rewrite Hid in Hp. simplify_eq. exists [].
    simpl. rewrite Hd2 by (done || by eexists). split; [done|]. rewrite content_crash, Hdu, app_nil_r.
    rewrite <-(wo_data _ _ _ _ Hw), Hbuf, app_nil_r by done. done.
  - destruct (si_sealed _ _ _ Hi _ _ _ Hne Hid) as (_ & j & Hj & Hc). rewrite Hdir in Hj. simplify_eq.
    exists (pack_footer (zlen rs) (body rs)). simpl. rewrite Hd2 by (done || by eexists). split; [done|].
    by rewrite content_crash, Hdu, Hc.
Qed.

(** In a durable store every indexed page can be read after a crash. *)
Definition readable_after_crash (ps : PageStore) (s : fs) (h : PageHash) : Prop :=
  ∃ l f d, index_get (ps_index ps) h = Some l ∧
    fs_dir (crash s) !! pack_path (pack l) = Some (h_ino f) ∧
    read_at_from_file f (offset l) h (crash s) = (Ok d, crash s) ∧ blake3 d = h.

Lemma all_durable_readable packs ps s h :
  store_inv packs ps s → all_durable packs s → is_Some (flat (ps_index ps) !! h) → readable_after_crash ps s h.
Proof.
  intros Hi Hd [l Hl]. destruct (si_loc _ _ _ Hi h l Hl) as (hdr & rs & Hp & Hin).
  destruct (Hd (pack l) hdr rs Hp) as (i & post & Hdir & Hc). { intros ->. by apply not_elem_of_nil in Hin. }
  assert (header_ok hdr) as Hh.
  { destruct (decide (pack l = a_pack_id (ps_active ps))) as [Heq|Hne].
    - destruct (si_active _ _ _ Hi) as (hdr' & rs' & Hp' & Hw & _). rewrite <-Heq, Hp in Hp'. simplify_eq. apply Hw.
    - by destruct (si_sealed _ _ _ Hi _ _ _ Hne Hp). }
  destruct (read_back_ok (mk_handle i 0) hdr rs post (offset l) h (crash s)) as (r & Hr & Hrh & Hread);
    [done|done|done|by eapply (si_pages _ _ _ Hi)|done|].
  exists l, (mk_handle i 0), (rr_payload r). rewrite flat_lookup in Hl by apply Hi. split_and!; [done|done|done|].
  pose proof (si_pages _ _ _ Hi _ _ _ Hp) as Hok. rewrite Forall_forall in Hok. by destruct (Hok r Hr) as [_ ->].
Qed.

(** ** A failed [sync] forgets what it did not write *)

Lemma failed_sync_ok iter packs ps s id i :
  store_inv packs ps s → w_buf (a_writer (ps_active ps)) = [] → fs_faults s = [None; Some 0%nat] →
  head (iter ({[a_pack_id (ps_active ps)]} ∪ a_dirty (ps_active ps))) = Some id →
  fs_dir s !! pack_path id = Some i →
  sync iter (ps, s) =
    (Err (SIo EOther), (set_active (set_dirty ∅ (ps_active ps)) ps, set_faults [] s)).
Proof.
  intros Hi Hb Hfl Hit Hid. unfold sync.
  erewrite ibind_step. 2: { apply on_writer_step. unfold flush_buf. by rewrite bool_decide_eq_true_2. }
  erewrite ibind_step by reflexivity. cbv zeta. cbn [fst]. erewrite ibind_step by reflexivity. cbn [fst snd].
  replace (set_active (set_writer (a_writer (ps_active ps)) (ps_active ps)) ps) with ps by by destruct ps as [? []].
  destruct (iter _) as [|x rest]; [done|]. injection Hit as ->. cbn [ifor].
  unfold ibind at 1 2, on_fs, zoom, sync_pack, imap_err. unfold open_existing, sync_data, syscall, ibind, tick. cbn [snd fst].
  rewrite Hfl. cbn [fs_dir set_faults fs_faults]. rewrite Hid. cbn. by destruct ps as [? []], s.
Qed.

(** A [sync] with an empty dirty set touches the active pack only. *)
Lemma sync_active_only iter packs ps s :
  store_inv packs ps s → calm s → w_buf (a_writer (ps_active ps)) = [] → a_dirty (ps_active ps) = ∅ →
  (∀ X, iter X ≡ₚ elements X) →
  ∃ ps' s', sync iter (ps, s) = (Ok tt, (ps', s')) ∧ ps_index ps' = ps_index ps ∧
    ∀ j, j ≠ h_ino (w_file (a_writer (ps_active ps))) → durable s' j = durable s j.
Proof.
  intros Hi Hs Hb Hd Hiter. destruct (si_active _ _ _ Hi) as (hdr & rs & _ & Hw & Hn).
  destruct (sync_pack_ok _ _ s Hs Hn (wo_file _ _ _ _ Hw)) as (s1 & Hsy & Hs1 & _ & _ & _ & Hother).
  assert (iter ({[a_pack_id (ps_active ps)]} ∪ a_dirty (ps_active ps)) = [a_pack_id (ps_active ps)]) as Hit.
  { assert ({[a_pack_id (ps_active ps)]} ∪ a_dirty (ps_active ps) = {[a_pack_id (ps_active ps)]}) as -> by set_solver.
    apply Permutation_singleton_r. by rewrite Hiter, elements_singleton. }
  assert (∀ j, j ≠ h_ino (w_file (a_writer (ps_active ps))) → durable s1 j = durable s j) as Hdur.
  { intros j Hj. unfold durable. by rewrite Hother. }
  unfold sync. erewrite ibind_step. 2: { apply on_writer_step. unfold flush_buf. by rewrite bool_decide_eq_true_2. }
  erewrite ibind_step by reflexivity. cbv zeta. cbn [fst set_active ps_active set_writer a_pack_id a_dirty].
  erewrite ibind_step by reflexivity. rewrite Hit.
  erewrite ibind_step by (cbn [ifor]; erewrite ibind_step by (apply on_fs_step; exact Hsy); reflexivity).
  erewrite ibind_step by reflexivity. cbn [fst set_active ps_active set_writer set_dirty a_new_files].
  destruct (a_new_files (ps_active ps)) eqn:Hnf.
  - eexists _, (set_ddir (fs_dir s1) s1). split; [|split; [|exact Hdur]].
    { erewrite ibind_step by (apply on_fs_step, imap_step; unfold sync_dir; erewrite ibind_step by
      (rewrite syscall_calm by done; reflexivity); by rewrite syscall_calm). reflexivity. }
    done.
  - eexists _, s1. split; [reflexivity|]. split; [done|exact Hdur].
Qed.

Lemma store_inv_dirty packs ps s d : store_inv packs ps s → store_inv packs (set_active (set_dirty d (ps_active ps)) ps) s.
Proof. intros []. by split. Qed.

End sync.
