(* ===== verification/PageStoreGc.v ===== *)
(** * The page store under garbage collection

    What the garbage collector's operations on the page store do: reading
    a sealed record, writing and publishing a compaction pack, repointing
    and removing index entries, deleting a pack.  Between the creation of a
    compaction pack and the directory sync of the next deletion the name of
    the new pack is not durable although no flag says so; [gc_ok] is the
    part of [store_ok] that holds there. *)

From S2P Require Import Prelude Types Fs Faults Pack Index Names ReadCache PageStore PageStoreInv.
From S2P Require Import PageStoreIngest PageStoreRead PageStoreSync.

Section pagegc.
Context {HB : Blake3} {HC : Crc32} (unix_now : Z).

(** Packs outside the dirty set are on stable storage; the dirty set names
    packs. *)
Definition unsynced (packs : packs_t) (ps : PageStore) (s : fs) : Prop :=
  (∀ id hdr rs, packs !! id = Some (hdr, rs) → id ∉ a_dirty (ps_active ps) → rs ≠ [] →
     ∃ i, fs_dir s !! pack_path id = Some i ∧ durable s i = content s i ∧
       (id = a_pack_id (ps_active ps) → w_buf (a_writer (ps_active ps)) = [])) ∧
  (∀ id, id ∈ a_dirty (ps_active ps) → is_Some (packs !! id)).

Definition gc_ok (packs : packs_t) (ps : PageStore) (s : fs) : Prop :=
  store_inv packs ps s ∧ unsynced packs ps s.

(** The names of the packs are durable unless the flag says otherwise. *)
Definition names_ok (packs : packs_t) (ps : PageStore) (s : fs) : Prop :=
  a_new_files (ps_active ps) = false → ∀ id, is_Some (packs !! id) → fs_ddir s !! pack_path id = fs_dir s !! pack_path id.

Lemma store_gc_ok packs ps s : store_ok packs ps s ↔ gc_ok packs ps s ∧ names_ok packs ps s.
Proof.
  split; [by intros [Hi (H1 & H2 & H3)]|]. by intros [[Hi [H1 H3]] H2].
Qed.

Lemma names_synced packs ps s : fs_ddir s = fs_dir s → names_ok packs ps s.
Proof. intros Hd _ id _. by rewrite Hd. Qed.

Lemma unsynced_frame packs ps s s' :
  (∀ id, is_Some (packs !! id) → same_file (pack_path id) s s') → unsynced packs ps s → unsynced packs ps s'.
Proof.
  intros Hs [H1 H2]. split; [|done]. intros id hdr rs Hid Hn Hr. destruct (H1 id hdr rs Hid Hn Hr) as (i & Hi & Hd & Hb).
  destruct (same_file_content _ _ _ i (Hs id ltac:(by eexists)) Hi) as (Hi' & Hc & Hdu). exists i. split_and!; [done|congruence|done].
Qed.

(** ** Reading a record *)

Lemma read_record_ok packs ps s h l :
  store_inv packs ps s → calm s → flat (ps_index ps) !! h = Some l → pack l ≠ a_pack_id (ps_active ps) →
  ∃ d m, read_record (pack l) (offset l) h (ps, s) = (Ok d, (set_cache m ps, s)) ∧
    blake3 d = h ∧ zlen d = PAGE_SIZE ∧ store_inv packs (set_cache m ps) s.
Proof.
  intros Hi Hs Hl Hne. destruct (si_loc _ _ _ Hi _ _ Hl) as (hdr & rs & Hp & Hin).
  destruct (get_or_open_ok packs ps s (pack l) Hi Hs ltac:(by eexists) Hne) as (f & m & Hg & Hf & Hi').
  destruct (si_sealed _ _ _ Hi _ _ _ Hne Hp) as (Hh & j & Hj & Hc). rewrite Hf in Hj. injection Hj as <-.
  destruct (read_back_ok f hdr rs _ (offset l) h s Hs Hh Hc (si_pages _ _ _ Hi _ _ _ Hp) Hin) as (r & Hr & Hrh & Hrd).
  exists (rr_payload r), m. split.
  - unfold read_record, read_from_cached_handle. cbn [pack offset].
    erewrite ibind_step by (apply imap_step, on_cache_step; exact Hg). apply on_fs_step, imap_step. exact Hrd.
  - pose proof (si_pages _ _ _ Hi _ _ _ Hp) as Hall. rewrite Forall_forall in Hall. destruct (Hall r Hr) as [Hz Hb].
    split_and!; [congruence|done|done].
Qed.

Lemma unsynced_cache packs ps s m : unsynced packs ps s → unsynced packs (set_cache m ps) s.
Proof. done. Qed.

(** ** The compaction pack *)

(** A compaction pack being written: its file is no pack of the store. *)
Record gc_writing (packs : packs_t) (ps : PageStore) (s : fs) (g : GcPackWriter) (hdr : bytes) (rs : list rrec) : Prop := {
  gw_writer : writer_ok (g_writer g) hdr rs s;
  gw_named : fs_dir s !! pack_path (g_pack_id g) = Some (h_ino (w_file (g_writer g)));
  gw_fresh : packs !! g_pack_id g = None;
  gw_id : u32_ok (g_pack_id g) ∧ g_pack_id g < a_next (ps_active ps);
  gw_entries : g_entries g = (λ e : Z * PageHash, (e.2, e.1)) <$> locs PACK_HEADER_SIZE rs;
  gw_pages : Forall page_ok rs;
}.

Lemma gc_writing_ino packs ps s g hdr rs id :
  store_inv packs ps s → gc_writing packs ps s g hdr rs → is_Some (packs !! id) →
  fs_dir s !! pack_path id ≠ Some (h_ino (w_file (g_writer g))).
Proof.
  intros Hi Hg Hid Heq. pose proof (fw_inj _ (si_wf _ _ _ Hi) _ _ _ Heq (gw_named _ _ _ _ _ _ Hg)) as Hp.
  apply pack_path_inj in Hp; [|by eapply si_u32|by apply Hg]. subst. rewrite (gw_fresh _ _ _ _ _ _ Hg) in Hid. by destruct Hid.
Qed.

(** Writing to a compaction pack leaves the store alone. *)
Lemma gc_ok_set_content packs ps s i c :
  gc_ok packs ps s → is_Some (fs_files s !! i) → (∀ id, is_Some (packs !! id) → fs_dir s !! pack_path id ≠ Some i) →
  gc_ok packs ps (set_content i c s).
Proof.
  intros [Hi Hu] Hf Hne.
  assert (∀ id, is_Some (packs !! id) → same_file (pack_path id) s (set_content i c s)) as Hs
    by (intros id Hid; by apply same_file_set_content, Hne).
  split; [|by eapply unsynced_frame]. eapply store_inv_frame; [done|by apply fs_wf_set_content; [apply Hi|]|done|].
  apply (si_fresh _ _ _ Hi).
Qed.

Lemma create_gc_pack_ok packs ps s :
  gc_ok packs ps s → calm s → a_next (ps_active ps) < 2 ^ 32 →
  let ps' := set_active (set_next (a_next (ps_active ps) + 1) (ps_active ps)) ps in
  ∃ g s' hdr, create_gc_pack unix_now (ps, s) = (Ok g, (ps', s')) ∧ calm s' ∧ gc_ok packs ps' s' ∧
    gc_writing packs ps' s' g hdr [] ∧ g_pack_id g = a_next (ps_active ps) ∧ w_max (g_writer g) = max_pack_bytes (ps_opts ps).
Proof.
  intros [Hi Hu] Hs Hlt ps'. set (id := a_next (ps_active ps)) in *.
  assert (u32_ok id) as Hid.
  { split; [|done]. destruct (si_active _ _ _ Hi) as (? & ? & Hp & _). pose proof (si_ids _ _ _ Hi _ ltac:(by eexists)). lia. }
  pose proof (si_fresh _ _ _ Hi id Hid ltac:(lia)) as Hnone.
  assert (∀ id', is_Some (packs !! id') → id' < id) as Hlow by (intros id' Hid'; apply (si_ids _ _ _ Hi _ Hid')).
  destruct (create_ok (pack_path id) id unix_now (max_pack_bytes (ps_opts ps)) s Hs Hnone) as (w & Hc & Hw & Hm & _ & Hb & Hino).
  set (s' := set_content _ _ _) in *.
  assert (∀ id', u32_ok id' → id' ≠ id → same_file (pack_path id') s s') as Hsame.
  { intros id' Hu' Hne. apply same_file_fresh; [apply Hi|]. intros Heq. by apply Hne, pack_path_inj. }
  assert (packs_same packs s s') as Hps.
  { intros id' Hid'. apply Hsame; [by eapply si_u32|]. specialize (Hlow _ Hid'). lia. }
  exists (mk_gc_writer w id []), s', (pack_header id unix_now). split; [|split; [done|split; [split|split; [|done]]]].
  - unfold create_gc_pack. erewrite ibind_step by reflexivity. cbv zeta. erewrite ibind_step by reflexivity.
    erewrite ibind_step by (apply on_fs_step, imap_step; exact Hc). reflexivity.
  - assert (store_inv packs ps' s) as Hi'.
    { destruct Hi as [Hwf Hix Ha Hse Hpg Hloc Hids Hfr Hca Hnx]. split; try done.
      - intros id' Hid'. specialize (Hids _ Hid'). unfold ps', set_active, set_next; cbn. fold id in Hids |- *. lia.
      - intros id' Hu' Hle. apply Hfr; [done|]. unfold ps', set_active, set_next in Hle; cbn in Hle. fold id in Hle |- *. lia.
      - unfold ps', set_active, set_next; cbn. fold id. lia. }
    eapply store_inv_frame; [exact Hi'|by apply fs_wf_create; [apply Hi|]|done|].
    intros id' Hu' Hle. unfold ps', set_active, set_next in Hle; cbn in Hle. rewrite (proj1 (Hsame id' Hu' ltac:(lia))). apply (si_fresh _ _ _ Hi); [done|]. fold id. lia.
  - by eapply unsynced_frame.
  - split; cbn; [done| | |split; [done|]|done|constructor].
    + rewrite Hino. simpl. by rewrite lookup_insert_eq.
    + apply eq_None_not_Some. intros Hsome. specialize (Hlow _ Hsome). lia.
    + fold id. lia.
Qed.

Lemma zlen_body_pages rs : Forall page_ok rs → zlen (body rs) = zlen rs * (RECORD_HEADER_SIZE + PAGE_SIZE).
Proof.
  induction 1 as [|r rs Hr Hrs IH]; [done|]. unfold body in *. cbn [fmap list_fmap concat]. rewrite zlen_app, zlen_cons, IH.
  pose proof (zlen_encode_rrec r (page_ok_shape r Hr)) as ->. destruct Hr as [-> _]. lia.
Qed.

(** The writer has room for [n] more records. *)
Definition room_for (g : GcPackWriter) (rs : list rrec) (n : Z) : Prop :=
  PACK_HEADER_SIZE + (zlen rs + n) * (RECORD_HEADER_SIZE + PAGE_SIZE) ≤ w_max (g_writer g).

Lemma gc_writing_room packs ps s g hdr rs n :
  gc_writing packs ps s g hdr rs → 1 ≤ n → room_for g rs n → would_exceed_cap (g_writer g) = false.
Proof.
  intros Hg Hn Hr. pose proof (gw_writer _ _ _ _ _ _ Hg) as Hw. unfold would_exceed_cap. apply Z.ltb_ge.
  rewrite (wo_offset _ _ _ _ Hw), zlen_app, (zlen_body_pages rs) by apply Hg. rewrite (proj1 (wo_hdr _ _ _ _ Hw)).
  unfold room_for, RECORD_HEADER_SIZE, PAGE_SIZE in *. nia.
Qed.

Lemma gc_append_ok packs ps s g hdr rs h payload :
  gc_ok packs ps s → calm s → gc_writing packs ps s g hdr rs → zlen payload = PAGE_SIZE → blake3 payload = h →
  (would_exceed_cap (g_writer g) = true ∧ ∃ e, gc_append h payload (g, s) = (Err e, (g, s))) ∨
  ∃ off g' s', gc_append h payload (g, s) = (Ok off, (g', s')) ∧ calm s' ∧ gc_ok packs ps s' ∧
    gc_writing packs ps s' g' hdr (rs ++ [page_rec h payload]) ∧ g_pack_id g' = g_pack_id g ∧
    w_max (g_writer g') = w_max (g_writer g).
Proof.
  intros Hok Hs Hg Hz Hb. destruct (would_exceed_cap (g_writer g)) eqn:Hcap.
  - left. split; [done|]. exists (SPack Full). unfold gc_append, append. rewrite (wo_open _ _ _ _ (gw_writer _ _ _ _ _ _ Hg)), Hcap. by destruct g.
  - right. destruct (append_ok _ hdr rs s h payload (gw_writer _ _ _ _ _ _ Hg) Hs ltac:(rewrite <-Hb; apply zlen_blake3) Hz Hcap)
      as (w' & c & Ha & Hw' & Hmax & _ & Hino).
    pose proof (gw_writer _ _ _ _ _ _ Hg) as Hw0.
    eexists _, _, _. split; [unfold gc_append; rewrite Ha; reflexivity|]. split; [done|]. split.
    { apply gc_ok_set_content; [done|apply Hw0|]. intros id Hid. by eapply gc_writing_ino; [apply Hok|exact Hg|]. }
    split; [|by split]. destruct Hg as [_ Hn Hf Hid He Hpg]. split; cbn; [done|by rewrite Hino|done|done| |].
    + rewrite He, locs_app, fmap_app. f_equal. cbn. by rewrite zlen_app, (proj1 (wo_hdr _ _ _ _ Hw0)).
    + apply Forall_app. split; [done|]. constructor; [|done]. by split.
Qed.

Lemma store_inv_add packs ps s id hdr rs :
  store_inv packs ps s → packs !! id = None → 0 ≤ id < a_next (ps_active ps) → sealed_at s id hdr rs → Forall page_ok rs →
  store_inv (<[id := (hdr, rs)]> packs) ps s.
Proof.
  intros [Hwf Hix (ah & ars & Hp & Ha) Hse Hpg Hloc Hids Hfr Hca Hnx] Hn Hid Hs Hall.
  assert (∀ id', is_Some (packs !! id') → id ≠ id') as Hne by (intros id' Hsome ->; rewrite Hn in Hsome; by destruct Hsome).
  split; try done.
  - exists ah, ars. rewrite lookup_insert_ne; [done|]. apply Hne. by eexists.
  - intros id' hdr' rs' Hna [[<- ?]|[_ ?]]%lookup_insert_Some; [by simplify_eq|by apply Hse].
  - intros id' hdr' rs' [[<- ?]|[_ ?]]%lookup_insert_Some; [by simplify_eq|by eapply Hpg].
  - intros h l Hl. destruct (Hloc h l Hl) as (hdr' & rs' & Hp' & Hin). exists hdr', rs'.
    rewrite lookup_insert_ne; [done|]. apply Hne. by eexists.
  - intros id' [<-|[_ ?]]%lookup_insert_is_Some; [done|by apply Hids].
  - intros p f g Hpf. destruct (Hca p f g Hpf) as (? & Hsome & ?). split_and!; [done| |done]. by apply lookup_insert_is_Some'; right.
Qed.

(** [seal_and_publish]: the compaction pack becomes a sealed, durable pack
    of the store. *)
Lemma seal_and_publish_ok packs ps s g hdr rs :
  gc_ok packs ps s → calm s → gc_writing packs ps s g hdr rs →
  ∃ s', seal_and_publish g s = (Ok (g_pack_id g, g_entries g), s') ∧ calm s' ∧
    gc_ok (<[g_pack_id g := (hdr, rs)]> packs) ps s'.
Proof.
  intros [Hi Hu] Hs Hg. pose proof (gw_writer _ _ _ _ _ _ Hg) as Hw. set (i := h_ino (w_file (g_writer g))) in *.
  destruct (seal_eq _ _ _ _ Hw Hs) as (w' & Hse & _). fold i in Hse. set (s1 := set_files _ s) in *.
  assert (fs_wf s1) as Hwf1 by (apply fs_wf_set_files; [apply Hi|apply Hw]).
  set (es := (λ '(h, o), (h, mk_loc (g_pack_id g) o)) <$> g_entries g).
  destruct (write_sidecar_entries_calm (sidecar_path (g_pack_id g)) es s1 Hwf1 Hs) as (s2 & Hsc & Hs2 & Hwf2 & _ & Hfr).
  assert (∀ id, u32_ok id → same_file (pack_path id) s1 s2) as Hsame2.
  { intros id Hid. destruct (pack_path_ne_sidecar id (g_pack_id g) Hid). by apply Hfr. }
  assert (packs_same packs s s2) as Hps.
  { intros id Hid. eapply same_file_trans; [|apply Hsame2; by eapply si_u32]. split; [done|]. intros j Hj. cbn.
    rewrite lookup_insert_ne; [done|]. intros <-. by eapply (gc_writing_ino packs ps s g hdr rs id). }
  destruct (gw_id _ _ _ _ _ _ Hg) as [Hu32 Hlt].
  assert (fs_dir s2 !! pack_path (g_pack_id g) = Some i ∧ content s2 i = sealed_bytes hdr rs ∧ durable s2 i = sealed_bytes hdr rs) as (Hd2 & Hc2 & Hdu2).
  { destruct (same_file_content _ _ _ i (Hsame2 _ Hu32)) as (? & -> & ->); [exact (gw_named _ _ _ _ _ _ Hg)|].
    unfold content, durable. cbn. by rewrite lookup_insert_eq. }
  exists s2. split; [|split; [done|split]].
  - unfold seal_and_publish. rewrite Hse. fold es. by erewrite ibind_step by (apply imap_step; exact Hsc).
  - apply store_inv_add; [|by apply Hg|split; [apply Hu32|done]|split; [apply Hw|by exists i]|by apply Hg].
    eapply store_inv_frame; [exact Hi|done|done|]. intros id Hid Hle. rewrite (proj1 (Hsame2 id Hid)). by apply (si_fresh _ _ _ Hi).
  - destruct (unsynced_frame _ _ _ _ Hps Hu) as [H1 H2]. split.
    + intros id hdr' rs' [[<- ?]|[Hne Hid]]%lookup_insert_Some Hnd Hrs; [|by eapply H1]. simplify_eq.
      exists i. split_and!; [done|congruence|]. intros Heq. exfalso. pose proof (gw_fresh _ _ _ _ _ _ Hg) as Hn.
      destruct (si_active _ _ _ Hi) as (? & ? & Hp & _). rewrite <-Heq, Hn in Hp. done.
    + intros id Hid. apply lookup_insert_is_Some'. right. by apply H2.
Qed.

(** ** The index *)

Lemma gc_ok_index packs ps s idx :
  gc_ok packs ps s → index_ok idx →
  (∀ h l, flat idx !! h = Some l → ∃ hdr rs, packs !! pack l = Some (hdr, rs) ∧ (offset l, h) ∈ locs PACK_HEADER_SIZE rs) →
  gc_ok packs (set_index idx ps) s.
Proof. intros [[] Hu] Hix Hloc. split; [by split|done]. Qed.

(** ** Deleting a pack *)

Lemma remove_if_exists_ok p s : fs_wf s → calm s →
  ∃ s', remove_file_if_exists p s = (Ok tt, s') ∧ calm s' ∧ fs_wf s' ∧ ∀ q, q ≠ p → same_file q s s'.
Proof.
  intros Hwf Hs. unfold remove_file_if_exists, remove_file. rewrite syscall_calm by done.
  destruct (fs_dir s !! p) as [i|] eqn:Hi; eexists; (split; [reflexivity|]).
  - split; [done|]. split; [by apply fs_wf_remove|]. intros q Hq. split; [|done]. cbn. by rewrite lookup_delete_ne.
  - by split_and!.
Qed.

Lemma store_inv_delete packs ps s id :
  store_inv packs ps s → id ≠ a_pack_id (ps_active ps) → (∀ h l, flat (ps_index ps) !! h = Some l → pack l ≠ id) →
  lru_entries (ps_cache ps) !! id = None → store_inv (delete id packs) ps s.
Proof.
  intros [Hwf Hix (ah & ars & Hp & Ha) Hse Hpg Hloc Hids Hfr Hca Hnx] Hna Hni Hnc. split; try done.
  - exists ah, ars. by rewrite lookup_delete_ne.
  - intros id' hdr' rs' Hna' [_ ?]%lookup_delete_Some. by apply Hse.
  - intros id' hdr' rs' [_ ?]%lookup_delete_Some. by eapply Hpg.
  - intros h l Hl. destruct (Hloc h l Hl) as (hdr' & rs' & Hp' & Hin). exists hdr', rs'.
    rewrite lookup_delete_ne; [done|]. intros Heq. by eapply Hni.
  - intros id' [_ ?]%lookup_delete_is_Some. by apply Hids.
  - intros p f g Hpf. destruct (Hca p f g Hpf) as (? & Hsome & ?). split_and!; [done| |done].
    apply lookup_delete_is_Some. split; [|done]. intros ->. by rewrite Hnc in Hpf.
Qed.

Lemma delete_pack_ok packs ps s id :
  gc_ok packs ps s → calm s → u32_ok id → id ≠ a_pack_id (ps_active ps) →
  (∀ h l, flat (ps_index ps) !! h = Some l → pack l ≠ id) → lru_entries (ps_cache ps) !! id = None →
  ∃ s', delete_pack id (ps, s) = (Ok tt, (set_active (set_dirty (a_dirty (ps_active ps) ∖ {[id]}) (ps_active ps)) ps, s')) ∧
    calm s' ∧ fs_ddir s' = fs_dir s' ∧
    gc_ok (delete id packs) (set_active (set_dirty (a_dirty (ps_active ps) ∖ {[id]}) (ps_active ps)) ps) s'.
Proof.
  intros [Hi Hu] Hs Hu32 Hna Hni Hnc.
  destruct (remove_if_exists_ok (sidecar_path id) s (si_wf _ _ _ Hi) Hs) as (s1 & Hr1 & Hs1 & Hwf1 & Hf1).
  destruct (remove_if_exists_ok (pack_path id) s1 Hwf1 Hs1) as (s2 & Hr2 & Hs2 & Hwf2 & Hf2).
  assert (∀ id', u32_ok id' → id' ≠ id → same_file (pack_path id') s (set_ddir (fs_dir s2) s2)) as Hsame.
  { intros id' Hid' Hne. eapply same_file_trans; [apply Hf1; by apply pack_path_ne_sidecar|].
    eapply same_file_trans; [apply Hf2; intros Heq; by apply Hne, pack_path_inj|]. done. }
  set (ps' := set_active _ ps).
  assert (store_inv (delete id packs) ps s) as Hi' by by apply store_inv_delete.
  assert (packs_same (delete id packs) s (set_ddir (fs_dir s2) s2)) as Hps.
  { intros id' [Hne Hid']%lookup_delete_is_Some. apply Hsame; [exact (si_u32 _ _ _ _ Hi Hid')|congruence]. }
  exists (set_ddir (fs_dir s2) s2). split; [|split; [done|split; [done|split]]].
  - unfold delete_pack. erewrite ibind_step by reflexivity. erewrite ibind_step by (apply on_fs_step; exact Hr1).
    erewrite ibind_step by (apply on_fs_step; exact Hr2). apply on_fs_step, imap_step. unfold sync_dir.
    erewrite ibind_step by (rewrite syscall_calm by done; reflexivity). by rewrite syscall_calm.
  - apply store_inv_dirty. eapply store_inv_frame; [exact Hi'|by apply fs_wf_set_ddir|done|].
    intros id' Hid' Hle. destruct (decide (id' = id)) as [->|Hne]; [|rewrite (proj1 (Hsame id' Hid' Hne)); by apply (si_fresh _ _ _ Hi)].
    cbn. pose proof (si_fresh _ _ _ Hi id Hid' Hle) as Hn.
    unfold remove_file_if_exists, remove_file in Hr2. rewrite syscall_calm in Hr2 by done.
    destruct (fs_dir s1 !! pack_path id) eqn:He; injection Hr2 as <-; [cbn; apply lookup_delete_eq|exact He].
  - apply (unsynced_frame _ _ s); [done|]. destruct Hu as [H1 H2]. split; cbn.
    + intros id' hdr rs [Hne Hid']%lookup_delete_Some Hnd. apply (H1 id' hdr rs Hid'). set_solver.
    + intros id' [Hid' Hne]%elem_of_difference. apply lookup_delete_is_Some. split; [set_solver|by apply H2].
Qed.


(** ** Reads leave the disk alone *)

Definition peeks {E A} (c : M fs E A) : Prop := ∀ s, calm s → (c s).2 = s.

Lemma peeks_ret {E A} (a : A) : peeks (E:=E) (iret a).
Proof. done. Qed.
Lemma peeks_err {E A} (e : E) : peeks (A:=A) (ierr e).
Proof. done. Qed.
Lemma peeks_panic {E A} : peeks (E:=E) (A:=A) ipanic.
Proof. done. Qed.
Lemma peeks_bind {E A B} (c : M fs E A) (k : A → M fs E B) : peeks c → (∀ a, peeks (k a)) → peeks (ibind c k).
Proof.
  intros Hc Hk s Hs. unfold ibind. specialize (Hc s Hs). destruct (c s) as [[a|e|] s1]; cbn [snd] in Hc; subst s1; [|done..].
  by apply Hk.
Qed.
Lemma peeks_map_err {E F A} (f : E → F) (c : M fs E A) : peeks c → peeks (imap_err f c).
Proof. intros Hc s Hs. specialize (Hc s Hs). unfold imap_err. by destruct (c s). Qed.
Lemma peeks_if {E A} (b : bool) (c d : M fs E A) : peeks c → peeks d → peeks (if b then c else d).
Proof. by destruct b. Qed.
Lemma peeks_syscall {A} (c : io A) : (∀ s, (c s).2 = s) → peeks (syscall c).
Proof. intros Hc s Hs. rewrite syscall_calm by done. apply Hc. Qed.
Lemma peeks_open_existing p : peeks (open_existing p).
Proof. apply peeks_syscall. intros s. by destruct (fs_dir s !! p). Qed.
Lemma peeks_read_exact_at h off n : peeks (read_exact_at h off n).
Proof. apply peeks_syscall. intros s. cbv zeta. by destruct (_ && _). Qed.
Lemma peeks_read_exact h n : peeks (read_exact h n).
Proof. apply peeks_bind; [apply peeks_read_exact_at|done]. Qed.
Lemma peeks_file_len h : peeks (file_len h).
Proof. by apply peeks_syscall. Qed.
Lemma peeks_seek_start h n : peeks (seek_start h n).
Proof. by apply peeks_syscall. Qed.
Lemma peeks_seek_current h n : peeks (seek_current h n).
Proof. by apply peeks_syscall. Qed.

Create HintDb peeks.
#[local] Hint Resolve peeks_ret peeks_err peeks_panic peeks_map_err peeks_if peeks_open_existing peeks_read_exact_at
  peeks_read_exact peeks_file_len peeks_seek_start peeks_seek_current : peeks.

Lemma peeks_scan_loop fuel h e o rs : peeks (scan_loop fuel h e o rs).
Proof.
  revert o rs. induction fuel as [|fuel IH]; intros o rs; cbn [scan_loop]; [auto with peeks|].
  repeat (apply peeks_if; [auto with peeks|]). apply peeks_bind; auto with peeks.
Qed.
#[local] Hint Resolve peeks_scan_loop : peeks.

Lemma peeks_scan r : peeks (scan r).
Proof. apply peeks_bind; auto with peeks. Qed.

Lemma peeks_count_loop fuel h e o n : peeks (count_loop fuel h e o n).
Proof.
  revert h o n. induction fuel as [|fuel IH]; intros h o n; cbn [count_loop]; [auto with peeks|].
  repeat (apply peeks_if; [auto with peeks|]). apply peeks_bind; [auto with peeks|]. intros [b h']. cbv zeta.
  apply peeks_if; [auto with peeks|]. apply peeks_bind; auto with peeks.
Qed.

Lemma peeks_open p id : peeks (open p id).
Proof.
  unfold open. apply peeks_bind; [auto with peeks|]. intros f. apply peeks_bind; [auto with peeks|]. intros [magic f1].
  apply peeks_if; [auto with peeks|]. apply peeks_bind; [auto with peeks|]. intros len. apply peeks_if; [auto with peeks|].
  apply peeks_bind; [auto with peeks|]. intros f2. apply peeks_bind; [auto with peeks|]. intros [ft f3].
  apply peeks_if; [auto with peeks|]. cbv zeta. apply peeks_bind; [|intros n; auto with peeks].
  unfold count_records_in_file. apply peeks_bind; [auto with peeks|]. intros f4. apply peeks_count_loop.
Qed.

Lemma scan_pack_same p ps s : calm s → (scan_pack p (ps, s)).2 = (ps, s).
Proof.
  intros Hs. assert (peeks (imap_err SPack (let! reader := open (pack_path p) p in scan reader))) as Hp.
  { apply peeks_map_err, peeks_bind; [apply peeks_open|apply peeks_scan]. }
  specialize (Hp s Hs). unfold scan_pack, on_fs, zoom. cbn [fst snd]. destruct (imap_err _ _ s) as [x s']. cbn in *. by subst.
Qed.

(** ** Pack ids on disk *)

Lemma hex_digits_nonneg acc s n : 0 ≤ acc → hex_digits acc s = Some n → 0 ≤ n.
Proof.
  revert acc. induction s as [|c s IH]; intros acc Ha; cbn; [by intros [= <-]|].
  destruct (hex_val c) as [d|] eqn:Hd; [|done]. cbn. apply IH. unfold hex_val in Hd.
  repeat case_match; simplify_eq; lia.
Qed.

Lemma parse_pack_u32 name id : parse_pack_name name = Some id → u32_ok id.
Proof.
  unfold parse_pack_name. destruct (strip_prefix _ _) as [rest|]; [|done]. cbn. destruct (strip_suffix _ _) as [hex|]; [|done]. cbn.
  destruct (String.length hex =? 8)%nat; [|done]. unfold from_str_radix16. destruct hex as [|c hex]; [done|].
  destruct (if Ascii.eqb c _ then _ else _) as [n|] eqn:Hn; [|done]. cbn. destruct (n <? 2 ^ 32) eqn:Hlt; [|done]. intros [= <-].
  b2p. split; [|done]. case_match; [case_match; [done|]|]; by eapply hex_digits_nonneg; [|exact Hn].
Qed.

Lemma sealed_pack_ids_ok ps s : calm s → ∃ ids, sealed_pack_ids (ps, s) = (Ok ids, (ps, s)) ∧ Forall u32_ok ids.
Proof.
  intros Hs. unfold sealed_pack_ids. erewrite ibind_step by reflexivity.
  erewrite ibind_step.
  2: { apply on_fs_step. unfold discover_packs. erewrite ibind_step by (apply imap_step; unfold read_dir; rewrite syscall_calm by done; reflexivity). reflexivity. }
  eexists. split; [reflexivity|]. apply Forall_forall. intros id [_ Hid]%list_elem_of_filter.
  rewrite sort_by_key_perm in Hid. apply list_elem_of_omap in Hid as (n & _ & Hn). by eapply parse_pack_u32.
Qed.

End pagegc.
