(* ===== verification/PageStoreSpec.v ===== *)
(** * The page store's contract

    The theorems a client of [PageStore] relies on, each for every run of
    the operation that succeeds, whatever I/O faults the file system
    injects, with the fault-free runs shown to succeed. *)

From S2P Require Import Prelude Types Fs Faults Pack Index Names ReadCache PageStore PageStoreInv.
From S2P Require Import PageStoreIngest PageStoreRead PageStoreSync.

(** ** A fresh store *)

Section fresh.
Context `{Blake3, Crc32} (unix_now : Z).

Definition empty_fs : fs := mk_fs ∅ ∅ ∅ 0%N [].

Lemma index_new_empty h : flat index_new !! h = None.
Proof.
  rewrite flat_lookup by apply index_ok_new. unfold index_get, shard, index_new.
  rewrite lookup_replicate_2 by apply shard_for_lt. simpl. by rewrite lookup_empty.
Qed.

Lemma open_fresh opts :
  ∃ ps s, open_store unix_now opts empty_fs = (Ok ps, s) ∧ calm s ∧
    store_ok {[0 := (pack_header 0 unix_now, [])]} ps s ∧ ps_opts ps = opts ∧ a_next (ps_active ps) = 1 ∧
    ps_index ps = index_new.
Proof.
  assert (fs_wf empty_fs) as Hwf by (split; simpl; intros *; rewrite lookup_empty; by try intros [? ?]).
  destruct (create_ok (pack_path 0) 0 unix_now (max_pack_bytes opts) empty_fs eq_refl eq_refl)
    as (w & Hc & Hw & _ & _ & Hb & Hino).
  set (s := set_content _ _ _) in *.
  exists (mk_store index_new (mk_active w 0 ∅ true 1) opts (cache_new (read_handle_cap opts))), s.
  split_and!; [|done| |done|done|done].
  - unfold open_store. erewrite ibind_step by reflexivity. erewrite ibind_step by reflexivity.
    erewrite ibind_step by reflexivity. erewrite ibind_step by reflexivity. cbv beta iota zeta.
    erewrite ibind_step by reflexivity. cbv beta iota zeta. erewrite ibind_step by reflexivity.
    erewrite ibind_step by (cbn [last]; erewrite ibind_step by (apply imap_step; exact Hc); reflexivity). reflexivity.
  - split.
    + split; cbn [ps_index ps_active ps_cache a_pack_id a_next a_writer].
      * by apply fs_wf_create.
      * apply index_ok_new.
      * exists (pack_header 0 unix_now), []. split; [by rewrite lookup_singleton_eq|]. split; [done|].
        cbn [a_pack_id a_writer]. rewrite Hino. simpl. by rewrite lookup_insert_eq.
      * intros id hdr rs Hne [<- _]%lookup_singleton_Some. done.
      * intros id hdr rs [_ [= <- <-]]%lookup_singleton_Some. constructor.
      * intros h l. by rewrite index_new_empty.
      * intros id [? [<- _]%lookup_singleton_Some]. lia.
      * intros id Hu Hle. simpl. rewrite lookup_insert_ne; [done|]. intros Heq. apply pack_path_inj in Heq; [lia|done..].
      * intros p f g. simpl. by rewrite lookup_empty.
      * lia.
    + split_and!; simpl; [|done|set_solver]. intros id hdr rs [_ [= <- <-]]%lookup_singleton_Some. done.
Qed.
End fresh.

(** ** The contract *)

Section contract.
Context `{Blake3, Crc32} (unix_now : Z).
Implicit Types (packs : packs_t) (ps : PageStore) (s : fs).

Lemma erase_store_ok packs ps s : store_ok packs ps s ↔ store_ok packs ps (erase s).
Proof. symmetry. apply store_ok_faults. Qed.

(** A successful ingest, on any file system, is the fault-free one. *)
Lemma ingest_Ok iter packs ps s pages out ps' s' :
  (∀ l, iter l ≡ₚ l) → store_ok packs ps s → Forall (λ p, zlen p = PAGE_SIZE) pages →
  has_room ps (length pages) → ingest unix_now iter pages (ps, s) = (Ok out, (ps', s')) →
  ingested pages ps ps' out ∧ ∃ packs', store_ok packs' ps' s' ∧ packs_le packs packs'.
Proof.
  intros Hiter Hok Hl Hroom Hr. apply quiet_ingest in Hr. change (erase (ps, s)) with (ps, erase s) in Hr.
  destruct (ingest_ok unix_now iter packs ps (erase s) pages Hiter) as (out1 & packs' & ps1 & s1 & Hr1 & Hig & Hok' & _ & Hle);
    [by apply (proj1 (erase_store_ok _ _ _))|done|done|done|].
  rewrite Hr1 in Hr. change (erase (ps', s')) with (ps', erase s') in Hr. injection Hr as -> -> ->.
  split; [done|]. exists packs'. split; [by apply (proj2 (erase_store_ok _ _ _))|done].
Qed.

(** C16. [ingest] on a healthy store: without faults it succeeds; and
    whenever it succeeds, faults or not, there is one outcome per page in
    input order with the page's BLAKE3 hash and its indexed location,
    [newly_written] holds exactly of the first occurrence in the batch of a
    hash the index did not have, the index has grown by exactly the
    batch's hashes without changing an entry, and the store is healthy
    again, with every earlier record where it was (across rotations). *)
Theorem ingest_spec iter packs ps s pages :
  (∀ l, iter l ≡ₚ l) → store_ok packs ps s → Forall (λ p, zlen p = PAGE_SIZE) pages →
  has_room ps (length pages) →
  (calm s → ∃ out w, ingest unix_now iter pages (ps, s) = (Ok out, w)) ∧
  ∀ out ps' s', ingest unix_now iter pages (ps, s) = (Ok out, (ps', s')) →
    ingested pages ps ps' out ∧ ∃ packs', store_ok packs' ps' s' ∧ packs_le packs packs'.
Proof.
  intros Hiter Hok Hl Hroom. split.
  - intros Hs. destruct (ingest_ok unix_now iter packs ps s pages Hiter Hok Hs Hl Hroom) as (out & ? & ps' & s' & Hr & _).
    by exists out, (ps', s').
  - intros out ps' s' Hr. by eapply ingest_Ok.
Qed.

(** C17. [get_batch] on a healthy store without faults: one slot per hash
    in input order, [None] exactly for hashes the index does not have, and
    for the others a 4096-byte page whose BLAKE3 hash is the requested one,
    from a record of the pack the index names (sealed, cached or active and
    still buffered); the store stays healthy. *)
Theorem get_batch_spec packs ps s hashes :
  store_ok packs ps s → calm s →
  ∃ out ps' s', get_batch hashes (ps, s) = (Ok out, (ps', s')) ∧ store_ok packs ps' s' ∧
    ps_index ps' = ps_index ps ∧ length out = length hashes ∧
    ∀ i h, hashes !! i = Some h →
      match index_get (ps_index ps) h with
      | None => out !! i = Some None
      | Some l => ∃ d, out !! i = Some (Some d) ∧ page_of packs l h d ∧ blake3 d = h ∧ zlen d = PAGE_SIZE
      end.
Proof.
  intros Hok Hs. destruct (get_batch_ok packs ps s hashes Hok Hs) as (out & ps' & s' & Hr & _ & Hok' & Hx & _ & _ & Hl & Ha).
  exists out, ps', s'. split_and!; [exact Hr|exact Hok'|done|done|]. intros i h Hi. specialize (Ha i h Hi).
  case_match; [|done]. destruct Ha as (d & Hd & Hp). exists d. split_and!; [done|done|..];
    by destruct (page_of_hash packs ps s _ h d (proj1 Hok) Hp).
Qed.

(** Hashes of the index are all answered, with pages. *)
Lemma get_batch_all packs ps s hashes :
  store_ok packs ps s → calm s → (∀ h, h ∈ hashes → is_Some (index_get (ps_index ps) h)) →
  ∃ ds w, get_batch hashes (ps, s) = (Ok (Some <$> ds), w) ∧ blake3 <$> ds = hashes ∧ Forall (λ d, zlen d = PAGE_SIZE) ds.
Proof.
  intros Hok Hs Hin. destruct (get_batch_ok packs ps s hashes Hok Hs) as (slots & ps2 & s2 & Hg & _ & _ & _ & _ & _ & Hlen & Ha).
  assert (∀ i h, hashes !! i = Some h → ∃ d, slots !! i = Some (Some d) ∧ blake3 d = h ∧ zlen d = PAGE_SIZE) as Hall.
  { intros i h Hi. destruct (Hin h) as [l Hl]; [by eapply list_elem_of_lookup_2|]. specialize (Ha i h Hi). rewrite Hl in Ha.
    destruct Ha as (d & Hd & Hpg). exists d. split; [done|]. by destruct (page_of_hash packs ps s _ _ d (proj1 Hok) Hpg). }
  clear Ha Hin. rewrite Hg. clear Hg. revert slots Hlen Hall. induction hashes as [|h hs IH]; intros [|o slots] Hlen Hall; simplify_eq/=.
  { exists [], (ps2, s2). by split_and!. }
  destruct (IH slots Hlen) as (ds & w & Hds & Hb & Hz). { intros i. apply (Hall (S i)). }
  destruct (Hall 0%nat h eq_refl) as (d & [= ->] & <- & Hzd). injection Hds as -> <-.
  exists (d :: ds), (ps2, s2). rewrite <-Hb. split_and!; [done|done|by constructor].
Qed.

(** Round trip: the pages of a successful ingest are all returned by
    [get_batch] of their hashes, in order, up to the hash. *)
Theorem ingest_get_roundtrip iter packs ps s pages out ps' s' :
  (∀ l, iter l ≡ₚ l) → store_ok packs ps s → Forall (λ p, zlen p = PAGE_SIZE) pages →
  has_room ps (length pages) → calm s' →
  ingest unix_now iter pages (ps, s) = (Ok out, (ps', s')) →
  ∃ ds w, get_batch (blake3 <$> pages) (ps', s') = (Ok (Some <$> ds), w) ∧ blake3 <$> ds = blake3 <$> pages ∧
    Forall (λ d, zlen d = PAGE_SIZE) ds.
Proof.
  intros Hiter Hok Hl Hroom Hs' Hr. destruct (ingest_Ok _ _ _ _ _ _ _ _ Hiter Hok Hl Hroom Hr) as [Hig (packs' & Hok' & _)].
  apply (get_batch_all packs' ps' s'); [done|done|]. intros h (page & -> & [i Hp]%list_elem_of_lookup)%list_elem_of_fmap.
  destruct (ig_outcome _ _ _ _ Hig i page Hp) as (l & b & _ & Hx & _). by exists l.
Qed.

(** A successful [sync], on any file system. *)
Lemma sync_Ok iter packs ps s ps' s' :
  (∀ X, iter X ≡ₚ elements X) → store_ok packs ps s → sync iter (ps, s) = (Ok tt, (ps', s')) →
  store_ok packs ps' s' ∧ ps_index ps' = ps_index ps ∧ all_durable packs s'.
Proof.
  intros Hiter Hok Hr. apply quiet_sync in Hr. change (erase (ps, s)) with (ps, erase s) in Hr.
  destruct (sync_ok iter packs ps (erase s) Hiter) as (ps1 & s1 & Hr1 & _ & Hok1 & Hx & Hd & Hnf);
    [by apply (proj1 (erase_store_ok _ _ _))|done|].
  rewrite Hr1 in Hr. change (erase (ps', s')) with (ps', erase s') in Hr. injection Hr as -> ->.
  split; [by apply (proj2 (erase_store_ok _ _ _))|]. split; [done|].
  exact (clean_all_durable packs ps' (erase s') Hok1 Hd Hnf).
Qed.

(** C18. [sync]: without faults it succeeds; and whenever it returns [Ok]
    on a healthy store, after a crash (only durable directory entries and
    durable bytes remain) every page of the index can still be read, with
    the right hash, at its indexed location. *)
Theorem sync_durable iter packs ps s :
  (∀ X, iter X ≡ₚ elements X) → store_ok packs ps s →
  (calm s → ∃ w, sync iter (ps, s) = (Ok tt, w)) ∧
  ∀ ps' s', sync iter (ps, s) = (Ok tt, (ps', s')) →
    store_ok packs ps' s' ∧ ps_index ps' = ps_index ps ∧
    ∀ h, is_Some (index_get (ps_index ps) h) → readable_after_crash ps' s' h.
Proof.
  intros Hiter Hok. split.
  - intros Hs. destruct (sync_ok iter packs ps s Hiter Hok Hs) as (ps' & s' & Hr & _). by exists (ps', s').
  - intros ps' s' Hr. destruct (sync_Ok _ _ _ _ _ _ Hiter Hok Hr) as (Hok' & Hx & Hd).
    split; [exact Hok'|]. split; [done|]. intros h Hh.
    eapply all_durable_readable; [exact (proj1 Hok')|exact Hd|]. by rewrite Hx, flat_lookup by apply Hok.
Qed.

(** Acknowledged pages are durable: when an ingest and a later [sync]
    both succeed, under any faults, every ingested page can be read back
    after a crash. *)
Theorem acknowledged_pages_survive iter iter' packs ps s pages out ps1 s1 ps2 s2 :
  (∀ l, iter l ≡ₚ l) → (∀ X, iter' X ≡ₚ elements X) → store_ok packs ps s →
  Forall (λ p, zlen p = PAGE_SIZE) pages → has_room ps (length pages) →
  ingest unix_now iter pages (ps, s) = (Ok out, (ps1, s1)) → sync iter' (ps1, s1) = (Ok tt, (ps2, s2)) →
  ∀ page, page ∈ pages → readable_after_crash ps2 s2 (blake3 page).
Proof.
  intros Hiter Hiter' Hok Hl Hroom Hr1 Hr2 page Hp.
  destruct (ingest_Ok _ _ _ _ _ _ _ _ Hiter Hok Hl Hroom Hr1) as [Hig (packs' & Hok' & _)].
  destruct (sync_Ok _ _ _ _ _ _ Hiter' Hok' Hr2) as (Hok2 & Hx & Hd).
  eapply all_durable_readable; [exact (proj1 Hok2)|exact Hd|]. rewrite Hx. apply elem_of_dom.
  rewrite (ig_dom _ _ _ _ Hig). apply elem_of_union_r, elem_of_list_to_set, list_elem_of_fmap. by exists page.
Qed.

(** Rotation: the new pack id was never used, the old active pack is
    sealed on disk with all its records, and the index is unchanged. *)
Theorem rotate_spec packs ps s :
  store_ok packs ps s → calm s → a_next (ps_active ps) < 2 ^ 32 →
  ∃ id packs' ps' s', rotate_locked unix_now (ps, s) = (Ok id, (ps', s')) ∧
    store_ok packs' ps' s' ∧ packs_le packs packs' ∧ ps_index ps' = ps_index ps ∧
    a_pack_id (ps_active ps') = id ∧ packs !! id = None ∧
    ∃ hdr rs, packs !! a_pack_id (ps_active ps) = Some (hdr, rs) ∧ sealed_at s' (a_pack_id (ps_active ps)) hdr rs.
Proof.
  intros Hok Hs Hlt. pose proof (proj1 Hok) as Hi.
  destruct (rotate_store_ok unix_now packs ps s Hok Hs Hlt)
    as (packs' & ps' & s' & Hr & Hok' & _ & Hle & _ & Hx & _ & Hid & Hn & Hoff & _).
  destruct (si_active _ _ _ Hi) as (hdr & rs & Hp & _). destruct (Hle _ _ _ Hp) as [rs1 Hp1].
  assert (packs !! a_next (ps_active ps) = None) as Hfresh.
  { apply eq_None_not_Some. intros Hs1. pose proof (si_ids _ _ _ Hi _ Hs1). lia. }
  exists (a_next (ps_active ps)), packs', ps', s'. split; [exact Hr|]. split; [exact Hok'|].
  split_and!; [done|done|done|done|]. exists hdr, rs. split; [done|].
  destruct (rotate_ok unix_now packs ps s Hi Hs Hlt) as (w & s2 & Hr2 & _ & _ & _ & _ & Hi2).
  rewrite Hr2 in Hr. injection Hr as <- <-. apply (si_sealed _ _ _ Hi2); [simpl; congruence|].
  rewrite lookup_insert_ne; [done|congruence].
Qed.

(** The dirty set is dropped before the packs are synced: when the
    [fdatasync] of a sealed dirty pack fails, the caller sees the error,
    but the next [sync] succeeds without touching that pack, although the
    index still answers from it. *)
Theorem failed_sync_forgets iter packs ps s id i :
  store_inv packs ps s → (∀ X, iter X ≡ₚ elements X) → w_buf (a_writer (ps_active ps)) = [] →
  fs_faults s = [None; Some 0%nat] → id ≠ a_pack_id (ps_active ps) → is_Some (packs !! id) →
  head (iter ({[a_pack_id (ps_active ps)]} ∪ a_dirty (ps_active ps))) = Some id →
  fs_dir s !! pack_path id = Some i →
  ∃ ps1 s1 ps2 s2, sync iter (ps, s) = (Err (SIo EOther), (ps1, s1)) ∧
    sync iter (ps1, s1) = (Ok tt, (ps2, s2)) ∧
    durable s2 i = durable s i ∧ ps_index ps2 = ps_index ps.
Proof.
  intros Hi Hiter Hb Hf Hne Hp Hh Hd. pose proof (failed_sync_ok iter packs ps s id i Hi Hb Hf Hh Hd) as Hr.
  assert (store_inv packs (set_active (set_dirty ∅ (ps_active ps)) ps) (set_faults [] s)) as Hi1.
  { apply store_inv_dirty. apply store_inv_frame with s; [done|by apply fs_wf_set_faults, Hi|done|apply Hi]. }
  destruct (sync_active_only iter packs _ _ Hi1 eq_refl Hb eq_refl Hiter) as (ps2 & s2 & Hr2 & Hx & Hdu).
  eexists _, _, ps2, s2. split; [exact Hr|]. split; [exact Hr2|]. split; [|done]. rewrite Hdu; [done|].
  intros ->. by eapply active_ino_ne.
Qed.

End contract.

(** ** Witnesses *)

#[local] Existing Instances toy_blake3 toy_crc32.
#[local] Opaque ex_page blake3.

Lemma ex_fresh : ∃ ps s, calm s ∧ store_ok {[0 := (pack_header 0 1700000000, [])]} ps s ∧
  ps_index ps = index_new ∧ a_next (ps_active ps) = 1 ∧ has_room ps 2.
Proof.
  destruct (open_fresh 1700000000 default_options) as (ps & s & _ & Hs & Hok & Ho & Hn & Hx).
  exists ps, s. split; [done|]. split; [exact Hok|]. split; [done|]. split; [done|].
  split; [rewrite Ho; unfold default_options, max_pack_bytes, PACK_HEADER_SIZE, RECORD_HEADER_SIZE, PAGE_SIZE, PACK_MAX_BYTES; lia|].
  rewrite Hn. lia.
Qed.

Lemma ex_pages_ok : Forall (λ p, zlen p = PAGE_SIZE) [ex_page; ex_page].
Proof. repeat constructor; exact zlen_ex_page. Qed.

Lemma ingest_spec_witness : ∃ ps s out ps' s',
  ingest 1700000000 id [ex_page; ex_page] (ps, s) = (Ok out, (ps', s')) ∧ ingested [ex_page; ex_page] ps ps' out.
Proof.
  destruct ex_fresh as (ps & s & Hs & Hok & _ & _ & Hroom).
  destruct (ingest_spec 1700000000 id _ ps s [ex_page; ex_page] (λ l, Permutation_refl l) Hok ex_pages_ok Hroom) as [H1 H2].
  destruct (H1 Hs) as (out & [ps' s'] & Hr). exists ps, s, out, ps', s'. split; [exact Hr|]. exact (proj1 (H2 _ _ _ Hr)).
Defined.

Lemma get_batch_spec_witness : ∃ ps s out w,
  get_batch [blake3 ex_page] (ps, s) = (Ok out, w) ∧ out !! 0%nat = Some None.
Proof.
  destruct ex_fresh as (ps & s & Hs & Hok & Hx & _).
  destruct (get_batch_spec _ ps s [blake3 ex_page] Hok Hs) as (out & ps' & s' & Hr & _ & _ & _ & Ha).
  exists ps, s, out, (ps', s'). split; [exact Hr|]. specialize (Ha 0%nat _ eq_refl).
  rewrite Hx, <-flat_lookup, index_new_empty in Ha by apply index_ok_new. exact Ha.
Defined.

Lemma ingest_get_roundtrip_witness : ∃ ps s ds w,
  get_batch (blake3 <$> [ex_page; ex_page]) (ps, s) = (Ok (Some <$> ds), w) ∧
  blake3 <$> ds = blake3 <$> [ex_page; ex_page].
Proof.
  destruct ex_fresh as (ps & s & Hs & Hok & _ & _ & Hroom).
  destruct (ingest_ok 1700000000 id _ ps s [ex_page; ex_page] (λ l, Permutation_refl l) Hok Hs ex_pages_ok Hroom)
    as (out & _ & ps' & s' & Hr & _ & _ & Hs' & _).
  destruct (ingest_get_roundtrip 1700000000 id _ ps s [ex_page; ex_page] out ps' s' (λ l, Permutation_refl l)
    Hok ex_pages_ok Hroom Hs' Hr) as (ds & w & Hg & Hb & _).
  exists ps', s', ds, w. split; [exact Hg|exact Hb].
Defined.

Lemma sync_durable_witness : ∃ ps s ps' s',
  sync elements (ps, s) = (Ok tt, (ps', s')) ∧ readable_after_crash ps' s' (blake3 ex_page).
Proof.
  destruct ex_fresh as (ps & s & Hs & Hok & _ & _ & Hroom).
  destruct (ingest_ok 1700000000 id _ ps s [ex_page; ex_page] (λ l, Permutation_refl l) Hok Hs ex_pages_ok Hroom)
    as (out & packs1 & ps1 & s1 & _ & Hig & Hok1 & Hs1 & _).
  destruct (sync_durable elements packs1 ps1 s1 (λ X, Permutation_refl _) Hok1) as [H1 H2].
  destruct (H1 Hs1) as [[ps2 s2] Hr]. exists ps1, s1, ps2, s2. split; [exact Hr|].
  apply (proj2 (proj2 (H2 ps2 s2 Hr))). destruct (ig_outcome _ _ _ _ Hig 0%nat ex_page eq_refl) as (l & b & _ & Hl & _).
  exists l. exact Hl.
Defined.

Lemma acknowledged_pages_survive_witness : ∃ ps s, readable_after_crash ps s (blake3 ex_page).
Proof.
  destruct ex_fresh as (ps & s & Hs & Hok & _ & _ & Hroom).
  destruct (ingest_ok 1700000000 id _ ps s [ex_page; ex_page] (λ l, Permutation_refl l) Hok Hs ex_pages_ok Hroom)
    as (out & packs1 & ps1 & s1 & Hr & _ & Hok1 & Hs1 & _).
  destruct (sync_ok elements packs1 ps1 s1 (λ X, Permutation_refl _) Hok1 Hs1) as (ps2 & s2 & Hr2 & _).
  exists ps2, s2. apply (acknowledged_pages_survive 1700000000 id elements _ ps s [ex_page; ex_page] out ps1 s1 ps2 s2
    (λ l, Permutation_refl l) (λ X, Permutation_refl _) Hok ex_pages_ok Hroom Hr Hr2). left.
Defined.

Lemma rotate_spec_witness : ∃ ps s ps' s', rotate_locked 1700000000 (ps, s) = (Ok 1, (ps', s')).
Proof.
  destruct ex_fresh as (ps & s & Hs & Hok & _ & Hn & _).
  assert (a_next (ps_active ps) < 2 ^ 32) as Hlt by (rewrite Hn; lia).
  destruct (rotate_spec 1700000000 _ ps s Hok Hs Hlt) as (i & packs' & ps' & s' & Hr & _).
  exists ps, s, ps', s'. rewrite Hr. f_equal.
  destruct (rotate_store_ok 1700000000 _ ps s Hok Hs Hlt) as (? & ? & ? & Hr2 & _). rewrite Hr2 in Hr.
  injection Hr as <- _ _. by rewrite Hn.
Defined.

Section dirty_example.
Context `{Blake3, Crc32} (page : bytes) (Hpage : zlen page = PAGE_SIZE).

(** A store with an unsynced sealed pack 0 and an empty active pack 1,
    whose next [fdatasync] fails. *)
Definition ex_dirty_fs : fs :=
  mk_fs {[pack_path 0 := 0%N; pack_path 1 := 1%N]} ∅
    {[0%N := mk_file (sealed_bytes (pack_header 0 1700000000) [page_rec (blake3 page) page]) []; 1%N := mk_file (pack_header 1 1700000000) []]}
    2%N [None; Some 0%nat].
Definition ex_dirty_store : PageStore :=
  mk_store (index_insert index_new (blake3 page) (mk_loc 0 PACK_HEADER_SIZE))
    (mk_active (mk_writer (mk_handle 1%N PACK_HEADER_SIZE) 1 [] [] PACK_HEADER_SIZE 0 false PACK_MAX_BYTES)
       1 {[0]} true 2)
    default_options (cache_new 256).
Definition ex_dirty_packs : packs_t := {[0 := (pack_header 0 1700000000, [page_rec (blake3 page) page]); 1 := (pack_header 1 1700000000, [])]}.

#[local] Opaque body sealed_bytes pack_header.

Lemma pack_path_01 : pack_path 0 ≠ pack_path 1.
Proof. intros Heq%pack_path_inj; [done|by split|by split]. Qed.

Lemma ex_dirty_wf : fs_wf ex_dirty_fs.
Proof.
  pose proof pack_path_01. split; simpl.
  - intros p i [[<- <-]|[_ [<- <-]%lookup_singleton_Some]]%lookup_insert_Some; by eexists.
  - intros p q i [[<- <-]|[_ [<- <-]%lookup_singleton_Some]]%lookup_insert_Some
      [[<- ?]|[_ [<- ?]%lookup_singleton_Some]]%lookup_insert_Some; done.
  - intros i [? [[<- _]|[_ [<- _]%lookup_singleton_Some]]%lookup_insert_Some]; lia.
Qed.

Lemma ex_dirty_inv : store_inv ex_dirty_packs ex_dirty_store ex_dirty_fs.
Proof.
  pose proof pack_path_01 as Hne. pose proof (index_insert_refines index_new (blake3 page) (mk_loc 0 PACK_HEADER_SIZE) index_ok_new) as [Hok Hfl].
  assert (fs_dir ex_dirty_fs !! pack_path 0 = Some 0%N) as Hd0 by (simpl; by rewrite lookup_insert_eq).
  assert (fs_dir ex_dirty_fs !! pack_path 1 = Some 1%N) as Hd1
    by (simpl; by rewrite lookup_insert_ne, lookup_singleton_eq by done).
  split; unfold ex_dirty_packs.
  - exact ex_dirty_wf.
  - exact Hok.
  - exists (pack_header 1 1700000000), []. split; [done|]. split; [|exact Hd1].
    pose proof (header_ok_pack 1 1700000000) as Hh. split; try done;
      cbn [ex_dirty_store ps_active a_writer w_file h_ino h_pos w_offset w_buf]; try (by eexists);
      change (body []) with (@nil Init.Byte.byte); rewrite ?app_nil_r; symmetry; apply Hh.
  - intros id hdr rs Hid [[<- [= <- <-]]|[_ [<- _]%lookup_singleton_Some]]%lookup_insert_Some; [|done].
    split; [apply header_ok_pack|]. exists 0%N. split; [exact Hd0|reflexivity].
  - intros id hdr rs [[_ [= <- <-]]|[_ [_ [= <- <-]]%lookup_singleton_Some]]%lookup_insert_Some; [|constructor].
    constructor; [|constructor]. split; [exact Hpage|reflexivity].
  - intros h l. change (ps_index ex_dirty_store) with (index_insert index_new (blake3 page) (mk_loc 0 PACK_HEADER_SIZE)).
    rewrite Hfl. unfold or_insert. rewrite index_new_empty.
    intros [[<- <-]|[_ Hl]]%lookup_insert_Some; [|by rewrite index_new_empty in Hl].
    exists (pack_header 0 1700000000), [page_rec (blake3 page) page]. split; [reflexivity|]. cbn [locs offset rr_hash page_rec]. left.
  - intros id [? [[<- _]|[_ [<- _]%lookup_singleton_Some]]%lookup_insert_Some]; simpl; lia.
  - intros id Hu Hle. cbn [ex_dirty_store ps_active a_next] in Hle. simpl.
    rewrite lookup_insert_ne, lookup_singleton_ne; [done|..]; intros Heq; apply pack_path_inj in Heq; try done; lia.
  - intros p f g. cbn. by rewrite lookup_empty.
  - simpl. lia.
Qed.

End dirty_example.

Lemma failed_sync_forgets_witness : ∃ ps1 s1 ps2 s2,
  sync (λ X, reverse (elements X)) (ex_dirty_store ex_page, ex_dirty_fs ex_page) = (Err (SIo EOther), (ps1, s1)) ∧
  sync (λ X, reverse (elements X)) (ps1, s1) = (Ok tt, (ps2, s2)) ∧
  index_get (ps_index ps2) (blake3 ex_page) = Some (mk_loc 0 PACK_HEADER_SIZE) ∧ durable s2 0%N = [].
Proof.
  destruct (failed_sync_forgets (λ X, reverse (elements X)) (ex_dirty_packs ex_page) (ex_dirty_store ex_page) (ex_dirty_fs ex_page) 0 0%N)
    as (ps1 & s1 & ps2 & s2 & Hr1 & Hr2 & Hd & Hx).
  - exact (ex_dirty_inv ex_page zlen_ex_page).
  - intros X. apply reverse_Permutation.
  - reflexivity.
  - reflexivity.
  - done.
  - by eexists.
  - vm_compute. reflexivity.
  - simpl. by rewrite lookup_insert_eq.
  - exists ps1, s1, ps2, s2. split; [exact Hr1|]. split; [exact Hr2|]. split; [|exact Hd].
    rewrite Hx, <-flat_lookup by apply (si_index _ _ _ (ex_dirty_inv ex_page zlen_ex_page)).
    change (ps_index (ex_dirty_store ex_page)) with (index_insert index_new (blake3 ex_page) (mk_loc 0 PACK_HEADER_SIZE)).
    rewrite (proj2 (index_insert_refines _ _ _ index_ok_new)). unfold or_insert. rewrite index_new_empty. by rewrite lookup_insert_eq.
Defined.
