(* ===== verification/PageStoreOpen.v ===== *)
(** * Opening a page store

    What [PageStore::open] makes of any directory a stop or a crash can
    leave: packs shorter than their header, sealed packs with, without or
    with an unreadable sidecar, and any number of unsealed packs with torn
    tails.  The store it returns is healthy and its index names exactly the
    records that are there. *)

From S2P Require Import Prelude Types Fs Faults Pack Index Names ReadCache PageStore PageStoreInv.
From S2P Require Import PageStoreIngest PageStoreRead PageStoreSync PageStoreSpec.

(** ** Images of pack files *)

Inductive image :=
  | IShort
  | ISealed (hdr : bytes) (rs : list rrec)
  | IOpen (hdr : bytes) (rs : list rrec) (tail : bytes).

Definition recs (im : image) : option (bytes * list rrec) :=
  match im with IShort => None | ISealed hdr rs | IOpen hdr rs _ => Some (hdr, rs) end.

Section images.
Context `{Blake3, Crc32}.

(** What the writer writes. *)
Definition plain (r : rrec) : Prop := page_ok r ∧ rr_flags r = Byte.x01.

Definition fits (rs : list rrec) : Prop := zlen rs < 2 ^ 32 ∧ zlen (body rs) < 2 ^ 63.

(** The last bytes are not those of a footer. *)
Definition unsealed_image (b : bytes) : Prop :=
  zlen b < PACK_HEADER_SIZE + PACK_FOOTER_SIZE ∨ sub (zlen b - 44) (zlen b - 40) b ≠ FOOTER_MAGIC.

Definition image_of (im : image) (b : bytes) : Prop :=
  match im with
  | IShort => zlen b < PACK_HEADER_SIZE
  | ISealed hdr rs => header_ok hdr ∧ Forall plain rs ∧ fits rs ∧ b = sealed_bytes hdr rs
  | IOpen hdr rs tail => header_ok hdr ∧ Forall plain rs ∧ fits rs ∧ no_good_prefix tail ∧ b = hdr ++ body rs ++ tail ∧ unsealed_image b
  end.

(** The index entries of a pack. *)
Definition pack_list (id : PackId) (rs : list rrec) : list (PageHash * PageLoc) := records_to_entries id (locs PACK_HEADER_SIZE rs).

(** A sidecar lists entries of the pack only, and every hash in it. *)
Definition honest (id : PackId) (rs : list rrec) (es : list (PageHash * PageLoc)) : Prop :=
  (∀ e, e ∈ es → e ∈ pack_list id rs) ∧ ∀ h, h ∈ rr_hash <$> rs → h ∈ es.*1.

Record disk_ok (D : gmap PackId image) (s : fs) : Prop := {
  dk_wf : fs_wf s;
  dk_names : ∀ name id, is_Some (fs_dir s !! name) → parse_pack_name name = Some id → name = pack_path id ∧ is_Some (D !! id);
  dk_files : ∀ id im, D !! id = Some im → u32_ok id ∧ ∃ i, fs_dir s !! pack_path id = Some i ∧ image_of im (content s i);
  dk_side : ∀ id hdr rs data es, D !! id = Some (ISealed hdr rs) → named s (sidecar_path id) = Some data →
    decode_sidecar data = Ok es → honest id rs es;
}.

(** ** Entries *)

Lemma elem_of_pack_list e id rs : e ∈ pack_list id rs ↔ pack e.2 = id ∧ (offset e.2, e.1) ∈ locs PACK_HEADER_SIZE rs.
Proof.
  unfold pack_list, records_to_entries. rewrite list_elem_of_fmap. split.
  - intros ([o h] & -> & Hin). done.
  - destruct e as [h [p o]]. cbn. intros [<- Hin]. by exists (o, h).
Qed.

Lemma pack_list_hashes id rs : (pack_list id rs).*1 = rr_hash <$> rs.
Proof.
  rewrite <-(locs_hashes PACK_HEADER_SIZE rs). unfold pack_list, records_to_entries. rewrite <-list_fmap_compose.
  apply list_fmap_ext. by intros i [o h] _.
Qed.

Lemma locs_bound off rs o h : 0 ≤ off → (o, h) ∈ locs off rs → 0 ≤ o ≤ off + zlen (body rs).
Proof.
  intros Hoff (rs1 & r & rs2 & -> & _ & ->)%locs_split. rewrite body_app, zlen_app. pose proof (zlen_nonneg (body rs1)).
  pose proof (zlen_nonneg (body (r :: rs2))). lia.
Qed.

Lemma pack_list_wf id rs : u32_ok id → Forall plain rs → fits rs → Forall entry_wf (pack_list id rs).
Proof.
  intros Hid Hrs [_ Hb]. apply Forall_forall. intros [h l] [Hp Hin]%elem_of_pack_list. cbn [fst snd] in *. subst id.
  pose proof (locs_bound PACK_HEADER_SIZE rs _ _ ltac:(done) Hin). destruct (locs_split _ _ _ _ Hin) as (rs1 & r & rs2 & -> & <- & _).
  apply Forall_app in Hrs as [_ [[[_ Hh] _] _]%Forall_cons]. split_and!; cbn; [|done|unfold u64_ok, PACK_HEADER_SIZE in *; lia].
  rewrite <-Hh. apply blake3_hash_ok.
Qed.

Lemma zlen_pack_list id rs : zlen (pack_list id rs) = zlen rs.
Proof. unfold zlen. by rewrite <-(length_fmap fst), pack_list_hashes, length_fmap. Qed.

(** A sidecar of all entries is honest. *)
Lemma honest_written id rs es es' : u32_ok id → Forall plain rs → fits rs → es ≡ₚ pack_list id rs →
  decode_sidecar (encode_sidecar es) = Ok es' → honest id rs es'.
Proof.
  intros Hid Hrs Hf Hes. rewrite decode_sidecar_encode.
  - intros [= <-]. split; [intros e; by rewrite sort_entries_perm, Hes|]. intros h Hh. rewrite sort_entries_perm, Hes. by rewrite pack_list_hashes.
  - rewrite Hes. by apply pack_list_wf.
  - unfold zlen. rewrite Hes. fold (zlen (pack_list id rs)). rewrite zlen_pack_list. apply Hf.
Qed.

(** ** Filling the index *)

Lemma fill_shard_sound (P : PageHash → PageLoc → Prop) m es :
  (∀ h l, m !! h = Some l → P h l) → (∀ e, e ∈ es → P e.1 e.2) → ∀ h l, fill_shard m es !! h = Some l → P h l.
Proof.
  revert m. induction es as [|e es IH]; intros m Hm Hes; [done|]. cbn. apply IH; [|intros; apply Hes; by right].
  intros h l. rewrite or_insert_lookup. case_decide; [|apply Hm]. subst. destruct (m !! e.1) as [l'|] eqn:He; cbn; intros [= <-].
  - by apply Hm. - apply Hes. by left.
Qed.

Lemma fill_shard_dom m es h : is_Some (fill_shard m es !! h) ↔ is_Some (m !! h) ∨ h ∈ es.*1.
Proof.
  revert m. induction es as [|e es IH]; intros m; cbn; [split; [by left|intros [?|[]%elem_of_nil]; done]|]. fold (fill_shard (or_insert m e.1 e.2) es).
  rewrite IH, or_insert_lookup, elem_of_cons. case_decide; [|naive_solver]. subst. split; [naive_solver|]. intros _. left. by destruct (m !! e.1).
Qed.

(** Every entry names a record, and every hash of [S] is there. *)
Record idx_ok (packs : packs_t) (S : PageHash → Prop) (idx : ShardedIndex) : Prop := {
  ix_ok : index_ok idx;
  ix_loc : ∀ h l, flat idx !! h = Some l → ∃ hdr rs, packs !! pack l = Some (hdr, rs) ∧ (offset l, h) ∈ locs PACK_HEADER_SIZE rs;
  ix_has : ∀ h, S h → is_Some (flat idx !! h);
}.

Lemma idx_new packs : idx_ok packs (λ _, False) index_new.
Proof. split; [apply index_ok_new| |done]. intros h l. by rewrite index_new_empty. Qed.

Lemma idx_insert packs S idx id hdr rs es : idx_ok packs S idx → packs !! id = Some (hdr, rs) → honest id rs es →
  idx_ok packs (λ h, S h ∨ h ∈ rr_hash <$> rs) (insert_batch idx es).
Proof.
  intros [Hok Hloc Hhas] Hp [Hs Hc]. destruct (insert_batch_refines idx es Hok) as [Hok' Hfl]. split; [done|..]; rewrite Hfl.
  - apply fill_shard_sound; [done|]. intros e He%Hs%elem_of_pack_list. destruct He as [-> He]. by exists hdr, rs.
  - intros h [Hh|Hh]; apply fill_shard_dom; [left; by apply Hhas|right; by apply Hc].
Qed.

Lemma idx_weaken packs (S S' : PageHash → Prop) idx : (∀ h, S' h → S h) → idx_ok packs S idx → idx_ok packs S' idx.
Proof. intros HS [? ? ?]. split; [done|done|]. intros h Hh. auto. Qed.
End images.

(** ** Finding the packs *)

Section opening.
Context `{Blake3, Crc32} (unix_now : Z).
Implicit Types (D : gmap PackId image) (s : fs).

(** The names and the bytes of the packs are durable. *)
Definition settled D s : Prop :=
  ∀ id i, is_Some (D !! id) → fs_dir s !! pack_path id = Some i → durable s i = content s i ∧ fs_ddir s !! pack_path id = Some i.

Definition honest_sides D s : Prop :=
  ∀ id hdr rs data es, D !! id = Some (ISealed hdr rs) → named s (sidecar_path id) = Some data → decode_sidecar data = Ok es → honest id rs es.

Lemma disk_frame D s s' : disk_ok D s → fs_wf s' → (∀ id, is_Some (D !! id) → same_file (pack_path id) s s') →
  (∀ name id, parse_pack_name name = Some id → is_Some (fs_dir s' !! name) → is_Some (fs_dir s !! name)) → honest_sides D s' → disk_ok D s'.
Proof.
  intros [Hwf Hn Hf Hsd] Hwf' Hsame Hnames Hside. split; [done|eauto| |done].
  intros id im Hid. destruct (Hf id im Hid) as (Hu & i & Hi & Him). split; [done|]. exists i.
  destruct (same_file_content _ _ _ i (Hsame id ltac:(by eexists)) Hi) as (-> & -> & _). done.
Qed.

Lemma settled_frame D s s' : settled D s → fs_ddir s' = fs_ddir s → (∀ id, is_Some (D !! id) → same_file (pack_path id) s s') → settled D s'.
Proof.
  intros Hs Hd Hsame id i Hid Hi. rewrite (proj1 (Hsame id Hid)) in Hi.
  destruct (same_file_content _ _ _ i (Hsame id Hid) Hi) as (_ & -> & ->). rewrite Hd. by apply Hs.
Qed.

Lemma discover_ok D s : disk_ok D s → calm s →
  ∃ ids, discover_packs s = (Ok ids, s) ∧ NoDup ids ∧ StronglySorted Z.le ids ∧ ∀ id, id ∈ ids ↔ is_Some (D !! id).
Proof.
  intros [Hwf Hn Hf _] Hs. eexists. split.
  { unfold discover_packs. erewrite ibind_step by (apply imap_step; unfold read_dir; rewrite syscall_calm by done; reflexivity). reflexivity. }
  set (names := (map_to_list (fs_dir s)).*1).
  assert (∀ name, name ∈ names ↔ is_Some (fs_dir s !! name)) as Hnames.
  { intros name. unfold names. rewrite list_elem_of_fmap. split.
    - intros ([n i] & -> & Hin%elem_of_map_to_list). by eexists.
    - intros [i Hi]. exists (name, i). by rewrite elem_of_map_to_list. }
  split_and!.
  - rewrite sort_by_key_perm. assert (NoDup names) as Hnd by apply NoDup_fst_map_to_list.
    assert (∀ n, n ∈ names → ∀ id, parse_pack_name n = Some id → n = pack_path id) as Hp.
    { intros n Hin%Hnames id Hpn. by apply (Hn n id). }
    clear Hnames. induction names as [|n names IH]; [constructor|]. apply NoDup_cons in Hnd as [Hni Hnd]. cbn.
    destruct (parse_pack_name n) as [id|] eqn:Hpn; [|apply IH; [done|intros; apply Hp; [by right|done]]].
    apply NoDup_cons. split; [|apply IH; [done|intros; apply Hp; [by right|done]]].
    intros (n' & Hin & Hpn')%list_elem_of_omap. assert (n = n') as -> by (rewrite (Hp n ltac:(left) id Hpn); by rewrite (Hp n' ltac:(by right) id Hpn')). done.
  - apply sort_by_key_sorted.
  - intros id. rewrite sort_by_key_perm, list_elem_of_omap. split.
    + intros (n & Hin%Hnames & Hpn). by apply (Hn n id).
    + intros [im Him]. destruct (Hf id im Him) as (Hu & i & Hi & _). exists (pack_path id). split; [apply Hnames; by eexists|by apply parse_pack_path].
Qed.

(** Files shorter than a header are unlinked. *)
Definition long D (id : PackId) : Prop := is_Some (D !! id ≫= recs).
#[local] Instance long_dec D id : Decision (long D id).
Proof. unfold long. apply _. Defined.

Lemma disk_delete D s id : disk_ok D s → is_Some (D !! id) → disk_ok (delete id D) (set_dir (delete (pack_path id) (fs_dir s)) s).
Proof.
  intros [Hwf Hn Hf Hsd] [im0 Hid0]. destruct (Hf id im0 Hid0) as [Hu0 _].
  split; [destruct Hwf as [H1 H2 H3]; split; cbn; [|intros p q i|done]| | |].
  - intros p i [_ ?]%lookup_delete_Some. eauto.
  - intros [_ ?]%lookup_delete_Some [_ ?]%lookup_delete_Some. eauto.
  - cbn. intros name id' [i [Hne Hi]%lookup_delete_Some] Hp. destruct (Hn name id' ltac:(by eexists) Hp) as [-> HD]. split; [done|].
    rewrite lookup_delete_ne; [done|]. by intros ->.
  - cbn. intros id' im [Hne Hid']%lookup_delete_Some. destruct (Hf id' im Hid') as (Hu & i & Hi & Him). split; [done|]. exists i. split; [|done].
    rewrite lookup_delete_ne; [done|]. intros Heq. by apply Hne, pack_path_inj.
  - intros id' hdr rs data es [Hne Hid']%lookup_delete_Some. unfold named. cbn. rewrite lookup_delete_ne by (by apply pack_path_ne_sidecar).
    intros Hnm Hdc. eapply (Hsd id'); [done|exact Hnm|exact Hdc].
Qed.

Lemma filter_ext_in {A} (P Q : A → Prop) `{∀ x, Decision (P x), ∀ x, Decision (Q x)} (l : list A) :
  (∀ x, x ∈ l → P x ↔ Q x) → filter P l = filter Q l.
Proof.
  intros Hpq. induction l as [|x l IH]; [done|]. rewrite !filter_cons. rewrite IH by (intros; apply Hpq; by right).
  pose proof (Hpq x ltac:(left)). by repeat case_decide; naive_solver.
Qed.

Lemma retain_ok ids : ∀ D s, disk_ok D s → calm s → NoDup ids → (∀ id, id ∈ ids → is_Some (D !! id)) →
  ∃ s1, retain_full ids s = (Ok (filter (long D) ids), s1) ∧ calm s1 ∧ disk_ok (filter (λ e, is_Some (recs e.2) ∨ e.1 ∉ ids) D) s1 ∧
    (settled D s → settled (filter (λ e, is_Some (recs e.2) ∨ e.1 ∉ ids) D) s1).
Proof.
  induction ids as [|id ids IH]; intros D s Hd Hs Hnd Hids.
  { exists s. rewrite map_filter_id by (intros; right; apply not_elem_of_nil). done. }
  apply NoDup_cons in Hnd as [Hni Hnd]. destruct (Hids id ltac:(left)) as [im Him]. destruct (dk_files _ _ Hd id im Him) as (Hu & i & Hi & Hc).
  cbn [retain_full]. erewrite ibind_step by (unfold itry, path_len; rewrite syscall_calm, Hi by done; reflexivity). cbv beta iota.
  destruct (decide (is_Some (recs im))) as [Hl|Hl].
  - assert ((zlen (content s i) <? PACK_HEADER_SIZE) = false) as ->.
    { apply Z.ltb_ge. destruct im as [|hdr rs|hdr rs tail]; [by destruct Hl| |]; destruct Hc as ([Hh _] & Hc); destruct_and? Hc.
      - match goal with Hb : content s i = _ |- _ => rewrite Hb end. unfold sealed_bytes. rewrite zlen_app. pose proof (zlen_nonneg (body rs ++ pack_footer (zlen rs) (body rs))). lia.
      - match goal with Hb : content s i = _ |- _ => rewrite Hb end. rewrite zlen_app. pose proof (zlen_nonneg (body rs ++ tail)). lia. }
    erewrite ibind_step by reflexivity. destruct (IH D s Hd Hs Hnd) as (s1 & Hr & Hs1 & Hd1 & Hset); [intros; apply Hids; by right|].
    erewrite ibind_step by exact Hr. exists s1. rewrite filter_cons_True by (unfold long; by rewrite Him). split; [done|]. split; [done|].
    assert (filter (λ e, is_Some (recs e.2) ∨ e.1 ∉ id :: ids) D = filter (λ e : PackId * image, is_Some (recs e.2) ∨ e.1 ∉ ids) D) as ->; [|done].
    apply map_filter_ext. intros k v Hk. cbn. rewrite not_elem_of_cons. split; [naive_solver|]. intros [?|?]; [by left|].
    destruct (decide (k = id)) as [->|]; [left; congruence|by right].
  - assert (im = IShort) as -> by by destruct im as [| |]; try (exfalso; apply Hl; by eexists).
    cbn in Hc. rewrite (proj2 (Z.ltb_lt _ _)) by done.
    erewrite ibind_step.
    2: { erewrite ibind_step by (unfold itry, remove_file; rewrite syscall_calm, Hi by done; reflexivity). reflexivity. }
    pose proof (disk_delete D s id Hd ltac:(by eexists)) as Hd0. set (s0 := set_dir _ s) in *.
    destruct (IH (delete id D) s0 Hd0 Hs Hnd) as (s1 & Hr & Hs1 & Hd1 & Hset).
    { intros id' Hin. rewrite lookup_delete_ne; [apply Hids; by right|]. by intros ->. }
    erewrite ibind_step by exact Hr. exists s1.
    assert (filter (λ e, is_Some (recs e.2) ∨ e.1 ∉ id :: ids) D = filter (λ e : PackId * image, is_Some (recs e.2) ∨ e.1 ∉ ids) (delete id D)) as ->.
    { apply map_eq. intros k. destruct (decide (k = id)) as [->|Hne].
      - rewrite !map_lookup_filter, lookup_delete_eq, Him. cbn. rewrite option_guard_False; [done|]. intros [[? ?]|Hx]; [done|]. apply Hx. left.
      - rewrite !map_lookup_filter, lookup_delete_ne by done. destruct (D !! k) as [v|]; [|done]. cbn.
        apply option_guard_iff. rewrite not_elem_of_cons. naive_solver. }
    rewrite filter_cons_False by (unfold long; rewrite Him; by intros [? ?]).
    split; [|split; [done|split; [done|]]].
    + unfold iret. do 2 f_equal. apply filter_ext_in. intros id' Hin. unfold long. rewrite lookup_delete_ne; [done|]. by intros ->.
    + intros Hse. apply Hset. intros id' j [v [Hne Hv]%lookup_delete_Some] Hj. cbn in Hj. apply lookup_delete_Some in Hj as [Hpne Hj].
      apply (Hse id' j); [by eexists|done].
Qed.

(** ** Telling sealed packs from unsealed ones *)

Definition is_sealed D (id : PackId) : bool := match D !! id with Some (ISealed _ _) => true | _ => false end.

Lemma plain_shape rs : Forall plain rs → Forall rec_shape rs.
Proof. intros Hrs. eapply Forall_impl; [exact Hrs|]. intros r [Hr _]. by apply page_ok_shape. Qed.
Lemma plain_good rs : Forall plain rs → Forall good_rec rs.
Proof.
  intros Hrs. eapply Forall_impl; [exact Hrs|]. intros r [[Hl Hh] _]. split_and!; [done|unfold PAGE_SIZE in *; lia|done].
Qed.

Lemma open_refuses p i id s : calm s → fs_dir s !! p = Some i → PACK_HEADER_SIZE ≤ zlen (content s i) → sub 0 4 (content s i) = PACK_MAGIC →
  unsealed_image (content s i) → ∃ e, open p id s = (Err e, s).
Proof.
  intros Hs Hp Hl Hm Hu. unfold open, PACK_HEADER_SIZE, PACK_FOOTER_SIZE, unsealed_image in *.
  erewrite ibind_step by (apply imap_step; unfold open_existing; rewrite syscall_calm, Hp by done; reflexivity).
  erewrite ibind_step by (apply imap_step, read_exact_calm; cbn [h_ino h_pos]; [done|lia|lia]). cbn [h_ino h_pos]. cbv beta iota.
  change (0 + 4) with 4. rewrite Hm, bool_decide_eq_true_2 by done. cbn [negb].
  erewrite ibind_step by (apply imap_step; unfold file_len; rewrite syscall_calm by done; reflexivity). cbn [h_ino].
  destruct (zlen (content s i) <? 20 + 44) eqn:Hlt; [by eexists|b2p]. destruct Hu as [Hu|Hu]; [unfold PACK_HEADER_SIZE, PACK_FOOTER_SIZE in Hu; lia|].
  erewrite ibind_step by (apply imap_step; unfold seek_start; rewrite syscall_calm by done; reflexivity).
  erewrite ibind_step by (apply imap_step, read_exact_calm; cbn [h_ino h_pos]; [done|lia|lia]). cbn [h_ino h_pos]. cbv beta iota.
  rewrite bool_decide_eq_false_2; [cbn [negb]; by eexists|]. intros Heq. apply Hu. rewrite <-Heq, sub_sub by lia. f_equal; lia.
Qed.

Lemma image_header im b : image_of im b → is_Some (recs im) → PACK_HEADER_SIZE ≤ zlen b ∧ sub 0 4 b = PACK_MAGIC.
Proof.
  assert (∀ hdr post, header_ok hdr → PACK_HEADER_SIZE ≤ zlen (hdr ++ post) ∧ sub 0 4 (hdr ++ post) = PACK_MAGIC) as Hx.
  { intros hdr post [Hl Hm]. rewrite zlen_app. pose proof (zlen_nonneg post). unfold PACK_HEADER_SIZE in *. split; [lia|]. by rewrite sub_app_l by lia. }
  destruct im as [|hdr rs|hdr rs tail]; [by intros _ [? ?]|..].
  - intros (Hh & _ & _ & ->) _. by apply Hx.
  - intros (Hh & _ & _ & _ & -> & _) _. by apply Hx.
Qed.

Lemma classify_ok D s ids : disk_ok D s → calm s → (∀ id, id ∈ ids → long D id) →
  classify ids s = (Ok (filter (is_sealed D) ids, filter (λ id, negb (is_sealed D id)) ids), s).
Proof.
  intros Hd Hs. induction ids as [|id ids IH]; intros Hids; [done|]. cbn [classify].
  assert (is_pack_sealed id s = (Ok (is_sealed D id), s)) as Hi.
  { destruct (Hids id ltac:(left)) as [v Hv]. destruct (D !! id) as [im|] eqn:Him; [|done]. cbn in Hv.
    destruct (dk_files _ _ Hd id im Him) as (Hu & i & Hdir & Hc). unfold is_pack_sealed, is_sealed. rewrite Him.
    destruct im as [|hdr rs|hdr rs tail]; [done|..].
    - destruct Hc as (Hh & Hrs & [Hn _] & Hc). destruct (open_sealed_ok (pack_path id) i hdr rs 0 s) as (r & -> & _); [done..|by apply plain_shape|lia|done].
    - destruct (image_header _ _ Hc ltac:(by eexists)) as [Hl Hm]. destruct Hc as (_ & _ & _ & _ & _ & Himg).
      destruct (open_refuses (pack_path id) i 0 s Hs Hdir Hl Hm Himg) as [e ->]. unfold path_len. rewrite syscall_calm, Hdir by done. done. }
  erewrite ibind_step by exact Hi. erewrite ibind_step by (apply IH; intros; apply Hids; by right).
  rewrite !filter_cons. destruct (is_sealed D id); cbn; by repeat case_decide.
Qed.

(** ** Sealing an unsealed pack *)

Lemma same_recovered rs tail rs' junk : Forall good_rec rs → Forall good_rec rs' → no_good_prefix tail → no_good_prefix junk →
  body rs ++ tail = body rs' ++ junk → rs' = rs ∧ junk = tail.
Proof.
  intros Hg Hg' Ht Hj Heq. assert (rs `prefix_of` rs') as [k ->] by (by eapply recovered_prefix).
  assert (rs ++ k `prefix_of` rs) as [k' Hk]. { eapply (recovered_prefix (rs ++ k) rs junk tail); [done..|]. by symmetry. }
  rewrite <-app_assoc in Hk. rewrite <-(app_nil_r rs) in Hk at 1. apply app_inv_head in Hk. symmetry in Hk. apply app_nil in Hk as [-> _].
  rewrite app_nil_r in *. split; [done|]. by apply app_inv_head in Heq.
Qed.

Lemma recover_open D s id hdr rs tail i : disk_ok D s → calm s → D !! id = Some (IOpen hdr rs tail) → fs_dir s !! pack_path id = Some i →
  ∃ r, open_unsealed (pack_path id) id s = (Ok (r, zlen rs), set_content i (hdr ++ body rs) s) ∧
    scan r (set_content i (hdr ++ body rs) s) = (Ok (locs PACK_HEADER_SIZE rs), set_content i (hdr ++ body rs) s) ∧ h_ino (r_file r) = i.
Proof.
  intros Hd Hs HD Hi. destruct (dk_files _ _ Hd id _ HD) as (Hu & i' & Hi' & Hh & Hrs & Hf & Hno & Hc & _). assert (i' = i) as -> by congruence.
  destruct (open_unsealed_ok (pack_path id) i hdr (body rs ++ tail) id s Hs Hi Hc Hh) as (r & rs' & junk & Ht & Hg' & Hj & Ho & Hb & Hino);
    [by eapply dk_wf|].
  destruct (same_recovered rs tail rs' junk) as [-> ->]; [by apply plain_good|done..|].
  exists r. split; [exact Ho|]. split; [|done]. apply (scan_ok r hdr rs []); [done|done| |by apply plain_shape|done].
  by rewrite Hino, content_set_content, app_nil_r.
Qed.

Lemma rehash_ok reader pre rs post fed s : calm s → content s (h_ino (r_file reader)) = pre ++ body rs ++ post → Forall plain rs →
  rehash reader (locs (zlen pre) rs) fed s = (Ok (fed ++ body rs), s).
Proof.
  intros Hs. revert pre fed. induction rs as [|r rs IH]; intros pre fed Hc Hrs; [by rewrite app_nil_r|].
  apply Forall_cons in Hrs as [[Hp Hfl] Hrs]. pose proof (page_ok_shape r Hp) as Hsh. pose proof (zlen_encode_rrec r Hsh) as Hl.
  pose proof (zlen_nonneg (body rs)). pose proof (zlen_nonneg post). pose proof (zlen_nonneg (rr_payload r)). unfold RECORD_HEADER_SIZE in *.
  rewrite body_cons, <-app_assoc in Hc. pose proof (rec_header_fields r (body rs ++ post) Hsh) as (A1 & _ & A3 & A4).
  cbn [locs rehash]. erewrite ibind_step.
  2: { unfold read_at. rewrite <-(Z.add_0_r (zlen pre)).
       erewrite ibind_step by (apply imap_step; apply (read_at_pre _ pre); [done|exact Hc|lia|rewrite !zlen_app; unfold RECORD_HEADER_SIZE; lia]).
       change (0 + RECORD_HEADER_SIZE) with 37. cbv zeta. rewrite A1, A3, Z.add_0_r. unfold RECORD_HEADER_SIZE.
       erewrite ibind_step by (apply imap_step; apply (read_at_pre _ pre); [done|exact Hc|lia|rewrite !zlen_app; lia]). reflexivity. }
  cbv beta iota zeta. change (32 + 1 + 4) with 37 in *. rewrite A4. replace (zlen pre + zlen (encode_rrec r)) with (zlen (pre ++ encode_rrec r)) by (by rewrite zlen_app).
  rewrite IH; [|by rewrite <-app_assoc|done]. rewrite body_cons. unfold encode_rrec. by rewrite Hfl, <-!app_assoc.
Qed.

Lemma seal_existing_ok D s id hdr rs tail i : disk_ok D s → calm s → D !! id = Some (IOpen hdr rs tail) → fs_dir s !! pack_path id = Some i →
  ∃ s', seal_existing_pack id s = (Ok ((λ r, (r.2, r.1)) <$> locs PACK_HEADER_SIZE rs), s') ∧ calm s' ∧ fs_wf s' ∧ fs_dir s' = fs_dir s ∧
    fs_ddir s' = fs_ddir s ∧ content s' i = sealed_bytes hdr rs ∧ durable s' i = sealed_bytes hdr rs ∧ (∀ p, p ≠ pack_path id → same_file p s s').
Proof.
  intros Hd Hs HD Hi. destruct (dk_files _ _ Hd id _ HD) as (Hu & i' & Hi' & [Hh Hm] & Hrs & Hf & Hno & Hc & _). assert (i' = i) as -> by congruence.
  destruct (recover_open D s id hdr rs tail i Hd Hs HD Hi) as (r & Ho & Hsc & Hino). set (s1 := set_content i (hdr ++ body rs) s) in *.
  assert (calm s1) as Hs1 by done. pose proof (dk_wf _ _ Hd) as Hwf. pose proof (fw_named _ Hwf _ _ Hi) as Hfi.
  assert (content s1 i = hdr ++ body rs) as Hc1 by apply content_set_content.
  assert (zlen (locs PACK_HEADER_SIZE rs) = zlen rs) as Hzl by (unfold zlen; by rewrite <-(length_fmap snd), locs_hashes, length_fmap).
  set (s2 := set_content i (sealed_bytes hdr rs) s1). eexists. split.
  { unfold seal_existing_pack. erewrite ibind_step by (apply imap_step; exact Ho). cbv beta iota. erewrite ibind_step by (apply imap_step; exact Hsc).
    erewrite ibind_step by (apply imap_step; rewrite <-Hh; apply (rehash_ok r hdr rs []); [done|by rewrite Hino, Hc1, app_nil_r|done]).
    erewrite ibind_step by (apply imap_step; unfold open_append; rewrite syscall_calm by done; change (fs_dir s1) with (fs_dir s); rewrite Hi; reflexivity).
    erewrite ibind_step.
    2: { apply imap_step. unfold write_all_. rewrite write_all_calm by done. cbn [h_ino h_pos]. rewrite write_bytes_end, Hc1, Hzl, app_nil_l, <-app_assoc.
         change (hdr ++ body rs ++ pack_footer (zlen rs) (body rs)) with (sealed_bytes hdr rs). fold s2. reflexivity. }
    erewrite ibind_step by (apply imap_step, sync_data_calm; done). reflexivity. }
  cbn [h_ino]. assert (content s2 i = sealed_bytes hdr rs) as -> by apply content_set_content. set (f := mk_file _ _).
  assert (is_Some (fs_files s2 !! i)) as Hf2 by (unfold s2; cbn; rewrite lookup_insert_eq; by eexists).
  split_and!; [done| |done|done|unfold content; cbn; by rewrite lookup_insert_eq|unfold durable; cbn; by rewrite lookup_insert_eq|].
  - apply fs_wf_set_files; [|done]. apply fs_wf_set_content; [by apply fs_wf_set_content|]. unfold s1. cbn. rewrite lookup_insert_eq. by eexists.
  - intros p Hp. split; [done|]. intros j Hj. cbn. assert (j ≠ i) by (intros ->; by apply Hp, (fw_inj _ Hwf p (pack_path id) i)).
    by rewrite !lookup_insert_ne by done.
Qed.

(** Replacing the image of one pack. *)
Lemma disk_update D s s' id im i : disk_ok D s → fs_wf s' → is_Some (D !! id) → fs_dir s' !! pack_path id = Some i → image_of im (content s' i) →
  (∀ id', is_Some (D !! id') → id' ≠ id → same_file (pack_path id') s s') →
  (∀ name id', parse_pack_name name = Some id' → is_Some (fs_dir s' !! name) → is_Some (fs_dir s !! name)) →
  honest_sides (<[id := im]> D) s' → disk_ok (<[id := im]> D) s'.
Proof.
  intros [Hwf Hn Hf Hsd] Hwf' Hid Hi Him Hsame Hnames Hside. split; [done| | |done].
  - intros name id' Hnm Hp. destruct (Hn name id' (Hnames _ _ Hp Hnm) Hp) as [-> ?]. split; [done|]. by apply lookup_insert_is_Some'; right.
  - intros id' im' [[<- <-]|[Hne Hid']]%lookup_insert_Some.
    + destruct Hid as [im0 Hid]. destruct (Hf id im0 Hid) as [Hu _]. split; [done|]. by exists i.
    + destruct (Hf id' im' Hid') as (Hu & j & Hj & Hc). split; [done|]. exists j.
      destruct (same_file_content _ _ _ j (Hsame id' ltac:(by eexists) ltac:(done)) Hj) as (-> & -> & _). done.
Qed.

Lemma sidecar_path_inj a b : u32_ok a → u32_ok b → sidecar_path a = sidecar_path b → a = b.
Proof.
  intros Ha Hb Heq. apply pack_path_inj; [done..|]. unfold sidecar_path, pack_path in *.
  apply (f_equal (strip_prefix "pack-")) in Heq. rewrite !strip_prefix_app in Heq. apply (inj Some) in Heq.
  apply (f_equal (strip_suffix ".idx")) in Heq. rewrite !strip_suffix_app in Heq. apply (inj Some) in Heq. by rewrite Heq.
Qed.
Lemma sidecar_tmp_other a b : sidecar_tmp (sidecar_path a) ≠ sidecar_path b.
Proof.
  unfold sidecar_tmp. intros Heq. apply (f_equal (strip_suffix ".tmp")) in Heq. rewrite strip_suffix_app in Heq.
  unfold sidecar_path in Heq at 2. change ("pack-" +:+ hex_string 8 b +:+ ".idx") with (("pack-" +:+ hex_string 8 b) +:+ ".idx") in Heq.
  by rewrite strip_suffix_other in Heq.
Qed.

(** ** Sidecars *)

(** The records of the packs, and the hashes of some of them. *)
Definition pk D : packs_t := omap recs D.
Definition hashes_in (packs : packs_t) (ids : list PackId) (h : PageHash) : Prop :=
  ∃ id hdr rs, id ∈ ids ∧ packs !! id = Some (hdr, rs) ∧ h ∈ rr_hash <$> rs.

Lemma pk_lookup D id hdr rs : pk D !! id = Some (hdr, rs) ↔ ∃ im, D !! id = Some im ∧ recs im = Some (hdr, rs).
Proof. unfold pk. rewrite lookup_omap_Some. naive_solver. Qed.

Lemma write_sidecar_ddir path es s : calm s → fs_ddir (write_sidecar_entries path es s).2 = fs_ddir s.
Proof.
  intros Hs. unfold write_sidecar_entries.
  assert (∃ h s1, open_truncate (sidecar_tmp path) s = (Ok h, s1) ∧ calm s1 ∧ fs_ddir s1 = fs_ddir s) as (h & s1 & Ho & Hs1 & <-).
  { unfold open_truncate. rewrite syscall_calm by done. destruct (fs_dir s !! sidecar_tmp path); eexists _, _; split_and!; try reflexivity; done. }
  erewrite ibind_step by (apply imap_step; exact Ho).
  erewrite ibind_step by (apply imap_step; unfold write_all_; rewrite write_all_calm by done; reflexivity).
  erewrite ibind_step by (apply imap_step, sync_data_calm; done). unfold imap_err, rename. rewrite syscall_calm by done. cbn. by destruct (fs_dir s1 !! sidecar_tmp path).
Qed.

(** The disk, apart from the sidecar of [id]. *)
Definition disk_but (id : PackId) D s : Prop :=
  fs_wf s ∧
  (∀ name id, is_Some (fs_dir s !! name) → parse_pack_name name = Some id → name = pack_path id ∧ is_Some (D !! id)) ∧
  (∀ id im, D !! id = Some im → u32_ok id ∧ ∃ i, fs_dir s !! pack_path id = Some i ∧ image_of im (content s i)) ∧
  (∀ id' hdr rs data es, id' ≠ id → D !! id' = Some (ISealed hdr rs) → named s (sidecar_path id') = Some data →
    decode_sidecar data = Ok es → honest id' rs es).

Lemma publish_ok D s id hdr rs es : disk_but id D s → calm s → D !! id = Some (ISealed hdr rs) → es ≡ₚ pack_list id rs →
  ∃ s', write_sidecar_entries (sidecar_path id) es s = (Ok tt, s') ∧ calm s' ∧ disk_ok D s' ∧ (settled D s → settled D s').
Proof.
  intros (Hwf & Hn & Hf & Hsd) Hs HD Hes. destruct (write_sidecar_entries_calm (sidecar_path id) es s Hwf Hs) as (s' & Hw & Hs' & Hwf' & Hnm & Hfr).
  pose proof (write_sidecar_ddir (sidecar_path id) es s Hs) as Hdd. rewrite Hw in Hdd. cbn in Hdd.
  destruct (Hf id _ HD) as (Hu & _ & _ & _ & Hrs & Hft & _).
  assert (∀ id', is_Some (D !! id') → same_file (pack_path id') s s') as Hsame.
  { intros id' [im Him]. destruct (Hf id' im Him) as [Hu' _]. destruct (pack_path_ne_sidecar id' id Hu'). by apply Hfr. }
  exists s'. split; [done|]. split; [done|]. split; [|intros Hse; by apply (settled_frame D s s')].
  split; [done| | |].
  - intros name id' Hname Hp. apply Hn; [|done].
    by rewrite (proj1 (Hfr name ltac:(by intros ->; rewrite parse_sidecar_path in Hp) ltac:(by intros ->; rewrite parse_sidecar_tmp in Hp))) in Hname.
  - intros id' im Him. destruct (Hf id' im Him) as (Hu' & i & Hi & Hc). split; [done|]. exists i.
    destruct (same_file_content _ _ _ i (Hsame id' ltac:(by eexists)) Hi) as (-> & -> & _). done.
  - intros id' hdr' rs' data es' HD' Hn' Hdec. destruct (decide (id' = id)) as [->|Hne].
    + rewrite Hnm in Hn'. injection Hn' as <-. rewrite HD in HD'. injection HD' as <- <-. by eapply honest_written.
    + destruct (Hf id' _ HD') as [Hu' _]. eapply (Hsd id'); [done|done| |done]. rewrite <-Hn'. symmetry. apply same_file_named, Hfr.
      * intros Heq. by apply Hne, sidecar_path_inj.
      * intros Heq. by apply (sidecar_tmp_other id id').
Qed.

(** ** Sealing all unsealed packs but the last *)

Lemma seal_step D s id hdr rs tail : disk_ok D s → calm s → D !! id = Some (IOpen hdr rs tail) →
  ∃ s1 s', seal_existing_pack id s = (Ok ((λ r, (r.2, r.1)) <$> locs PACK_HEADER_SIZE rs), s1) ∧
    write_sidecar_entries (sidecar_path id) (pack_list id rs) s1 = (Ok tt, s') ∧ calm s' ∧
    disk_ok (<[id := ISealed hdr rs]> D) s' ∧ (settled D s → settled (<[id := ISealed hdr rs]> D) s').
Proof.
  intros Hd Hs HD. destruct (dk_files _ _ Hd id _ HD) as (Hu & i & Hi & Hh & Hrs & Hf & _).
  destruct (seal_existing_ok D s id hdr rs tail i Hd Hs HD Hi) as (s1 & Hse & Hs1 & Hwf1 & Hdir & Hddir & Hc1 & Hdu & Hfr).
  assert (∀ id', u32_ok id' → id' ≠ id → same_file (pack_path id') s s1) as Hsame.
  { intros id' Hu' Hne. apply Hfr. intros Heq. by apply Hne, pack_path_inj. }
  destruct (publish_ok (<[id := ISealed hdr rs]> D) s1 id hdr rs (pack_list id rs)) as (s' & Hw & Hs' & Hd' & Hset).
  - split_and!; [done|..].
    + intros name id' Hname Hp. rewrite Hdir in Hname. destruct (dk_names _ _ Hd name id' Hname Hp) as [-> ?]. split; [done|].
      by apply lookup_insert_is_Some'; right.
    + intros id' im [[<- <-]|[Hne Him]]%lookup_insert_Some.
      * split; [done|]. exists i. rewrite Hdir, Hc1. by split_and!.
      * destruct (dk_files _ _ Hd id' im Him) as (Hu' & j & Hj & Hc). split; [done|]. exists j.
        destruct (same_file_content _ _ _ j (Hsame id' Hu' ltac:(done)) Hj) as (-> & -> & _). done.
    + intros id' hdr' rs' data es Hne HD' Hn' Hdec. rewrite lookup_insert_ne in HD' by done. eapply (dk_side _ _ Hd id'); [done| |done].
      rewrite <-Hn'. symmetry. apply same_file_named, Hfr. symmetry. by apply pack_path_ne_sidecar.
  - done.
  - by rewrite lookup_insert_eq.
  - done.
  - exists s1, s'. split_and!; [done|done|done|done|]. intros Hst. apply Hset. intros id' j Hid' Hj. rewrite Hdir in Hj. rewrite Hddir.
    destruct (decide (id' = id)) as [->|Hne].
    + assert (j = i) as -> by congruence. rewrite Hdu, Hc1. split; [done|]. apply (Hst id i); [by eexists|done].
    + rewrite lookup_insert_ne in Hid' by done. assert (u32_ok id') as Hu' by (destruct Hid' as [im Him]; by destruct (dk_files _ _ Hd id' im Him)).
      destruct (same_file_content _ _ _ j (Hsame id' Hu' Hne) Hj) as (_ & -> & ->). by apply Hst.
Qed.

Lemma pk_seal D id hdr rs tail : D !! id = Some (IOpen hdr rs tail) → pk (<[id := ISealed hdr rs]> D) = pk D.
Proof.
  intros HD. apply map_eq. intros k. unfold pk. rewrite !lookup_omap. destruct (decide (k = id)) as [->|Hne].
  - by rewrite lookup_insert_eq, HD. - by rewrite lookup_insert_ne.
Qed.

Lemma honest_all id rs : honest id rs (pack_list id rs).
Proof. split; [done|]. intros h. by rewrite pack_list_hashes. Qed.

(** What sealing and loading keep. *)
Record seals D D' (ids : list PackId) : Prop := {
  sl_pk : pk D' = pk D;
  sl_rest : ∀ id, id ∉ ids → D' !! id = D !! id;
  sl_done : ∀ id, id ∈ ids → is_sealed D' id = true;
}.

Lemma seal_older_ok us : ∀ D s idx S, disk_ok D s → calm s → NoDup us → (∀ id, id ∈ us → ∃ hdr rs tail, D !! id = Some (IOpen hdr rs tail)) →
  idx_ok (pk D) S idx →
  ∃ older D' s' idx', seal_older us idx s = (Ok (older, last us, idx'), s') ∧ calm s' ∧ disk_ok D' s' ∧ seals D D' older ∧
    us = older ++ (match last us with Some id => [id] | None => [] end) ∧
    idx_ok (pk D) (λ h, S h ∨ hashes_in (pk D) older h) idx' ∧ (settled D s → settled D' s').
Proof.
  induction us as [|id us IH]; intros D s idx S Hd Hs Hnd Hus Hix.
  { exists [], D, s, idx. split_and!; try done. - split; [done|done|]. by intros ? ?%elem_of_nil.
    - eapply idx_weaken; [|exact Hix]. intros h [?|(? & ? & ? & ?%elem_of_nil & _)]; done. }
  destruct us as [|id2 us].
  { exists [], D, s, idx. split_and!; try done. - split; [done|done|]. by intros ? ?%elem_of_nil.
    - eapply idx_weaken; [|exact Hix]. intros h [?|(? & ? & ? & ?%elem_of_nil & _)]; done. }
  apply NoDup_cons in Hnd as [Hni Hnd]. destruct (Hus id ltac:(left)) as (hdr & rs & tail & HD).
  destruct (seal_step D s id hdr rs tail Hd Hs HD) as (s1 & s2 & Hse & Hw & Hs2 & Hd2 & Hset).
  assert (pk D !! id = Some (hdr, rs)) as Hpk by (apply pk_lookup; by eexists).
  pose proof (idx_insert (pk D) S idx id hdr rs (pack_list id rs) Hix Hpk (honest_all id rs)) as Hix2.
  destruct (IH (<[id := ISealed hdr rs]> D) s2 (insert_batch idx (pack_list id rs)) (λ h, S h ∨ h ∈ rr_hash <$> rs) Hd2 Hs2 Hnd) as (older & D' & s' & idx' & Hr & Hs' & Hd' & [Hsl1 Hsl2 Hsl3] & Hspl & Hix' & Hset');
    [|by rewrite (pk_seal D id hdr rs tail)|].
  { intros id' Hin. rewrite lookup_insert_ne by (by intros ->). apply Hus. by right. }
  rewrite (pk_seal D id hdr rs tail) in Hsl1, Hix' by done.
  exists (id :: older), D', s', idx'. split_and!.
  - change (seal_older (id :: id2 :: us) idx) with (
      let! pairs := seal_existing_pack id in
      let entries := (λ '(h, o), (h, mk_loc id o)) <$> pairs in
      imap_err SIndex (write_sidecar_entries (sidecar_path id) entries) ;!
      let idx := insert_batch idx entries in
      let! ' (sealed, active, idx) := seal_older (id2 :: us) idx in
      iret (id :: sealed, active, idx)).
    erewrite ibind_step by exact Hse. cbv zeta.
    assert ((λ '(h, o), (h, mk_loc id o)) <$> ((λ r : Z * PageHash, (r.2, r.1)) <$> locs PACK_HEADER_SIZE rs) = pack_list id rs) as ->.
    { unfold pack_list, records_to_entries. rewrite <-list_fmap_compose. apply list_fmap_ext. by intros ? [o h] _. }
    erewrite ibind_step by (apply imap_step; exact Hw). erewrite ibind_step by exact Hr. cbn [last]. reflexivity.
  - done.
  - done.
  - split; [done| |].
    + intros id' [? ?]%not_elem_of_cons. rewrite Hsl2 by done. by rewrite lookup_insert_ne.
    + intros id' [->|?]%elem_of_cons; [|by apply Hsl3]. destruct (decide (id ∈ older)); [by apply Hsl3|].
      unfold is_sealed. by rewrite Hsl2, lookup_insert_eq.
  - change (last (id :: id2 :: us)) with (last (id2 :: us)). cbn [app]. by rewrite <-Hspl.
  - eapply idx_weaken; [|exact Hix']. intros h [?|(id' & hdr' & rs' & [->|?]%elem_of_cons & Hp & Hh)]; [by left; left| |].
    + left; right. rewrite Hpk in Hp. by injection Hp as <- <-.
    + right. by exists id', hdr', rs'.
  - intros Hst. by apply Hset', Hset.
Qed.

(** ** Loading the sealed packs *)

Lemma disk_but_ok id D s : disk_ok D s → disk_but id D s.
Proof. intros [Hwf Hn Hf Hsd]. split_and!; [done|done|done|]. intros id' hdr rs data es _. apply Hsd. Qed.

Lemma load_one D s id idx S : disk_ok D s → calm s → is_sealed D id = true → idx_ok (pk D) S idx →
  ∃ idx' s', (let! loaded := itry (load_sidecar (sidecar_path id) idx) in
     match loaded with
     | Ok (_, idx') => iret idx'
     | _ =>
         let! entries := imap_err SIndex (rebuild_from_pack (pack_path id) id true) in
         imap_err SIndex (write_sidecar_entries (sidecar_path id) entries) ;!
         iret (insert_batch idx entries)
     end) s = (Ok idx', s') ∧ calm s' ∧ disk_ok D s' ∧ idx_ok (pk D) (λ h, S h ∨ hashes_in (pk D) [id] h) idx' ∧ (settled D s → settled D s').
Proof.
  intros Hd Hs Hse Hix. unfold is_sealed in Hse. destruct (D !! id) as [[|hdr rs|]|] eqn:HD; [done| |done..].
  destruct (dk_files _ _ Hd id _ HD) as (Hu & i & Hi & Hh & Hrs & [Hn Hb] & Hc).
  assert (pk D !! id = Some (hdr, rs)) as Hpk by (apply pk_lookup; by eexists).
  assert (∀ es, honest id rs es → idx_ok (pk D) (λ h, S h ∨ hashes_in (pk D) [id] h) (insert_batch idx es)) as Hins.
  { intros es Hes. eapply idx_weaken; [|by eapply idx_insert]. intros h [?|(id' & hdr' & rs' & ->%list_elem_of_singleton & Hp & Hh')]; [by left|right].
    rewrite Hpk in Hp. by injection Hp as <- <-. }
  assert ((∃ es, load_sidecar (sidecar_path id) idx s = (Ok (zlen es, insert_batch idx es), s) ∧ honest id rs es) ∨
    ∃ e, load_sidecar (sidecar_path id) idx s = (Err e, s)) as Hload.
  { unfold load_sidecar, read_file, open_existing. destruct (fs_dir s !! sidecar_path id) as [j|] eqn:Hj.
    - assert ((let! h := syscall (λ s0, match fs_dir s0 !! sidecar_path id with Some i => (Ok (mk_handle i 0), s0) | None => (Err ENotFound, s0) end) in
          syscall (λ s0, (Ok (content s0 (h_ino h)), s0))) s = (Ok (content s j), s)) as Hrd.
      { erewrite ibind_step by (rewrite syscall_calm, Hj by done; reflexivity). by rewrite syscall_calm. }
      erewrite ibind_step by (apply imap_step; exact Hrd). destruct (decode_sidecar (content s j)) as [es|e|] eqn:Hdec.
      + left. exists es. split; [done|]. eapply (dk_side _ _ Hd id); [done| |done]. unfold named. by rewrite Hj.
      + right. by exists e. + by apply decode_sidecar_not_panic in Hdec.
    - right. unfold ibind, imap_err. rewrite syscall_calm, Hj by done. by eexists. }
  destruct Hload as [(es & Hl & Hes)|[e Hl]].
  - erewrite ibind_step by (unfold itry; by rewrite Hl). exists (insert_batch idx es), s. split_and!; [done|done|done|by apply Hins|done].
  - erewrite ibind_step by (unfold itry; by rewrite Hl). cbv beta iota.
    destruct (open_sealed_ok (pack_path id) i hdr rs id s Hs Hi Hc Hh (plain_shape rs Hrs)) as (r & Ho & Hsc & _); [lia|].
    destruct (publish_ok D s id hdr rs (pack_list id rs) (disk_but_ok id D s Hd) Hs HD) as (s' & Hw & Hs' & Hd' & Hset); [done|].
    exists (insert_batch idx (pack_list id rs)), s'. split_and!; [|done|done|apply Hins, honest_all|done].
    erewrite ibind_step.
    2: { apply imap_step. unfold rebuild_from_pack. erewrite ibind_step by (apply imap_step; erewrite ibind_step by exact Ho; exact Hsc). reflexivity. }
    by erewrite ibind_step by (apply imap_step; exact Hw).
Qed.

Lemma load_sealed_ok ids : ∀ D s idx S, disk_ok D s → calm s → (∀ id, id ∈ ids → is_sealed D id = true) → idx_ok (pk D) S idx →
  ∃ idx' s', load_sealed ids idx s = (Ok idx', s') ∧ calm s' ∧ disk_ok D s' ∧ idx_ok (pk D) (λ h, S h ∨ hashes_in (pk D) ids h) idx' ∧
    (settled D s → settled D s').
Proof.
  induction ids as [|id ids IH]; intros D s idx S Hd Hs Hids Hix.
  { exists idx, s. split_and!; try done. eapply idx_weaken; [|exact Hix]. intros h [?|(? & ? & ? & ?%elem_of_nil & _)]; done. }
  destruct (load_one D s id idx S Hd Hs (Hids id ltac:(left)) Hix) as (idx1 & s1 & Hl & Hs1 & Hd1 & Hix1 & Hset1).
  destruct (IH D s1 idx1 _ Hd1 Hs1 (λ id' Hin, Hids id' ltac:(by right)) Hix1) as (idx' & s' & Hl' & Hs' & Hd' & Hix' & Hset').
  exists idx', s'. split_and!; [|done|done| |auto].
  - apply ibind_Ok in Hl as (loaded & s0 & Hl0 & Hk). cbn [load_sealed]. erewrite ibind_step by exact Hl0. by erewrite ibind_step by exact Hk.
  - eapply idx_weaken; [|exact Hix']. intros h [?|(id' & hdr' & rs' & [->|?]%elem_of_cons & Hp & Hh)]; [by left; left| |].
    + left; right. exists id, hdr', rs'. split; [left|done].
    + right. by exists id', hdr', rs'.
Qed.

(** ** The whole of [open] *)

(** The last part: reopen the last unsealed pack, or create one. *)
Definition open_tail (opts : StoreOptions) (ids : list PackId) (active : option PackId) (idx : ShardedIndex) : M fs StoreError PageStore :=
  let! ' (writer, id, new_file, ids, idx) :=
    match active with
    | Some existing =>
        let! ' (writer, idx) := reopen_pack_for_append existing idx in
        iret (writer, existing, false, ids, idx)
    | None =>
        let new_id := match last ids with Some id => id + 1 | None => 0 end in
        let! writer := imap_err SPack
          (create_with_max_bytes (pack_path new_id) new_id unix_now (max_pack_bytes opts)) in
        iret (writer, new_id, true, ids ++ [new_id], idx)
    end in
  let next := match ids with [] => 0 | id :: rest => fold_left Z.max rest id + 1 end in
  iret (mk_store idx (mk_active writer id ∅ new_file next) opts (cache_new (read_handle_cap opts))).

(** Before it: every pack but [active] is sealed, and the index has the
    hashes of all of them. *)
Record opened D (ids : list PackId) (active : option PackId) (idx : ShardedIndex) D' s' : Prop := {
  od_ids : ∀ id, id ∈ ids ↔ is_Some (pk D !! id);
  od_sorted : StronglySorted Z.le ids;
  od_disk : disk_ok D' s';
  od_calm : calm s';
  od_pk : pk D' = pk D;
  od_long : ∀ id, is_Some (D' !! id) → id ∈ ids;
  od_active : ∀ id, active = Some id → ∃ hdr rs tail, D' !! id = Some (IOpen hdr rs tail) ∧ D !! id = Some (IOpen hdr rs tail);
  od_sealed : ∀ id, id ∈ ids → active ≠ Some id → is_sealed D' id = true;
  od_index : idx_ok (pk D) (hashes_in (pk D) (filter (λ id, active ≠ Some id) ids)) idx;
}.

Lemma sorted_filter_le (P : Z → Prop) `{∀ x, Decision (P x)} l : StronglySorted Z.le l → StronglySorted Z.le (filter P l).
Proof.
  induction 1 as [|x l Hl IH Hx]; [constructor|]. rewrite filter_cons. case_decide; [|done]. constructor; [done|].
  apply Forall_forall. intros y [_ Hy]%list_elem_of_filter. by eapply Forall_forall in Hx.
Qed.

Lemma open_prefix D s opts : disk_ok D s → calm s →
  ∃ ids active idx D' s', open_store unix_now opts s = open_tail opts ids active idx s' ∧ opened D ids active idx D' s' ∧
    (settled D s → settled D' s').
Proof.
  intros Hd Hs. destruct (discover_ok D s Hd Hs) as (ids0 & Hdisc & Hnd & Hsort & Hids0).
  destruct (retain_ok ids0 D s Hd Hs Hnd (λ id, proj1 (Hids0 id))) as (s1 & Hret & Hs1 & Hd1 & Hset1). set (D0 := filter _ D) in Hd1, Hset1.
  set (ids := filter (long D) ids0) in *.
  assert (∀ id im, D0 !! id = Some im ↔ D !! id = Some im ∧ is_Some (recs im)) as HD0.
  { intros id im. unfold D0. rewrite map_lookup_filter_Some. cbn. split; [|naive_solver]. intros [Him [?|Hni]]; [done|].
    exfalso. apply Hni, Hids0. by eexists. }
  assert (pk D0 = pk D) as Hpk0.
  { apply map_eq. intros id. apply option_eq. intros [hdr rs]. rewrite !pk_lookup. setoid_rewrite HD0. naive_solver. }
  assert (∀ id, id ∈ ids ↔ is_Some (D0 !! id)) as Hids.
  { intros id. unfold ids. rewrite list_elem_of_filter, Hids0. unfold long. split.
    - intros [[v Hv] [im Him]]. rewrite Him in Hv. exists im. apply HD0. split; [done|by eexists].
    - intros [im [Him [v Hv]]%HD0]. rewrite Him. cbn. rewrite Hv. split; by eexists. }
  assert (∀ id, id ∈ ids → long D0 id) as Hlong.
  { intros id [im Him]%Hids. unfold long. rewrite Him. by apply HD0 in Him as [_ ?]. }
  pose proof (classify_ok D0 s1 ids Hd1 Hs1 Hlong) as Hcl. set (us := sort_by_key (λ id, id) (filter (λ id, negb (is_sealed D0 id)) ids)).
  assert (∀ id, id ∈ us ↔ id ∈ ids ∧ is_sealed D0 id = false) as Hus.
  { intros id. unfold us. rewrite sort_by_key_perm, list_elem_of_filter. destruct (is_sealed D0 id); cbn; naive_solver. }
  assert (∀ id, id ∈ us → ∃ hdr rs tail, D0 !! id = Some (IOpen hdr rs tail)) as Hopen.
  { intros id [Hin Hse]%Hus. destruct (Hlong id Hin) as [v Hv]. unfold is_sealed in Hse. destruct (D0 !! id) as [[|hdr rs|hdr rs tail]|]; [done|done|eauto|done]. }
  destruct (seal_older_ok us D0 s1 index_new (λ _, False) Hd1 Hs1) as (older & D' & s2 & idx1 & Hso & Hs2 & Hd2 & [Hsl1 Hsl2 Hsl3] & Hspl & Hix1 & Hset2);
    [unfold us; rewrite sort_by_key_perm; by do 2 apply NoDup_filter|done|apply idx_new|].
  assert (∀ id, id ∈ filter (is_sealed D0) ids ++ older → is_sealed D' id = true) as Hsealed.
  { intros id [[Hse Hin]%list_elem_of_filter|Hin]%elem_of_app; [|by apply Hsl3]. destruct (decide (id ∈ older)) as [|Hno]; [by apply Hsl3|].
    unfold is_sealed in *. rewrite Hsl2 by done. by destruct (D0 !! id) as [[]|]. }
  rewrite <-Hsl1 in Hix1. destruct (load_sealed_ok (filter (is_sealed D0) ids ++ older) D' s2 idx1 _ Hd2 Hs2 Hsealed Hix1) as (idx & s3 & Hld & Hs3 & Hd3 & Hix & Hset3).
  exists ids, (last us), idx, D', s3. split; [|split; [|intros Hst; by apply Hset3, Hset2, Hset1]].
  - unfold open_store. erewrite ibind_step by (apply imap_step; by rewrite syscall_calm). erewrite ibind_step by exact Hdisc. erewrite ibind_step by exact Hret.
    fold ids. erewrite ibind_step by exact Hcl. cbv beta iota zeta. fold us. erewrite ibind_step by exact Hso. cbv beta iota. by erewrite ibind_step by exact Hld.
  - assert (NoDup us) as Hndus by (unfold us; rewrite sort_by_key_perm; by do 2 apply NoDup_filter).
    assert (∀ id, id ∈ us → last us ≠ Some id → id ∈ older) as Holder.
    { intros id Hin Hne. rewrite Hspl in Hin. apply elem_of_app in Hin as [?|Hin]; [done|]. destruct (last us); [|by apply elem_of_nil in Hin].
      apply list_elem_of_singleton in Hin as ->. done. }
    assert (∀ id, last us = Some id → id ∈ us ∧ id ∉ older) as Hlast.
    { intros id Hl. split; [apply last_Some in Hl as [l ->]; apply elem_of_app; right; left|]. rewrite Hl in Hspl. rewrite Hspl in Hndus.
      apply NoDup_app in Hndus as (_ & Hx & _). intros Hin. apply (Hx id Hin). left. }
    split.
    + intros id. rewrite Hids, <-Hpk0. unfold pk. rewrite lookup_omap. split.
      * intros [im Him]. rewrite Him. cbn. by apply HD0 in Him as [_ ?].
      * intros [v Hv]. destruct (D0 !! id); [by eexists|done].
    + by apply sorted_filter_le.
    + done.
    + done.
    + by rewrite Hsl1.
    + intros id Hin. apply Hids. destruct (decide (id ∈ older)) as [Ho|Hno]; [|by rewrite <-Hsl2].
      assert (id ∈ us) as [Hi _]%Hus by (rewrite Hspl; apply elem_of_app; by left). by apply Hids.
    + intros id Hl. destruct (Hlast id Hl) as [Hin Hno]. destruct (Hopen id Hin) as (hdr & rs & tail & Hx). exists hdr, rs, tail.
      rewrite Hsl2 by done. split; [done|]. by apply HD0 in Hx as [? _].
    + intros id Hin Hne. destruct (is_sealed D0 id) eqn:Hse; apply Hsealed, elem_of_app; [left; apply list_elem_of_filter; by rewrite Hse|right].
      apply Holder; [|done]. by apply Hus.
    + rewrite Hsl1, Hpk0 in Hix. eapply idx_weaken; [|exact Hix]. intros h (id & hdr & rs & [Hne Hin]%list_elem_of_filter & Hp & Hh). right.
      exists id, hdr, rs. split; [|done]. destruct (is_sealed D0 id) eqn:Hse; apply elem_of_app; [left; apply list_elem_of_filter; by rewrite Hse|right].
      apply Holder; [|done]. by apply Hus.
Qed.

Definition next_id (ids : list PackId) : PackId := match ids with [] => 0 | id :: rest => fold_left Z.max rest id + 1 end.

Lemma fold_max_spec l : ∀ a, (∀ x, x ∈ a :: l → x ≤ fold_left Z.max l a) ∧ fold_left Z.max l a ∈ a :: l.
Proof.
  induction l as [|b l IH]; intros a; cbn [fold_left]; [split; [|left]|].
  { intros x ->%list_elem_of_singleton. done. }
  destruct (IH (Z.max a b)) as [H1 H2]. split.
  - intros x [->|[->|Hin]%elem_of_cons]%elem_of_cons; [| |apply H1; by right]; pose proof (H1 (Z.max a b) ltac:(left)); lia.
  - apply elem_of_cons in H2 as [->|H2]; [|by do 2 right]. destruct (Z.max_spec a b) as [[_ ->]|[_ ->]]; [right; left|left].
Qed.

Lemma next_id_spec ids : (∀ x, x ∈ ids → x < next_id ids) ∧ (ids ≠ [] → next_id ids - 1 ∈ ids).
Proof.
  destruct ids as [|id ids]; [split; [by intros ? ?%elem_of_nil|done]|]. cbn. destruct (fold_max_spec ids id) as [H1 H2]. split.
  - intros x Hx%H1. lia. - intros _. by replace (_ + 1 - 1) with (fold_left Z.max ids id) by lia.
Qed.

Lemma sealed_pack_at D s id : disk_ok D s → is_sealed D id = true →
  ∃ hdr rs, pk D !! id = Some (hdr, rs) ∧ sealed_at s id hdr rs ∧ Forall plain rs.
Proof.
  intros Hd Hse. unfold is_sealed in Hse. destruct (D !! id) as [[|hdr rs|]|] eqn:HD; [done| |done..].
  destruct (dk_files _ _ Hd id _ HD) as (_ & i & Hi & Hh & Hrs & _ & Hc). exists hdr, rs. split; [apply pk_lookup; by eexists|]. split; [|done].
  split; [done|]. by exists i.
Qed.

Lemma pk_pages D s id hdr rs : disk_ok D s → pk D !! id = Some (hdr, rs) → Forall page_ok rs ∧ u32_ok id.
Proof.
  intros Hd (im & HD & Hr)%pk_lookup. destruct (dk_files _ _ Hd id im HD) as (Hu & i & _ & Hc). split; [|done].
  assert (Forall plain rs) as Hrs by (destruct im; [done|..]; cbn in Hr; simplify_eq; by destruct Hc as (_ & ? & _)).
  eapply Forall_impl; [exact Hrs|]. by intros r [? _].
Qed.

(** The last unsealed pack goes on as the active one. *)
Lemma open_existing_ok D ids x idx D' s' opts : opened D ids (Some x) idx D' s' →
  ∃ ps s2 w, open_tail opts ids (Some x) idx s' = (Ok ps, s2) ∧ calm s2 ∧ store_inv (pk D) ps s2 ∧ idx_ok (pk D) (hashes_in (pk D) ids) (ps_index ps) ∧
    ps_active ps = mk_active w x ∅ false (next_id ids) ∧ w_buf w = [] ∧ fs_dir s2 = fs_dir s' ∧ fs_ddir s2 = fs_ddir s' ∧
    (∀ j, durable s2 j = durable s' j) ∧ (∀ hdr rs, D' !! x = Some (IOpen hdr rs []) → ∀ j, content s2 j = content s' j) ∧
    (∀ id, id ≠ x → is_Some (pk D !! id) → same_file (pack_path id) s' s2).
Proof.
  intros [Hids Hsort Hd Hs Hpk Hlong Hact Hse Hix]. destruct (Hact x eq_refl) as (hdr & rs & tail & HD' & HD).
  destruct (dk_files _ _ Hd x _ HD') as (Hu & i & Hi & Hh & Hrs & Hf & Hno & Hc & _).
  assert (pk D !! x = Some (hdr, rs)) as Hp by (apply pk_lookup; by eexists).
  destruct (recover_open D' s' x hdr rs tail i Hd Hs HD' Hi) as (r & Ho & Hsc & Hino). set (s2 := set_content i (hdr ++ body rs) s') in *.
  pose proof (fw_named _ (dk_wf _ _ Hd) _ _ Hi) as Hfi.
  destruct (reopen_ok (pack_path x) i hdr rs x s2) as (w & Hro & Hw & Hmax & Hbuf & Hwid & Hwino);
    [done|done|apply content_set_content|done|unfold s2; cbn; rewrite lookup_insert_eq; by eexists|by apply plain_good|].
  pose proof (idx_insert (pk D) _ idx x hdr rs (pack_list x rs) Hix Hp (honest_all x rs)) as Hix2.
  assert (∀ id, id ≠ x → is_Some (pk D !! id) → same_file (pack_path id) s' s2) as Hsame.
  { intros id Hne [v Hv]. apply same_file_set_content. intros Hj. rewrite <-Hpk in Hv. destruct v as [hdr0 rs0]. destruct (pk_pages D' s' id hdr0 rs0 Hd Hv) as [_ Hu'].
    apply Hne, pack_path_inj; [done|done|]. by eapply (fw_inj _ (dk_wf _ _ Hd)). }
  destruct (next_id_spec ids) as [Hnx1 Hnx2]. assert (x ∈ ids) as Hx by (apply Hids; by eexists).
  assert (∀ id, id ∈ ids → u32_ok id) as Hu32.
  { intros id [[hdr0 rs0] Hv]%Hids. rewrite <-Hpk in Hv. by destruct (pk_pages D' s' id hdr0 rs0 Hd Hv). }
  eexists (mk_store (insert_batch idx (pack_list x rs)) (mk_active w x ∅ false (next_id ids)) opts (cache_new (read_handle_cap opts))), s2, w.
  split_and!; [|done| | |done|done|done|done|apply durable_set_content| |done].
  - assert (reopen_pack_for_append x idx s' = (Ok (w, insert_batch idx (pack_list x rs)), s2)) as Hre.
    { unfold reopen_pack_for_append. erewrite ibind_step by (apply imap_step; exact Ho). cbv beta iota.
      erewrite ibind_step by (apply imap_step; exact Hsc). cbv zeta. by erewrite ibind_step by (apply imap_step; exact Hro). }
    unfold open_tail. erewrite ibind_step by (erewrite ibind_step by exact Hre; reflexivity). done.
  - split; cbn [ps_index ps_active ps_cache a_pack_id a_writer a_next].
    + apply fs_wf_set_content; [by eapply dk_wf|done].
    + apply Hix2.
    + exists hdr, rs. split; [done|]. split; [done|]. cbn. by rewrite Hwino.
    + intros id hdr' rs' Hne Hid. eapply sealed_at_frame; [apply Hsame; [done|by eexists]|].
      destruct (sealed_pack_at D' s' id Hd) as (h1 & r1 & Hp1 & Hat & _); [apply Hse; [apply Hids; by eexists|congruence]|]. rewrite Hpk in Hp1. by simplify_eq.
    + intros id hdr' rs' Hid. rewrite <-Hpk in Hid. by destruct (pk_pages D' s' id hdr' rs' Hd Hid).
    + apply Hix2.
    + intros id Hid%Hids. split; [apply Hu32, Hid|by apply Hnx1].
    + intros id Hu' Hle. cbn. destruct (fs_dir s' !! pack_path id) as [j|] eqn:Hj; [|done]. exfalso.
      destruct (dk_names _ _ Hd (pack_path id) id) as [_ Hid%Hlong%Hnx1]; [by rewrite Hj|by apply parse_pack_path|]. lia.
    + intros p f g. cbn. by rewrite lookup_empty.
    + assert (next_id ids - 1 ∈ ids) as Hin by (apply Hnx2; by intros ->; apply elem_of_nil in Hx). apply Hu32 in Hin as [_ ?]. lia.
  - cbn [ps_index]. eapply idx_weaken; [|exact Hix2]. intros h (id & hdr' & rs' & Hin & Hp' & Hh'). destruct (decide (id = x)) as [->|Hne].
    + right. by simplify_eq. + left. exists id, hdr', rs'. split; [|done]. apply list_elem_of_filter. split; [congruence|done].
  - intros h0 r0 HD0 j. rewrite HD' in HD0. injection HD0 as <- <- ->. unfold s2. rewrite app_nil_r in Hc.
    destruct (decide (j = i)) as [->|Hne]; [by rewrite content_set_content|by rewrite content_set_content_ne].
Qed.

Lemma last_max ids x : StronglySorted Z.le ids → x ∈ ids → ∃ l, last ids = Some l ∧ l ∈ ids ∧ x ≤ l.
Proof.
  intros Hs Hx. destruct (last ids) as [l|] eqn:Hl; [|apply last_None in Hl as ->; by apply elem_of_nil in Hx].
  apply last_Some in Hl as [pre ->]. exists l. split; [done|]. split; [apply elem_of_app; right; left|].
  apply StronglySorted_app in Hs as (Hle & _ & _). apply elem_of_app in Hx as [Hx|Hx%list_elem_of_singleton]; [|by subst]. apply (Hle x l); [done|left].
Qed.

(** With every pack sealed, a new one is created. *)
Lemma open_create_ok D ids idx D' s' opts : opened D ids None idx D' s' → (∀ id, id ∈ ids → id + 1 < 2 ^ 32) →
  ∃ ps s2 nid hdr w, open_tail opts ids None idx s' = (Ok ps, s2) ∧ calm s2 ∧ pk D !! nid = None ∧
    store_inv (<[nid := (hdr, [])]> (pk D)) ps s2 ∧ idx_ok (pk D) (hashes_in (pk D) ids) (ps_index ps) ∧
    ps_active ps = mk_active w nid ∅ true (nid + 1) ∧ w_buf w = [] ∧ (∀ id, is_Some (pk D !! id) → same_file (pack_path id) s' s2).
Proof.
  intros [Hids Hsort Hd Hs Hpk Hlong Hact Hse Hix] Hroom. set (nid := match last ids with Some id => id + 1 | None => 0 end).
  assert (∀ id, id ∈ ids → u32_ok id) as Hu32.
  { intros id [[hdr0 rs0] Hv]%Hids. rewrite <-Hpk in Hv. by destruct (pk_pages D' s' id hdr0 rs0 Hd Hv). }
  assert ((∀ id, id ∈ ids → id < nid) ∧ u32_ok nid) as [Hlt Hun].
  { unfold nid. destruct (last ids) as [l|] eqn:Hl.
    - assert (l ∈ ids) as Hin by (apply last_Some in Hl as [pre ->]; apply elem_of_app; right; left). split.
      + intros id Hid. destruct (last_max ids id Hsort Hid) as (l' & Hl' & _ & ?). simplify_eq. lia.
      + pose proof (Hu32 l Hin) as [? _]. pose proof (Hroom l Hin). split; lia.
    - apply last_None in Hl as ->. split; [by intros ? ?%elem_of_nil|done]. }
  assert (∀ id, u32_ok id → nid ≤ id → fs_dir s' !! pack_path id = None) as Hfree.
  { intros id Hu Hle. destruct (fs_dir s' !! pack_path id) as [j|] eqn:Hj; [|done]. exfalso.
    destruct (dk_names _ _ Hd (pack_path id) id) as [_ Hid%Hlong%Hlt]; [by rewrite Hj|by apply parse_pack_path|]. lia. }
  destruct (create_ok (pack_path nid) nid unix_now (max_pack_bytes opts) s' Hs (Hfree nid Hun ltac:(lia))) as (w & Hcr & Hw & Hmax & _ & Hbuf & Hino).
  set (s2 := set_content (fs_next s') _ (fresh_file (pack_path nid) s')) in *.
  assert (pk D !! nid = None) as Hnone.
  { apply eq_None_not_Some. intros Hid%Hids%Hlt. lia. }
  assert (∀ id, u32_ok id → id ≠ nid → same_file (pack_path id) s' s2) as Hsame.
  { intros id Hu Hne. apply same_file_fresh; [by eapply dk_wf|]. intros Heq. by apply Hne, pack_path_inj. }
  assert (next_id (ids ++ [nid]) = nid + 1) as Hnext.
  { destruct (next_id_spec (ids ++ [nid])) as [H1 H2]. assert (ids ++ [nid] ≠ []) as Hne by (by intros [_ ?]%app_nil).
    specialize (H2 Hne). pose proof (H1 nid ltac:(apply elem_of_app; right; left)). apply elem_of_app in H2 as [H2%Hlt|H2%list_elem_of_singleton]; lia. }
  eexists (mk_store idx (mk_active w nid ∅ true (nid + 1)) opts (cache_new (read_handle_cap opts))), s2, nid, _, w.
  assert (idx_ok (pk D) (hashes_in (pk D) ids) idx) as Hix'.
  { eapply idx_weaken; [|exact Hix]. intros h (id & hdr' & rs' & Hin & Hp). exists id, hdr', rs'. split; [|done]. by apply list_elem_of_filter. }
  split_and!; [|done|done| |exact Hix'|done|exact Hbuf|].
  - unfold open_tail. fold nid. erewrite ibind_step by (erewrite ibind_step by (apply imap_step; exact Hcr); reflexivity). cbv beta iota zeta.
    fold (next_id (ids ++ [nid])). by rewrite Hnext.
  - split; cbn [ps_index ps_active ps_cache a_pack_id a_writer a_next].
    + apply fs_wf_create; [by eapply dk_wf|]. apply Hfree; [done|lia].
    + apply Hix.
    + eexists _, []. split; [by rewrite lookup_insert_eq|]. split; [exact Hw|]. cbn [a_pack_id a_writer]. rewrite Hino. cbn. by rewrite lookup_insert_eq.
    + intros id hdr' rs' Hne Hid. rewrite lookup_insert_ne in Hid by done. assert (id ∈ ids) as Hin by (apply Hids; by eexists).
      eapply sealed_at_frame; [apply Hsame; [by apply Hu32|done]|].
      destruct (sealed_pack_at D' s' id Hd) as (h1 & r1 & Hp1 & Hat & _); [by apply Hse|]. rewrite Hpk in Hp1. by simplify_eq.
    + intros id hdr' rs' [[<- ?]|[_ Hid]]%lookup_insert_Some; [by simplify_eq; constructor|]. rewrite <-Hpk in Hid.
      by destruct (pk_pages D' s' id hdr' rs' Hd Hid).
    + intros h l Hl. destruct (ix_loc _ _ _ Hix h l Hl) as (hdr' & rs' & Hp & Hin). exists hdr', rs'. rewrite lookup_insert_ne; [done|]. congruence.
    + intros id [<-|[_ Hid%Hids]]%lookup_insert_is_Some; [destruct Hun; lia|]. pose proof (Hlt id Hid). destruct (Hu32 id Hid). lia.
    + intros id Hu Hle. rewrite (proj1 (Hsame id Hu ltac:(lia))). apply Hfree; [done|lia].
    + intros p f g. cbn. by rewrite lookup_empty.
    + destruct Hun. lia.
  - intros id Hid%Hids. apply Hsame; [by apply Hu32|]. pose proof (Hlt id Hid). lia.
Qed.

Lemma dirty_ok_clean D D' s' s2 ids active idx ps packs new_file w id next : opened D ids active idx D' s' → settled D' s' →
  ps_active ps = mk_active w id ∅ new_file next → w_buf w = [] →
  (∀ i, is_Some (packs !! i) → is_Some (pk D !! i) ∨ ∃ hdr, packs !! i = Some (hdr, [])) → (new_file = false → ∀ i, is_Some (packs !! i) → is_Some (pk D !! i)) →
  (∀ i, is_Some (pk D !! i) → fs_dir s2 !! pack_path i = fs_dir s' !! pack_path i ∧
     (fs_dir s' !! pack_path i = None ∨ ∃ j, fs_dir s' !! pack_path i = Some j ∧ durable s2 j = durable s' j ∧ content s2 j = content s' j)) →
  (new_file = false → fs_ddir s2 = fs_ddir s') → dirty_ok packs ps s2.
Proof.
  intros [Hids _ Hd _ Hpk Hlong _ _ _] Hst Ha Hb Hp Hpf Hsame Hdd.
  assert (∀ i, is_Some (pk D !! i) → ∃ j, fs_dir s' !! pack_path i = Some j ∧ durable s' j = content s' j ∧ fs_ddir s' !! pack_path i = Some j) as Hin.
  { intros i Hi. assert (is_Some (D' !! i)) as Hs. { rewrite <-Hpk in Hi. destruct Hi as [[hdr rs] (im & ? & _)%pk_lookup]. by eexists. }
    destruct Hs as [im Him]. destruct (dk_files _ _ Hd i im Him) as (_ & j & Hj & _). exists j. split; [done|]. apply (Hst i j); [by eexists|done]. }
  split_and!.
  - intros i hdr rs Hi _ Hne. destruct (Hp i ltac:(by eexists)) as [Hk|[hdr' Hi']]; [|rewrite Hi in Hi'; by simplify_eq].
    destruct (Hin i Hk) as (j & Hj & Hdc & _). destruct (Hsame i Hk) as [H1 [H2|(j' & H2 & H3 & H4)]]; [congruence|]. simplify_eq.
    exists j. rewrite H1, Ha. split; [done|]. split; [congruence|done].
  - rewrite Ha. cbn. intros -> i Hi. specialize (Hpf eq_refl i Hi). rewrite Hdd by done. destruct (Hin i Hpf) as (j & Hj & _ & Hj2).
    destruct (Hsame i Hpf) as [-> _]. congruence.
  - rewrite Ha. cbn. set_solver.
Qed.

Lemma open_ok D s opts : disk_ok D s → calm s → (∀ id, is_Some (D !! id) → id + 1 < 2 ^ 32) →
  ∃ packs ps s', open_store unix_now opts s = (Ok ps, s') ∧ calm s' ∧ store_inv packs ps s' ∧
    (∀ id im hdr rs, D !! id = Some im → recs im = Some (hdr, rs) → packs !! id = Some (hdr, rs)) ∧
    (∀ h, is_Some (index_get (ps_index ps) h) ↔ ∃ id im hdr rs, D !! id = Some im ∧ recs im = Some (hdr, rs) ∧ h ∈ rr_hash <$> rs) ∧
    (settled D s → (∀ id hdr rs tail, D !! id = Some (IOpen hdr rs tail) → tail = []) → store_ok packs ps s').
Proof.
  intros Hd Hs Hroom. destruct (open_prefix D s opts Hd Hs) as (ids & active & idx & D' & s1 & Ho & Hop & Hset). pose proof Hop as [Hids _ Hd' _ Hpk _ Hact _ _].
  assert (∀ ix, idx_ok (pk D) (hashes_in (pk D) ids) ix →
    ∀ h, is_Some (index_get ix h) ↔ ∃ id im hdr rs, D !! id = Some im ∧ recs im = Some (hdr, rs) ∧ h ∈ rr_hash <$> rs) as Hix.
  { intros ix Hx h. rewrite <-flat_lookup by apply Hx. split.
    - intros [l Hl]. destruct (ix_loc _ _ _ Hx h l Hl) as (hdr & rs & (im & ? & ?)%pk_lookup & Hin). exists (pack l), im, hdr, rs. split_and!; [done..|].
      change h with ((offset l, h).2). rewrite <-(locs_hashes PACK_HEADER_SIZE). by apply list_elem_of_fmap_2.
    - intros (id & im & hdr & rs & HD & Hr & Hh). assert (pk D !! id = Some (hdr, rs)) as Hp by (apply pk_lookup; by eexists).
      apply (ix_has _ _ _ Hx). exists id, hdr, rs. split; [|done]. apply Hids. by eexists. }
  destruct active as [x|].
  - destruct (open_existing_ok D ids x idx D' s1 opts Hop) as (ps & s2 & w & Ht & Hs2 & Hi & Hix' & Ha & Hb & Hdir & Hdd & Hdu & Hc & Hsame).
    exists (pk D), ps, s2. split_and!; [by rewrite Ho|done|done|intros id im hdr rs ??; apply pk_lookup; by eexists|by apply Hix|].
    intros Hst Htail. split; [done|]. destruct (Hact x eq_refl) as (hdr & rs & tail & HD' & HD). rewrite (Htail _ _ _ _ HD) in HD'.
    eapply (dirty_ok_clean D D' s1); [exact Hop|by apply Hset|exact Ha|done|by left|done| |done].
    intros i Hk. rewrite Hdir. split; [done|]. destruct (fs_dir s1 !! pack_path i) as [j|]; [right|by left]. exists j. split; [done|]. split; [apply Hdu|by eapply Hc].
  - destruct (open_create_ok D ids idx D' s1 opts Hop) as (ps & s2 & nid & hdr & w & Ht & Hs2 & Hnone & Hi & Hix' & Ha & Hb & Hsame).
    { intros id [[hdr rs] (im & ? & _)%pk_lookup]%Hids. apply Hroom. by eexists. }
    exists (<[nid:=(hdr, [])]> (pk D)), ps, s2. split_and!; [by rewrite Ho|done|done| |by apply Hix|].
    { intros id im hdr' rs ??. assert (pk D !! id = Some (hdr', rs)) by (apply pk_lookup; by eexists). rewrite lookup_insert_ne; [done|]. congruence. }
    intros Hst _. split; [done|]. eapply (dirty_ok_clean D D' s1); [exact Hop|by apply Hset|exact Ha|done| |done| |done].
    + intros i [<-|[_ ?]]%lookup_insert_is_Some; [right; exists hdr; by rewrite lookup_insert_eq|by left].
    + intros i Hk. destruct (Hsame i Hk) as [H1 H2]. split; [done|]. destruct (fs_dir s1 !! pack_path i) as [j|] eqn:Hj; [right|by left].
      exists j. split; [done|]. unfold durable, content. by rewrite (H2 j eq_refl).
Qed.

End opening.

(** ** Witness *)

#[local] Existing Instances toy_blake3 toy_crc32.
#[local] Opaque ex_page blake3.

(** A pack with one page and the first bytes of another record, and a pack
    that lost its header. *)
Definition ex_torn_file : bytes := ex_hdr ++ body [ex_rec] ++ zeros 20.
Definition ex_torn : fs :=
  mk_fs {[pack_path 0 := 0%N; pack_path 1 := 1%N]} {[pack_path 0 := 0%N; pack_path 1 := 1%N]}
    {[0%N := mk_file ex_torn_file ex_torn_file; 1%N := mk_file (zeros 3) (zeros 3)]} 2 [].
Definition ex_images : gmap PackId image := {[0 := IOpen ex_hdr [ex_rec] (zeros 20); 1 := IShort]}.

Lemma ex_rec_plain : plain ex_rec.
Proof. split; [|done]. split; [exact zlen_ex_page|done]. Qed.

Lemma ex_torn_image : image_of (IOpen ex_hdr [ex_rec] (zeros 20)) ex_torn_file.
Proof.
  split; [apply header_ok_pack|]. split; [by constructor; [apply ex_rec_plain|]|].
  assert (zlen (body [ex_rec]) = 4133) as Hb.
  { unfold body. cbn [fmap list_fmap concat]. rewrite app_nil_r. vm_compute. reflexivity. }
  split; [unfold fits; rewrite Hb; done|]. split.
  - intros r rest Hg Heq. apply (f_equal zlen) in Heq. rewrite zlen_app in Heq. pose proof (zlen_nonneg rest).
    pose proof (good_shape r Hg) as [Hh Hp]. unfold encode_rrec in Heq. rewrite !zlen_app, Hh in Heq. change (zlen (zeros 20)) with 20 in Heq.
    pose proof (zlen_nonneg (rr_payload r)). pose proof (zlen_nonneg [rr_flags r]). pose proof (zlen_nonneg (to_le 4 (zlen (rr_payload r)))). lia.
  - split; [done|]. right. vm_compute. done.
Qed.

Lemma ex_torn_ok : disk_ok ex_images ex_torn.
Proof.
  assert (∀ name i, fs_dir ex_torn !! name = Some i → name = pack_path 0 ∧ i = 0%N ∨ name = pack_path 1 ∧ i = 1%N) as Hdir.
  { intros name i. unfold ex_torn. cbn [fs_dir]. intros [[<- <-]|[_ [<- <-]%lookup_singleton_Some]]%lookup_insert_Some; [by left|by right]. }
  split.
  - split.
    + intros p i [[-> ->]|[-> ->]]%Hdir; by eexists.
    + intros p q i [[-> ->]|[-> ->]]%Hdir [[-> ?]|[-> ?]]%Hdir; done.
    + intros i. unfold ex_torn. cbn [fs_files fs_next]. intros [f [[<- _]|[_ [<- _]%lookup_singleton_Some]]%lookup_insert_Some]; done.
  - intros name id [i [[-> ->]|[-> ->]]%Hdir] Hp; rewrite parse_pack_path in Hp by done; simplify_eq; (split; [done|by eexists]).
  - intros id im. unfold ex_images. intros [[<- <-]|[_ [<- <-]%lookup_singleton_Some]]%lookup_insert_Some; (split; [done|]); eexists; (split; [reflexivity|]).
    + exact ex_torn_image.
    + done.
  - intros id hdr rs data es. unfold ex_images. intros [[_ ?]|[_ [_ ?]%lookup_singleton_Some]]%lookup_insert_Some; done.
Qed.

