(* ===== verification/PageStoreHistory.v ===== *)
(** * A page store over its life

    A store that starts on an empty directory, takes any number of
    [ingest] and [sync] calls, loses power and is opened again.  [tidy]
    says what such a life leaves in the directory beside what the store's
    own invariant says; [view] what a crash would leave. *)

From S2P Require Import Prelude Types Fs Faults Pack Index Names ReadCache PageStore PageStoreInv.
From S2P Require Import PageStoreIngest PageStoreRead PageStoreSync PageStoreGc PageStoreSpec PageStoreOpen.

Section history.
Context `{Blake3, Crc32} (unix_now : Z).
Implicit Types (packs : packs_t) (ps : PageStore) (s : fs).

(** A bound on the packs' sizes: 16 TiB; the server's is 1 GiB. *)
Definition SIZE_BOUND : Z := 2 ^ 44.

(** A page that does not end like a pack does. *)
Definition no_footer (page : bytes) : Prop := sub 4052 4056 page ≠ FOOTER_MAGIC.

Definition wide (max : Z) : Prop := PACK_HEADER_SIZE + RECORD_HEADER_SIZE + PAGE_SIZE ≤ max ≤ SIZE_BOUND.

Record tidy packs ps s : Prop := {
  td_names : ∀ name id, is_Some (fs_dir s !! name) → parse_pack_name name = Some id → name = pack_path id ∧ is_Some (packs !! id);
  td_ddir : fs_ddir s ⊆ fs_dir s;
  td_side : ∀ id i, u32_ok id → fs_dir s !! sidecar_path id = Some i → ∃ hdr rs, packs !! id = Some (hdr, rs) ∧ id ≠ a_pack_id (ps_active ps) ∧
    ∀ es, decode_sidecar (durable s i) = Ok es → honest id rs es;
  td_tmp : ∀ id, fs_dir s !! sidecar_tmp (sidecar_path id) = None;
  td_recs : ∀ id hdr rs, packs !! id = Some (hdr, rs) →
    Forall (λ r, plain r ∧ no_footer (rr_payload r)) rs ∧ zlen (hdr ++ body rs) ≤ SIZE_BOUND;
  td_index : ∀ id hdr rs o h, packs !! id = Some (hdr, rs) → (o, h) ∈ locs PACK_HEADER_SIZE rs → flat (ps_index ps) !! h = Some (mk_loc id o);
  td_empty : ∀ id hdr i, packs !! id = Some (hdr, []) → fs_dir s !! pack_path id = Some i →
    id = a_pack_id (ps_active ps) ∧ (durable s i = [] ∨ durable s i = hdr);
  td_cap : wide (w_max (a_writer (ps_active ps))) ∧ wide (max_pack_bytes (ps_opts ps));
}.

(** ** The disk after a rotation *)

Definition write_synced (path : string) (buf : bytes) s : fs :=
  mk_fs (<[path := fs_next s]> (fs_dir s)) (fs_ddir s) (<[fs_next s := mk_file buf buf]> (fs_files s)) (N.succ (fs_next s)) (fs_faults s).

Lemma write_sidecar_fresh path es s : calm s → fs_dir s !! sidecar_tmp path = None →
  write_sidecar_entries path es s = (Ok tt, write_synced path (encode_sidecar es) s).
Proof.
  intros Hs Ht. unfold write_sidecar_entries.
  erewrite ibind_step by (apply imap_step; unfold open_truncate; rewrite syscall_calm, Ht by done; reflexivity).
  erewrite ibind_step.
  2: { apply imap_step. unfold write_all_. rewrite write_all_calm by done. cbn [h_ino h_pos]. unfold content at 1. cbn [fresh_file fs_files].
       rewrite lookup_insert_eq. cbn [f_data]. reflexivity. }
  erewrite ibind_step by (apply imap_step, sync_data_calm; done). unfold imap_err, rename. rewrite syscall_calm by done. cbn. rewrite lookup_insert_eq.
  rewrite delete_insert_id by done. unfold write_synced, content. cbn. rewrite !lookup_insert_eq, !insert_insert_eq.
  assert (write_bytes [] 0 (encode_sidecar es) = encode_sidecar es) as -> by (unfold write_bytes; cbn; by rewrite drop_nil, app_nil_r). done.
Qed.

Lemma rotate_disk packs ps s : store_inv packs ps s → calm s → u32_ok (a_next (ps_active ps)) → fs_dir s !! sidecar_tmp (sidecar_path (a_pack_id (ps_active ps))) = None →
  let a := ps_active ps in let nid := a_next a in ∃ c w,
  let s2 := write_synced (sidecar_path (a_pack_id a)) (encode_sidecar (entries_for_pack (ps_index ps) (a_pack_id a))) (set_content (h_ino (w_file (a_writer a))) c s) in
  rotate_locked unix_now (ps, s) = (Ok nid, (mk_store (ps_index ps) (mk_active w nid ({[a_pack_id a]} ∪ a_dirty a) true (nid + 1)) (ps_opts ps) (ps_cache ps),
    set_content (fs_next s2) (pack_header nid unix_now) (fresh_file (pack_path nid) s2))) ∧ w_max w = max_pack_bytes (ps_opts ps).
Proof.
  intros Hi Hs Hun Ht a nid. destruct (si_active _ _ _ Hi) as (hdr & rs & Hp & Hw & Hd). fold a in Hp, Hw, Hd.
  destruct (seal_no_sync_ok _ _ _ _ Hw Hs) as (w1 & Hseal & _). exists (sealed_bytes hdr rs).
  set (s1 := set_content _ _ s) in *. set (s2 := write_synced _ _ s1).
  assert (fs_dir s2 !! pack_path nid = None) as Hnone.
  { cbn. rewrite lookup_insert_ne by (destruct (pack_path_ne_sidecar nid (a_pack_id a) Hun); congruence). by apply (si_fresh _ _ _ Hi). }
  destruct (create_ok (pack_path nid) nid unix_now (max_pack_bytes (ps_opts ps)) s2 Hs Hnone) as (w & Hcr & _ & Hmax & _).
  exists w. split; [|done]. pose proof (write_sidecar_fresh (sidecar_path (a_pack_id a)) (entries_for_pack (ps_index ps) (a_pack_id a)) s1 Hs Ht) as Hsc.
  unfold rotate_locked. erewrite ibind_step by reflexivity. cbv zeta.
  erewrite ibind_step by reflexivity. erewrite ibind_step by (apply on_writer_step; exact Hseal).
  erewrite ibind_step by reflexivity. erewrite ibind_step by (apply on_fs_step, imap_step; exact Hsc).
  erewrite ibind_step by reflexivity. erewrite ibind_step by reflexivity.
  by erewrite ibind_step by (apply on_fs_step, imap_step; exact Hcr).
Qed.

(** ** [tidy] is kept *)

(** What a crash leaves is the same before and after. *)
Definition same_view s s' : Prop :=
  fs_ddir s' = fs_ddir s ∧ ∀ p i, fs_ddir s !! p = Some i → durable s' i = durable s i.

#[local] Instance same_view_pre : PreOrder same_view.
Proof.
  split; [by intros s; split|]. intros s1 s2 s3 [H1 H2] [H3 H4]. split; [congruence|]. intros p i Hp.
  rewrite (H4 p i), (H2 p i); [done|done|congruence].
Qed.

Lemma tidy_append packs ps s page hdr rs w' c d : store_inv packs ps s → tidy packs ps s → zlen page = PAGE_SIZE → no_footer page →
  let a := ps_active ps in let id := a_pack_id a in let off := zlen (hdr ++ body rs) in
  would_exceed_cap (a_writer a) = false → index_get (ps_index ps) (blake3 page) = None → packs !! id = Some (hdr, rs) → w_max w' = w_max (a_writer a) →
  tidy (<[id := (hdr, rs ++ [page_rec (blake3 page) page])]> packs)
    (mk_store (index_insert (ps_index ps) (blake3 page) (mk_loc id off)) (mk_active w' id d (a_new_files a) (a_next a)) (ps_opts ps) (ps_cache ps))
    (set_content (h_ino (w_file (a_writer a))) c s).
Proof.
  intros Hi [Hn Hdd Hsd Ht Hre Hix He Hcap] Hl Hnf a id off Hfit Hnew Hp Hmax.
  destruct (index_insert_refines (ps_index ps) (blake3 page) (mk_loc id off) (si_index _ _ _ Hi)) as [_ Hfl].
  rewrite <-flat_lookup in Hnew by apply Hi. unfold or_insert in Hfl. rewrite Hnew in Hfl.
  destruct (si_active _ _ _ Hi) as (hdr' & rs' & Hp' & Hw & _). fold a id in Hp', Hw. rewrite Hp in Hp'. injection Hp' as <- <-.
  assert (∀ id' hdr' rs' o h, packs !! id' = Some (hdr', rs') → (o, h) ∈ locs PACK_HEADER_SIZE rs' →
    <[blake3 page:=mk_loc id off]> (flat (ps_index ps)) !! h = Some (mk_loc id' o)) as Hold.
  { intros id' hdr' rs' o h Hid' Hin. pose proof (Hix _ _ _ _ _ Hid' Hin) as Hf. rewrite lookup_insert_ne; [done|]. intros <-. congruence. }
  split; cbn [ps_active ps_opts ps_index a_pack_id a_writer]; try done.
  - intros name id' Hs Hpa. destruct (Hn name id' Hs Hpa) as [-> Hs']. split; [done|]. apply lookup_insert_is_Some'. by right.
  - intros id' i Hu Hs. destruct (Hsd id' i Hu Hs) as (hdr' & rs' & Hid' & Hne & Hh). exists hdr', rs'. rewrite durable_set_content.
    by rewrite lookup_insert_ne by done.
  - intros id' hdr' rs' [[<- ?]|[Hne Hid']]%lookup_insert_Some; [|by eapply Hre]. simplify_eq. destruct (Hre _ _ _ Hp) as [Hrs _]. split.
    + apply Forall_app. split; [done|]. constructor; [|done]. split; [|done]. by split.
    + unfold would_exceed_cap in Hfit. b2p. rewrite (wo_offset _ _ _ _ Hw) in Hfit. destruct Hcap as [[_ Hc] _]. fold a in Hc.
      rewrite body_app, zlen_app. rewrite zlen_app in Hfit. rewrite zlen_app, (zlen_body_pages [_]) by (constructor; [by split|done]).
      change (zlen [page_rec (blake3 page) page]) with 1. lia.
  - intros id' hdr' rs' o h [[<- ?]|[Hne Hid']]%lookup_insert_Some Hin; rewrite Hfl; [|by eapply Hold]. simplify_eq.
    rewrite locs_app in Hin. apply elem_of_app in Hin as [Hin|Hin]; [by eapply Hold|]. cbn in Hin. apply list_elem_of_singleton in Hin. simplify_eq.
    rewrite lookup_insert_eq. unfold off. by rewrite zlen_app, (proj1 (wo_hdr _ _ _ _ Hw)).
  - intros id' hdr' i [[<- ?]|[Hne Hid']]%lookup_insert_Some Hd; [simplify_eq; by destruct rs|]. rewrite durable_set_content. by apply He.
  - by rewrite Hmax.
Qed.

Lemma recs_fit packs ps s id hdr rs : tidy packs ps s → store_inv packs ps s → packs !! id = Some (hdr, rs) → Forall plain rs ∧ fits rs.
Proof.
  intros Ht Hi Hp. destruct (td_recs _ _ _ Ht _ _ _ Hp) as [Hrs Hb]. pose proof (zlen_nonneg hdr). rewrite zlen_app in Hb.
  rewrite (zlen_body_pages rs) in Hb by (by eapply si_pages). unfold SIZE_BOUND, RECORD_HEADER_SIZE, PAGE_SIZE in Hb.
  split; [eapply Forall_impl; [exact Hrs|]; by intros r [? _]|]. unfold fits. rewrite (zlen_body_pages rs) by (by eapply si_pages).
  unfold RECORD_HEADER_SIZE, PAGE_SIZE. pose proof (zlen_nonneg rs). lia.
Qed.

Lemma honest_entries id rs es es' : u32_ok id → Forall plain rs → fits rs → NoDup es → (∀ e, e ∈ es ↔ e ∈ pack_list id rs) →
  decode_sidecar (encode_sidecar es) = Ok es' → honest id rs es'.
Proof.
  intros Hu Hrs Hf Hnd Hes. pose proof (pack_list_wf id rs Hu Hrs Hf) as Hwf. rewrite decode_sidecar_encode.
  - intros [= <-]. split; [intros e; by rewrite sort_entries_perm, Hes|]. intros h Hh. rewrite sort_entries_perm.
    rewrite <-(pack_list_hashes id) in Hh. apply list_elem_of_fmap in Hh as (e & -> & He). apply list_elem_of_fmap. exists e. by rewrite Hes.
  - apply Forall_forall. intros e He%Hes. by eapply Forall_forall in Hwf.
  - destruct Hf as [Hn _]. rewrite <-(zlen_pack_list id) in Hn. eapply Z.le_lt_trans; [|exact Hn]. unfold zlen. apply Nat2Z.inj_le, submseteq_length, NoDup_submseteq; [done|].
    intros e. apply Hes.
Qed.

Lemma entries_listed packs ps s id hdr rs e : tidy packs ps s → store_inv packs ps s → packs !! id = Some (hdr, rs) →
  e ∈ entries_for_pack (ps_index ps) id ↔ e ∈ pack_list id rs.
Proof.
  intros Ht Hi Hp. destruct e as [h [p o]]. rewrite entries_for_pack_elem by apply Hi. rewrite elem_of_pack_list. cbn. split.
  - intros [Hl ->]. split; [done|]. destruct (si_loc _ _ _ Hi h _ Hl) as (hdr' & rs' & Hp' & Hin). cbn in *. rewrite Hp in Hp'. by simplify_eq.
  - intros [-> Hin]. split; [|done]. by eapply td_index.
Qed.

(** The disk after a rotation: two more files, one of them durable, and
    only one file with new contents. *)
Definition rotated a c idx s : fs :=
  let s2 := write_synced (sidecar_path (a_pack_id a)) (encode_sidecar (entries_for_pack idx (a_pack_id a))) (set_content (h_ino (w_file (a_writer a))) c s) in
  set_content (fs_next s2) (pack_header (a_next a) unix_now) (fresh_file (pack_path (a_next a)) s2).

Lemma durable_rotated a c idx s i : fs_wf s → i ≠ fs_next s → durable (rotated a c idx s) i = durable s i.
Proof.
  intros Hwf Hne. unfold rotated. rewrite durable_set_content. cbn. unfold durable at 1. cbn.
  destruct (decide (i = N.succ (fs_next s))) as [->|Hne2].
  - rewrite lookup_insert_eq. cbn. unfold durable. destruct (fs_files s !! N.succ (fs_next s)) as [f|] eqn:Hf; [|done].
    pose proof (fw_next _ Hwf _ (mk_is_Some _ _ Hf)). lia.
  - rewrite lookup_insert_ne, lookup_insert_ne by done. exact (durable_set_content _ c s i).
Qed.

Lemma dir_rotated a c idx s : fs_dir (rotated a c idx s) = <[pack_path (a_next a) := N.succ (fs_next s)]> (<[sidecar_path (a_pack_id a) := fs_next s]> (fs_dir s)).
Proof. done. Qed.

Lemma same_view_rotated packs ps s a c idx : store_inv packs ps s → tidy packs ps s → same_view s (rotated a c idx s).
Proof.
  intros Hi Ht. split; [done|]. intros p i Hp. apply durable_rotated; [apply Hi|]. pose proof (lookup_weaken _ _ _ _ Hp (td_ddir _ _ _ Ht)) as Hd.
  pose proof (fw_next _ (si_wf _ _ _ Hi) i (fw_named _ (si_wf _ _ _ Hi) _ _ Hd)). lia.
Qed.

Lemma durable_rotated_new a c idx s : durable (rotated a c idx s) (fs_next s) = encode_sidecar (entries_for_pack idx (a_pack_id a)) ∧
  durable (rotated a c idx s) (N.succ (fs_next s)) = [].
Proof.
  unfold rotated. rewrite !durable_set_content. unfold durable. cbn. rewrite lookup_insert_ne by lia. by rewrite !lookup_insert_eq.
Qed.

Lemma tidy_rotate packs ps s c w d : store_inv packs ps s → tidy packs ps s →
  let a := ps_active ps in let nid := a_next a in
  u32_ok nid → would_exceed_cap (a_writer a) = true → w_max w = max_pack_bytes (ps_opts ps) →
  tidy (<[nid := (pack_header nid unix_now, [])]> packs)
    (mk_store (ps_index ps) (mk_active w nid d true (nid + 1)) (ps_opts ps) (ps_cache ps)) (rotated a c (ps_index ps) s).
Proof.
  intros Hi Htd a nid Hun Hfull Hmax. pose proof Htd as [Hn Hdd Hsd Ht Hre Hix He Hcap]. set (id0 := a_pack_id a).
  destruct (si_active _ _ _ Hi) as (hdr & rs & Hp & Hw & Hd). fold a id0 in Hp, Hw, Hd. pose proof (si_u32 _ _ _ id0 Hi (mk_is_Some _ _ Hp)) as Hu0.
  assert (∀ id, is_Some (packs !! id) → id ≠ nid) as Hids. { intros id Hid. pose proof (si_ids _ _ _ Hi id Hid). unfold nid, a. lia. }
  assert (fs_dir s !! sidecar_path id0 = None) as Hside.
  { destruct (fs_dir s !! sidecar_path id0) as [i|] eqn:Hsi; [|done]. by destruct (Hsd id0 i Hu0 Hsi) as (? & ? & _ & ? & _). }
  assert (fs_dir s !! pack_path nid = None) as Hnone by (by apply (si_fresh _ _ _ Hi)).
  destruct (pack_path_ne_sidecar nid id0 Hun) as [Hps _].
  split; cbn [ps_active ps_opts ps_index a_pack_id a_writer]; rewrite ?dir_rotated; fold nid id0.
  - intros name id [i [[<- _]|[_ [[<- _]|[_ Hs]]%lookup_insert_Some]]%lookup_insert_Some] Hpa.
    + rewrite parse_pack_path in Hpa by done. apply (inj Some) in Hpa as <-. split; [done|]. by rewrite lookup_insert_eq.
    + by rewrite parse_sidecar_path in Hpa.
    + destruct (Hn name id (mk_is_Some _ _ Hs) Hpa) as [-> Hs']. split; [done|]. apply lookup_insert_is_Some'. by right.
  - cbn. etrans; [exact Hdd|]. etrans; [apply insert_subseteq; exact Hside|]. apply insert_subseteq. by rewrite lookup_insert_ne.
  - intros id i Hu [[Heq _]|[_ [[Heq <-]|[_ Hs]]%lookup_insert_Some]]%lookup_insert_Some; [by destruct (pack_path_ne_sidecar nid id Hun)| |].
    + apply sidecar_path_inj in Heq as <-; [|done..]. exists hdr, rs. rewrite lookup_insert_ne by (intros Heq; by apply (Hids id0 ltac:(by eexists))).
      split; [done|]. split; [by apply Hids; eexists|]. rewrite (proj1 (durable_rotated_new a c (ps_index ps) s)). destruct (recs_fit packs ps s id0 hdr rs Htd Hi Hp).
      intros es. apply honest_entries; [done..| |]. { eapply NoDup_fmap_1, entries_for_pack_NoDup, Hi. } intros e. by eapply entries_listed.
    + destruct (Hsd id i Hu Hs) as (hdr' & rs' & Hid & Hne & Hh). exists hdr', rs'. rewrite lookup_insert_ne by (intros Heq; by apply (Hids id ltac:(by eexists))).
      split; [done|]. split; [by apply Hids; eexists|]. rewrite durable_rotated; [done|apply Hi|].
      pose proof (fw_next _ (si_wf _ _ _ Hi) i (fw_named _ (si_wf _ _ _ Hi) _ _ Hs)). lia.
  - intros id. destruct (pack_path_ne_sidecar nid id Hun) as [_ H2]. rewrite lookup_insert_ne by done. rewrite lookup_insert_ne; [done|]. intros Heq. by apply (sidecar_tmp_other id id0).
  - intros id hdr' rs' [[_ [<- <-]%pair_eq]|[_ Hid]]%lookup_insert_Some; [|by eapply Hre]. split; [done|]. cbn [body fmap list_fmap concat]. rewrite app_nil_r.
    rewrite (proj1 (header_ok_pack _ _)). done.
  - intros id hdr' rs' o h [[_ [<- <-]%pair_eq]|[_ Hid]]%lookup_insert_Some; [by intros ?%elem_of_nil|by eapply Hix].
  - intros id hdr' i [[<- _]|[Hne Hid]]%lookup_insert_Some; [intros Hdi|].
    + split; [done|]. left. rewrite lookup_insert_eq in Hdi. apply (inj Some) in Hdi as <-. apply durable_rotated_new.
    + intros Hdi. exfalso. destruct (store_inv_named _ _ _ id Hi (mk_is_Some _ _ Hid)) as [j Hj]. destruct (He id hdr' j Hid Hj) as [Heq _]. fold a id0 in Heq. subst id.
      rewrite Hp in Hid. apply (inj Some), pair_eq in Hid as [-> ->]. unfold would_exceed_cap in Hfull. b2p. rewrite (wo_offset _ _ _ _ Hw) in Hfull. cbn [body fmap list_fmap concat] in Hfull. rewrite app_nil_r in Hfull.
      rewrite (proj1 (wo_hdr _ _ _ _ Hw)) in Hfull. destruct Hcap as [[? _] _]. unfold a in *. lia.
  - rewrite Hmax. split; apply Hcap.
Qed.

(** ** Ingest *)

Definition sound_page (page : bytes) : Prop := zlen page = PAGE_SIZE ∧ no_footer page.

Definition fine packs ps s : Prop := store_ok packs ps s ∧ tidy packs ps s ∧ calm s.

Lemma make_room_tidy packs ps s n : fine packs ps s → has_room ps (S n) →
  ∃ x packs1 ps1 s1, (if would_exceed_cap (a_writer (ps_active ps)) then rotate_locked unix_now else iret (a_pack_id (ps_active ps))) (ps, s) = (Ok x, (ps1, s1)) ∧
    fine packs1 ps1 s1 ∧ same_view s s1 ∧ has_room ps1 n ∧ ps_index ps1 = ps_index ps ∧ would_exceed_cap (a_writer (ps_active ps1)) = false.
Proof.
  intros (Hok & Ht & Hs) [Hr1 Hr2]. pose proof (proj1 Hok) as Hi. destruct (would_exceed_cap (a_writer (ps_active ps))) eqn:Hcap.
  2: { exists (a_pack_id (ps_active ps)), packs, ps, s. split; [done|]. split_and!; [done|done|split; [done|lia]|done|done]. }
  assert (u32_ok (a_next (ps_active ps))) as Hun.
  { destruct (si_active _ _ _ Hi) as (? & ? & Hp & _). pose proof (si_ids _ _ _ Hi _ (mk_is_Some _ _ Hp)). split; lia. }
  pose proof Hok as Hok1%store_upto_True. destruct (rotate_upto_at unix_now True packs ps s Hok1 Hs ltac:(lia))
    as (ps1 & s1 & Hr & Hokr%store_upto_True & Hs1 & _ & _ & Ho & Hx & _ & _ & Hn & Hoff & Hmax).
  destruct (rotate_disk packs ps s Hi Hs Hun (td_tmp _ _ _ Ht _)) as (c & w & Hrd & Hwm). rewrite Hrd in Hr.
  pose proof (tidy_rotate packs ps s c w ({[a_pack_id (ps_active ps)]} ∪ a_dirty (ps_active ps)) Hi Ht Hun Hcap Hwm) as Ht1.
  pose proof (same_view_rotated packs ps s (ps_active ps) c (ps_index ps) Hi Ht) as Hv. unfold rotated in Ht1, Hv.
  apply pair_eq in Hr as [_ [Hps1 Hs1']%pair_eq]. rewrite Hps1 in Ht1. rewrite Hs1' in Ht1, Hv.
  eexists _, _, ps1, s1. split; [rewrite Hrd, Hps1, Hs1'; reflexivity|]. split; [split_and!; [exact Hokr|exact Ht1|done]|].
  split; [done|]. split; [split; [by rewrite Ho|lia]|]. split; [done|]. unfold would_exceed_cap. rewrite Hoff, Hmax. lia.
Qed.

Lemma write_miss_tidy packs ps s pages page out i out' ps' s' n : fine packs ps s → has_room ps (S n) → pages !! i = Some page → sound_page page →
  write_miss unix_now pages out (blake3 page, i) (ps, s) = (Ok out', (ps', s')) →
  ∃ packs', fine packs' ps' s' ∧ same_view s s' ∧ has_room ps' n.
Proof.
  intros Hf Hroom Hpage [Hl Hnf]. unfold write_miss. erewrite ibind_step by reflexivity. cbv beta iota. cbn [fst].
  destruct (index_get (ps_index ps) (blake3 page)) as [l|] eqn:Hnew.
  { intros [_ [<- <-]%pair_eq]%pair_eq. exists packs. split; [done|]. split; [done|]. destruct Hroom. split; [done|lia]. }
  destruct (make_room_tidy packs ps s n Hf Hroom) as (x & packs1 & ps1 & s1 & Hrot & (Hok1 & Ht1 & Hs1) & Hv & Hroom1 & Hix & Hcap).
  erewrite ibind_step by exact Hrot. rewrite Hpage. destruct (si_active _ _ _ (proj1 Hok1)) as (hdr & rs & Hp & _).
  pose proof Hok1 as Hok1'%store_upto_True. rewrite <-Hix in Hnew.
  destruct (append_upto_at True packs1 ps1 s1 page hdr rs Hok1' Hs1 Hl Hcap Hnew Hp) as (w' & c & Ha & Hok'%store_upto_True & _ & _ & _ & _ & Hm).
  erewrite ibind_step by exact Ha. intros [_ [<- <-]%pair_eq]%pair_eq. eexists. split; [|split].
  - split_and!; [exact Hok'| |exact Hs1]. exact (tidy_append packs1 ps1 s1 page hdr rs w' c _ (proj1 Hok1) Ht1 Hl Hnf Hcap Hnew Hp Hm).
  - etrans; [exact Hv|]. split; [done|]. intros q j _. apply durable_set_content.
  - exact Hroom1.
Qed.

Lemma write_misses_tidy pages tw k : ∀ packs ps s out out' ps' s', fine packs ps s → has_room ps (length tw + k) →
  Forall sound_page pages → (∀ h i, (h, i) ∈ tw → (blake3 <$> pages) !! i = Some h) →
  write_misses unix_now pages out tw (ps, s) = (Ok out', (ps', s')) → ∃ packs', fine packs' ps' s' ∧ same_view s s' ∧ has_room ps' k.
Proof.
  induction tw as [|[h i] tw IH]; intros packs ps s out out' ps' s' Hf Hroom Hpg Htw Hr.
  { cbn in Hr. apply pair_eq in Hr as [_ [<- <-]%pair_eq]. by exists packs. }
  pose proof (Htw h i ltac:(left)) as Hi. rewrite list_lookup_fmap in Hi. destruct (pages !! i) as [page|] eqn:Hp; [|done]. cbn in Hi. apply (inj Some) in Hi as <-.
  cbn [write_misses] in Hr. apply ibind_Ok in Hr as (out1 & [ps1 s1] & H1 & H2).
  destruct (write_miss_tidy packs ps s pages page out i out1 ps1 s1 (length tw + k) Hf Hroom Hp ltac:(by eapply Forall_lookup_1 in Hpg) H1) as (packs1 & Hf1 & Hv1 & Hr1).
  destruct (IH packs1 ps1 s1 out1 out' ps' s' Hf1 Hr1 Hpg) as (packs' & Hf' & Hv' & Hr'); [intros; apply Htw; by right|exact H2|].
  exists packs'. split; [done|]. split; [by etrans|done].
Qed.

Lemma ingest_tidy iter packs ps s pages out ps' s' k : (∀ l, iter l ≡ₚ l) → fine packs ps s → has_room ps (length pages + k) → Forall sound_page pages →
  ingest unix_now iter pages (ps, s) = (Ok out, (ps', s')) → ∃ packs', fine packs' ps' s' ∧ same_view s s' ∧ has_room ps' k.
Proof.
  intros Hiter Hf Hroom Hpg. unfold ingest. case_bool_decide as Hnil.
  { intros [_ [<- <-]%pair_eq]%pair_eq. exists packs. split; [done|]. split; [done|]. eapply has_room_le; [|exact Hroom]. lia. }
  set (uniq := iter (batch_dedup 0 (blake3 <$> pages) [])). destruct (batch_dedup_spec (blake3 <$> pages)) as [Hnd Hu].
  assert (NoDup uniq.*1) as Hndu by (unfold uniq; by rewrite Hiter).
  assert (∀ h i, (h, i) ∈ uniq → (blake3 <$> pages) !! i = Some h) as Hu1 by (intros h i; unfold uniq; rewrite Hiter; by intros [? _]%Hu).
  assert (index_ok (ps_index ps)) as Hix by (apply Hf).
  destruct (probe_ok (ps_index ps) (blake3 <$> pages) uniq [] _ [] Hix Hu1 (slots_ok_init (flat (ps_index ps)) _)) as (out0 & Hpr & _).
  rewrite length_fmap in Hpr. cbn [app] in Hpr. set (tw := filter _ uniq) in *. erewrite ibind_step by reflexivity. cbn [fst]. rewrite Hpr.
  cbv beta iota. intros (out1 & [ps1 s1] & H1 & H2)%ibind_Ok. apply ibind_Ok in H2 as (ps2 & [ps3 s3] & H2 & H3). cbn in H2.
  apply pair_eq in H2 as [_ [<- <-]%pair_eq]. unfold iof in H3. apply pair_eq in H3 as [_ [<- <-]%pair_eq].
  assert (length tw ≤ length pages)%nat as Hlen.
  { rewrite <-(length_fmap fst tw), <-(length_fmap blake3 pages). apply submseteq_length, NoDup_submseteq.
    - eapply sublist_NoDup; [exact Hndu|]. apply fmap_sublist, sublist_filter.
    - intros h ([h' i] & -> & [_ Hin]%list_elem_of_filter)%list_elem_of_fmap. apply Hu1 in Hin. by eapply list_elem_of_lookup_2. }
  eapply (write_misses_tidy pages tw k packs ps s); [done| |done| |exact H1].
  - eapply has_room_le; [|exact Hroom]. lia.
  - intros h i [_ Hin]%list_elem_of_filter. by apply Hu1.
Qed.

(** ** Sync *)

Lemma sync_packs_others ids : ∀ ps s s', calm s → fs_wf s → Forall (λ id, is_Some (fs_dir s !! pack_path id)) ids →
  ifor ids (λ id, on_fs (sync_pack id)) (ps, s) = (Ok tt, (ps, s')) →
  ∀ j, (∀ id, id ∈ ids → fs_dir s !! pack_path id ≠ Some j) → durable s' j = durable s j.
Proof.
  induction ids as [|id ids IH]; intros ps s s' Hs Hwf Hids Hr j Hj; cbn [ifor] in Hr.
  { by apply pair_eq in Hr as [_ [_ <-]%pair_eq]. }
  apply Forall_cons in Hids as [[i Hi] Hids].
  destruct (sync_pack_ok id i s Hs Hi (fw_named _ Hwf _ _ Hi)) as (s1 & H1 & Hs1 & Hsy1 & _ & _ & Ho).
  erewrite ibind_step in Hr by (apply on_fs_step; exact H1).
  rewrite (IH ps s1 s' Hs1 (sf_wf _ _ Hsy1 Hwf)); [|by rewrite (sf_dir _ _ Hsy1)|exact Hr|].
  - unfold durable. rewrite Ho; [done|]. intros ->. by apply (Hj id); [left|].
  - intros id' Hid'. rewrite (sf_dir _ _ Hsy1). apply Hj. by right.
Qed.

Lemma sync_disk iter packs ps s ps' s' : (∀ X, iter X ≡ₚ elements X) → store_ok packs ps s → calm s → sync iter (ps, s) = (Ok tt, (ps', s')) →
  let a := ps_active ps in ∃ w,
  ps' = mk_store (ps_index ps) (mk_active w (a_pack_id a) ∅ false (a_next a)) (ps_opts ps) (ps_cache ps) ∧ w_max w = w_max (a_writer a) ∧ w_buf w = [] ∧ calm s' ∧
  fs_dir s' = fs_dir s ∧ fs_ddir s' = (if a_new_files a then fs_dir s else fs_ddir s) ∧
  (∀ j, (∀ id, is_Some (packs !! id) → fs_dir s !! pack_path id ≠ Some j) → durable s' j = durable s j) ∧
  (∀ hdr rs, packs !! a_pack_id a = Some (hdr, rs) → durable s' (h_ino (w_file (a_writer a))) = hdr ++ body rs).
Proof.
  intros Hiter [Hi (Hd1 & Hd2 & Hd3)] Hs Hr a. destruct (store_flush packs ps s Hi Hs) as (w & c & Hfl & Hb & Hm & Hino & Hi1 & Hc).
  set (ps1 := set_active (set_writer w (ps_active ps)) ps) in *. set (s1 := set_content _ c s) in *.
  destruct (si_active _ _ _ Hi) as (hdr & rs & Hp & Hw & Hdir). set (dirty := {[a_pack_id a]} ∪ a_dirty a).
  assert (∀ id, id ∈ dirty → is_Some (packs !! id)) as Hdp.
  { intros id [->%elem_of_singleton|?]%elem_of_union; [by eexists|by apply Hd3]. }
  set (ps2 := set_active (set_dirty ∅ (ps_active ps1)) ps1).
  assert (Forall (λ id, is_Some (fs_dir s1 !! pack_path id)) (iter dirty)) as Hnamed.
  { apply Forall_forall. intros id. rewrite Hiter, elem_of_elements. intros Hid. by apply (store_inv_named packs ps1), Hdp. }
  destruct (sync_packs_ok (iter dirty) ps2 s1 Hs (si_wf _ _ _ Hi1) Hnamed) as (s2 & Hsy & Hs2 & Hf2 & Hdd2 & Hdu2).
  pose proof (sync_packs_others (iter dirty) ps2 s1 s2 Hs (si_wf _ _ _ Hi1) Hnamed Hsy) as Hoth.
  unfold sync in Hr. erewrite ibind_step in Hr by exact Hfl. erewrite ibind_step in Hr by reflexivity. cbn [fst] in Hr. cbv zeta in Hr.
  erewrite ibind_step in Hr by reflexivity. erewrite ibind_step in Hr by exact Hsy. erewrite ibind_step in Hr by reflexivity.
  cbn [fst ps2 ps1 set_active set_dirty set_writer ps_active a_new_files] in Hr. fold a in Hr.
  assert (ps' = mk_store (ps_index ps) (mk_active w (a_pack_id a) ∅ false (a_next a)) (ps_opts ps) (ps_cache ps) ∧
    s' = if a_new_files a then set_ddir (fs_dir s2) s2 else s2) as [-> Hs'].
  { destruct (a_new_files a) eqn:Hnf.
    - rewrite (ibind_step _ _ (ps2, s2) tt (ps2, set_ddir (fs_dir s2) s2)) in Hr; [by apply pair_eq in Hr as [_ [<- <-]%pair_eq]|].
      apply on_fs_step, imap_step. unfold sync_dir. erewrite ibind_step by (rewrite syscall_calm by done; reflexivity). by rewrite syscall_calm.
    - apply pair_eq in Hr as [_ [<- <-]%pair_eq]. split; [|done]. unfold ps2, ps1. rewrite <-Hnf. done. }
  assert (fs_dir s' = fs_dir s ∧ (∀ j, durable s' j = durable s2 j) ∧ calm s' ∧ fs_ddir s' = if a_new_files a then fs_dir s else fs_ddir s) as (Hd' & Hdu & Hsc & Hdd').
  { rewrite Hs'. destruct (a_new_files a); cbn; rewrite (sf_dir _ _ Hf2); [done|]. by rewrite Hdd2. }
  exists w. split; [done|]. split_and!; [done..| |].
  - intros j Hj. rewrite Hdu, Hoth; [apply durable_set_content|]. intros id. rewrite Hiter, elem_of_elements. intros Hid%Hdp. by apply Hj.
  - intros hdr' rs' Hp'. rewrite Hdu, (Hdu2 (a_pack_id a)); [|rewrite Hiter, elem_of_elements; set_solver|done].
    rewrite (sf_content _ _ Hf2). unfold s1. rewrite content_set_content. by apply Hc.
Qed.

Lemma sync_tidy iter packs ps s ps' s' : (∀ X, iter X ≡ₚ elements X) → fine packs ps s → sync iter (ps, s) = (Ok tt, (ps', s')) →
  fine packs ps' s' ∧ ps_index ps' = ps_index ps ∧ a_dirty (ps_active ps') = ∅ ∧ a_new_files (ps_active ps') = false ∧
  (∀ n, has_room ps n → has_room ps' n) ∧ fs_ddir s' ⊆ fs_dir s' ∧ (a_new_files (ps_active ps) = true → fs_ddir s' = fs_dir s').
Proof.
  intros Hiter (Hok & Ht & Hs) Hr. destruct (sync_disk iter packs ps s ps' s' Hiter Hok Hs Hr) as (w & Hps & Hm & _ & Hs' & Hd & Hdd & Hoth & Hact).
  destruct (sync_ok iter packs ps s Hiter Hok Hs) as (ps1 & s1 & Hr1 & _ & Hok' & _). rewrite Hr in Hr1. apply pair_eq in Hr1 as [_ [<- <-]%pair_eq].
  pose proof Hok as [Hi _]. destruct Ht as [Hn Hdd0 Hsd Htmp Hre Hix He Hcap].
  assert (∀ id i, fs_dir s !! sidecar_path id = Some i → durable s' i = durable s i) as Hside.
  { intros id i Hsi. apply Hoth. intros id' Hid' Hpi. pose proof (fw_inj _ (si_wf _ _ _ Hi) _ _ _ Hsi Hpi) as Heq.
    by destruct (pack_path_ne_sidecar id' id (si_u32 _ _ _ _ Hi Hid')). }
  subst ps'. split; [split_and!; [done| |done]|split_and!; try done].
  - split; cbn [ps_active ps_opts ps_index a_pack_id a_writer]; rewrite ?Hd; try done.
    + rewrite Hdd. by destruct (a_new_files (ps_active ps)).
    + intros id i Hu Hsi. rewrite (Hside id i Hsi). by apply Hsd.
    + intros id hdr i Hp Hi'. destruct (He id hdr i Hp Hi') as [-> _]. split; [done|]. right.
      destruct (si_active _ _ _ Hi) as (hdr1 & rs1 & Hp1 & _ & Hd1). rewrite Hd1 in Hi'. apply (inj Some) in Hi' as <-. rewrite (Hact hdr [] Hp). apply app_nil_r.
    + by rewrite Hm.
  - rewrite Hdd, Hd. by destruct (a_new_files (ps_active ps)).
  - intros Hnf. by rewrite Hdd, Hd, Hnf.
Qed.

(** ** What a crash leaves *)

Lemma unsealed_body hdr rs : header_ok hdr → Forall (λ r, plain r ∧ no_footer (rr_payload r)) rs → unsealed_image (hdr ++ body rs).
Proof.
  intros [Hh _] Hrs. destruct rs as [|r rs _] using rev_ind.
  { left. cbn [body fmap list_fmap concat]. by rewrite app_nil_r, Hh. }
  right. apply Forall_app in Hrs as [_ [[[[Hl _] _] Hnf] _]%Forall_cons]. rewrite body_app. unfold body at 2 4 6. cbn [fmap list_fmap concat]. rewrite app_nil_r.
  unfold encode_rrec. set (pre := (hdr ++ body rs) ++ rr_hash r ++ [rr_flags r] ++ to_le 4 (zlen (rr_payload r))).
  replace (hdr ++ body rs ++ rr_hash r ++ [rr_flags r] ++ to_le 4 (zlen (rr_payload r)) ++ rr_payload r) with (pre ++ rr_payload r) by (unfold pre; by rewrite <-!app_assoc).
  rewrite zlen_app, Hl. unfold PAGE_SIZE. pose proof (zlen_nonneg pre).
  rewrite sub_app_r by lia. intros Heq. apply Hnf. rewrite <-Heq. f_equal; lia.
Qed.

Lemma no_good_nil : no_good_prefix [].
Proof.
  intros r rest Hg Heq. pose proof (good_shape r Hg) as [Hh _]. apply (f_equal zlen) in Heq. unfold encode_rrec in Heq. rewrite !zlen_app, Hh in Heq.
  change (zlen (@nil Init.Byte.byte)) with 0 in Heq. pose proof (zlen_nonneg rest). pose proof (zlen_nonneg (rr_payload r)).
  pose proof (zlen_nonneg [rr_flags r]). pose proof (zlen_nonneg (to_le 4 (zlen (rr_payload r)))). lia.
Qed.

Lemma fs_wf_crash packs ps s : store_inv packs ps s → tidy packs ps s → fs_wf (crash s).
Proof.
  intros Hi Ht. pose proof (si_wf _ _ _ Hi) as [Hn Hinj Hx]. pose proof (λ p i Hp, lookup_weaken _ _ p i Hp (td_ddir _ _ _ Ht)) as Hsub. split; cbn.
  - intros p i Hp%Hsub%Hn. rewrite lookup_fmap. by apply fmap_is_Some.
  - intros p q i Hp%Hsub Hq%Hsub. by eapply Hinj.
  - intros i Hf. rewrite lookup_fmap in Hf. by apply fmap_is_Some, Hx in Hf.
Qed.

Record view (A : PageHash → Prop) s : Prop := {
  vw_images : ∃ D, disk_ok D (crash s) ∧ (∀ id hdr rs tail, D !! id = Some (IOpen hdr rs tail) → tail = []) ∧ (∀ id, is_Some (D !! id) → id + 1 < 2 ^ 32) ∧
    ∀ h, A h → ∃ id im hdr rs, D !! id = Some im ∧ recs im = Some (hdr, rs) ∧ h ∈ rr_hash <$> rs;
}.

Lemma view_frame A s s' : view A s → same_view s s' → fs_wf (crash s') → view A s'.
Proof.
  intros [(D & [Hwf Hn Hf Hsd] & Ht & Hid & HA)] [Hdd Hdu] Hwf'. split. exists D. split; [|done].
  assert (∀ p, named (crash s') p = named (crash s) p) as Hnm.
  { intros p. unfold named. cbn [crash fs_dir]. rewrite Hdd. destruct (fs_ddir s !! p) as [i|] eqn:Hp; [|done]. cbn. f_equal. rewrite !content_crash. by eapply Hdu. }
  split; cbn [crash fs_dir] in *; rewrite ?Hdd; [done|done| |].
  - intros id im HD. destruct (Hf id im HD) as (Hu & i & Hi & Hc). split; [done|]. exists i. split; [done|]. rewrite content_crash in *. by rewrite (Hdu _ _ Hi).
  - intros id hdr rs data es HD. rewrite Hnm. intros. by eapply Hsd.
Qed.

(** The images of the packs of a store with nothing left to sync. *)
Definition pack_image ps s (id : PackId) (p : bytes * list rrec) : option image :=
  Some (if decide (id = a_pack_id (ps_active ps)) then
    if decide (p.2 = [] ∧ durable s (h_ino (w_file (a_writer (ps_active ps)))) = []) then IShort else IOpen p.1 p.2 []
  else ISealed p.1 p.2).

Lemma pack_image_ok packs ps s id hdr rs im : fine packs ps s → a_dirty (ps_active ps) = ∅ → packs !! id = Some (hdr, rs) → pack_image ps s id (hdr, rs) = Some im →
  ∃ i, fs_dir s !! pack_path id = Some i ∧ image_of im (durable s i).
Proof.
  intros ([Hi (Hd1 & _)] & Ht & Hs) Hdi Hp Him. unfold pack_image in Him. apply (inj Some) in Him as <-. cbn [fst snd].
  destruct (recs_fit packs ps s id hdr rs Ht Hi Hp) as [Hpl Hft]. pose proof (proj1 (td_recs _ _ _ Ht _ _ _ Hp)) as Hnf.
  destruct (store_inv_named _ _ _ id Hi (mk_is_Some _ _ Hp)) as [i Hdir]. exists i. split; [done|].
  assert (rs ≠ [] → durable s i = content s i ∧ (id = a_pack_id (ps_active ps) → w_buf (a_writer (ps_active ps)) = [])) as Hdu.
  { intros Hne. destruct (Hd1 id hdr rs Hp ltac:(set_solver) Hne) as (j & Hj & ? & ?). rewrite Hdir in Hj. by apply (inj Some) in Hj as <-. }
  destruct (decide (id = a_pack_id (ps_active ps))) as [->|Hne].
  - destruct (si_active _ _ _ Hi) as (hdr' & rs' & Hp' & Hw & Hd'). rewrite Hp in Hp'. apply (inj Some), pair_eq in Hp' as [<- <-].
    rewrite Hdir in Hd'. apply (inj Some) in Hd'. subst i. destruct (decide (rs = [] ∧ _)) as [[_ ->]|Hno]; [done|].
    set (i := h_ino _) in *. assert (durable s i = hdr ++ body rs) as ->.
    { destruct rs as [|r rs]; [|destruct Hdu as [-> Hb]; [done|]; rewrite <-(wo_data _ _ _ _ Hw), Hb, app_nil_r by done; done].
      destruct (td_empty _ _ _ Ht _ _ _ Hp Hdir) as [_ [Hx|Hx]]; [by destruct Hno|]. rewrite Hx. symmetry. apply app_nil_r. }
    split; [apply Hw|]. split_and!; [done|done|apply no_good_nil|by rewrite app_nil_r|]. apply unsealed_body; [apply Hw|done].
  - destruct (si_sealed _ _ _ Hi _ _ _ Hne Hp) as (Hh & j & Hj & Hc). rewrite Hdir in Hj. apply (inj Some) in Hj as <-.
    assert (rs ≠ []) as Hrs. { intros ->. by destruct (td_empty _ _ _ Ht _ _ _ Hp Hdir) as [? _]. }
    split; [done|]. split; [done|]. split; [done|]. by rewrite (proj1 (Hdu Hrs)).
Qed.

Lemma view_synced packs ps s : fine packs ps s → a_dirty (ps_active ps) = ∅ → a_new_files (ps_active ps) = false → has_room ps 1 →
  view (λ h, is_Some (flat (ps_index ps) !! h)) s.
Proof.
  intros Hf Hdi Hnf [_ Hroom]. pose proof Hf as ([Hi (_ & Hd2 & _)] & Ht & _). set (D := map_imap (pack_image ps s) packs).
  assert (∀ id im, D !! id = Some im ↔ ∃ p, packs !! id = Some p ∧ pack_image ps s id p = Some im) as HD.
  { intros id im. unfold D. rewrite map_lookup_imap. destruct (packs !! id) as [p|]; cbn; naive_solver. }
  assert (∀ id, is_Some (D !! id) → is_Some (packs !! id)) as HDp by (intros id [im (p & ? & _)%HD]; by eexists).
  split. exists D. split_and!.
  - split; cbn [crash fs_dir].
    + by eapply fs_wf_crash.
    + intros name id [i Hn] Hp. pose proof (lookup_weaken _ _ _ _ Hn (td_ddir _ _ _ Ht)) as Hn'.
      destruct (td_names _ _ _ Ht name id (mk_is_Some _ _ Hn') Hp) as [-> [p Hp']]. split; [done|]. eexists. apply HD. by exists p.
    + intros id im ([hdr rs] & Hp & Him)%HD. split; [by eapply si_u32; [|eexists]|]. destruct (pack_image_ok packs ps s id hdr rs im Hf Hdi Hp Him) as (i & Hdir & Hio).
      exists i. rewrite (Hd2 Hnf id ltac:(by eexists)), content_crash. done.
    + intros id hdr rs data es ([hdr' rs'] & Hp & Him)%HD Hnm. unfold pack_image in Him. cbn [fst snd] in Him. repeat case_decide; simplify_eq.
      unfold named in Hnm. cbn [crash fs_dir] in Hnm. destruct (fs_ddir s !! sidecar_path id) as [i|] eqn:Hsi; [|done]. cbn in Hnm. simplify_eq. rewrite content_crash.
      pose proof (lookup_weaken _ _ _ _ Hsi (td_ddir _ _ _ Ht)) as Hsi'.
      destruct (td_side _ _ _ Ht id i (si_u32 _ _ _ _ Hi (mk_is_Some _ _ Hp)) Hsi') as (h1 & r1 & Hp1 & _ & Hh). rewrite Hp in Hp1. simplify_eq. apply Hh.
  - intros id hdr rs tail (p & _ & Him)%HD. unfold pack_image in Him. repeat case_decide; by simplify_eq.
  - intros id Hid%HDp. pose proof (si_ids _ _ _ Hi id Hid). lia.
  - intros h [l Hl]. destruct (si_loc _ _ _ Hi h l Hl) as (hdr & rs & Hp & Hin).
    assert (h ∈ rr_hash <$> rs) as Hh. { change h with ((offset l, h).2). rewrite <-(locs_hashes PACK_HEADER_SIZE). by apply list_elem_of_fmap_2. }
    exists (pack l). eexists _, hdr, rs. split; [apply HD; exists (hdr, rs); split; [done|reflexivity]|]. split; [|done]. cbn [fst snd].
    destruct rs as [|r rs]; [by apply elem_of_nil in Hh|]. repeat case_decide; naive_solver.
Qed.

(** ** Histories *)

Inductive call := CIngest (pages : list bytes) | CSync.

Definition exec (iter : list (PageHash * nat) → list (PageHash * nat)) (iter' : gset PackId → list PackId) (c : call) : P unit :=
  match c with
  | CIngest pages => let! _ := ingest unix_now iter pages in iret tt
  | CSync => sync iter'
  end.
Definition life iter iter' (cs : list call) : P unit := ifor cs (exec iter iter').

(** The pages whose ingest is followed by a [sync]. *)
Fixpoint acked (pending : list bytes) (cs : list call) : list bytes :=
  match cs with
  | [] => []
  | CIngest pages :: cs => acked (pending ++ pages) cs
  | CSync :: cs => pending ++ acked [] cs
  end.

Definition pages_of (c : call) : list bytes := match c with CIngest pages => pages | CSync => [] end.
Definition total (cs : list call) : nat := length (cs ≫= pages_of).

Lemma view_weaken (A B : PageHash → Prop) s : (∀ h, B h → A h) → view A s → view B s.
Proof. intros HAB [(D & ? & ? & ? & HA)]. split. exists D. split_and!; [done..|]. intros h Hh. by apply HA, HAB. Qed.

Lemma life_ok iter iter' cs : (∀ l, iter l ≡ₚ l) → (∀ X, iter' X ≡ₚ elements X) → ∀ A pending packs ps s ps' s',
  fine packs ps s → view A s → (∀ h, A h ∨ h ∈ blake3 <$> pending → is_Some (flat (ps_index ps) !! h)) →
  has_room ps (total cs + 1) → Forall sound_page (cs ≫= pages_of) → life iter iter' cs (ps, s) = (Ok tt, (ps', s')) →
  view (λ h, A h ∨ h ∈ blake3 <$> acked pending cs) s'.
Proof.
  intros Hiter Hiter'. induction cs as [|c cs IH]; intros A pending packs ps s ps' s' Hf Hv HA Hroom Hpg Hr.
  { cbn in Hr. apply pair_eq in Hr as [_ [<- <-]%pair_eq]. eapply view_weaken; [|exact Hv]. intros h [?|?%elem_of_nil]; done. }
  unfold life in Hr. cbn [ifor] in Hr. apply ibind_Ok in Hr as ([] & [ps1 s1] & H1 & H2). cbn [mbind list_bind] in Hpg. apply Forall_app in Hpg as [Hpg Hpgs].
  unfold total in Hroom. cbn [mbind list_bind] in Hroom. rewrite length_app in Hroom. destruct c as [pages|]; cbn [exec pages_of acked] in *.
  - apply ibind_Ok in H1 as (out & w1 & H1 & Hw). apply pair_eq in Hw as [_ ->].
    destruct (ingest_tidy iter packs ps s pages out ps1 s1 (total cs + 1) Hiter Hf) as (packs1 & Hf1 & Hv1 & Hroom1); [by rewrite Nat.add_assoc|done|done|].
    destruct (ingest_Ok unix_now iter packs ps s pages out ps1 s1 Hiter (proj1 Hf)) as [Hig _]; [|eapply has_room_le; [|exact Hroom]; lia|exact H1|].
    { eapply Forall_impl; [exact Hpg|]. by intros p [? _]. }
    eapply (IH A (pending ++ pages) packs1 ps1 s1); [done| | |done|done|exact H2].
    + eapply view_frame; [exact Hv|exact Hv1|]. eapply fs_wf_crash; [apply Hf1|apply Hf1].
    + intros h Hh. apply elem_of_dom. rewrite (ig_dom _ _ _ _ Hig), elem_of_union, elem_of_dom, elem_of_list_to_set.
      rewrite fmap_app, elem_of_app in Hh. destruct Hh as [?|[?|?]]; [left; apply HA; by left|left; apply HA; by right|by right].
  - destruct (sync_tidy iter' packs ps s ps1 s1 Hiter' Hf H1) as (Hf1 & Hx & Hdi & Hnf & Hrm & _).
    pose proof (Hrm _ Hroom) as Hroom1. cbn [length Nat.add] in Hroom1.
    eapply view_weaken; [|eapply (IH (λ h, is_Some (flat (ps_index ps1) !! h)) [] packs ps1 s1); [done| | |exact Hroom1|done|exact H2]].
    + cbn beta. rewrite Hx. intros h. rewrite fmap_app, elem_of_app. intros [?|[?|?]]; [left; apply HA; by left|left; apply HA; by right|by right].
    + eapply view_synced; [done..|]. eapply has_room_le; [|exact Hroom1]. lia.
    + intros h [?|?%elem_of_nil]; done.
Qed.

Lemma fresh_fine opts ps s : wide (max_pack_bytes opts) → open_store unix_now opts empty_fs = (Ok ps, s) →
  fine {[0 := (pack_header 0 unix_now, [])]} ps s ∧ view (λ _, False) s ∧ ps_opts ps = opts ∧ a_next (ps_active ps) = 1.
Proof.
  intros Hwide Ho. destruct (open_fresh unix_now opts) as (ps' & s' & Hr & Hs & Hok & Hopt & Hn & Hx). rewrite Ho in Hr. apply pair_eq in Hr as [Heq <-].
  assert (ps = ps') as <- by (by injection Heq). clear Heq.
  destruct (create_ok (pack_path 0) 0 unix_now (max_pack_bytes opts) empty_fs eq_refl eq_refl) as (w & Hc & _ & Hmax & _ & _ & _).
  unfold open_store in Ho. do 3 (erewrite ibind_step in Ho by reflexivity). erewrite ibind_step in Ho by reflexivity. cbv beta iota zeta in Ho.
  erewrite ibind_step in Ho by reflexivity. cbv beta iota zeta in Ho. erewrite ibind_step in Ho by reflexivity.
  erewrite ibind_step in Ho by (cbn [last]; erewrite ibind_step by (apply imap_step; exact Hc); reflexivity). cbv beta iota zeta in Ho.
  apply pair_eq in Ho as [Hps <-].
  assert (ps = mk_store index_new (mk_active w 0 ∅ true 1) opts (cache_new (read_handle_cap opts))) as Heq by (by injection Hps). clear Hps.
  set (s := set_content _ _ _) in *.
  assert (∀ name i, fs_dir s !! name = Some i → name = pack_path 0) as Hdir by (intros name i; unfold s; cbn; intros [[<- _]|[_ ?]]%lookup_insert_Some; done).
  assert (∀ id hdr rs, ({[0 := (pack_header 0 unix_now, [])]} : packs_t) !! id = Some (hdr, rs) → id = 0 ∧ hdr = pack_header 0 unix_now ∧ rs = []) as Hpk.
  { intros id hdr rs [<- [<- <-]%pair_eq]%lookup_singleton_Some. done. }
  assert (tidy {[0 := (pack_header 0 unix_now, [])]} ps s) as Ht.
  { split; rewrite ?Heq; cbn [ps_active ps_opts ps_index a_pack_id a_writer].
    - intros name id [i ->%Hdir] Hp. rewrite parse_pack_path in Hp by done. apply (inj Some) in Hp as <-. split; [done|]. by rewrite lookup_singleton_eq.
    - apply map_empty_subseteq.
    - intros id i Hu Hd%Hdir. by destruct (pack_path_ne_sidecar 0 id ltac:(done)).
    - intros id. destruct (fs_dir s !! _) as [i|] eqn:Hd; [|done]. apply Hdir in Hd. by destruct (pack_path_ne_sidecar 0 id ltac:(done)).
    - intros id hdr rs (-> & -> & ->)%Hpk. split; [done|]. cbn [body fmap list_fmap concat]. by rewrite app_nil_r, (proj1 (header_ok_pack _ _)).
    - intros id hdr rs o h (-> & -> & ->)%Hpk ?%elem_of_nil. done.
    - intros id hdr i (-> & -> & _)%Hpk Hd. split; [done|]. left. unfold s. rewrite durable_set_content.
      cbn in Hd. rewrite lookup_insert_eq in Hd. apply (inj Some) in Hd as <-. reflexivity.
    - by rewrite Hmax. }
  split; [done|]. split; [|done]. split. exists ∅. split; [|split_and!; [by intros * ?|by intros id [? ?]|done]].
  split; [by eapply fs_wf_crash; [apply Hok|]|by intros name id [? ?]|by intros id im ?|by intros id hdr rs data es ?].
Qed.

(** Without faults every history runs. *)
Lemma life_runs iter iter' cs : (∀ l, iter l ≡ₚ l) → (∀ X, iter' X ≡ₚ elements X) → ∀ packs ps s,
  fine packs ps s → has_room ps (total cs) → Forall sound_page (cs ≫= pages_of) → ∃ w, life iter iter' cs (ps, s) = (Ok tt, w).
Proof.
  intros Hiter Hiter'. induction cs as [|c cs IH]; intros packs ps s Hf Hroom Hpg; [by eexists|].
  cbn [mbind list_bind] in Hpg. apply Forall_app in Hpg as [Hpg Hpgs]. unfold life, total in *. cbn [ifor mbind list_bind] in *.
  rewrite length_app in Hroom. destruct c as [pages|]; cbn [exec pages_of] in *.
  - destruct (ingest_ok unix_now iter packs ps s pages Hiter) as (out & _ & ps1 & s1 & H1 & _); [apply Hf..| |eapply has_room_le; [|exact Hroom]; lia|].
    { eapply Forall_impl; [exact Hpg|]. by intros p [? _]. }
    destruct (ingest_tidy iter packs ps s pages out ps1 s1 _ Hiter Hf Hroom Hpg H1) as (packs1 & Hf1 & _ & Hr1).
    destruct (IH packs1 ps1 s1 Hf1 Hr1 Hpgs) as [w Hw]. exists w. erewrite ibind_step; [exact Hw|]. by erewrite ibind_step by exact H1.
  - destruct (sync_ok iter' packs ps s Hiter') as (ps1 & s1 & H1 & _); [apply Hf..|].
    destruct (sync_tidy iter' packs ps s ps1 s1 Hiter' Hf H1) as (Hf1 & _ & _ & _ & Hr1 & _).
    destruct (IH packs ps1 s1 Hf1 (Hr1 _ Hroom) Hpgs) as [w Hw]. exists w. by erewrite ibind_step by exact H1.
Qed.


End history.

(** ** Witness *)

#[local] Existing Instances toy_blake3 toy_crc32.
#[local] Opaque ex_page blake3.

(** One acknowledged page, then one that is not. *)
Definition ex_calls : list call := [CIngest [ex_page]; CSync; CIngest [ex_page; ex_page]].

Lemma ex_page_sound : sound_page ex_page.
Proof. split; [exact zlen_ex_page|]. vm_compute. done. Qed.

