(* ===== verification/SnapStore.v ===== *)
(** * The snapshot store (crates/snapstore-store/src/lib.rs)

    Manifests as content-addressed files over the page store.  A method
    runs on the store's state, the page directory's file system and the
    manifest tree.  Every method runs under the commit gate (or, for the
    collector, under the sweep gate), so each is one atomic step against
    the other side of the gate.  A [barrier] that nobody else is waiting
    for is one [sync] (GroupCommit.v treats the shared case).  Failpoints
    and test counters are left out. *)

From S2P Require Import Prelude Types Manifest Fs Pack Index Names ReadCache PageStore.

Inductive PutError :=
  | PutManifest (e : ManifestError)
  | UnknownParent (r : SnapshotRef)
  | ParentRamMismatch
  | MissingPages (hs : list PageHash)
  | PutIo (e : io_error)
  | PutPageStore (e : StoreError).

(** [StoreError] of this crate. *)
Inductive SnapError :=
  | EIo (e : io_error)
  | EPageStore (e : StoreError)
  | EManifest (e : ManifestError)
  | ESnapNotFound
  | ManifestCorrupt
  | MissingPage (h : PageHash)
  | ChainDepthExceeded
  | BaselineNotAncestor
  | EFlatten (e : FlattenError).

(** ** The manifest tree: [manifests/<shard>/<hex>.spm] and [tmp/] *)

(** A directory tree of depth two: files by full path, the existing shard
    directories and those whose own entry is durable. *)
Record tree := mk_tree { t_fs : fs; t_dirs : gset string; t_ddirs : gset string }.

Definition set_t_fs (s : fs) (t : tree) : tree := mk_tree s (t_dirs t) (t_ddirs t).
Definition in_fs {A} (c : io A) : M tree io_error A := zoom t_fs set_t_fs c.

Definition byte_hex (b : Init.Byte.byte) : string := hex_string 2 (byte.unsigned b).
Definition ref_to_hex (r : SnapshotRef) : string := foldr (λ b s, byte_hex b +:+ s) "" r.

Definition shard_dir (r : SnapshotRef) : string :=
  "manifests/" +:+ String.substring 0 2 (ref_to_hex r).
Definition spm_path (r : SnapshotRef) : string := shard_dir r +:+ "/" +:+ ref_to_hex r +:+ ".spm".
Definition tmp_path (r : SnapshotRef) : string := "tmp/" +:+ ref_to_hex r +:+ ".spm.tmp".

(** [hex_nibble] is [hex_val] of Names. *)
Fixpoint hex_pairs (s : string) : option bytes :=
  match s with
  | EmptyString => Some []
  | String a (String b rest) =>
      hi ← hex_val a; lo ← hex_val b; tl ← hex_pairs rest; Some (byte.of_Z (hi * 16 + lo) :: tl)
  | String _ EmptyString => None
  end.
Definition hex_to_32 (hex : string) : option bytes :=
  if (String.length hex =? 64)%nat then hex_pairs hex else None.

(** [Path::exists]: false also when the file cannot be examined. *)
Definition path_exists {E} (p : string) : M tree E bool := λ t,
  let '(r, s) := path_len p (t_fs t) in
  (Ok (match r with Ok _ => true | _ => false end), set_t_fs s t).

Definition create_dir_all (d : string) : M tree io_error unit :=
  in_fs (syscall (iret tt)) ;! imod (λ t, mk_tree (t_fs t) ({[d]} ∪ t_dirs t) (t_ddirs t)).

Definition in_dir (d p : string) : bool := String.prefix (d +:+ "/") p.

(** The durable names after [fsync] of directory [d]. *)
Definition sync_names (d : string) (s : fs) : gmap string ino :=
  filter (λ e, in_dir d e.1 = true) (fs_dir s) ∪ filter (λ e, in_dir d e.1 = false) (fs_ddir s).

(** [File::open(dir)?.sync_all()?] for one directory. *)
Definition sync_shard (d : string) : M tree io_error unit :=
  in_fs (syscall (iret tt) ;! syscall (λ s, (Ok tt, set_ddir (sync_names d s) s))).

(** ** State *)

Record FlattenCache := mk_fcache { fc_cap : nat; fc_entries : list (SnapshotRef * list ManifestEntry) }.

Definition fc_new (cap : nat) : FlattenCache := mk_fcache cap [].
Fixpoint assoc (r : SnapshotRef) (l : list (SnapshotRef * list ManifestEntry)) : option (list ManifestEntry) :=
  match l with
  | [] => None
  | (k, v) :: rest => if bool_decide (k = r) then Some v else assoc r rest
  end.
(** [position] and [remove]: drop the first entry for [r]. *)
Fixpoint remove_first (r : SnapshotRef) (l : list (SnapshotRef * list ManifestEntry)) :=
  match l with
  | [] => []
  | (k, v) :: rest => if bool_decide (k = r) then rest else (k, v) :: remove_first r rest
  end.
Definition fc_get (c : FlattenCache) (r : SnapshotRef) : option (list ManifestEntry) := assoc r (fc_entries c).
Definition fc_insert (c : FlattenCache) (r : SnapshotRef) (v : list ManifestEntry) : FlattenCache :=
  let entries := (r, v) :: remove_first r (fc_entries c) in
  mk_fcache (fc_cap c)
    (if (fc_cap c <? length entries)%nat then take (length entries - 1) entries else entries).
Definition fc_remove (c : FlattenCache) (r : SnapshotRef) : FlattenCache :=
  mk_fcache (fc_cap c) (remove_first r (fc_entries c)).

Record SnapshotStore := mk_snap {
  ss_pages : PageStore;
  ss_epoch : option (list SnapshotRef);   (* [late_roots] while a GC epoch is active *)
  ss_cache : FlattenCache;
  ss_total : Z;                           (* [manifests_total: AtomicU64] *)
  ss_logical : Z;                         (* [logical_page_bytes: AtomicU64] *)
}.

Abbreviation disk := (fs * tree)%type.
Abbreviation SM E A := (M (SnapshotStore * disk) E A).

Definition set_pages p st := mk_snap p (ss_epoch st) (ss_cache st) (ss_total st) (ss_logical st).
Definition set_epoch e st := mk_snap (ss_pages st) e (ss_cache st) (ss_total st) (ss_logical st).
Definition set_fcache c st := mk_snap (ss_pages st) (ss_epoch st) c (ss_total st) (ss_logical st).
Definition set_counters n b st := mk_snap (ss_pages st) (ss_epoch st) (ss_cache st) n b.

Definition on_pages {E A} (f : StoreError → E) (c : P A) : SM E A :=
  imap_err f (zoom (λ w, (ss_pages w.1, w.2.1)) (λ v w, (set_pages v.1 w.1, (v.2, w.2.2))) c).
Definition on_tree {E F A} (f : E → F) (c : M tree E A) : SM F A :=
  imap_err f (zoom (λ w, w.2.2) (λ t w, (w.1, (w.2.1, t))) c).
Definition on_state {E A} (f : SnapshotStore → A * SnapshotStore) : SM E A := λ w,
  let '(a, st) := f w.1 in (Ok a, (st, w.2)).

Definition MAX_CHAIN : nat := 4096.

(** One streamed page: index, hash and payload. *)
Abbreviation ResolvedPage := (Z * PageHash * option bytes)%type.

Section snap.
Context `{Blake3, Zstd, Crc32}.

(** ** Reading manifests *)

Definition read_manifest_bytes (r : SnapshotRef) : M tree SnapError bytes :=
  let! found := path_exists (spm_path r) in
  fail_if negb found with ESnapNotFound in
  let! buf := imap_err EIo (in_fs (read_file (spm_path r))) in
  fail_if zlen buf <? 32 with ManifestCorrupt in
  let footer := sub (zlen buf - 32) (zlen buf) buf in
  fail_if negb (bool_decide (footer = r)) with ManifestCorrupt in
  fail_if negb (bool_decide (snapshot_ref buf = r)) with ManifestCorrupt in
  iret buf.

Definition get_snapshot (r : SnapshotRef) : SM SnapError bytes := on_tree id (read_manifest_bytes r).

Definition has_manifest {E} (r : SnapshotRef) : SM E bool := on_tree id (path_exists (spm_path r)).

Definition has_pages (hs : list PageHash) : SM SnapError (list bool) := on_pages EPageStore (contains_batch hs).

(** ** GC epoch and live references *)

(** [validate_closure]: the fuel is [MAX_CHAIN - depth]. *)
Fixpoint validate_loop (fuel : nat) (cursor : SnapshotRef) : SM SnapError unit :=
  match fuel with
  | O => ierr ChainDepthExceeded
  | S fuel' =>
      let! buf := on_tree id (read_manifest_bytes cursor) in
      let! m := imap_err EManifest (iof (decode buf)) in
      let hashes := page_hash <$> entries m in
      let! present := on_pages EPageStore (contains_batch hashes) in
      match list_find (λ ok, ok = false) present with
      | Some (pos, _) => let! h := iof (expect (hashes !! pos)) in ierr (MissingPage h)
      | None =>
          if delta m then let! p := iof (expect (parent m)) in validate_loop fuel' p
          else iret tt
      end
  end.
Definition validate_closure (r : SnapshotRef) : SM SnapError unit := validate_loop MAX_CHAIN r.

(** Append to [late_roots] if an epoch is active. *)
Definition push_late_root (r : SnapshotRef) (st : SnapshotStore) : bool * SnapshotStore :=
  match ss_epoch st with
  | Some late => (true, set_epoch (Some (late ++ [r])) st)
  | None => (false, st)
  end.

Definition register_live_ref (r : SnapshotRef) : SM SnapError unit :=
  let! epoch_active := on_state (push_late_root r) in
  if (epoch_active : bool) then validate_closure r
  else
    let! found := has_manifest r in
    if (found : bool) then iret tt else ierr ESnapNotFound.

Definition end_gc_epoch {E} : SM E unit := on_state (λ st, (tt, set_epoch None st)).

Inductive GcEpochError (E : Type) := AlreadyRunning | Roots (e : E).
#[global] Arguments AlreadyRunning {E}.
#[global] Arguments Roots {E} e.

(** [snapshot_roots] is the caller's closure; it runs under the write
    side of the gate. *)
Definition begin_gc_epoch {R E} (snapshot_roots : SM E R) : SM (GcEpochError E) (PackId * R) :=
  let! fence_pack := on_state (λ st, (a_pack_id (ps_active (ss_pages st)), st)) in
  let! running := on_state (λ st, match ss_epoch st with
                                  | Some _ => (true, st)
                                  | None => (false, set_epoch (Some []) st)
                                  end) in
  fail_if running with AlreadyRunning in
  λ w, match snapshot_roots w with
       | (Ok roots, w') => (Ok (fence_pack, roots), w')
       | (Err e, w') => (end_gc_epoch ;! ierr (Roots e)) w'
       | (Panic, w') => (Panic, w')
       end.

Definition drain_late_roots {E} : SM E (list SnapshotRef) :=
  on_state (λ st, match ss_epoch st with
                  | Some late => (late, set_epoch (Some []) st)
                  | None => ([], st)
                  end).

(** ** put_snapshot *)

Definition other_io {E} (_ : E) : PutError := PutIo EOther.

(** Step 2: the parent of a delta. *)
Definition check_parent (m : Manifest) : SM PutError unit :=
  if delta m then
    let! parent_ref := iof (expect (parent m)) in
    let! parent_manifest := on_tree (λ e, match e with
        | ESnapNotFound => UnknownParent parent_ref
        | e => other_io e end) (read_manifest_bytes parent_ref) in
    let! parent_m := imap_err PutManifest (iof (decode parent_manifest)) in
    fail_if negb (guest_ram_bytes parent_m =? guest_ram_bytes m) with ParentRamMismatch in
    iret tt
  else iret tt.

(** Step 3: every page the manifest names. *)
Definition missing_of (hashes : list PageHash) (present : list bool) : list PageHash :=
  (filter (λ e : PageHash * bool, e.2 = false) (zip hashes present)).*1.

Definition check_pages (m : Manifest) : SM PutError unit :=
  let hashes := page_hash <$> entries m in
  let! present := on_pages PutPageStore (contains_batch hashes) in
  let missing := missing_of hashes present in
  fail_if negb (bool_decide (missing = [])) with MissingPages missing in
  iret tt.

Definition register_put (r : SnapshotRef) : SM PutError unit :=
  imap_err (λ e, match e with
    | MissingPage h => MissingPages [h]
    | ESnapNotFound => UnknownParent r
    | e => other_io e end) (register_live_ref r).

(** Step 6: stage, fsync, rename, fsync the shard directory. *)
Definition publish (r : SnapshotRef) (container : bytes) : M tree io_error unit :=
  create_dir_all (shard_dir r) ;!
  let! tmp := in_fs (open_truncate (tmp_path r)) in
  in_fs (write_all_ tmp container) ;!
  in_fs (sync_data tmp) ;!
  in_fs (rename (tmp_path r) (spm_path r)) ;!
  sync_shard (shard_dir r).

(** [fetch_add] on an [AtomicU64]. *)
Definition fetch_add64 (a b : Z) : Z := (a + b) mod 2 ^ 64.
Definition fetch_sub64 (a b : Z) : Z := (a - b) mod 2 ^ 64.

(** After the barrier: acknowledge a manifest that is already there, or
    publish it; then register it. *)
Definition finish_put (m : Manifest) (snap_ref : SnapshotRef) (container : bytes) : SM PutError SnapshotRef :=
  let! found := on_tree id (path_exists (spm_path snap_ref)) in
  if (found : bool) then register_put snap_ref ;! iret snap_ref
  else
    on_tree PutIo (publish snap_ref container) ;!
    on_state (λ st, (tt, set_counters (fetch_add64 (ss_total st) 1)
                                      (fetch_add64 (ss_logical st) (guest_ram_bytes m)) st)) ;!
    register_put snap_ref ;!
    iret snap_ref.

Definition put_snapshot (iter : gset PackId → list PackId) (container : bytes) : SM PutError SnapshotRef :=
  let! m := imap_err PutManifest (iof (decode container)) in
  check_parent m ;!
  check_pages m ;!
  on_pages PutPageStore (sync iter) ;!
  finish_put m (snapshot_ref container) container.

(** ** Resolving snapshots *)

(** The chain from [cursor] to its FULL root, child first; the fuel is
    [MAX_CHAIN - chain.len()]. *)
Fixpoint walk_chain (fuel : nat) (cursor : SnapshotRef) : M tree SnapError (list (SnapshotRef * Manifest)) :=
  match fuel with
  | O => ierr ChainDepthExceeded
  | S fuel' =>
      let! buf := read_manifest_bytes cursor in
      let! m := imap_err EManifest (iof (decode buf)) in
      if delta m then
        let! p := iof (expect (parent m)) in
        let! rest := walk_chain fuel' p in
        iret ((cursor, m) :: rest)
      else iret [(cursor, m)]
  end.

Definition flatten_chain (chain : list (SnapshotRef * Manifest)) (r : SnapshotRef)
    : SM SnapError (list ManifestEntry) :=
  let! cached := on_state (λ st, (fc_get (ss_cache st) r, st)) in
  match cached with
  | Some es => iret es
  | None =>
      let! es := imap_err EFlatten (iof (flatten chain.*2)) in
      on_state (λ st, (tt, set_fcache (fc_insert (ss_cache st) r es) st)) ;!
      iret es
  end.

Record ResolvedPages := mk_resolved {
  rp_entries : list ManifestEntry;
  rp_pos : nat;
  rp_hashes_only : bool;
  rp_chunk : list (res SnapError ResolvedPage);
}.

Definition resolve_pages (r : SnapshotRef) (baseline : option SnapshotRef) (hashes_only : bool)
    : SM SnapError ResolvedPages :=
  let! chain := on_tree id (walk_chain MAX_CHAIN r) in
  match baseline with
  | None =>
      let! es := flatten_chain chain r in
      iret (mk_resolved es 0 hashes_only [])
  | Some b =>
      match list_find (λ e : SnapshotRef * Manifest, e.1 = b) chain with
      | None => ierr BaselineNotAncestor
      | Some (b_pos, _) =>
          let delta_segment := (take b_pos chain).*2 in
          if bool_decide (delta_segment = []) then iret (mk_resolved [] 0 hashes_only [])
          else
            let! merged := imap_err EFlatten (iof (flatten_delta delta_segment)) in
            iret (mk_resolved merged 0 hashes_only [])
      end
  end.

Definition RESOLVE_CHUNK : nat := 512.

(** The items of one refill. *)
Definition chunk_items (es : list ManifestEntry) (results : list (option bytes))
    : list (res SnapError ResolvedPage) :=
  zip_with (λ e r, match r with
                   | Some b => Ok (page_index e, page_hash e, Some b)
                   | None => Err (MissingPage (page_hash e))
                   end) es results.

(** [Iterator::next]: the item, the iterator and the world after it. *)
Definition resolved_next (it : ResolvedPages) (w : SnapshotStore * disk)
    : option (res SnapError ResolvedPage) * ResolvedPages * (SnapshotStore * disk) :=
  if rp_hashes_only it then
    match rp_entries it !! rp_pos it with
    | None => (None, it, w)
    | Some e => (Some (Ok (page_index e, page_hash e, None)),
                 mk_resolved (rp_entries it) (S (rp_pos it)) true (rp_chunk it), w)
    end
  else
    match rp_chunk it with
    | item :: rest => (Some item, mk_resolved (rp_entries it) (rp_pos it) false rest, w)
    | [] =>
        if (length (rp_entries it) <=? rp_pos it)%nat then (None, it, w) else
        let slice := take RESOLVE_CHUNK (drop (rp_pos it) (rp_entries it)) in
        let '(r, w') := on_pages EPageStore (get_batch (page_hash <$> slice)) w in
        let chunk := match r with
                     | Ok results => chunk_items slice results
                     | Err e => [Err e]
                     | Panic => [Panic]
                     end in
        (head chunk,
         mk_resolved (rp_entries it) ((rp_pos it + RESOLVE_CHUNK) `min` length (rp_entries it)) false (tail chunk), w')
    end.

(** Drain the iterator: at most one item per entry, plus the end. *)
Fixpoint resolved_collect (fuel : nat) (it : ResolvedPages) (w : SnapshotStore * disk)
    : list (res SnapError ResolvedPage) * (SnapshotStore * disk) :=
  match fuel with
  | O => ([], w)
  | S fuel' =>
      match resolved_next it w with
      | (None, _, w') => ([], w')
      | (Some x, it', w') => let '(xs, w'') := resolved_collect fuel' it' w' in (x :: xs, w'')
      end
  end.

(** ** Deleting and listing *)

(** [read_guest_ram_bytes]: length and magic are all that is checked. *)
Definition read_guest_ram_bytes (p : string) : io Z :=
  let! file := open_existing p in
  let! ' (buf, _) := read_exact file 56 in
  fail_if negb (bool_decide (sub 0 8 buf = MAGIC)) with EOther in
  iret (from_le (sub 48 56 buf)).

Definition delete_manifest (r : SnapshotRef) : SM SnapError bool :=
  let! found := on_tree id (path_exists (spm_path r)) in
  if negb found then iret false else
  let! grb := on_tree EIo (in_fs (itry (read_guest_ram_bytes (spm_path r)))) in
  let grb := match grb with Ok n => n | _ => 0 end in
  on_tree EIo (in_fs (remove_file (spm_path r))) ;!
  on_tree EIo (sync_shard (shard_dir r)) ;!
  on_state (λ st, (tt, set_fcache (fc_remove (ss_cache st) r) st)) ;!
  on_state (λ st, (tt, set_counters (fetch_sub64 (ss_total st) 1)
                                    (saturating_sub (ss_logical st) grb) st)) ;!
  iret true.

(** The file names of one shard directory. *)
Definition read_shard (d : string) : M tree io_error (list string) :=
  in_fs (syscall (λ s, (Ok (omap (strip_prefix (d +:+ "/")) (map_to_list (fs_dir s)).*1), s))).

Definition ref_of_name (name : string) : option SnapshotRef :=
  hex ← strip_suffix ".spm" name; hex_to_32 hex.

Fixpoint list_shards (shards : list string) : M tree io_error (list SnapshotRef) :=
  match shards with
  | [] => iret []
  | d :: rest =>
      let! names := read_shard d in
      let! refs := list_shards rest in
      iret (omap ref_of_name names ++ refs)
  end.

Definition list_manifest_refs : SM SnapError (list SnapshotRef) :=
  on_tree EIo (let! shards := (λ t, in_fs (syscall (iret (elements (t_dirs t)))) t) in list_shards shards).

(** ** Opening *)

(** [clean_tmp_dir]: unlink what is in [tmp/], ignoring failures. *)
Definition clean_tmp_dir : M tree io_error unit :=
  let! names := in_fs (syscall (λ s, (Ok (filter (λ p, in_dir "tmp" p = true) (map_to_list (fs_dir s)).*1), s))) in
  ifor names (λ p, let! _ := in_fs (itry (remove_file p)) in iret tt).

(** The counters over the [.spm] files of one shard; unreadable ones are
    skipped. *)
Fixpoint count_files (d : string) (names : list string) (acc : Z * Z) : M tree io_error (Z * Z) :=
  match names with
  | [] => iret acc
  | name :: rest =>
      match strip_suffix ".spm" name with (* [path.extension() == Some("spm")] *)
      | None | Some EmptyString => count_files d rest acc
      | Some _ =>
          let! grb := in_fs (itry (read_guest_ram_bytes (d +:+ "/" +:+ name))) in
          count_files d rest (match grb with
                              | Ok n => (acc.1 + 1, saturating_add acc.2 n)
                              | _ => acc end)
      end
  end.

Fixpoint count_shards (shards : list string) (acc : Z * Z) : M tree io_error (Z * Z) :=
  match shards with
  | [] => iret acc
  | d :: rest =>
      let! names := itry (read_shard d) in
      let! acc := match names with Ok names => count_files d names acc | _ => iret acc end in
      count_shards rest acc
  end.

Definition walk_manifest_counters : M tree io_error (Z * Z) := λ t,
  match in_fs (syscall (iret (elements (t_dirs t)))) t with
  | (Ok shards, t') => count_shards shards (0, 0) t'
  | (_, t') => (Ok (0, 0), t')
  end.

(** [open_with_options]; creating the three fixed directories is one call
    each. *)
Definition open_with_options (unix_now : Z) (opts : StoreOptions) (flatten_cache_entries : nat)
    : M disk SnapError SnapshotStore :=
  let on_t {A} (c : M tree io_error A) : M disk SnapError A :=
    imap_err EIo (zoom snd (λ t w, (w.1, t)) c) in
  on_t (in_fs (syscall (iret tt) ;! syscall (iret tt) ;! syscall (iret tt))) ;!
  on_t clean_tmp_dir ;!
  let! pages := imap_err EPageStore (zoom fst (λ s w, (s, w.2)) (open_store unix_now opts)) in
  let! ' (total, logical) := on_t walk_manifest_counters in
  iret (mk_snap pages None (fc_new flatten_cache_entries) total logical).

(** [open]: the default options, 1024 cached flatten results. *)
Definition snap_open (unix_now : Z) : M disk SnapError SnapshotStore := open_with_options unix_now default_options 1024.

Definition manifest_count_and_logical_bytes (st : SnapshotStore) : Z * Z := (ss_total st, ss_logical st).

(** ** Container builders *)

Definition hashed_entries (pages : list (Z * bytes)) : list ManifestEntry :=
  (λ e : Z * bytes, mk_entry e.1 (blake3 e.2)) <$> pages.

(** [expect]: a builder error is a panic. *)
Definition build_full_container (guest_ram_bytes : Z) (pages : list (Z * bytes)) (device_blob : DeviceBlob) : res Empty_set bytes :=
  match new_full guest_ram_bytes (hashed_entries pages) device_blob with Ok m => Ok (encode m) | _ => Panic end.

Definition build_delta_container (parent : SnapshotRef) (guest_ram_bytes : Z) (pages : list (Z * bytes))
    (device_blob : DeviceBlob) : res Empty_set bytes :=
  match new_delta parent guest_ram_bytes (hashed_entries pages) device_blob with Ok m => Ok (encode m) | _ => Panic end.

End snap.
