(* ===== verification/StoreGc.v ===== *)
(** * Garbage collection of the snapshot store

    Model of [crates/snapstore-store/src/gc.rs]: the mark walk, the sweep
    and compaction of packs, the manifest sweep, with the instrumentation
    callbacks at which other threads act on the store. *)

From Stdlib Require Import Floats.SpecFloat.
From S2P Require Import Prelude Types Manifest Fs Pack Index Names ReadCache PageStore SnapStore.

Definition RECORD_BYTES : Z := 37 + 4096.

(** ** Hooks *)

Inductive GcPoint :=
  | BeforeMark
  | BeforePackSweep (p : PackId)
  | AfterCopy (p : PackId)
  | BeforeFinalize (p : PackId)
  | AfterRepoint (p : PackId)
  | AfterUnlink (p : PackId)
  | BeforeManifestSweep.

Inductive Sabotage := DropPinsFromRoots | SkipLateRootsDrain | UnlinkBeforeRepoint | SkipIndexRemoveOfDead.
#[global] Instance Sabotage_eq_dec : EqDecision Sabotage.
Proof. solve_decision. Defined.

(** The world a cycle runs in: the store, its disk, and the state [X] of
    the rest of the system, which only the callbacks touch. *)
Abbreviation world X := ((SnapshotStore * disk) * X)%type.
Abbreviation GM X E A := (M (world X) E A).

Record GcHooks (X : Type) := mk_hooks {
  hook_at : GcPoint → world X → world X;
  sabotage : option Sabotage;
}.
#[global] Arguments mk_hooks {X} _ _.
#[global] Arguments hook_at {X} _ _ _.
#[global] Arguments sabotage {X} _.

Definition hooks_none {X} : GcHooks X := mk_hooks (λ _ w, w) None.
Definition fire {X E} (hooks : GcHooks X) (p : GcPoint) : GM X E unit := imod (hook_at hooks p).
Definition hook_is {X} (hooks : GcHooks X) (s : Sabotage) : bool := bool_decide (sabotage hooks = Some s).

Definition in_store {X E A} (c : SM E A) : GM X E A := zoom fst (λ v w, (v, w.2)) c.

(** ** Live set and report *)

Record LiveSet := mk_live { lv_pages : gset PageHash; lv_manifests : gset SnapshotRef }.
Definition live_default : LiveSet := mk_live ∅ ∅.

Record SweepReport := mk_report {
  pages_reclaimed : Z; bytes_reclaimed : Z; packs_compacted : Z;
  packs_deleted : Z; manifests_deleted : Z; missing_root_manifests : Z;
}.
Definition report_default : SweepReport := mk_report 0 0 0 0 0 0.
Definition add_missing_root (r : SweepReport) : SweepReport :=
  mk_report (pages_reclaimed r) (bytes_reclaimed r) (packs_compacted r) (packs_deleted r) (manifests_deleted r)
    (missing_root_manifests r + 1).
Definition add_deleted_manifest (r : SweepReport) : SweepReport :=
  mk_report (pages_reclaimed r) (bytes_reclaimed r) (packs_compacted r) (packs_deleted r) (manifests_deleted r + 1)
    (missing_root_manifests r).
Definition add_swept (pages bytes compacted deleted : Z) (r : SweepReport) : SweepReport :=
  mk_report (pages_reclaimed r + pages) (bytes_reclaimed r + bytes) (packs_compacted r + compacted)
    (packs_deleted r + deleted) (manifests_deleted r) (missing_root_manifests r).

(** [a as f64 / b as f64 >= threshold], in IEEE binary64. *)
Definition liveness_reaches (live total : Z) (threshold : spec_float) : bool :=
  SFleb threshold (if total =? 0 then f64_of 0 else SFdiv 53 1024 (f64_of live) (f64_of total)).

Section gc.
Context `{Blake3, Zstd, Crc32} (unix_now : Z).

(** ** Mark *)

Definition live_manifest (r : SnapshotRef) (m : Manifest) (live : LiveSet) : LiveSet :=
  mk_live (list_to_set (page_hash <$> entries m) ∪ lv_pages live) ({[r]} ∪ lv_manifests live).

(** One root's walk; the fuel is [MAX_CHAIN - depth], [first] is
    [depth == 0]. *)
Fixpoint mark_chain (fuel : nat) (first : bool) (cursor : SnapshotRef) (live : LiveSet) (report : SweepReport)
    : SM SnapError (LiveSet * SweepReport) :=
  match fuel with
  | O => ierr ChainDepthExceeded
  | S fuel' =>
      if bool_decide (cursor ∈ lv_manifests live) then iret (live, report) else
      let! bytes := itry (on_tree id (read_manifest_bytes cursor)) in
      match bytes with
      | Ok bytes =>
          let! m := imap_err EManifest (iof (decode bytes)) in
          let live := live_manifest cursor m live in
          if delta m then let! p := iof (expect (parent m)) in mark_chain fuel' false p live report
          else iret (live, report)
      | Err ESnapNotFound =>
          if first then iret (live, add_missing_root report) else ierr ESnapNotFound
      | Err e => ierr e
      | Panic => ipanic
      end
  end.

Fixpoint gc_mark (roots : list SnapshotRef) (live : LiveSet) (report : SweepReport)
    : SM SnapError (LiveSet * SweepReport) :=
  match roots with
  | [] => iret (live, report)
  | root :: rest =>
      let! ' (live, report) := mark_chain MAX_CHAIN true root live report in
      gc_mark rest live report
  end.

(** ** Copy *)

Definition append_to (g : GcPackWriter) (h : PageHash) (payload : bytes) : P GcPackWriter := λ w,
  match gc_append h payload (g, w.2) with
  | (Ok _, (g', s')) => (Ok g', (w.1, s'))
  | (Err e, (_, s')) => (Err e, (w.1, s'))
  | (Panic, (_, s')) => (Panic, (w.1, s'))
  end.

Fixpoint copy_loop (records : list (PageHash * PageLoc)) (g : GcPackWriter) : SM SnapError GcPackWriter :=
  match records with
  | [] => iret g
  | (h, loc) :: rest =>
      let! payload := on_pages EPageStore (read_record (pack loc) (offset loc) h) in
      fail_if negb (zlen payload =? PAGE_SIZE) with MissingPage h in
      let! g := on_pages EPageStore (append_to g h payload) in
      copy_loop rest g
  end.

Definition gc_copy_records (records : list (PageHash * PageLoc)) : SM SnapError (list (PageHash * PageLoc)) :=
  let! w := on_pages EPageStore (create_gc_pack unix_now) in
  let! w := copy_loop records w in
  let! ' (new_pack, offsets) := on_pages EPageStore (on_fs (seal_and_publish w)) in
  iret ((λ e : PageHash * Z, (e.1, mk_loc new_pack e.2)) <$> offsets).

(** ** Finalize *)

Definition repoint_all (p : PackId) (copied : list (PageHash * PageLoc)) : SM SnapError unit :=
  ifor copied (λ e, let! _ := on_pages EPageStore (store_repoint_if_in_pack e.1 p e.2) in iret tt).

Definition remove_dead (p : PackId) (live : LiveSet) (dead : list (PageHash * PageLoc)) : SM SnapError unit :=
  ifor dead (λ e, if bool_decide (e.1 ∈ lv_pages live) then iret tt
                  else let! _ := on_pages EPageStore (store_remove_if_in_pack e.1 p) in iret tt).

Definition unlink_pack (p : PackId) : SM SnapError unit :=
  on_pages EPageStore (invalidate_pack_handle p) ;!
  on_pages EPageStore (delete_pack p).

(** The straggler loop, on fuel: [Panic] on none left.  One pass: drain
    under the gate; repoint and remove if nothing was drained, otherwise
    mark and copy. *)
Fixpoint straggler_loop {X} (fuel : nat) (hooks : GcHooks X) (p : PackId) (copied_all dead : list (PageHash * PageLoc))
    (live : LiveSet) (report : SweepReport) : GM X SnapError (LiveSet * SweepReport) :=
  match fuel with
  | O => ipanic
  | S fuel' =>
      let! stragglers := in_store (if hook_is hooks SkipLateRootsDrain then iret [] else drain_late_roots) in
      if bool_decide (stragglers = []) then
        (if hook_is hooks UnlinkBeforeRepoint then in_store (unlink_pack p) ;! fire hooks (AfterUnlink p) else iret tt) ;!
        in_store (repoint_all p copied_all) ;!
        (if hook_is hooks SkipIndexRemoveOfDead then iret tt else in_store (remove_dead p live dead)) ;!
        iret (live, report)
      else
        let! ' (live, report) := in_store (gc_mark stragglers live report) in
        let already : gset PageHash := list_to_set copied_all.*1 in
        let newly_live := filter (λ e : PageHash * PageLoc, e.1 ∈ lv_pages live ∧ e.1 ∉ already) dead in
        let! more := in_store (if bool_decide (newly_live = []) then iret [] else gc_copy_records newly_live) in
        straggler_loop fuel' hooks p (copied_all ++ more) dead live report
  end.

Definition finalize_and_unlink {X} (fuel : nat) (hooks : GcHooks X) (p : PackId) (copied dead : list (PageHash * PageLoc))
    (live : LiveSet) (report : SweepReport) : GM X SnapError (LiveSet * SweepReport) :=
  fire hooks (BeforeFinalize p) ;!
  let! ' (live, report) := straggler_loop fuel hooks p copied dead live report in
  fire hooks (AfterRepoint p) ;!
  (if hook_is hooks UnlinkBeforeRepoint then iret tt
   else in_store (unlink_pack p) ;! fire hooks (AfterUnlink p)) ;!
  iret (live, report).

(** ** Sweep *)

(** Copy the live records of [p], then finalize it. *)
Definition compact_pack {X} (fuel : nat) (hooks : GcHooks X) (p : PackId) (live_recs dead_recs : list (PageHash * PageLoc))
    (live : LiveSet) (report : SweepReport) : GM X SnapError (list (PageHash * PageLoc) * (LiveSet * SweepReport)) :=
  let! copied := in_store (if bool_decide (live_recs = []) then iret [] else gc_copy_records live_recs) in
  fire hooks (AfterCopy p) ;!
  let! finalized := finalize_and_unlink fuel hooks p copied dead_recs live report in
  iret (copied, finalized).

Definition gc_sweep_one_pack {X} (fuel : nat) (hooks : GcHooks X) (compact_threshold : spec_float) (p : PackId)
    (live : LiveSet) (report : SweepReport) : GM X SnapError (LiveSet * SweepReport) :=
  let! index_entries := in_store (on_pages EPageStore (pack_entries p)) in
  let! records := in_store (on_pages EPageStore (scan_pack p)) in
  let total_records := zlen records in
  if (total_records =? 0) && bool_decide (index_entries = []) then
    let! ' (live, report) := finalize_and_unlink fuel hooks p [] [] live report in
    iret (live, add_swept 0 0 0 1 report)
  else
    let live_recs := filter (λ e : PageHash * PageLoc, e.1 ∈ lv_pages live) index_entries in
    let dead_recs := filter (λ e : PageHash * PageLoc, e.1 ∉ lv_pages live) index_entries in
    if liveness_reaches (zlen live_recs) total_records compact_threshold then iret (live, report) else
    let! ' (copied, (live, report)) := compact_pack fuel hooks p live_recs dead_recs live report in
    iret (live, add_swept
      (zlen dead_recs + saturating_sub total_records (zlen copied + zlen dead_recs))
      (saturating_sub total_records (zlen copied) * RECORD_BYTES)
      (if bool_decide (copied = []) then 0 else 1) 1 report).

Fixpoint sweep_each {X} (fuel : nat) (hooks : GcHooks X) (compact_threshold : spec_float) (packs : list PackId)
    (live : LiveSet) (report : SweepReport) : GM X SnapError (LiveSet * SweepReport) :=
  match packs with
  | [] => iret (live, report)
  | p :: rest =>
      fire hooks (BeforePackSweep p) ;!
      let! ' (live, report) := gc_sweep_one_pack fuel hooks compact_threshold p live report in
      sweep_each fuel hooks compact_threshold rest live report
  end.

Definition gc_sweep_packs {X} (fuel : nat) (hooks : GcHooks X) (fence_pack : PackId) (compact_threshold : spec_float)
    (live : LiveSet) (report : SweepReport) : GM X SnapError (LiveSet * SweepReport) :=
  let! ids := in_store (on_pages EPageStore sealed_pack_ids) in
  sweep_each fuel hooks compact_threshold (filter (λ p, p < fence_pack) ids) live report.

(** ** Manifest sweep *)

Definition BATCH : nat := 256.

Fixpoint delete_batch (batch : list SnapshotRef) (live : LiveSet) (report : SweepReport) : SM SnapError SweepReport :=
  match batch with
  | [] => iret report
  | r :: rest =>
      if bool_decide (r ∈ lv_manifests live) then delete_batch rest live report else
      let! deleted := delete_manifest r in
      delete_batch rest live (if (deleted : bool) then add_deleted_manifest report else report)
  end.

(** The batches; every pass takes at least one candidate, so the length of
    the candidate list is enough fuel. *)
Fixpoint sweep_batches {X} (fuel : nat) (hooks : GcHooks X) (candidates : list SnapshotRef)
    (live : LiveSet) (report : SweepReport) : GM X SnapError (LiveSet * SweepReport) :=
  match fuel, candidates with
  | _, [] => iret (live, report)
  | O, _ => ipanic
  | S fuel', _ =>
      let! stragglers := in_store (if hook_is hooks SkipLateRootsDrain then iret [] else drain_late_roots) in
      let! ' (live, report) := in_store (gc_mark stragglers live report) in
      let candidates := if bool_decide (stragglers = []) then candidates
                        else filter (λ r, r ∉ lv_manifests live) candidates in
      let! report := in_store (delete_batch (take BATCH candidates) live report) in
      sweep_batches fuel' hooks (drop BATCH candidates) live report
  end.

Definition gc_sweep_manifests {X} (hooks : GcHooks X) (live : LiveSet) (report : SweepReport)
    : GM X SnapError (LiveSet * SweepReport) :=
  fire hooks BeforeManifestSweep ;!
  let! refs := in_store list_manifest_refs in
  let candidates := filter (λ r, r ∉ lv_manifests live) refs in
  sweep_batches (length candidates) hooks candidates live report.

(** ** One cycle *)

Inductive GcError := GcAlreadyRunning | GcStore (e : SnapError).

(** The part of a cycle that runs inside the epoch: fire [BeforeMark],
    mark, sweep packs, sweep manifests. *)
Definition gc_mark_sweep {X} (fuel : nat) (hooks : GcHooks X) (compact_threshold : spec_float)
    (fence_pack : PackId) (roots : list SnapshotRef) : GM X SnapError SweepReport :=
  fire hooks BeforeMark ;!
  let! ' (live, sweep) := in_store (gc_mark roots live_default report_default) in
  let! ' (live, sweep) := gc_sweep_packs fuel hooks fence_pack compact_threshold live sweep in
  let! ' (_, sweep) := gc_sweep_manifests hooks live sweep in
  iret sweep.

(** The epoch ends on every exit path ([EpochGuard]). *)
Definition with_epoch_guard {X A} (c : GM X SnapError A) : GM X GcError A := λ w,
  let '(r, w') := c w in (map_err GcStore r, (in_store (E:=GcError) end_gc_epoch w').2).

(** The fence and what follows it; [root_refs] reads the root set of the
    metadata, inside the fence. *)
Definition gc_collect {X} (fuel : nat) (hooks : GcHooks X) (compact_threshold : spec_float)
    (root_refs : X → list SnapshotRef) : GM X GcError SweepReport := λ w,
  match in_store (begin_gc_epoch (E:=SnapError) (iret (root_refs w.2))) w with
  | (Ok (fence_pack, roots), w') => with_epoch_guard (gc_mark_sweep fuel hooks compact_threshold fence_pack roots) w'
  | (Err _, w') => (Err GcAlreadyRunning, w')
  | (Panic, w') => (Panic, w')
  end.

End gc.
