(* ===== verification/SnapStoreInv.v ===== *)
(** * Invariant of the snapshot store

    Every manifest file holds the container its name says, every stored
    delta reaches a FULL root through stored parents of the same RAM size,
    and every page a stored manifest names is in the page index. *)

From S2P Require Import Prelude Types Manifest Fs Pack Index Names ReadCache PageStore PageStoreInv.
From S2P Require Import PageStoreIngest PageStoreRead PageStoreSync PageStoreSpec SnapStore.

(** ** File names *)

Lemma length_byte_hex b : String.length (byte_hex b) = 2%nat.
Proof. apply length_hex_string. Qed.

Lemma byte_hex_app b s : byte_hex b +:+ s =
  String (hex_digit (byte.unsigned b / 16 ^ Z.of_nat 1 mod 16))
    (String (hex_digit (byte.unsigned b / 16 ^ Z.of_nat 0 mod 16)) s).
Proof. done. Qed.

Lemma hex_pairs_byte b s : hex_pairs (byte_hex b +:+ s) = (λ tl, b :: tl) <$> hex_pairs s.
Proof.
  rewrite byte_hex_app. cbn [hex_pairs]. pose proof (byte.unsigned_range b).
  rewrite !hex_val_digit by (apply Z.mod_pos_bound; lia). cbn [mbind option_bind].
  destruct (hex_pairs s); [|done]. cbn [mbind option_bind fmap option_fmap option_map]. do 2 f_equal.
  rewrite <-(byte.of_Z_unsigned b) at 3. f_equal.
  change (Z.of_nat 1) with 1. change (Z.of_nat 0) with 0. rewrite Z.pow_0_r, Z.pow_1_r, Z.div_1_r.
  rewrite (Z.mod_small (byte.unsigned b / 16)); [|split; [apply Z.div_pos; lia|apply Z.div_lt_upper_bound; lia]].
  rewrite (Z.div_mod (byte.unsigned b) 16) at 3 by lia. lia.
Qed.

Lemma hex_pairs_ref r : hex_pairs (ref_to_hex r) = Some r.
Proof. induction r as [|b r IH]; [done|]. cbn [ref_to_hex foldr]. rewrite hex_pairs_byte. fold (ref_to_hex r). by rewrite IH. Qed.

Lemma length_ref_to_hex r : String.length (ref_to_hex r) = (2 * length r)%nat.
Proof.
  induction r as [|b r IH]; [done|]. cbn [ref_to_hex foldr]. rewrite string_app_length, length_byte_hex.
  fold (ref_to_hex r). rewrite IH. simpl. lia.
Qed.

Lemma hex_to_32_ref r : hash_ok r → hex_to_32 (ref_to_hex r) = Some r.
Proof. intros Hr. unfold hex_to_32. rewrite length_ref_to_hex, Hr. apply hex_pairs_ref. Qed.

Lemma String_app x a b : String x a +:+ b = String x (a +:+ b).
Proof. done. Qed.
Lemma string_app_assoc (a b c : string) : (a +:+ b) +:+ c = a +:+ b +:+ c.
Proof. induction a as [|x a IH]; [done|]. by rewrite !String_app, IH. Qed.

(** Equal strings with prefixes of equal length agree on what follows. *)
Lemma string_app_inj_l (a b c d : string) : String.length a = String.length b → a +:+ c = b +:+ d → a = b ∧ c = d.
Proof.
  revert b. induction a as [|x a IH]; intros [|y b] Hl; simplify_eq/=; [done|]. rewrite !String_app. intros [= -> Heq].
  by destruct (IH b Hl Heq) as [-> ->].
Qed.

Lemma shard_length r : hash_ok r → String.length (shard_dir r) = 12%nat.
Proof.
  intros Hr. unfold shard_dir. rewrite string_app_length. destruct r as [|b r]; [done|].
  cbn [ref_to_hex foldr]. rewrite byte_hex_app. cbn [String.substring String.length]. by destruct (foldr _ _ r).
Qed.

Lemma spm_path_inj r1 r2 : hash_ok r1 → hash_ok r2 → spm_path r1 = spm_path r2 → r1 = r2.
Proof.
  intros H1 H2 Heq. unfold spm_path in Heq.
  apply string_app_inj_l in Heq as [_ Heq]; [|by rewrite !shard_length].
  apply string_app_inj_l in Heq as [_ Heq]; [|done].
  apply string_app_inj_l in Heq as [Heq _]; [|by rewrite !length_ref_to_hex, H1, H2].
  apply (f_equal hex_pairs) in Heq. rewrite !hex_pairs_ref in Heq. by simplify_eq.
Qed.

Lemma spm_path_ne_tmp r1 r2 : spm_path r1 ≠ tmp_path r2.
Proof. by unfold spm_path, shard_dir, tmp_path. Qed.

Lemma prefix_app p s : String.prefix p (p +:+ s) = true.
Proof.
  induction p as [|c p IH]; [by destruct s|]. rewrite String_app. simpl. by destruct (Ascii.ascii_dec c c).
Qed.

Lemma in_dir_spm r : in_dir (shard_dir r) (spm_path r) = true.
Proof. unfold in_dir, spm_path. rewrite <-string_app_assoc. apply prefix_app. Qed.

(** ** Computations that only read the tree *)

Definition same_tree (t t' : tree) : Prop :=
  same_disk (t_fs t) (t_fs t') ∧ t_dirs t' = t_dirs t ∧ t_ddirs t' = t_ddirs t.

Lemma same_tree_refl t : same_tree t t.
Proof. done. Qed.
Lemma same_tree_trans t1 t2 t3 : same_tree t1 t2 → same_tree t2 t3 → same_tree t1 t3.
Proof. intros [(?&?&?&?) [? ?]] [(?&?&?&?) [? ?]]. unfold same_tree, same_disk. split_and!; congruence. Qed.
Lemma same_tree_named t t' p : same_tree t t' → named (t_fs t') p = named (t_fs t) p.
Proof. intros [Hs _]. by apply same_disk_named. Qed.

Definition only_reads {E A} (c : M tree E A) : Prop := ∀ t r t', c t = (r, t') → same_tree t t'.

Create HintDb reads.

Lemma reads_ret {E A} (a : A) : only_reads (E:=E) (iret a).
Proof. intros t r t' [= _ <-]. done. Qed.
Lemma reads_err {E A} (e : E) : only_reads (A:=A) (ierr e).
Proof. intros t r t' [= _ <-]. done. Qed.
Lemma reads_of {E A} (x : res E A) : only_reads (iof x).
Proof. intros t r t' [= _ <-]. done. Qed.
Lemma reads_bind {E A B} (c : M tree E A) (k : A → M tree E B) :
  only_reads c → (∀ a, only_reads (k a)) → only_reads (ibind c k).
Proof.
  intros Hc Hk t r t'. unfold ibind. destruct (c t) as [[a|e|] t1] eqn:Hr; intros Hx.
  - eapply same_tree_trans; [by eapply Hc|by eapply Hk].
  - simplify_eq. by eapply Hc.
  - simplify_eq. by eapply Hc.
Qed.
Lemma reads_map_err {E F A} (f : E → F) (c : M tree E A) : only_reads c → only_reads (imap_err f c).
Proof. intros Hc t r t'. unfold imap_err. destruct (c t) eqn:Hr. intros [= _ <-]. by eapply Hc. Qed.
Lemma reads_if {E A} (b : bool) (c d : M tree E A) : only_reads c → only_reads d → only_reads (if b then c else d).
Proof. by destruct b. Qed.

Lemma reads_in_fs {A} (c : io A) : (∀ s r s', c s = (r, s') → same_disk s s') → only_reads (in_fs c).
Proof.
  intros Hc t r t'. unfold in_fs, zoom. destruct (c (t_fs t)) as [x s] eqn:Hr. intros [= _ <-].
  split; [by eapply Hc|done].
Qed.
Lemma same_disk_trans s1 s2 s3 : same_disk s1 s2 → same_disk s2 s3 → same_disk s1 s3.
Proof. intros (?&?&?&?) (?&?&?&?). unfold same_disk. split_and!; congruence. Qed.
Lemma syscall_same_disk {A} (c : io A) s r s' :
  (∀ s1 r1 s2, c s1 = (r1, s2) → s2 = s1) → syscall c s = (r, s') → same_disk s s'.
Proof. intros Hc Hr. apply syscall_cases in Hr as [[_ ?]|(s1 & Hs & Hk)]; [done|]. by rewrite (Hc _ _ _ Hk). Qed.
Lemma path_len_same p s r s' : path_len p s = (r, s') → same_disk s s'.
Proof. apply syscall_same_disk. intros s1 r1 s2. case_match; intros; by simplify_eq. Qed.
Lemma open_existing_same p s r s' : open_existing p s = (r, s') → same_disk s s'.
Proof. apply syscall_same_disk. intros s1 r1 s2. case_match; intros; by simplify_eq. Qed.
Lemma read_file_same p s r s' : read_file p s = (r, s') → same_disk s s'.
Proof.
  unfold read_file, ibind. destruct (open_existing p s) as [[h|e|] s1] eqn:Ho; intros Hk;
    pose proof (open_existing_same _ _ _ _ Ho); simplify_eq; [|done..].
  eapply same_disk_trans; [done|]. eapply syscall_same_disk; [|exact Hk]. by intros ? ? ? [= _ <-].
Qed.

Lemma reads_path_exists {E} p : only_reads (E:=E) (path_exists p).
Proof.
  intros t r t'. unfold path_exists. destruct (path_len p (t_fs t)) as [x s] eqn:Hp. intros [= _ <-].
  split; [by eapply path_len_same|done].
Qed.

Lemma path_exists_true {E} p t t' : path_exists (E:=E) p t = (Ok true, t') → is_Some (fs_dir (t_fs t) !! p).
Proof.
  unfold path_exists. destruct (path_len p (t_fs t)) as [[n|e|] s] eqn:Hp; intros; simplify_eq.
  apply syscall_cases in Hp as [[? _]|(s1 & Hs & Hk)]; [done|]. rewrite (proj1 Hs) in Hk. by case_match; [eexists|].
Qed.

Lemma read_file_Ok p s b s' : read_file p s = (Ok b, s') → named s p = Some b.
Proof.
  unfold read_file. rewrite ibind_Ok. intros (h & s1 & Ho & Hk). pose proof (open_existing_same _ _ _ _ Ho) as Hs.
  apply syscall_cases in Ho as [[? _]|(s2 & Hs2 & Ho)]; [done|]. rewrite (proj1 Hs2) in Ho.
  destruct (fs_dir s !! p) as [i|] eqn:Hi; simplify_eq.
  apply syscall_cases in Hk as [[? _]|(s3 & Hs3 & Hk)]; [done|]. simplify_eq. cbn [h_ino].
  unfold named. rewrite Hi. simpl. f_equal. symmetry. apply same_disk_content. by eapply same_disk_trans.
Qed.

#[export] Hint Resolve reads_ret reads_err reads_of reads_bind reads_map_err reads_if reads_path_exists : reads.

Section inv.
Context {HB : Blake3} {HZ : Zstd} {HC : Crc32}.

Lemma reads_read_manifest r : only_reads (read_manifest_bytes r).
Proof.
  unfold read_manifest_bytes. assert (only_reads (in_fs (read_file (spm_path r)))) by (apply reads_in_fs, read_file_same).
  auto 12 with reads.
Qed.

Lemma read_manifest_Ok r t buf t' :
  read_manifest_bytes r t = (Ok buf, t') → named (t_fs t) (spm_path r) = Some buf ∧ snapshot_ref buf = r.
Proof.
  unfold read_manifest_bytes. rewrite ibind_Ok. intros (found & t1 & Hp & Hk).
  pose proof (reads_path_exists _ _ _ _ Hp) as [Hs _]. destruct found; [|done]. cbn [negb] in Hk. rewrite ibind_Ok in Hk.
  destruct Hk as (b & t2 & Hr%imap_err_Ok & Hk). unfold in_fs, zoom in Hr.
  destruct (read_file (spm_path r) (t_fs t1)) as [x s] eqn:Hf. simplify_eq.
  apply read_file_Ok in Hf. rewrite (same_disk_named _ _ _ Hs) in Hf.
  destruct (zlen b <? 32); [done|]. destruct (negb _); [done|].
  destruct (bool_decide (snapshot_ref b = r)) eqn:Hb; [|done]. b2p. unfold iret in Hk. cbn [negb] in Hk. simplify_eq. split; [exact Hf|reflexivity].
Qed.

(** ** Publishing a manifest file *)

Lemma sync_names_lookup d s p :
  sync_names d s !! p = if in_dir d p then fs_dir s !! p else fs_ddir s !! p.
Proof.
  unfold sync_names. destruct (in_dir d p) eqn:Hd.
  - destruct (fs_dir s !! p) as [i|] eqn:Hi.
    + apply lookup_union_Some_l, map_lookup_filter_Some. by split.
    + apply lookup_union_None. split; apply map_lookup_filter_None; [by left|right]. intros x _. cbn [fst]. by rewrite Hd.
  - rewrite lookup_union_r by (apply map_lookup_filter_None; right; intros x _; cbn [fst]; by rewrite Hd).
    destruct (fs_ddir s !! p) as [i|] eqn:Hi; [by apply map_lookup_filter_Some|apply map_lookup_filter_None; by left].
Qed.

Lemma sync_shard_cases d t r t' :
  sync_shard d t = (r, t') →
  fs_dir (t_fs t') = fs_dir (t_fs t) ∧ fs_files (t_fs t') = fs_files (t_fs t) ∧ fs_next (t_fs t') = fs_next (t_fs t) ∧
  r ≠ Panic ∧ (r = Ok tt → fs_ddir (t_fs t') = sync_names d (t_fs t)).
Proof.
  unfold sync_shard, in_fs, zoom, ibind. destruct (syscall (iret tt) (t_fs t)) as [r1 s1] eqn:H1.
  assert (same_disk (t_fs t) s1 ∧ r1 ≠ Panic) as [Hs1 Hp1].
  { apply syscall_cases in H1 as [[-> ?]|(s & ? & Hk)]; [done|]. unfold iret in Hk. by simplify_eq. }
  pose proof Hs1 as (Hd1 & Hdd1 & Hf1 & Hn1).
  destruct r1 as [[]|e|]; [|intros [= <- <-]; by split_and!|done].
  destruct (syscall _ s1) as [r2 s2] eqn:H2. intros [= <- <-].
  apply syscall_cases in H2 as [[-> (Hd2 & Hdd2 & Hf2 & Hn2)]|(s & (Hd2 & Hdd2 & Hf2 & Hn2) & Hk)].
  - split_and!; simpl; [congruence..|done|done].
  - simplify_eq. simpl. split_and!; [congruence..|done|]. intros _. unfold sync_names. congruence.
Qed.

Lemma publish_replace r c t :
  publish r c t =
  (create_dir_all (shard_dir r) ;! in_fs (replace_file (tmp_path r) (spm_path r) c) ;! sync_shard (shard_dir r)) t.
Proof.
  unfold publish, replace_file, stage_file, in_fs, zoom, ibind.
  destruct (create_dir_all (shard_dir r) t) as [[[]|e|] t1]; [|done..].
  destruct (open_truncate (tmp_path r) (t_fs t1)) as [[h|e|] s2]; [|done..]. cbn [t_fs set_t_fs].
  destruct (write_all_ h c s2) as [[[]|e|] s3]; [|done..]. cbn [t_fs set_t_fs].
  destruct (sync_data h s3) as [[[]|e|] s4]; [|done..]. cbn [t_fs set_t_fs].
  by destruct (rename (tmp_path r) (spm_path r) s4) as [[[]|e|] s5].
Qed.

Lemma create_dir_all_cases d t r t' :
  create_dir_all d t = (r, t') →
  same_disk (t_fs t) (t_fs t') ∧ r ≠ Panic ∧ t_ddirs t' = t_ddirs t ∧ (r = Ok tt → d ∈ t_dirs t').
Proof.
  unfold create_dir_all, ibind, in_fs, zoom. destruct (syscall (iret tt) (t_fs t)) as [r1 s1] eqn:H1.
  assert (same_disk (t_fs t) s1 ∧ r1 ≠ Panic) as [Hs1 Hp1].
  { apply syscall_cases in H1 as [[-> ?]|(s & ? & Hk)]; [done|]. unfold iret in Hk. by simplify_eq. }
  destruct r1 as [[]|e|]; [|by intros [= <- <-]|done]. intros [= <- <-]. split_and!; try done. simpl. set_solver.
Qed.

(** What an attempt to publish leaves behind, whatever fails. *)
Record published (r : SnapshotRef) (c : bytes) (t t' : tree) (ok : bool) : Prop := {
  pb_wf : fs_wf (t_fs t');
  pb_self : named (t_fs t') (spm_path r) = named (t_fs t) (spm_path r) ∨ named (t_fs t') (spm_path r) = Some c;
  pb_other : ∀ r', hash_ok r' → r' ≠ r → named (t_fs t') (spm_path r') = named (t_fs t) (spm_path r');
  pb_ok : ok = true → named (t_fs t') (spm_path r) = Some c ∧
    ∃ i, fs_ddir (t_fs t') !! spm_path r = Some i ∧ durable (t_fs t') i = c;
  pb_ddirs : t_ddirs t' = t_ddirs t;
}.

Lemma publish_cases r c t x t' :
  hash_ok r → fs_wf (t_fs t) → publish r c t = (x, t') →
  x ≠ Panic ∧ published r c t t' (match x with Ok _ => true | _ => false end).
Proof.
  intros Hr Hwf. rewrite publish_replace. unfold ibind at 1.
  destruct (create_dir_all (shard_dir r) t) as [x1 t1] eqn:H1.
  destruct (create_dir_all_cases _ _ _ _ H1) as (Hs1 & Hp1 & Hdd1 & _).
  assert (∀ p, named (t_fs t1) p = named (t_fs t) p) as Hn1 by (intros; by apply same_disk_named).
  destruct x1 as [[]|e|]; [| |done].
  2: { intros [= <- <-]. split; [done|]. split; [by eapply same_disk_wf|by left|done|done|done]. }
  unfold ibind at 1, in_fs, zoom. destruct (replace_file _ _ c (t_fs t1)) as [x2 s2] eqn:H2.
  destruct (replace_file_cases _ _ _ _ _ _ (same_disk_wf _ _ Hs1 Hwf) (not_eq_sym (spm_path_ne_tmp r r)) H2)
    as (Hwf2 & Hself & Hok2 & Hoth & Hp2).
  assert (∀ r', hash_ok r' → r' ≠ r → named s2 (spm_path r') = named (t_fs t) (spm_path r')) as Hother.
  { intros r' Hr' Hne. rewrite <-Hn1. apply same_file_named, Hoth; [|apply spm_path_ne_tmp].
    intros Heq. by apply Hne, spm_path_inj. }
  assert (named s2 (spm_path r) = named (t_fs t) (spm_path r) ∨ named s2 (spm_path r) = Some c) as Hself'.
  { destruct Hself as [Hsf|?]; [left|by right]. by rewrite (same_file_named _ _ _ Hsf). }
  destruct x2 as [[]|e|]; [| |done].
  2: { intros [= <- <-]. split; [done|]. by split. }
  intros H3. destruct (sync_shard_cases _ _ _ _ H3) as (Hd3 & Hf3 & Hn3 & Hp3 & Hsy). cbn [t_fs set_t_fs] in *.
  assert (∀ p, named (t_fs t') p = named s2 p) as Hnm by (intros; unfold named, content; by rewrite Hd3, Hf3).
  split; [done|]. split.
  - destruct Hwf2 as [W1 W2 W3]. split; rewrite ?Hd3, ?Hf3, ?Hn3; done.
  - by rewrite Hnm.
  - intros. rewrite Hnm. by apply Hother.
  - intros Hx. destruct x as [[]|e|]; [|done..]. rewrite Hnm. destruct (Hok2 eq_refl) as (? & i & Hi & Hdu).
    split; [done|]. exists i. rewrite (Hsy eq_refl), sync_names_lookup, in_dir_spm. split; [done|].
    unfold durable. by rewrite Hf3.
  - unfold sync_shard, in_fs, zoom in H3. destruct ((_ ;! _) _) in H3. by simplify_eq/=.
Qed.

(** ** Stored manifests *)

(** The file of [r] holds the well-formed manifest [m] it names. *)
Definition holds (t : tree) (r : SnapshotRef) (m : Manifest) : Prop :=
  named (t_fs t) (spm_path r) = Some (encode m) ∧ manifest_wf m ∧ blake3 (encode_body m) = r.

(** The chain from [r] down to a FULL root, through stored parents. *)
Inductive chain (t : tree) : SnapshotRef → list (SnapshotRef * Manifest) → Prop :=
  | chain_full r m : holds t r m → delta m = false → chain t r [(r, m)]
  | chain_delta r m p pm rest :
      holds t r m → delta m = true → parent m = Some p → chain t p ((p, pm) :: rest) →
      guest_ram_bytes pm = guest_ram_bytes m → chain t r ((r, m) :: (p, pm) :: rest).

Record tree_inv (idx : ShardedIndex) (t : tree) : Prop := {
  ti_wf : fs_wf (t_fs t);
  ti_files : ∀ r c, hash_ok r → named (t_fs t) (spm_path r) = Some c →
    ∃ m rest, c = encode m ∧ chain t r ((r, m) :: rest);
  ti_pages : ∀ r m, hash_ok r → holds t r m → ∀ e, e ∈ entries m → is_Some (index_get idx (page_hash e));
}.

Lemma holds_hash_ok t r m : holds t r m → hash_ok r.
Proof. intros (_ & _ & <-). apply blake3_hash_ok. Qed.

Lemma encode_inj m m' : manifest_wf m → manifest_wf m' → encode m = encode m' → m = m'.
Proof. intros Hm Hm' Heq. apply decode_encode in Hm, Hm'. rewrite Heq, Hm' in Hm. by simplify_eq. Qed.

Lemma holds_fun t r m m' : holds t r m → holds t r m' → m = m'.
Proof. intros (H1 & H2 & _) (H3 & H4 & _). apply encode_inj; [done..|]. congruence. Qed.

Lemma chain_head t r l : chain t r l → ∃ m rest, l = (r, m) :: rest ∧ holds t r m.
Proof. destruct 1 as [r m|r m p pm rest]; [by exists m, []|by exists m, ((p, pm) :: rest)]. Qed.

Lemma chain_fun t r l l' : chain t r l → chain t r l' → l = l'.
Proof.
  intros Hc. revert l'. induction Hc as [r m Hm Hd|r m p pm rest Hm Hd Hp Hc IH Hg]; intros l' Hc'.
  - inversion Hc' as [r' m' Hm' Hd'|r' m' p' pm' rest' Hm' Hd' Hp' Hc2 Hg']; subst;
      pose proof (holds_fun _ _ _ _ Hm Hm'); congruence.
  - inversion Hc' as [r' m' Hm' Hd'|r' m' p' pm' rest' Hm' Hd' Hp' Hc2 Hg']; subst;
      pose proof (holds_fun _ _ _ _ Hm Hm') as Heq; [congruence|]. subst m'.
    assert (p' = p) as -> by congruence. f_equal. by apply IH.
Qed.

Lemma chain_mono t t' r l :
  (∀ r' m, holds t r' m → holds t' r' m) → chain t r l → chain t' r l.
Proof. intros Hh. induction 1; [apply chain_full|eapply chain_delta]; eauto. Qed.

Lemma tree_inv_same idx t t' : same_tree t t' → tree_inv idx t → tree_inv idx t'.
Proof.
  intros Hs [H1 H2 H3]. assert (∀ p, named (t_fs t') p = named (t_fs t) p) as Hn by (intros; by apply same_tree_named).
  assert (∀ r m, holds t r m ↔ holds t' r m) as Hh by (intros; unfold holds; by rewrite Hn). split.
  - eapply same_disk_wf; [apply Hs|done].
  - intros r c Hr. rewrite Hn. intros Hc. destruct (H2 r c Hr Hc) as (m & rest & ? & Hch). exists m, rest.
    split; [done|]. eapply chain_mono; [|done]. intros; by apply Hh.
  - intros r m Hr Hm. apply (H3 r m Hr). by apply Hh.
Qed.

Lemma published_holds t t' r m ok r' m' :
  (∀ c, named (t_fs t) (spm_path r) = Some c → c = encode m) → published r (encode m) t t' ok →
  holds t r' m' → holds t' r' m'.
Proof.
  intros Hnc Hp Hh. pose proof (holds_hash_ok _ _ _ Hh) as Hr'. destruct Hh as (Hn & Hw & Hb). split; [|done].
  destruct (decide (r' = r)) as [->|Hne].
  - pose proof (Hnc _ Hn) as Hc. destruct (pb_self _ _ _ _ _ Hp) as [Heq|Heq]; congruence.
  - by rewrite (pb_other _ _ _ _ _ Hp).
Qed.

(** A manifest whose parent and pages are there may be published, and a
    failed attempt is harmless. *)
Lemma tree_inv_publish idx t t' r m ok :
  tree_inv idx t → manifest_wf m → blake3 (encode_body m) = r →
  (∀ e, e ∈ entries m → is_Some (index_get idx (page_hash e))) →
  (delta m = true → ∃ p pm rest, parent m = Some p ∧ chain t p ((p, pm) :: rest) ∧ guest_ram_bytes pm = guest_ram_bytes m) →
  (∀ c, named (t_fs t) (spm_path r) = Some c → c = encode m) →
  published r (encode m) t t' ok → tree_inv idx t'.
Proof.
  intros [H1 H2 H3] Hwf Href Hpg Hpar Hnc Hp. assert (hash_ok r) as Hr by (subst r; apply blake3_hash_ok).
  assert (∀ r' l, chain t r' l → chain t' r' l) as Hchm.
  { intros r' l. apply chain_mono. intros; by eapply published_holds. }
  split; [apply Hp| |].
  - intros r' c Hr' Hc. destruct (decide (r' = r)) as [->|Hne].
    + assert (c = encode m) as ->. { destruct (pb_self _ _ _ _ _ Hp) as [Heq|Heq]; rewrite Heq in Hc; [by apply Hnc|congruence]. }
      assert (holds t' r m) as Hh by done. destruct (delta m) eqn:Hd.
      * destruct (Hpar eq_refl) as (p & pm & rest & Hp1 & Hch & Hg). exists m, ((p, pm) :: rest).
        split; [done|]. eapply chain_delta; [done|done|done|by apply Hchm|done].
      * exists m, []. split; [done|]. by apply chain_full.
    + rewrite (pb_other _ _ _ _ _ Hp) in Hc by done. destruct (H2 r' c Hr' Hc) as (m' & rest & ? & Hch).
      exists m', rest. split; [done|]. by apply Hchm.
  - intros r' m' Hr' Hh. destruct (decide (r' = r)) as [->|Hne].
    + destruct Hh as (Hn & Hw & _). assert (m' = m) as ->; [|done]. apply encode_inj; [done..|].
      destruct (pb_self _ _ _ _ _ Hp) as [Heq|Heq]; rewrite Heq in Hn; [by apply Hnc|congruence].
    + apply (H3 r' m' Hr'). destruct Hh as (Hn & ? & ?). by rewrite (pb_other _ _ _ _ _ Hp) in Hn.
Qed.

(** ** Steps that change neither pages nor manifests *)

Definition frame (w w' : SnapshotStore * disk) : Prop :=
  ss_pages w'.1 = ss_pages w.1 ∧ w'.2.1 = w.2.1 ∧ same_tree w.2.2 w'.2.2 ∧ ss_cache w'.1 = ss_cache w.1.
Definition framed {E A} (c : SM E A) : Prop := ∀ w x w', c w = (x, w') → frame w w'.

Lemma frame_refl w : frame w w.
Proof. done. Qed.
Lemma frame_trans w1 w2 w3 : frame w1 w2 → frame w2 w3 → frame w1 w3.
Proof. intros (? & ? & ? & ?) (? & ? & ? & ?). split_and!; [congruence|congruence|by eapply same_tree_trans|congruence]. Qed.

Lemma framed_ret {E A} (a : A) : framed (E:=E) (iret a).
Proof. intros w x w' [= _ <-]. done. Qed.
Lemma framed_err {E A} (e : E) : framed (A:=A) (ierr e).
Proof. intros w x w' [= _ <-]. done. Qed.
Lemma framed_of {E A} (r : res E A) : framed (iof r).
Proof. intros w x w' [= _ <-]. done. Qed.
Lemma framed_bind {E A B} (c : SM E A) (k : A → SM E B) : framed c → (∀ a, framed (k a)) → framed (ibind c k).
Proof.
  intros Hc Hk w x w'. unfold ibind. destruct (c w) as [[a|e|] w1] eqn:Hr; intros Hx.
  - eapply frame_trans; [by eapply Hc|by eapply Hk].
  - simplify_eq. by eapply Hc.
  - simplify_eq. by eapply Hc.
Qed.
Lemma framed_map_err {E F A} (f : E → F) (c : SM E A) : framed c → framed (imap_err f c).
Proof. intros Hc w x w'. unfold imap_err. destruct (c w) eqn:Hr. intros [= _ <-]. by eapply Hc. Qed.
Lemma framed_if {E A} (b : bool) (c d : SM E A) : framed c → framed d → framed (if b then c else d).
Proof. by destruct b. Qed.
Lemma framed_on_tree {E F A} (f : E → F) (c : M tree E A) : only_reads c → framed (on_tree f c).
Proof.
  intros Hc [st [pf t]] x w'. unfold on_tree, imap_err, zoom. cbn [fst snd]. destruct (c t) eqn:Hr. intros [= _ <-].
  split_and!; [done|done|by eapply Hc|done].
Qed.
Lemma framed_contains {E} (f : StoreError → E) hs : framed (on_pages f (contains_batch hs)).
Proof. intros [[] [pf t]] x w' [= _ <-]. done. Qed.
Lemma framed_push r E : framed (E:=E) (on_state (push_late_root r)).
Proof.
  intros [st d] x w'. unfold on_state, push_late_root. cbn [fst snd]. destruct (ss_epoch st); intros [= _ <-]; done.
Qed.

Create HintDb framed.
#[local] Hint Resolve framed_ret framed_err framed_of framed_bind framed_map_err framed_if framed_on_tree framed_contains
  framed_push reads_read_manifest reads_path_exists : framed.

Lemma framed_validate fuel r : framed (validate_loop fuel r).
Proof.
  revert r. induction fuel as [|fuel IH]; intros r; cbn [validate_loop]; [auto with framed|].
  apply framed_bind; [auto with framed|]. intros buf. apply framed_bind; [auto with framed|]. intros m.
  apply framed_bind; [auto with framed|]. intros present. destruct (list_find _ _) as [[pos ?]|]; [auto with framed|].
  apply framed_if; [|auto with framed]. apply framed_bind; auto with framed.
Qed.
#[local] Hint Resolve framed_validate : framed.

Lemma framed_register r : framed (register_live_ref r).
Proof.
  unfold register_live_ref, has_manifest, validate_closure. apply framed_bind; [auto with framed|]. intros b.
  apply framed_if; [auto with framed|]. apply framed_bind; auto with framed.
Qed.
Lemma framed_register_put r : framed (register_put r).
Proof. apply framed_map_err, framed_register. Qed.
Lemma framed_check_parent m : framed (check_parent m).
Proof.
  unfold check_parent. apply framed_if; [|auto with framed]. apply framed_bind; [auto with framed|]. intros p.
  apply framed_bind; [auto with framed|]. intros pb. apply framed_bind; auto with framed.
Qed.
Lemma framed_check_pages m : framed (check_pages m).
Proof. unfold check_pages. apply framed_bind; auto with framed. Qed.

Lemma check_parent_Ok m w w' :
  check_parent m w = (Ok tt, w') → delta m = true →
  ∃ p pb pm, parent m = Some p ∧ named (t_fs w.2.2) (spm_path p) = Some pb ∧ decode pb = Ok pm ∧
    guest_ram_bytes pm = guest_ram_bytes m.
Proof.
  unfold check_parent. intros Hk Hd. rewrite Hd in Hk. apply ibind_Ok in Hk as (p & w1 & Hp & Hk).
  unfold iof, expect in Hp. destruct (parent m) as [p'|]; simplify_eq.
  apply ibind_Ok in Hk as (pb & w2 & Hr & Hk). unfold on_tree in Hr. apply imap_err_Ok in Hr. unfold zoom in Hr.
  destruct (read_manifest_bytes p w1.2.2) as [y t2] eqn:Hrm. simplify_eq.
  apply read_manifest_Ok in Hrm as [Hn _]. apply ibind_Ok in Hk as (pm & w3 & Hdec & Hk).
  apply imap_err_Ok in Hdec. unfold iof in Hdec. simplify_eq.
  destruct (guest_ram_bytes pm =? guest_ram_bytes m) eqn:Hg; [|done]. exists p, pb, pm. b2p. done.
Qed.

Lemma missing_nil hs present :
  length present = length hs → missing_of hs present = [] → Forall (λ b, b = true) present.
Proof.
  revert present. induction hs as [|h hs IH]; intros [|b present] Hl; [done..|]. cbn [missing_of zip zip_with] in *.
  unfold missing_of. cbn [zip zip_with]. rewrite filter_cons. cbn [snd]. destruct b; cbn.
  - intros Hm. constructor; [done|]. apply IH; [simpl in Hl; lia|exact Hm].
  - done.
Qed.

Lemma check_pages_Ok m w w' :
  check_pages m w = (Ok tt, w') →
  ∀ e, e ∈ entries m → is_Some (index_get (ps_index (ss_pages w.1)) (page_hash e)).
Proof.
  unfold check_pages. rewrite ibind_Ok. intros (present & w1 & Hc & Hk) e He.
  assert (present = (λ h, bool_decide (is_Some (index_get (ps_index (ss_pages w.1)) h))) <$> (page_hash <$> entries m)) as Hp.
  { unfold on_pages in Hc. apply imap_err_Ok in Hc. unfold zoom, contains_batch, get_store, ibind, iret in Hc. cbn in Hc. by simplify_eq. }
  destruct (bool_decide (missing_of _ present = [])) eqn:Hm; [|done]. b2p.
  apply missing_nil in Hm; [|by rewrite Hp, length_fmap]. rewrite Hp, Forall_fmap, Forall_fmap, Forall_forall in Hm.
  specialize (Hm e He). cbn in Hm. by apply bool_decide_eq_true in Hm.
Qed.

(** ** [sync] leaves the index alone, whatever its outcome *)

Definition keeps_index {E A} (c : M (PageStore * fs) E A) : Prop := ∀ w, ps_index (c w).2.1 = ps_index w.1.

Lemma keeps_index_bind {E A B} (c : M (PageStore * fs) E A) (k : A → M (PageStore * fs) E B) :
  keeps_index c → (∀ a, keeps_index (k a)) → keeps_index (ibind c k).
Proof.
  intros Hc Hk w. unfold ibind. specialize (Hc w). destruct (c w) as [[a|e|] w1]; [|done..]. by rewrite Hk.
Qed.
Lemma keeps_index_zoom_fs {A} (c : M fs StoreError A) : keeps_index (on_fs c).
Proof. intros [ps s]. unfold on_fs, zoom. cbn. by destruct (c s). Qed.
Lemma keeps_index_writer {A} (c : W A) : keeps_index (on_writer c).
Proof. intros [ps s]. unfold on_writer, imap_err, zoom. cbn. by destruct (c _) as [? []]. Qed.
Lemma keeps_index_for {A} (l : list A) (body : A → P unit) : (∀ x, keeps_index (body x)) → keeps_index (ifor l body).
Proof. intros Hb. induction l; cbn [ifor]; [done|]. by apply keeps_index_bind. Qed.

Lemma sync_keeps_index iter : keeps_index (sync iter).
Proof.
  unfold sync. apply keeps_index_bind; [apply keeps_index_writer|]. intros _. apply keeps_index_bind; [done|]. intros ps.
  apply keeps_index_bind; [done|]. intros _. apply keeps_index_bind; [apply keeps_index_for; intros; apply keeps_index_zoom_fs|].
  intros _. apply keeps_index_bind; [done|]. intros ps2. destruct (a_new_files (ps_active ps2)); [|done].
  apply keeps_index_bind; [apply keeps_index_zoom_fs|done].
Qed.

(** ** Runs of [put_snapshot] *)

(** What a run of [put_snapshot] on container [c] that ended in [w'] did,
    if it returned [r]. *)
Record put_done (iter : gset PackId → list PackId) (c : bytes) (w w' : SnapshotStore * disk) (r : SnapshotRef) : Prop := {
  pd_ref : r = snapshot_ref c;
  pd_holds : ∃ m, decode c = Ok m ∧ holds w'.2.2 r m;
  pd_sync : ∃ ps pf, sync iter (ss_pages w.1, w.2.1) = (Ok tt, (ps, pf)) ∧ ss_pages w'.1 = ps ∧ w'.2.1 = pf;
  pd_durable : named (t_fs w.2.2) (spm_path r) = None →
    ∃ i, fs_ddir (t_fs w'.2.2) !! spm_path r = Some i ∧ durable (t_fs w'.2.2) i = c;
}.

Lemma holds_same t t' r m : same_tree t t' → holds t r m → holds t' r m.
Proof. intros Hs (Hn & ?). split; [by rewrite (same_tree_named _ _ _ Hs)|done]. Qed.

Lemma decode_holds c m t : decode c = Ok m → named (t_fs t) (spm_path (snapshot_ref c)) = Some c → holds t (snapshot_ref c) m.
Proof.
  intros Hd Hn. pose proof (decode_canonical _ _ Hd) as Hc. pose proof (decode_wf _ _ Hd). subst c.
  split; [done|]. split; [done|]. symmetry. apply snapshot_ref_encode.
Qed.

Lemma parent_chain idx t m w w' :
  tree_inv idx t → manifest_wf m → same_tree t w.2.2 → check_parent m w = (Ok tt, w') → delta m = true →
  ∃ p pm rest, parent m = Some p ∧ chain t p ((p, pm) :: rest) ∧ guest_ram_bytes pm = guest_ram_bytes m.
Proof.
  intros Hi Hwf Hs Hc Hd. destruct (check_parent_Ok _ _ _ Hc Hd) as (p & pb & pm & Hp & Hn & Hdec & Hg).
  pose proof (wf_kind _ Hwf) as Hk. unfold kind_ok in Hk. rewrite Hd in Hk. destruct Hk as [(p' & Hp' & Hok & _) _].
  rewrite Hp in Hp'. injection Hp' as <-. rewrite (same_tree_named _ _ _ Hs) in Hn.
  destruct (ti_files _ _ Hi p pb Hok Hn) as (pm' & rest & -> & Hch).
  destruct (chain_head _ _ _ Hch) as (? & ? & [= <- <-] & (_ & Hw & _)). rewrite decode_encode in Hdec by done.
  injection Hdec as ->. by exists p, pm, rest.
Qed.

(** The part after the barrier, whatever its outcome. *)
Lemma finish_put_cases idx m c st pf t x w' :
  tree_inv idx t → decode c = Ok m →
  (∀ e, e ∈ entries m → is_Some (index_get idx (page_hash e))) →
  (delta m = true → ∃ p pm rest, parent m = Some p ∧ chain t p ((p, pm) :: rest) ∧ guest_ram_bytes pm = guest_ram_bytes m) →
  (∀ c', named (t_fs t) (spm_path (snapshot_ref c)) = Some c' → c' = c) →
  finish_put m (snapshot_ref c) c (st, (pf, t)) = (x, w') →
  ss_pages w'.1 = ss_pages st ∧ w'.2.1 = pf ∧ tree_inv idx w'.2.2 ∧ ss_cache w'.1 = ss_cache st ∧ t_ddirs w'.2.2 = t_ddirs t ∧
  (∀ r' m', holds t r' m' → holds w'.2.2 r' m') ∧
  ∀ r, x = Ok r → r = snapshot_ref c ∧ holds w'.2.2 r m ∧
    (named (t_fs t) (spm_path r) = None →
     ∃ i, fs_ddir (t_fs w'.2.2) !! spm_path r = Some i ∧ durable (t_fs w'.2.2) i = c).
Proof.
  intros Hi Hdec Hpg Hpar Hnc. pose proof (decode_wf _ _ Hdec) as Hwf. pose proof (decode_canonical _ _ Hdec) as Henc.
  set (r := snapshot_ref c) in *.
  assert (blake3 (encode_body m) = r) as Href by (unfold r; rewrite <-Henc; symmetry; apply snapshot_ref_encode).
  assert (hash_ok r) as Hr by (rewrite <-Href; apply blake3_hash_ok).
  unfold finish_put, ibind at 1, on_tree at 1, imap_err at 1, zoom at 1. cbn [fst snd].
  destruct (path_exists (spm_path r) t) as [x1 t1] eqn:H1. pose proof (reads_path_exists _ _ _ _ H1) as F1.
  assert (∃ b, x1 = Ok b) as [found ->] by (unfold path_exists in H1; destruct (path_len _ _); simplify_eq; by eexists).
  cbn [map_err]. pose proof (tree_inv_same _ _ _ F1 Hi) as Hi1. destruct found.
  - apply path_exists_true in H1 as [i Hdir].
    assert (holds t r m) as Hh.
    { apply decode_holds; [done|]. fold r. unfold named. rewrite Hdir. simpl. f_equal. apply Hnc. unfold named. by rewrite Hdir. }
    unfold ibind. destruct (register_put r (st, (pf, t1))) as [x2 w2] eqn:H2.
    destruct (framed_register_put _ _ _ _ H2) as (Fp & Ff & Ft & Fc). cbn [fst snd] in *. pose proof (same_tree_trans _ _ _ F1 Ft) as F2.
    assert (ss_pages w2.1 = ss_pages st ∧ w2.2.1 = pf ∧ tree_inv idx w2.2.2 ∧ t_ddirs w2.2.2 = t_ddirs t ∧
      (∀ r' m', holds t r' m' → holds w2.2.2 r' m')) as (? & ? & ? & ? & ?)
      by (split_and!; [done|done|by eapply tree_inv_same|apply F2|intros; by eapply holds_same]).
    destruct x2 as [[]|e|]; intros [= <- <-]; split_and!; try done. intros r' [= <-]. split; [done|].
    split; [by eapply holds_same|]. intros Hnone. unfold named in Hnone. by rewrite Hdir in Hnone.
  - unfold ibind at 1, on_tree at 1, imap_err at 1, zoom at 1. cbn [fst snd].
    destruct (publish r c t1) as [x2 t2] eqn:H2.
    destruct (publish_cases _ _ _ _ _ Hr (ti_wf _ _ Hi1) H2) as [Hp2 Hpb]. rewrite <-Henc in Hpb.
    assert (∀ c', named (t_fs t1) (spm_path r) = Some c' → c' = encode m) as Hnc1.
    { intros c'. rewrite (same_tree_named _ _ _ F1). intros Hc'. rewrite Henc. by apply Hnc. }
    assert (∀ r' m', holds t r' m' → holds t2 r' m') as Hmono.
    { intros r' m' Hh. eapply published_holds; [exact Hnc1|exact Hpb|by eapply holds_same]. }
    assert (t_ddirs t2 = t_ddirs t) as Hdd2 by (etransitivity; [exact (pb_ddirs _ _ _ _ _ Hpb)|apply F1]).
    assert (tree_inv idx t2) as Hi2.
    { eapply tree_inv_publish; [exact Hi1|done|done|done| |exact Hnc1|exact Hpb].
      intros Hd. destruct (Hpar Hd) as (p & pm & rest & ? & ? & ?). exists p, pm, rest. split_and!; [done| |done].
      eapply chain_mono; [|done]. intros; by eapply holds_same. }
    destruct x2 as [[]|e|]; [|intros [= <- <-]; cbn; split_and!; done..]. cbn [map_err].
    unfold ibind at 1, on_state. cbn [fst snd]. unfold ibind. set (st2 := set_counters _ _ st).
    destruct (register_put r (st2, (pf, t2))) as [x3 w3] eqn:H3.
    destruct (framed_register_put _ _ _ _ H3) as (Fp & Ff & Ft & Fc). cbn [fst snd] in *.
    assert (ss_pages w3.1 = ss_pages st ∧ w3.2.1 = pf ∧ tree_inv idx w3.2.2 ∧ t_ddirs w3.2.2 = t_ddirs t ∧
      (∀ r' m', holds t r' m' → holds w3.2.2 r' m')) as (? & ? & ? & ? & ?)
      by (split_and!; [done|done|by eapply tree_inv_same|etransitivity; [apply Ft|exact Hdd2]|intros; eapply holds_same; [done|by apply Hmono]]).
    destruct x3 as [[]|e|]; intros [= <- <-]; split_and!; try done. intros r' [= <-]. split; [done|].
    destruct (pb_ok _ _ _ _ _ Hpb eq_refl) as (Hn & i & Hdd & Hdu).
    split; [eapply holds_same; [done|]; by split|]. intros _. exists i.
    pose proof Ft as [Hsd _]. rewrite (proj1 (proj2 Hsd)), (same_disk_durable _ _ _ Hsd), <-Henc. done.
Qed.

Lemma put_cases iter c st pf t x w' :
  tree_inv (ps_index (ss_pages st)) t →
  (∀ c', named (t_fs t) (spm_path (snapshot_ref c)) = Some c' → c' = c) →
  put_snapshot iter c (st, (pf, t)) = (x, w') →
  ps_index (ss_pages w'.1) = ps_index (ss_pages st) ∧ tree_inv (ps_index (ss_pages st)) w'.2.2 ∧
  ss_cache w'.1 = ss_cache st ∧ t_ddirs w'.2.2 = t_ddirs t ∧ (∀ r m, holds t r m → holds w'.2.2 r m) ∧
  ∀ r, x = Ok r → put_done iter c (st, (pf, t)) w' r.
Proof.
  intros Hi Hnc. unfold put_snapshot, ibind at 1. destruct (imap_err PutManifest (iof (decode c)) (st, (pf, t))) as [xm w0] eqn:Hm.
  assert (w0 = (st, (pf, t)) ∧ ∀ m, xm = Ok m → decode c = Ok m) as [-> Hdec].
  { unfold imap_err, iof in Hm. simplify_eq. split; [done|]. intros m ?%map_err_Ok. done. }
  destruct xm as [m|e|]; [|intros [= <- <-]; done..]. specialize (Hdec m eq_refl).
  pose proof (decode_wf _ _ Hdec) as Hwf. pose proof (decode_canonical _ _ Hdec) as Henc.
  assert (∀ w1, frame (st, (pf, t)) w1 → ps_index (ss_pages w1.1) = ps_index (ss_pages st) ∧ tree_inv (ps_index (ss_pages st)) w1.2.2 ∧
    ss_cache w1.1 = ss_cache st ∧ t_ddirs w1.2.2 = t_ddirs t ∧ (∀ r m, holds t r m → holds w1.2.2 r m)) as Hfr.
  { intros w1 (Hpg & _ & Hs & Hca). cbn in Hpg, Hs, Hca. rewrite Hpg.
    split_and!; [done|by eapply tree_inv_same|done|apply Hs|intros; by eapply holds_same]. }
  unfold ibind at 1. destruct (check_parent m (st, (pf, t))) as [x1 w1] eqn:H1. pose proof (framed_check_parent _ _ _ _ H1) as F1.
  destruct x1 as [[]|e|]; [|intros [= <- <-]; destruct (Hfr w1 F1) as (? & ? & ? & ? & ?); by split_and!..].
  unfold ibind at 1. destruct (check_pages m w1) as [x2 w2] eqn:H2.
  pose proof (frame_trans _ _ _ F1 (framed_check_pages _ _ _ _ H2)) as F2.
  destruct x2 as [[]|e|]; [|intros [= <- <-]; destruct (Hfr w2 F2) as (? & ? & ? & ? & ?); by split_and!..].
  pose proof (check_pages_Ok _ _ _ H2) as Hpg. rewrite (proj1 (Hfr w1 F1)) in Hpg.
  pose proof (parent_chain _ _ _ _ _ Hi Hwf (same_tree_refl t : same_tree t (st, (pf, t)).2.2) H1) as Hpar.
  destruct w2 as [st2 [pf2 t2]]. destruct F2 as (Fp & Ff & Ft & Fc). cbn [fst snd] in Fp, Ff, Ft, Fc. subst pf2.
  unfold ibind at 1, on_pages at 1, imap_err at 1, zoom at 1. cbn [fst snd]. rewrite Fp.
  pose proof (sync_keeps_index iter (ss_pages st, pf)) as Hkx.
  destruct (sync iter (ss_pages st, pf)) as [x3 [ps3 pf3]] eqn:H3. cbn [fst snd] in Hkx. cbn [fst snd map_err].
  pose proof (tree_inv_same _ _ _ Ft Hi) as Hi2. set (r := snapshot_ref c) in *.
  destruct x3 as [[]|e|]; [|intros [= <- <-]; cbn [fst snd ss_pages set_pages ss_cache]; split_and!; try done; [apply Ft|intros; by eapply holds_same]..].
  intros H4. rewrite <-Hkx. rewrite <-Hkx in Hi, Hi2, Hpg.
  eapply finish_put_cases in H4 as (Hsp & Hsf & Hi4 & Hca4 & Hdd4 & Hmo4 & Hok4); [|exact Hi2|exact Hdec|exact Hpg| |].
  - rewrite Hsp. split; [done|]. split; [done|]. split; [by rewrite Hca4|].
    split; [rewrite Hdd4; apply Ft|].
    split; [intros; by eapply Hmo4, holds_same|]. intros r' Hx. destruct (Hok4 r' Hx) as (? & Hh & Hdu). split; [done|by exists m| |].
    + exists ps3, pf3. split; [done|]. by rewrite Hsp.
    + cbn [fst snd]. intros Hn. apply Hdu. by rewrite (same_tree_named _ _ _ Ft).
  - intros Hd. destruct (Hpar Hd) as (p & pm & rest & ? & ? & ?). exists p, pm, rest. split_and!; [done| |done].
    eapply chain_mono; [|done]. intros; by eapply holds_same.
  - intros c'. rewrite (same_tree_named _ _ _ Ft). apply Hnc.
Qed.

End inv.
