(* ===== verification/SnapStoreRead.v ===== *)
(** * Reading snapshots back

    [get_snapshot] returns the bytes that were put, and [resolve_pages]
    streams, for a stored snapshot, the page table of its flattened chain
    with verified payloads. *)

From S2P Require Import Prelude Types Manifest Fs Pack Index Names ReadCache PageStore PageStoreInv.
From S2P Require Import PageStoreIngest PageStoreRead PageStoreSync PageStoreSpec SnapStore SnapStoreInv.

Section reads.
Context {HB : Blake3} {HZ : Zstd} {HC : Crc32}.

Lemma path_exists_calm {E} p t : calm (t_fs t) →
  path_exists (E:=E) p t = (Ok (bool_decide (is_Some (fs_dir (t_fs t) !! p))), t).
Proof.
  intros Hs. unfold path_exists, path_len. rewrite syscall_calm by done.
  destruct (fs_dir (t_fs t) !! p); by destruct t.
Qed.

Lemma sync_shard_calm d t : calm (t_fs t) → sync_shard d t = (Ok tt, set_t_fs (set_ddir (sync_names d (t_fs t)) (t_fs t)) t).
Proof.
  intros Hs. unfold sync_shard, in_fs, zoom. erewrite ibind_step by (rewrite syscall_calm by done; reflexivity).
  by rewrite syscall_calm.
Qed.

Lemma named_dir s p c : named s p = Some c → is_Some (fs_dir s !! p).
Proof. unfold named. destruct (fs_dir s !! p); [by eexists|done]. Qed.

Lemma read_file_calm p s b : calm s → named s p = Some b → read_file p s = (Ok b, s).
Proof.
  intros Hs Hn. unfold named in Hn. destruct (fs_dir s !! p) as [i|] eqn:Hi; [|done]. simplify_eq/=.
  unfold read_file. erewrite ibind_step by (unfold open_existing; rewrite syscall_calm, Hi by done; reflexivity).
  by rewrite syscall_calm.
Qed.

Lemma encode_footer m : 32 ≤ zlen (encode m) ∧ sub (zlen (encode m) - 32) (zlen (encode m)) (encode m) = blake3 (encode_body m).
Proof.
  unfold encode. pose proof (zlen_nonneg (encode_body m)). pose proof (zlen_blake3 (encode_body m)).
  rewrite zlen_app. split; [lia|]. rewrite sub_app_r by lia. apply sub_all; lia.
Qed.

Lemma read_manifest_calm t r m : holds t r m → calm (t_fs t) → read_manifest_bytes r t = (Ok (encode m), t).
Proof.
  intros (Hn & Hwf & Hb) Hs. unfold read_manifest_bytes. erewrite ibind_step by by apply path_exists_calm.
  rewrite bool_decide_eq_true_2 by by eapply named_dir. cbn [negb].
  erewrite ibind_step by (apply imap_step; unfold in_fs, zoom; rewrite (read_file_calm _ _ _ Hs Hn); reflexivity).
  destruct (encode_footer m) as [Hl Hf]. rewrite (proj2 (Z.ltb_ge _ _)) by lia. rewrite Hf, snapshot_ref_encode, Hb.
  rewrite !bool_decide_eq_true_2 by done. by destruct t.
Qed.

Lemma walk_chain_ok t r l fuel :
  chain t r l → calm (t_fs t) → (length l ≤ fuel)%nat → walk_chain fuel r t = (Ok l, t).
Proof.
  intros Hc Hs. revert fuel. induction Hc as [r m Hm Hd|r m p pm rest Hm Hd Hp Hc IH Hg]; intros [|fuel] Hf; simpl in Hf; try lia;
    cbn [walk_chain]; (erewrite ibind_step by by apply read_manifest_calm);
    (erewrite ibind_step by (apply imap_step; unfold iof; rewrite decode_encode by apply Hm; reflexivity)); rewrite Hd.
  - done.
  - rewrite Hp. erewrite ibind_step by reflexivity. erewrite ibind_step by (apply IH; simpl; lia). done.
Qed.

Lemma walk_chain_deep t r l fuel :
  chain t r l → calm (t_fs t) → (fuel < length l)%nat → walk_chain fuel r t = (Err ChainDepthExceeded, t).
Proof.
  intros Hc Hs. revert fuel. induction Hc as [r m Hm Hd|r m p pm rest Hm Hd Hp Hc IH Hg]; intros [|fuel] Hf; simpl in Hf; try done; try lia.
  cbn [walk_chain]. erewrite ibind_step by by apply read_manifest_calm.
  erewrite ibind_step by (apply imap_step; unfold iof; rewrite decode_encode by apply Hm; reflexivity). rewrite Hd, Hp.
  erewrite ibind_step by reflexivity. unfold ibind. rewrite (IH fuel ltac:(simpl; lia)). done.
Qed.

Lemma chain_manifests t r l : chain t r l →
  ∃ m root, head l.*2 = Some m ∧ holds t r m ∧ last l.*2 = Some root ∧ delta root = false ∧ chain_ok (guest_ram_bytes m) l.*2.
Proof.
  induction 1 as [r m Hm Hd|r m p pm rest Hm Hd Hp Hc IH Hg].
  - exists m, m. split_and!; try done. constructor; [|constructor]. split; [apply Hm|done].
  - destruct IH as (m' & root & Hh & Hm' & Hl & Hdr & Hok). exists m, root. split_and!; try done.
    cbn in Hh. injection Hh as <-. constructor; [split; [apply Hm|done]|]. by rewrite <-Hg.
Qed.

Lemma chain_delta_prefix t r l l1 l2 e :
  chain t r l → l = l1 ++ e :: l2 → l1 ≠ [] → ∃ d, last l1.*2 = Some d ∧ delta d = true.
Proof.
  intros Hc. revert l1. induction Hc as [r m Hm Hd|r m p pm rest Hm Hd Hp Hc IH Hg]; intros l1 Heq Hne;
    destruct l1 as [|x l1]; [done| |done|].
  - destruct l1; simplify_eq.
  - injection Heq as <- Heq. destruct l1 as [|y l1]; [by exists m|]. destruct (IH (y :: l1) Heq ltac:(done)) as (d & Hl & Hdd).
    exists d. split; [|done]. by rewrite fmap_cons, last_cons, Hl.
Qed.

(** Every manifest of a chain is stored. *)
Lemma chain_holds t r l r' m : chain t r l → (r', m) ∈ l → holds t r' m.
Proof.
  induction 1; intros Hin; apply elem_of_cons in Hin as [?|Hin]; simplify_eq; try done; [by apply not_elem_of_nil in Hin|auto].
Qed.

Lemma chain_entry_indexed idx t r l i e :
  tree_inv idx t → chain t r l → chain_lookup l.*2 i = Some e → is_Some (index_get idx (page_hash e)).
Proof.
  intros Hi Hc He. assert (∃ m, m ∈ l.*2 ∧ e ∈ entries m) as (m & Hm & Hin).
  { clear Hc. induction l as [|[r' m] l IH]; [done|]. cbn in He. destruct (find_entry (entries m) i) as [e'|] eqn:Hf.
    - simplify_eq. apply find_entry_Some in Hf as [? _]. exists m. split; [left|done].
    - destruct (IH He) as (m' & ? & ?). exists m'. split; [by right|done]. }
  apply list_elem_of_fmap in Hm as ([r' m'] & -> & Hm). pose proof (chain_holds _ _ _ _ _ Hc Hm) as Hh.
  eapply (ti_pages _ _ Hi r' m'); [by eapply holds_hash_ok|done|done].
Qed.

(** ** Streaming the pages *)

Definition good_item (e : ManifestEntry) (x : res SnapError ResolvedPage) : Prop :=
  ∃ d, x = Ok (page_index e, page_hash e, Some d) ∧ blake3 d = page_hash e ∧ zlen d = PAGE_SIZE.

(** Entries whose pages the store has. *)
Definition indexed (st : SnapshotStore) (es : list ManifestEntry) : Prop :=
  Forall (λ e, is_Some (index_get (ps_index (ss_pages st)) (page_hash e))) es.

Lemma refill_ok packs st pf t es :
  store_ok packs (ss_pages st) pf → calm pf → indexed st es →
  ∃ out ps pf', on_pages EPageStore (get_batch (page_hash <$> es)) (st, (pf, t)) = (Ok out, (set_pages ps st, (pf', t))) ∧
    store_ok packs ps pf' ∧ calm pf' ∧ ps_index ps = ps_index (ss_pages st) ∧
    Forall2 good_item es (chunk_items es out).
Proof.
  intros Hok Hs Hin. destruct (get_batch_ok packs (ss_pages st) pf (page_hash <$> es) Hok Hs)
    as (out & ps & pf' & Hg & Hs' & Hok' & Hx & _ & _ & Hl & Ha).
  exists out, ps, pf'. split; [unfold on_pages, imap_err, zoom; cbn [fst snd]; by rewrite Hg|].
  split; [exact Hok'|]. split; [done|]. split; [done|]. rewrite length_fmap in Hl.
  assert (∀ i e, es !! i = Some e → ∃ d, out !! i = Some (Some d) ∧ blake3 d = page_hash e ∧ zlen d = PAGE_SIZE) as Hall.
  { intros i e He. specialize (Ha i (page_hash e)). rewrite list_lookup_fmap, He in Ha. specialize (Ha eq_refl).
    unfold indexed in Hin. rewrite Forall_lookup in Hin. destruct (Hin i e He) as [l Hl']. rewrite Hl' in Ha.
    destruct Ha as (d & Hd & Hp). exists d. split; [done|]. by eapply page_of_hash; [exact (proj1 Hok)|]. }
  clear Ha Hin Hg. revert out Hl Hall. induction es as [|e es IH]; intros [|o out] Hl Hall; simplify_eq/=; [constructor|].
  constructor.
  - destruct (Hall 0%nat e eq_refl) as (d & [= ->] & ? & ?). by exists d.
  - apply IH; [lia|]. intros i. apply (Hall (S i)).
Qed.

Lemma collect_ok packs fuel es pos cs chunk st pf t :
  (length (cs ++ drop pos es) < fuel)%nat → Forall2 good_item cs chunk → indexed st es →
  store_ok packs (ss_pages st) pf → calm pf →
  ∃ items st' pf', resolved_collect fuel (mk_resolved es pos false chunk) (st, (pf, t)) = (items, (st', (pf', t))) ∧
    store_ok packs (ss_pages st') pf' ∧ Forall2 good_item (cs ++ drop pos es) items.
Proof.
  revert pos cs chunk st pf. induction fuel as [|fuel IH]; intros pos cs chunk st pf Hf Hc Hin Hok Hs; [lia|].
  cbn [resolved_collect]. unfold resolved_next. cbn [rp_hashes_only rp_chunk rp_entries rp_pos].
  destruct Hc as [|e x cs chunk Hx Hc].
  - destruct (length es <=? pos)%nat eqn:Hp.
    { apply Nat.leb_le in Hp. exists [], st, pf. split; [done|]. split; [exact Hok|]. rewrite drop_ge by done. constructor. }
    apply Nat.leb_gt in Hp. set (sl := take RESOLVE_CHUNK (drop pos es)).
    destruct (refill_ok packs st pf t sl Hok Hs) as (out & ps & pf' & Hg & Hok' & Hs' & Hx & Hf2).
    { by apply Forall_take, Forall_drop. }
    rewrite Hg. assert (drop pos es = sl ++ drop ((pos + RESOLVE_CHUNK) `min` length es) es) as Hsplit.
    { unfold sl. rewrite <-(take_drop RESOLVE_CHUNK (drop pos es)) at 1. f_equal. rewrite drop_drop.
      destruct (decide (pos + RESOLVE_CHUNK ≤ length es)%nat); [by rewrite Nat.min_l|].
      rewrite Nat.min_r by lia. rewrite !drop_ge by lia. done. }
    destruct (chunk_items sl out) as [|x chunk] eqn:Hci.
    { exfalso. apply Forall2_nil_inv_r in Hf2. apply (f_equal length) in Hf2. unfold sl in Hf2.
      rewrite length_take, length_drop in Hf2. unfold RESOLVE_CHUNK in Hf2. cbn [length] in Hf2. lia. }
    cbn [head hd_error tail]. apply Forall2_cons_inv_r in Hf2 as (e & sl' & Hxe & Hf2' & Hsl).
    destruct (IH ((pos + RESOLVE_CHUNK) `min` length es)%nat sl' chunk (set_pages ps st) pf') as (items & st' & pf2 & Hr & Hok2 & Hf2).
    { rewrite app_nil_l, Hsplit, Hsl in Hf. rewrite length_app in Hf |- *. cbn [length] in Hf. lia. }
    { done. }
    { unfold indexed in *. cbn [set_pages ss_pages]. by rewrite Hx. }
    { exact Hok'. }
    { done. }
    rewrite Hr. exists (x :: items), st', pf2. split; [done|]. split; [exact Hok2|].
    rewrite app_nil_l, Hsplit, Hsl. by constructor.
  - destruct (IH pos cs chunk st pf) as (items & st' & pf2 & Hr & Hok2 & Hf2); [simpl in Hf; lia|done..|].
    rewrite Hr. exists (x :: items), st', pf2. split; [done|]. split; [exact Hok2|]. by constructor.
Qed.

(** The cached tables are the flattened chains, one for each reference. *)
Definition cache_ok (t : tree) (c : FlattenCache) : Prop :=
  NoDup (fc_entries c).*1 ∧ ∀ r es, fc_get c r = Some es → ∃ l, chain t r l ∧ flatten l.*2 = Ok es.

Lemma remove_first_sublist r l : (remove_first r l).*1 `sublist_of` l.*1.
Proof.
  induction l as [|[k v] l IH]; [done|]. cbn. case_bool_decide; cbn; [by apply sublist_cons|by apply sublist_skip].
Qed.

Lemma remove_first_gone r l : NoDup l.*1 → r ∉ (remove_first r l).*1.
Proof.
  induction l as [|[k v] l IH]; [by intros _ ?%not_elem_of_nil|]. cbn. intros [Hn Hd]%NoDup_cons.
  case_bool_decide as Hk; [by subst|]. cbn. rewrite not_elem_of_cons. split; [congruence|by apply IH].
Qed.

Lemma assoc_elem r l v : assoc r l = Some v → r ∈ l.*1.
Proof. induction l as [|[k x] l IH]; [done|]. cbn. case_bool_decide; intros; [subst; by left|right; by apply IH]. Qed.

Lemma assoc_remove_first r r' l : r' ≠ r → assoc r' (remove_first r l) = assoc r' l.
Proof.
  intros Hne. induction l as [|[k v] l IH]; [done|]. simpl. case_bool_decide as Hk; [|simpl; by case_bool_decide].
  subst. by rewrite bool_decide_eq_false_2.
Qed.

Lemma assoc_take r n l v : assoc r (take n l) = Some v → assoc r l = Some v.
Proof.
  revert n. induction l as [|[k x] l IH]; intros [|n]; simpl; try done. case_bool_decide; [done|]. apply IH.
Qed.

Lemma cache_ok_insert t c r l es :
  cache_ok t c → chain t r l → flatten l.*2 = Ok es → cache_ok t (fc_insert c r es).
Proof.
  intros [Hnd Hc] Hl Hf. split.
  { assert (NoDup ((r, es) :: remove_first r (fc_entries c)).*1) as Hn.
    { cbn. apply NoDup_cons. split; [by apply remove_first_gone|]. eapply sublist_NoDup; [done|apply remove_first_sublist]. }
    unfold fc_insert. cbn [fc_entries]. case_match; [|done]. rewrite fmap_take. eapply sublist_NoDup; [done|apply sublist_take]. }
  intros r' es' Hg. assert (assoc r' ((r, es) :: remove_first r (fc_entries c)) = Some es') as Ha.
  { unfold fc_get, fc_insert in Hg. cbn [fc_entries] in Hg. case_match; [by apply assoc_take in Hg|done]. }
  cbn [assoc] in Ha. case_bool_decide as Hk; [simplify_eq; by exists l|].
  rewrite assoc_remove_first in Ha by done. by apply Hc.
Qed.

Lemma flatten_chain_ok st pf t r l :
  cache_ok t (ss_cache st) → chain t r l →
  ∃ es c, flatten_chain l r (st, (pf, t)) = (Ok es, (set_fcache c st, (pf, t))) ∧ flatten l.*2 = Ok es ∧ cache_ok t c.
Proof.
  intros Hc Hl. unfold flatten_chain. erewrite ibind_step by reflexivity. cbn [fst].
  destruct (fc_get (ss_cache st) r) as [es|] eqn:Hg.
  - destruct (proj2 Hc r es Hg) as (l' & Hl' & Hf). rewrite (chain_fun _ _ _ _ Hl' Hl) in Hf.
    exists es, (ss_cache st). by destruct st.
  - destruct (chain_manifests _ _ _ Hl) as (m & root & _ & _ & Hlast & Hd & Hok).
    destruct (flatten_ok _ _ _ Hok Hlast Hd) as (es & Hf & _). exists es, (fc_insert (ss_cache st) r es).
    split; [|split; [done|by eapply cache_ok_insert]]. erewrite ibind_step by (apply imap_step; unfold iof; by rewrite Hf). done.
Qed.

(** A healthy snapshot store. *)
Record snap_ok (packs : packs_t) (w : SnapshotStore * disk) : Prop := {
  sk_pages : store_ok packs (ss_pages w.1) w.2.1;
  sk_tree : tree_inv (ps_index (ss_pages w.1)) w.2.2;
  sk_cache : cache_ok w.2.2 (ss_cache w.1);
}.

(** Iterating a freshly resolved table yields its pages in order. *)
Lemma stream_ok packs st pf t es :
  store_ok packs (ss_pages st) pf → calm pf → indexed st es →
  ∃ items w', resolved_collect (S (length es)) (mk_resolved es 0 false []) (st, (pf, t)) = (items, w') ∧ Forall2 good_item es items.
Proof.
  intros Hok Hs Hin. destruct (collect_ok packs (S (length es)) es 0 [] [] st pf t) as (items & st' & pf' & Hr & _ & Hf);
    [rewrite app_nil_l, drop_0; lia|constructor|done|exact Hok|done|]. exists items, (st', (pf', t)). by split.
Qed.

Lemma flatten_indexed st t r l es :
  tree_inv (ps_index (ss_pages st)) t → chain t r l → flatten l.*2 = Ok es → indexed st es.
Proof.
  intros Hi Hl Hf. destruct (chain_manifests _ _ _ Hl) as (m & root & _ & _ & Hlast & Hd & Hok).
  destruct (flatten_ok _ _ _ Hok Hlast Hd) as (es' & Hf' & Hn & Ho). rewrite Hf in Hf'. injection Hf' as <-.
  apply Forall_lookup. intros i e He. eapply chain_entry_indexed; [done|done|].
  rewrite <-(Ho (Z.of_nat i)), Nat2Z.id; [exact He|]. apply lookup_lt_Some in He. unfold zlen in Hn. lia.
Qed.

(** The segment above a baseline flattens to its touched pages. *)
Lemma segment_ok st t r l1 e l2 :
  tree_inv (ps_index (ss_pages st)) t → chain t r (l1 ++ e :: l2) → l1 ≠ [] →
  ∃ es, flatten_delta l1.*2 = Ok es ∧ StronglySorted entry_lt es ∧
    (∀ e, e ∈ es ↔ chain_lookup l1.*2 (page_index e) = Some e) ∧ indexed st es.
Proof.
  intros Hi Hl Hne. destruct (chain_manifests _ _ _ Hl) as (m & root & _ & _ & _ & _ & Hok).
  rewrite fmap_app in Hok. apply Forall_app in Hok as [Hok _].
  destruct (chain_delta_prefix _ _ _ l1 l2 e Hl eq_refl Hne) as (d & Hlast & Hd).
  destruct (flatten_delta_ok _ _ _ Hok Hlast Hd) as (es & Hf & Hs & Ho). exists es. split; [done|]. split; [done|].
  assert (∀ e, e ∈ es ↔ chain_lookup l1.*2 (page_index e) = Some e) as Hin.
  { intros x. rewrite <-Ho. split; [intros Hx; apply find_entry_nodup; [by apply nodup_of_strict|done]|by intros [? _]%find_entry_Some]. }
  split; [done|]. apply Forall_forall. intros x Hx%Hin. eapply (chain_entry_indexed _ _ _ _ (page_index x)); [done|exact Hl|].
  by rewrite fmap_app, chain_lookup_app, Hx.
Qed.

(** C6. [resolve_pages] without a baseline on a stored snapshot: the
    stream has one item per page of the RAM, in ascending order, each with
    the hash of the nearest manifest of the chain that has the page and a
    4096-byte payload with that hash; a chain of more than 4096 manifests
    is refused. *)
Theorem resolve_pages_full packs st pf t r l :
  snap_ok packs (st, (pf, t)) → calm pf → calm (t_fs t) → chain t r l →
  if (length l <=? MAX_CHAIN)%nat then
    ∃ m it w items w', holds t r m ∧ resolve_pages r None false (st, (pf, t)) = (Ok it, w) ∧
      resolved_collect (S (length (rp_entries it))) it w = (items, w') ∧
      zlen items = guest_ram_bytes m / PAGE_SIZE_V1 ∧
      ∀ i, 0 ≤ i < guest_ram_bytes m / PAGE_SIZE_V1 →
        ∃ e d, items !! Z.to_nat i = Some (Ok (i, page_hash e, Some d)) ∧ chain_lookup l.*2 i = Some e ∧
          blake3 d = page_hash e ∧ zlen d = PAGE_SIZE
  else resolve_pages r None false (st, (pf, t)) = (Err ChainDepthExceeded, (st, (pf, t))).
Proof.
  intros [Hpg Hi Hc] Hs Ht Hl. cbn [fst snd] in *. destruct (length l <=? MAX_CHAIN)%nat eqn:Hd.
  2: { apply Nat.leb_gt in Hd. unfold resolve_pages, ibind, on_tree, imap_err, zoom. cbn [fst snd].
       by rewrite (walk_chain_deep _ _ _ _ Hl Ht Hd). }
  apply Nat.leb_le in Hd. destruct (chain_manifests _ _ _ Hl) as (m & root & _ & Hm & Hlast & Hdr & Hok).
  destruct (flatten_chain_ok st pf t r l Hc Hl) as (es & c & Hfc & Hf & _).
  destruct (flatten_ok _ _ _ Hok Hlast Hdr) as (es' & Hf' & Hn & Ho). rewrite Hf in Hf'. injection Hf' as <-.
  destruct (stream_ok packs (set_fcache c st) pf t es Hpg Hs (flatten_indexed _ _ _ _ _ Hi Hl Hf)) as (items & w' & Hit & Hf2).
  exists m, (mk_resolved es 0 false []), (set_fcache c st, (pf, t)), items, w'. split; [done|]. split.
  { unfold resolve_pages. erewrite ibind_step by (unfold on_tree, imap_err, zoom; cbn [fst snd]; rewrite (walk_chain_ok _ _ _ _ Hl Ht Hd); reflexivity).
    by erewrite ibind_step by exact Hfc. }
  split; [exact Hit|]. split; [unfold zlen in *; by rewrite <-(Forall2_length _ _ _ Hf2)|]. intros i Hir.
  destruct (chain_covers _ _ _ i Hok Hlast Hdr Hir) as [e He]. specialize (Ho i Hir). rewrite He in Ho.
  destruct (Forall2_lookup_l _ _ _ _ _ Hf2 Ho) as (x & Hx & (d & -> & Hb & Hz)). exists e, d.
  pose proof (chain_lookup_index _ _ _ He) as Hix. rewrite Hix in Hx. by split_and!.
Qed.

(** [resolve_pages] against a baseline of the chain: the stream holds
    exactly the pages some manifest strictly above the baseline has, in
    ascending order, each with the nearest entry and a verified payload; a
    reference outside the chain is refused. *)
Theorem resolve_pages_baseline packs st pf t r l b :
  snap_ok packs (st, (pf, t)) → calm pf → calm (t_fs t) → chain t r l → (length l ≤ MAX_CHAIN)%nat →
  (b ∉ l.*1 → resolve_pages r (Some b) false (st, (pf, t)) = (Err BaselineNotAncestor, (st, (pf, t)))) ∧
  ∀ l1 m2 l2, l = l1 ++ (b, m2) :: l2 → b ∉ l1.*1 →
    ∃ it w items w', resolve_pages r (Some b) false (st, (pf, t)) = (Ok it, w) ∧
      resolved_collect (S (length (rp_entries it))) it w = (items, w') ∧
      Forall2 good_item (rp_entries it) items ∧ StronglySorted entry_lt (rp_entries it) ∧
      ∀ e, e ∈ rp_entries it ↔ chain_lookup l1.*2 (page_index e) = Some e.
Proof.
  intros [Hpg Hi Hc] Hs Ht Hl Hd. cbn [fst snd] in *.
  assert (on_tree id (walk_chain MAX_CHAIN r) (st, (pf, t)) = (Ok l, (st, (pf, t)))) as Hw
    by (unfold on_tree, imap_err, zoom; cbn [fst snd]; by rewrite (walk_chain_ok _ _ _ _ Hl Ht Hd)).
  split.
  - intros Hb. unfold resolve_pages. erewrite ibind_step by exact Hw.
    destruct (list_find _ l) as [[i [b' m']]|] eqn:Hf; [|done]. apply list_find_Some in Hf as (Hx & Heq & _). cbn in Heq. subst.
    destruct Hb. apply list_elem_of_fmap. exists (b, m'). split; [done|]. by eapply list_elem_of_lookup_2.
  - intros l1 m2 l2 -> Hb. unfold resolve_pages. erewrite ibind_step by exact Hw.
    assert (list_find (λ e : SnapshotRef * Manifest, e.1 = b) (l1 ++ (b, m2) :: l2) = Some (length l1, (b, m2))) as ->.
    { apply list_find_Some. split_and!; [by rewrite list_lookup_middle|done|]. intros j y Hy Hlt Heq.
      rewrite lookup_app_l in Hy by done. apply Hb, list_elem_of_fmap. exists y. split; [done|]. by eapply list_elem_of_lookup_2. }
    rewrite take_app_length. destruct (decide (l1 = [])) as [->|Hne].
    + eexists _, _, [], _. split; [reflexivity|]. split; [reflexivity|]. cbn. split_and!; [constructor..|]. intros e. split; [by intros ?%not_elem_of_nil|done].
    + destruct (segment_ok st t r l1 (b, m2) l2 Hi Hl Hne) as (es & Hf & Hsrt & Hin & Hix).
      destruct (stream_ok packs st pf t es Hpg Hs Hix) as (items & w' & Hit & Hf2).
      exists (mk_resolved es 0 false []), (st, (pf, t)), items, w'. rewrite bool_decide_eq_false_2 by (by destruct l1).
      erewrite ibind_step by (apply imap_step; unfold iof; by rewrite Hf). done.
Qed.

End reads.
