(* ===== verification/StoreGcInv.v ===== *)
(** * Invariants of garbage collection

    Every phase of a cycle preserves [gc_inv]: the references held by the
    rest of the system stay closed (their chains stored, every page of the
    chain in the index), provided the callbacks, which stand for the other
    threads, respect [rely]. *)

From Stdlib Require Import Floats.SpecFloat.
From S2P Require Import Prelude Types Manifest Fs Faults Pack Index Names ReadCache PageStore PageStoreInv.
From S2P Require Import PageStoreIngest PageStoreRead PageStoreSync PageStoreGc SnapStore SnapStoreInv SnapStoreRead StoreGc.

Section gcinv.
Context {HB : Blake3} {HZ : Zstd} {HC : Crc32} (unix_now : Z).

(** ** Pack ids only grow *)

Definition next_of (w : SnapshotStore * disk) : PackId := a_next (ps_active (ss_pages w.1)).

Definition nondec {E A} (c : SM E A) : Prop := ∀ w, next_of w ≤ next_of (c w).2.
Definition nondec_p {A} (c : P A) : Prop := ∀ w, a_next (ps_active w.1) ≤ a_next (ps_active (c w).2.1).

Lemma nondec_ret {E A} (a : A) : nondec (E:=E) (iret a).
Proof. by intros w. Qed.
Lemma nondec_err {E A} (e : E) : nondec (A:=A) (ierr e).
Proof. by intros w. Qed.
Lemma nondec_panic {E A} : nondec (E:=E) (A:=A) ipanic.
Proof. by intros w. Qed.
Lemma nondec_of {E A} (r : res E A) : nondec (iof r).
Proof. by intros w. Qed.
Lemma nondec_bind {E A B} (c : SM E A) (k : A → SM E B) : nondec c → (∀ a, nondec (k a)) → nondec (ibind c k).
Proof.
  intros Hc Hk w. unfold ibind. specialize (Hc w). destruct (c w) as [[a|e|] w1]; cbn [snd] in *; [|done..].
  specialize (Hk a w1). lia.
Qed.
Lemma nondec_map_err {E F A} (f : E → F) (c : SM E A) : nondec c → nondec (imap_err f c).
Proof. intros Hc w. specialize (Hc w). unfold imap_err. by destruct (c w). Qed.
Lemma nondec_try {E F A} (c : SM E A) : nondec c → nondec (E:=F) (itry c).
Proof. intros Hc w. specialize (Hc w). unfold itry. by destruct (c w) as [[] ?]. Qed.
Lemma nondec_if {E A} (b : bool) (c d : SM E A) : nondec c → nondec d → nondec (if b then c else d).
Proof. by destruct b. Qed.
Lemma nondec_for {E A} (l : list A) (f : A → SM E unit) : (∀ a, nondec (f a)) → nondec (ifor l f).
Proof. intros Hf. induction l as [|a l IH]; cbn [ifor]; [apply nondec_ret|]. by apply nondec_bind. Qed.
Lemma nondec_on_tree {E F A} (f : E → F) (c : M tree E A) : nondec (on_tree f c).
Proof. intros [st [pf t]]. unfold on_tree, imap_err, zoom. cbn. by destruct (c t). Qed.
Lemma nondec_on_state {E A} (f : SnapshotStore → A * SnapshotStore) :
  (∀ st, ss_pages (f st).2 = ss_pages st) → nondec (E:=E) (on_state f).
Proof. intros Hf [st [pf t]]. unfold on_state, next_of. cbn. specialize (Hf st). destruct (f st). cbn in *. by rewrite Hf. Qed.
Lemma nondec_on_pages {E A} (f : StoreError → E) (c : P A) : nondec_p c → nondec (on_pages f c).
Proof.
  intros Hc [st [pf t]]. specialize (Hc (ss_pages st, pf)). unfold on_pages, imap_err, zoom, next_of. cbn in *.
  by destruct (c (ss_pages st, pf)) as [x [ps s]].
Qed.

Lemma nondec_p_bind {A B} (c : P A) (k : A → P B) : nondec_p c → (∀ a, nondec_p (k a)) → nondec_p (ibind c k).
Proof.
  intros Hc Hk w. unfold ibind. specialize (Hc w). destruct (c w) as [[a|e|] w1]; cbn [snd] in *; [|done..].
  specialize (Hk a w1). lia.
Qed.
Lemma nondec_p_on_fs {A} (c : M fs StoreError A) : nondec_p (on_fs c).
Proof. intros [ps s]. unfold on_fs, zoom. cbn. by destruct (c s). Qed.
Lemma nondec_p_read p off h : nondec_p (read_record p off h).
Proof.
  unfold read_record, read_from_cached_handle. apply nondec_p_bind; [|intros; apply nondec_p_on_fs].
  intros [ps s]. unfold imap_err, on_cache, zoom. cbn [fst snd].
  match goal with |- context [get_or_open ?q ?v] => destruct (get_or_open q v) as [x [m s']] end. cbn. lia.
Qed.
Lemma nondec_p_create : nondec_p (create_gc_pack unix_now).
Proof.
  intros [ps s]. unfold create_gc_pack, ibind, get_store, mod_active, on_fs, zoom. cbn [fst snd].
  match goal with |- context [imap_err SPack ?c ?x] => destruct (imap_err SPack c x) as [[]] end; cbn; lia.
Qed.
Lemma nondec_p_append g h payload : nondec_p (append_to g h payload).
Proof. intros [ps s]. unfold append_to. cbn [fst snd]. destruct (gc_append h payload (g, s)) as [[] [? ?]]; cbn; lia. Qed.
Lemma nondec_p_repoint h p l : nondec_p (store_repoint_if_in_pack h p l).
Proof. intros [ps s]. unfold store_repoint_if_in_pack. cbn [fst snd]. destruct (repoint_if_in_pack _ _ _ _). cbn. lia. Qed.
Lemma nondec_p_remove h p : nondec_p (store_remove_if_in_pack h p).
Proof. intros [ps s]. unfold store_remove_if_in_pack. cbn [fst snd]. destruct (remove_if_in_pack _ _ _). cbn. lia. Qed.
Lemma nondec_p_entries p : nondec_p (pack_entries p).
Proof. by intros [ps s]. Qed.
Lemma nondec_p_sealed : nondec_p sealed_pack_ids.
Proof.
  unfold sealed_pack_ids. apply nondec_p_bind; [by intros [ps s]|]. intros id.
  apply nondec_p_bind; [apply nondec_p_on_fs|by intros ids [ps s]].
Qed.
Lemma nondec_p_invalidate p : nondec_p (invalidate_pack_handle p).
Proof. by intros [ps s]. Qed.
Lemma nondec_p_delete p : nondec_p (delete_pack p).
Proof.
  unfold delete_pack. apply nondec_p_bind; [by intros [ps s]|]. intros _.
  apply nondec_p_bind; [apply nondec_p_on_fs|]. intros _. apply nondec_p_bind; [apply nondec_p_on_fs|]. intros _. apply nondec_p_on_fs.
Qed.

Create HintDb nondec.
#[local] Hint Resolve nondec_ret nondec_err nondec_panic nondec_of nondec_if nondec_map_err nondec_try nondec_for
  nondec_on_tree nondec_on_pages nondec_p_on_fs nondec_p_read nondec_p_create nondec_p_append nondec_p_repoint
  nondec_p_remove nondec_p_entries nondec_p_sealed nondec_p_invalidate nondec_p_delete : nondec.

Lemma nondec_drain {E} : nondec (E:=E) drain_late_roots.
Proof. apply nondec_on_state. intros st. by destruct (ss_epoch st). Qed.

Lemma nondec_mark_chain fuel first cursor live rp : nondec (mark_chain fuel first cursor live rp).
Proof.
  revert first cursor live. induction fuel as [|fuel IH]; intros first cursor live; cbn [mark_chain]; [auto with nondec|].
  apply nondec_if; [auto with nondec|]. apply nondec_bind; [auto with nondec|]. intros [b|e|]; [|destruct e; auto with nondec|auto with nondec].
  apply nondec_bind; [auto with nondec|]. intros m. apply nondec_if; [|auto with nondec]. apply nondec_bind; auto with nondec.
Qed.

Lemma nondec_mark roots live rp : nondec (gc_mark roots live rp).
Proof.
  revert live rp. induction roots as [|r roots IH]; intros live rp; cbn [gc_mark]; [auto with nondec|].
  apply nondec_bind; [apply nondec_mark_chain|]. by intros [].
Qed.

Lemma nondec_copy_loop records g : nondec (copy_loop records g).
Proof.
  revert g. induction records as [|[h l] records IH]; intros g; cbn [copy_loop]; [auto with nondec|].
  apply nondec_bind; [auto with nondec|]. intros d. apply nondec_if; [auto with nondec|]. apply nondec_bind; auto with nondec.
Qed.

Lemma nondec_copy records : nondec (gc_copy_records unix_now records).
Proof.
  unfold gc_copy_records. apply nondec_bind; [auto with nondec|]. intros g. apply nondec_bind; [apply nondec_copy_loop|]. intros g'.
  apply nondec_bind; [auto with nondec|]. intros []. auto with nondec.
Qed.

Lemma nondec_repoint_all p copied : nondec (repoint_all p copied).
Proof. apply nondec_for. intros e. apply nondec_bind; auto with nondec. Qed.
Lemma nondec_remove_dead p live dead : nondec (remove_dead p live dead).
Proof. apply nondec_for. intros e. apply nondec_if; [auto with nondec|]. apply nondec_bind; auto with nondec. Qed.
Lemma nondec_unlink p : nondec (unlink_pack p).
Proof. apply nondec_bind; auto with nondec. Qed.


(** ** Marking *)

Lemma read_manifest_same r t : calm (t_fs t) → (read_manifest_bytes r t).2 = t.
Proof.
  intros Hs. unfold read_manifest_bytes. erewrite ibind_step by by apply path_exists_calm.
  destruct (fs_dir (t_fs t) !! spm_path r) as [i|] eqn:Hi; [|done]. rewrite bool_decide_eq_true_2 by done. cbn [negb].
  assert (named (t_fs t) (spm_path r) = Some (content (t_fs t) i)) as Hn by (unfold named; by rewrite Hi).
  erewrite ibind_step by (apply imap_step; unfold in_fs, zoom; rewrite (read_file_calm _ _ _ Hs Hn); reflexivity).
  replace (set_t_fs (t_fs t) t) with t by by destruct t. repeat (case_match; [done|]). done.
Qed.

Lemma read_manifest_found r t m : calm (t_fs t) → holds t r m → read_manifest_bytes r t = (Ok (encode m), t).
Proof. intros Hs Hh. by apply read_manifest_calm. Qed.

Lemma holds_parent t r m : holds t r m → delta m = true → ∃ p, parent m = Some p.
Proof. intros (_ & Hw & _) Hd. pose proof (wf_kind _ Hw) as Hk. unfold kind_ok in Hk. rewrite Hd in Hk. destruct Hk as [(p & ? & _) _]. by exists p. Qed.

(** What [live] records of a marked manifest; [c] is the reference whose
    walk is still to be done. *)
Definition marked (t : tree) (live : LiveSet) (c : option SnapshotRef) : Prop :=
  ∀ r, r ∈ lv_manifests live → ∃ m, holds t r m ∧ (∀ e, e ∈ entries m → page_hash e ∈ lv_pages live) ∧
    (delta m = true → ∃ p, parent m = Some p ∧ (p ∈ lv_manifests live ∨ c = Some p)).

Abbreviation live_ok t live := (marked t live None).

Definition live_le (a b : LiveSet) : Prop := lv_pages a ⊆ lv_pages b ∧ lv_manifests a ⊆ lv_manifests b.
#[export] Instance live_le_preorder : PreOrder live_le.
Proof. split; [by intros a|]. intros a b c [] []. split; set_solver. Qed.

Lemma marked_weaken t live c : live_ok t live → marked t live c.
Proof.
  intros Hl r Hr. destruct (Hl r Hr) as (m & Hh & Hp & Hd). exists m. split_and!; [done|done|].
  intros Hdm. destruct (Hd Hdm) as (p & ? & [?|?]); [|done]. exists p. auto.
Qed.

Lemma marked_done t live c : marked t live (Some c) → c ∈ lv_manifests live → live_ok t live.
Proof.
  intros Hl Hc r Hr. destruct (Hl r Hr) as (m & Hh & Hp & Hd). exists m. split_and!; [done|done|].
  intros Hdm. destruct (Hd Hdm) as (p & ? & [?|[= ->]]); exists p; auto.
Qed.

Lemma marked_insert t live c m c' :
  marked t live (Some c) → holds t c m → (delta m = true → ∃ p, parent m = Some p ∧ c' = Some p) →
  marked t (live_manifest c m live) c'.
Proof.
  intros Hl Hh Hd r [->%elem_of_singleton|Hr]%elem_of_union.
  - exists m. split; [done|]. split.
    + intros e He. apply elem_of_union_l, elem_of_list_to_set, list_elem_of_fmap. by exists e.
    + intros Hdm. destruct (Hd Hdm) as (p & ? & ?). exists p. auto.
  - destruct (Hl r Hr) as (m' & Hh' & Hp & Hd'). exists m'. split; [done|]. split.
    + intros e He. apply elem_of_union_r. by apply Hp.
    + intros Hdm. destruct (Hd' Hdm) as (p & Hpp & Hor). exists p. split; [done|]. left. destruct Hor as [?|[= ->]]; cbn; set_solver.
Qed.

Lemma live_default_ok t c : marked t live_default c.
Proof. intros r Hr. by apply elem_of_empty in Hr. Qed.

Lemma live_manifest_le r m live : live_le live (live_manifest r m live).
Proof. split; cbn; set_solver. Qed.

(** The walk changes nothing; if it ends well the reference is marked with
    its whole chain, or was skipped because it is not stored. *)
Lemma mark_chain_ok fuel first cursor live rp w x w' :
  calm (t_fs w.2.2) → marked w.2.2 live (Some cursor) → mark_chain fuel first cursor live rp w = (x, w') →
  w' = w ∧ ∀ live' rp', x = Ok (live', rp') → live_le live live' ∧
    ((cursor ∈ lv_manifests live' ∧ live_ok w.2.2 live') ∨
     (first = true ∧ live' = live ∧ ∀ m, ¬ holds w.2.2 cursor m)).
Proof.
  intros Hs. revert first cursor live. induction fuel as [|fuel IH]; intros first cursor live Hl; cbn [mark_chain].
  { intros [= <- <-]. done. }
  destruct (bool_decide (cursor ∈ lv_manifests live)) eqn:Hin; b2p.
  { intros [= <- <-]. split; [done|]. intros live' rp' [= <- <-]. split; [done|]. left. split; [done|]. by eapply marked_done. }
  destruct w as [st [pf t]]. cbn [fst snd] in *.
  destruct (read_manifest_bytes cursor t) as [y t'] eqn:Hr. pose proof (read_manifest_same cursor t Hs) as Ht. rewrite Hr in Ht. cbn in Ht. subst t'.
  assert (itry (E:=SnapError) (F:=SnapError) (on_tree id (read_manifest_bytes cursor)) (st, (pf, t)) =
    (match y with Panic => Panic | _ => Ok y end, (st, (pf, t)))) as Hy.
  { unfold itry, on_tree, imap_err, zoom. cbn [fst snd]. rewrite Hr. by destruct y. }
  destruct y as [buf|e|].
  - erewrite ibind_step by exact Hy. cbv iota. destruct (decode buf) as [m|e|] eqn:Hdec.
    2,3: unfold ibind at 1, imap_err, iof; cbn [map_err]; by intros [= <- <-].
    destruct (read_manifest_Ok _ _ _ _ Hr) as [Hn Href].
    assert (holds t cursor m) as Hh. { rewrite <-Href. apply decode_holds; [done|]. by rewrite Href. }
    erewrite ibind_step by (apply imap_step; reflexivity). cbv zeta.
    pose proof (live_manifest_le cursor m live) as Hle.
    destruct (delta m) eqn:Hd.
    + destruct (holds_parent _ _ _ Hh Hd) as (p & Hp). erewrite ibind_step by (unfold iof; rewrite Hp; reflexivity).
      intros Hk. destruct (IH false p (live_manifest cursor m live)) with (1 := marked_insert t live cursor m (Some p) Hl Hh ltac:(by exists p)) (2 := Hk)
        as [-> Hok]. split; [done|]. intros live' rp' ->. destruct (Hok live' rp' eq_refl) as [Hle' [[Hp' Hl']|[? _]]]; [|done].
      split; [by etransitivity|]. left. split; [|done]. apply Hle'. cbn. set_solver.
    + intros [= <- <-]. split; [done|]. intros live' rp' [= <- <-]. split; [done|]. left. split; [cbn; set_solver|].
      apply marked_insert; [done|done|by rewrite Hd].
  - erewrite ibind_step by exact Hy. cbv iota. assert (∀ m, ¬ holds t cursor m) as Hno.
    { intros m Hh. by rewrite (read_manifest_found _ _ _ Hs Hh) in Hr. }
    destruct e; try (intros [= <- <-]; done). destruct first; intros [= <- <-]; [|done].
    split; [done|]. intros live' rp' [= <- <-]. split; [done|]. by right.
  - unfold ibind. rewrite Hy. by intros [= <- <-].
Qed.

Lemma gc_mark_ok roots live rp w x w' :
  calm (t_fs w.2.2) → live_ok w.2.2 live → gc_mark roots live rp w = (x, w') →
  w' = w ∧ ∀ live' rp', x = Ok (live', rp') → live_le live live' ∧ live_ok w.2.2 live' ∧
    ∀ r m, r ∈ roots → holds w.2.2 r m → r ∈ lv_manifests live'.
Proof.
  intros Hs. revert live rp. induction roots as [|r roots IH]; intros live rp Hl; cbn [gc_mark].
  { intros [= <- <-]. split; [done|]. intros live' rp' [= <- <-]. split_and!; [done|done|]. by intros r m ?%not_elem_of_nil. }
  unfold ibind. destruct (mark_chain MAX_CHAIN true r live rp w) as [y w1] eqn:Hm.
  destruct (mark_chain_ok _ _ _ _ _ _ _ _ Hs (marked_weaken _ _ _ Hl) Hm) as [-> Hok].
  destruct y as [[live1 rp1]|e|]; [|by intros [= <- <-]..]. destruct (Hok live1 rp1 eq_refl) as [Hle Hcase].
  assert (live_ok w.2.2 live1) as Hl1 by (destruct Hcase as [[_ ?]|(_ & -> & _)]; done).
  intros Hk. destruct (IH live1 rp1 Hl1 Hk) as [-> Hrest]. split; [done|]. intros live' rp' ->.
  destruct (Hrest live' rp' eq_refl) as (Hle' & Hl' & Hin). split_and!; [by etransitivity|done|].
  intros r' m [->|Hr']%elem_of_cons Hh; [|by eapply Hin].
  destruct Hcase as [[Hr1 _]|(_ & _ & Hno)]; [by apply Hle'|by destruct (Hno m)].
Qed.

(** ** Copying *)

Definition with_pages (ps : PageStore) (s : fs) (w : SnapshotStore * disk) : SnapshotStore * disk :=
  (set_pages ps w.1, (s, w.2.2)).

Lemma on_pages_eq {E A} (f : StoreError → E) (c : P A) st pf t :
  on_pages f c (st, (pf, t)) =
  (map_err f (c (ss_pages st, pf)).1, with_pages (c (ss_pages st, pf)).2.1 (c (ss_pages st, pf)).2.2 (st, (pf, t))).
Proof. unfold on_pages, imap_err, zoom. cbn. by destruct (c (ss_pages st, pf)) as [x [ps s]]. Qed.

Lemma on_pages_step {E A} (f : StoreError → E) (c : P A) st pf t a ps s :
  c (ss_pages st, pf) = (Ok a, (ps, s)) → on_pages f c (st, (pf, t)) = (Ok a, with_pages ps s (st, (pf, t))).
Proof. intros Hc. by rewrite on_pages_eq, Hc. Qed.

Lemma gc_writing_cache packs ps s g hdr rs m : gc_writing packs ps s g hdr rs → gc_writing packs (set_cache m ps) s g hdr rs.
Proof. by intros []. Qed.

(** The records that can be copied: indexed, in a pack that is not active. *)
Definition copyable (ps : PageStore) (e : PageHash * PageLoc) : Prop :=
  flat (ps_index ps) !! e.1 = Some e.2 ∧ pack e.2 ≠ a_pack_id (ps_active ps).

Lemma copy_loop_ok packs st pf t records g hdr rs x w' :
  gc_ok packs (ss_pages st) pf → calm pf → gc_writing packs (ss_pages st) pf g hdr rs →
  Forall (copyable (ss_pages st)) records → copy_loop records g (st, (pf, t)) = (x, w') →
  ∃ m pf', w' = with_pages (set_cache m (ss_pages st)) pf' (st, (pf, t)) ∧ calm pf' ∧
    gc_ok packs (set_cache m (ss_pages st)) pf' ∧
    (∀ g', x = Ok g' → g_pack_id g' = g_pack_id g ∧
      ∃ rs', gc_writing packs (set_cache m (ss_pages st)) pf' g' hdr (rs ++ rs') ∧ rr_hash <$> rs' = records.*1)
    ∧ (room_for g rs (zlen records) → ∃ g', x = Ok g').
Proof.
  revert st pf g rs. induction records as [|[h l] records IH]; intros st pf g rs Hok Hs Hg Hall.
  { intros [= <- <-]. exists (ps_cache (ss_pages st)), pf. unfold with_pages. cbn [fst snd].
    replace (set_cache (ps_cache (ss_pages st)) (ss_pages st)) with (ss_pages st) by by destruct (ss_pages st).
    split; [by destruct st|]. split_and!; [done|done| |by eexists]. intros g' [= <-]. split; [done|]. exists []. by rewrite app_nil_r. }
  apply Forall_cons in Hall as [[Hl Hna] Hall]. cbn [fst snd] in Hl, Hna. cbn [copy_loop].
  destruct (read_record_ok packs (ss_pages st) pf h l (proj1 Hok) Hs Hl Hna) as (d & m & Hr & Hb & Hz & Hi').
  erewrite ibind_step by (apply on_pages_step; exact Hr). rewrite Hz, Z.eqb_refl. cbn [negb].
  assert (gc_ok packs (set_cache m (ss_pages st)) pf) as Hok' by (split; [done|apply Hok]).
  unfold with_pages at 1. cbn [fst snd]. set (st1 := set_pages (set_cache m (ss_pages st)) st).
  destruct (gc_append_ok packs (set_cache m (ss_pages st)) pf g hdr rs h d Hok' Hs (gc_writing_cache _ _ _ _ _ _ m Hg) Hz Hb)
    as [[Hcap [e He]]|(off & g1 & pf1 & Ha & Hs1 & Hok1 & Hg1 & Hid1 & Hmax)].
  - unfold ibind at 1. rewrite on_pages_eq. unfold append_to. cbn [fst snd]. rewrite He. intros [= <- <-].
    exists m, pf. split; [by destruct st|]. split_and!; [done|done|done|]. intros Hroom.
    rewrite (gc_writing_room _ _ _ _ _ _ _ Hg) with (2 := Hroom) in Hcap; [done|]. rewrite zlen_cons. pose proof (zlen_nonneg records). lia.
  - erewrite ibind_step by (apply on_pages_step; unfold append_to; cbn [fst snd]; rewrite Ha; reflexivity). intros Hk.
    set (st2 := set_pages (ss_pages st1) st1) in Hk. change (with_pages _ _ _) with (st2, (pf1, t)) in Hk.
    destruct (IH st2 pf1 g1 _ Hok1 Hs1 Hg1 Hall Hk) as (m2 & pf2 & -> & Hs2 & Hok2 & Hfin & Hrun).
    exists m2, pf2. split; [by destruct st|]. split_and!; [done|done| |].
    2: { intros Hroom. apply Hrun. unfold room_for in *. rewrite Hmax, zlen_app. rewrite zlen_cons in Hroom. change (zlen [_]) with 1. by rewrite <-Z.add_assoc. }
    intros g' Hx.
    destruct (Hfin g' Hx) as (Hid & rs' & Hg' & Hh). split; [congruence|]. exists (page_rec h d :: rs').
    rewrite <-app_assoc in Hg'. split; [done|]. cbn. by f_equal.
Qed.

(** A location that a record of the packs backs. *)
Definition backed (packs : packs_t) (h : PageHash) (l : PageLoc) : Prop :=
  ∃ hdr rs, packs !! pack l = Some (hdr, rs) ∧ (offset l, h) ∈ locs PACK_HEADER_SIZE rs.

Lemma gc_copy_ok packs st pf t records x w' :
  gc_ok packs (ss_pages st) pf → calm pf → a_next (ps_active (ss_pages st)) < 2 ^ 32 →
  Forall (copyable (ss_pages st)) records → gc_copy_records unix_now records (st, (pf, t)) = (x, w') →
  ∃ packs' ps' pf', w' = with_pages ps' pf' (st, (pf, t)) ∧ calm pf' ∧ gc_ok packs' ps' pf' ∧ packs ⊆ packs' ∧
    ps_index ps' = ps_index (ss_pages st) ∧ a_pack_id (ps_active ps') = a_pack_id (ps_active (ss_pages st)) ∧
    (a_next (ps_active ps') = a_next (ps_active (ss_pages st)) + 1 ∧ ps_opts ps' = ps_opts (ss_pages st)) ∧
    (∀ copied, x = Ok copied → copied.*1 = records.*1 ∧
      Forall (λ e, backed packs' e.1 e.2 ∧ packs !! pack e.2 = None) copied) ∧
    (PACK_HEADER_SIZE + zlen records * (RECORD_HEADER_SIZE + PAGE_SIZE) ≤ max_pack_bytes (ps_opts (ss_pages st)) →
      ∃ copied, x = Ok copied).
Proof.
  intros Hok Hs Hlt Hall. unfold gc_copy_records.
  destruct (create_gc_pack_ok unix_now packs (ss_pages st) pf Hok Hs Hlt) as (g & pf1 & hdr & Hc & Hs1 & Hok1 & Hg1 & Hid1 & Hmax).
  set (ps1 := set_active _ (ss_pages st)) in *.
  erewrite ibind_step by (apply on_pages_step; exact Hc). unfold with_pages at 1. cbn [fst snd].
  unfold ibind at 1. destruct (copy_loop records g (set_pages ps1 st, (pf1, t))) as [y w1] eqn:Hl.
  destruct (copy_loop_ok packs (set_pages ps1 st) pf1 t records g hdr [] _ _ Hok1 Hs1 Hg1 Hall Hl)
    as (m & pf2 & -> & Hs2 & Hok2 & Hfin & Hrun). cbn [ss_pages set_pages] in *.
  assert (PACK_HEADER_SIZE + zlen records * (RECORD_HEADER_SIZE + PAGE_SIZE) ≤ max_pack_bytes (ps_opts (ss_pages st)) → ∃ g', y = Ok g') as Hy.
  { intros Hle. apply Hrun. unfold room_for. by rewrite Hmax, zlen_nil. }
  destruct y as [g2|e|]; [|intros [= <- <-]; exists packs, (set_cache m ps1), pf2; (split; [by destruct st|]); split_and!; try done; intros Hle; by destruct (Hy Hle)..].
  destruct (Hfin g2 eq_refl) as (Hid2 & rs & Hg2 & Hh). cbn [app] in Hg2.
  destruct (seal_and_publish_ok packs (set_cache m ps1) pf2 g2 hdr rs Hok2 Hs2 Hg2) as (pf3 & Hse & Hs3 & Hok3).
  erewrite ibind_step by (apply on_pages_step, on_fs_step; exact Hse). intros [= <- <-].
  eexists _, (set_cache m ps1), pf3. split; [by destruct st|]. split; [done|]. split; [exact Hok3|].
  pose proof (gw_fresh _ _ _ _ _ _ Hg2) as Hfr. split; [by apply insert_subseteq|]. split_and!; [done|done|done|done| |by eexists].
  intros copied [= <-]. rewrite (gw_entries _ _ _ _ _ _ Hg2). split.
  - rewrite <-!list_fmap_compose. rewrite <-Hh, <-(locs_hashes PACK_HEADER_SIZE). done.
  - apply Forall_forall. intros e (y & -> & (z & -> & Hz)%list_elem_of_fmap)%list_elem_of_fmap. cbn. split; [|done].
    exists hdr, rs. cbn. rewrite lookup_insert_eq. split; [done|]. by destruct z.
Qed.

(** ** Repointing and removing *)

Lemma repoint_all_ok p copied st pf t :
  index_ok (ps_index (ss_pages st)) → Forall (λ e, pack e.2 ≠ p) copied →
  ∃ idx', repoint_all p copied (st, (pf, t)) = (Ok tt, with_pages (set_index idx' (ss_pages st)) pf (st, (pf, t))) ∧
    index_ok idx' ∧
    (∀ h l, flat idx' !! h = Some l →
      (flat (ps_index (ss_pages st)) !! h = Some l ∧ (pack l = p → h ∉ copied.*1)) ∨ (h, l) ∈ copied) ∧
    (∀ h, is_Some (flat (ps_index (ss_pages st)) !! h) → is_Some (flat idx' !! h)).
Proof.
  revert st. induction copied as [|[h0 l0] copied IH]; intros st Hix Hall.
  { exists (ps_index (ss_pages st)). split; [|split_and!; [done| |done]].
    - unfold repoint_all, with_pages. cbn. by destruct st as [[] ? ? ? ?].
    - intros h l Hl. left. split; [done|]. intros _. apply not_elem_of_nil. }
  apply Forall_cons in Hall as [Hp Hall]. cbn in Hp. unfold repoint_all. cbn [ifor fst snd].
  pose proof (repoint_refines (ps_index (ss_pages st)) h0 p l0 Hix) as Href.
  destruct (repoint_if_in_pack (ps_index (ss_pages st)) h0 p l0) as [hit idx1] eqn:He. destruct Href as (Hhit & Hix1 & Hflat).
  erewrite ibind_step.
  2: { erewrite ibind_step by (apply on_pages_step; unfold store_repoint_if_in_pack; cbn [fst snd]; rewrite He; reflexivity). reflexivity. }
  set (st1 := set_pages (set_index idx1 (ss_pages st)) st). change (with_pages (set_index idx1 (ss_pages st)) pf (st, (pf, t))) with (st1, (pf, t)).
  destruct (IH st1 Hix1 Hall) as (idx' & Hr & Hix' & Hfrom & Hkeep). exists idx'. split; [|split_and!; [done| |]].
  - unfold repoint_all in Hr. rewrite Hr. by destruct st as [[] ? ? ? ?].
  - cbn [ss_pages st1 set_pages set_index ps_index] in Hfrom. intros h l Hl. destruct (Hfrom h l Hl) as [[Hl1 Hn]|Hin]; [|right; by right].
    rewrite Hflat in Hl1. unfold in_pack in Hhit. destruct hit.
    + apply lookup_insert_Some in Hl1 as [[<- <-]|[Hne Hl1]]; [right; left|]. left. split; [done|]. intros Hpl.
      rewrite fmap_cons, not_elem_of_cons. split; [done|by apply Hn].
    + left. split; [done|]. intros Hpl. rewrite fmap_cons, not_elem_of_cons. split; [|by apply Hn]. cbn. intros ->.
      rewrite Hl1, Hpl, Z.eqb_refl in Hhit. done.
  - cbn [ss_pages st1 set_pages set_index ps_index] in Hkeep. intros h Hh. apply Hkeep. rewrite Hflat. destruct hit; [|done]. apply lookup_insert_is_Some'. by right.
Qed.

Lemma remove_dead_ok p live dead st pf t :
  index_ok (ps_index (ss_pages st)) →
  ∃ idx', remove_dead p live dead (st, (pf, t)) = (Ok tt, with_pages (set_index idx' (ss_pages st)) pf (st, (pf, t))) ∧
    index_ok idx' ∧
    (∀ h l, flat idx' !! h = Some l ↔
      flat (ps_index (ss_pages st)) !! h = Some l ∧ ¬ (pack l = p ∧ h ∈ dead.*1 ∧ h ∉ lv_pages live)).
Proof.
  revert st. induction dead as [|[h0 l0] dead IH]; intros st Hix.
  { exists (ps_index (ss_pages st)). split; [|split; [done|]].
    - unfold remove_dead, with_pages. cbn. by destruct st as [[] ? ? ? ?].
    - intros h l. split; [|by intros []]. intros Hl. split; [done|]. by intros (_ & ?%not_elem_of_nil & _). }
  unfold remove_dead. cbn [ifor fst snd]. destruct (bool_decide (h0 ∈ lv_pages live)) eqn:Hlv; b2p.
  { erewrite ibind_step by reflexivity. destruct (IH st Hix) as (idx' & Hr & Hix' & Hf). exists idx'.
    split; [exact Hr|]. split; [done|]. intros h l. rewrite Hf. cbn [fmap list_fmap]. set_solver. }
  pose proof (remove_refines (ps_index (ss_pages st)) h0 p Hix) as Href.
  destruct (remove_if_in_pack (ps_index (ss_pages st)) h0 p) as [hit idx1] eqn:He. destruct Href as (Hhit & Hix1 & Hflat).
  erewrite ibind_step.
  2: { erewrite ibind_step by (apply on_pages_step; unfold store_remove_if_in_pack; cbn [fst snd]; rewrite He; reflexivity). reflexivity. }
  set (st1 := set_pages (set_index idx1 (ss_pages st)) st). change (with_pages (set_index idx1 (ss_pages st)) pf (st, (pf, t))) with (st1, (pf, t)).
  destruct (IH st1 Hix1) as (idx' & Hr & Hix' & Hf). exists idx'. split; [|split; [done|]].
  - unfold remove_dead in Hr. rewrite Hr. by destruct st as [[] ? ? ? ?].
  - intros h l. rewrite Hf. cbn [ss_pages st1 set_pages set_index ps_index fmap list_fmap fst]. rewrite Hflat, elem_of_cons.
    unfold in_pack in Hhit. destruct hit.
    + rewrite lookup_delete_Some. split.
      * intros [[Hne Hl] Hn]. split; [done|]. intros (Hp & [->|Hin] & Hnl); [done|]. by apply Hn.
      * intros [Hl Hn]. split; [split; [|done]|]; [|intros (? & ? & ?); apply Hn; auto].
        intros <-. apply Hn. rewrite Hl in Hhit. symmetry in Hhit. apply Z.eqb_eq in Hhit. auto.
    + split; [|intros [Hl Hn]; split; [done|]; intros (? & ? & ?); apply Hn; auto].
      intros [Hl Hn]. split; [done|]. intros (Hp & [->|Hin] & Hnl); [|by apply Hn].
      rewrite Hl, Hp, Z.eqb_refl in Hhit. done.
Qed.

(** ** The invariant *)

Definition late (w : SnapshotStore * disk) : list SnapshotRef :=
  match ss_epoch w.1 with Some l => l | None => [] end.

(** The manifest directory during a cycle: a stored delta has the RAM size
    of its parent, while the parent is stored. *)
Record tree_wf (t : tree) : Prop := {
  tw_fs : fs_wf (t_fs t);
  tw_ram : ∀ r m p pm, holds t r m → delta m = true → parent m = Some p → holds t p pm →
    guest_ram_bytes pm = guest_ram_bytes m;
}.

Lemma tree_wf_shrink t t' : (∀ r m, holds t' r m → holds t r m) → fs_wf (t_fs t') → tree_wf t → tree_wf t'.
Proof. intros Hh Hf [_ Hr]. split; [done|]. intros r m p pm H1 Hd Hp H2. by eapply Hr; eauto. Qed.

Lemma tree_inv_wf idx t : tree_inv idx t → tree_wf t.
Proof.
  intros [Hw Hf _]. split; [done|]. intros r m p pm Hm Hd Hp Hpm.
  destruct (Hf r (encode m) (holds_hash_ok _ _ _ Hm) (proj1 Hm)) as (m' & rest & Heq & Hc).
  apply encode_inj in Heq as <-; [|apply Hm|by destruct (chain_head _ _ _ Hc) as (? & ? & [= <- <-] & ? & ? & _)].
  inversion Hc as [|? ? p' pm' rest' _ _ Hp' Hc' Hg]; [congruence|]. simplify_eq.
  destruct (chain_head _ _ _ Hc') as (? & ? & [= <- <-] & Hh). by rewrite (holds_fun _ _ _ _ Hpm Hh).
Qed.

(** The reference's chain is stored and every page of it is indexed. *)
Definition closed (w : SnapshotStore * disk) (r : SnapshotRef) : Prop :=
  ∃ l, chain w.2.2 r l ∧
    ∀ r' m e, (r', m) ∈ l → e ∈ entries m → is_Some (flat (ps_index (ss_pages w.1)) !! page_hash e).

(** What the rest of the system holds: its references, and an invariant of
    its own. *)
Record client := mk_client { cl_refs : list SnapshotRef; cl_inv : Prop }.
#[global] Instance client_elem_of : ElemOf SnapshotRef client := λ r c, r ∈ cl_refs c.
Definition just (refs : list SnapshotRef) : client := mk_client refs True.

(** What holds at every moment, also when the cycle fails. *)
Record gc_safe (fence : PackId) (packs : packs_t) (refs : client) (w : SnapshotStore * disk) : Prop := {
  gs_pages : gc_ok packs (ss_pages w.1) w.2.1;
  gs_calm : calm w.2.1 ∧ calm (t_fs w.2.2);
  gs_wf : tree_wf w.2.2;
  gs_fence : fence ≤ a_pack_id (ps_active (ss_pages w.1));
  gs_closed : ∀ r, r ∈ refs → closed w r;
  gs_inv : cl_inv refs;
}.

(** What holds between the steps of a running cycle. *)
Record gc_inv (fence : PackId) (packs : packs_t) (refs : client) (live : LiveSet) (w : SnapshotStore * disk) : Prop := {
  gi_safe : gc_safe fence packs refs w;
  gi_live : live_ok w.2.2 live;
  gi_prot : ∀ r, r ∈ refs → r ∈ lv_manifests live ∨ r ∈ late w;
}.

(** A marked reference has its chain and the chain's pages marked. *)
Lemma marked_chain t live r l :
  live_ok t live → chain t r l → r ∈ lv_manifests live →
  ∀ r' m, (r', m) ∈ l → r' ∈ lv_manifests live ∧ ∀ e, e ∈ entries m → page_hash e ∈ lv_pages live.
Proof.
  intros Hl. induction 1 as [r m Hh Hd|r m p pm rest Hh Hd Hp Hc IH Hg]; intros Hr; destruct (Hl r Hr) as (m0 & Hh0 & Hpg & Hpar);
    rewrite (holds_fun _ _ _ _ Hh0 Hh) in *.
  - intros r' m' Heq%list_elem_of_singleton. by simplify_eq.
  - destruct (Hpar Hd) as (p' & Hp' & [Hin|?]); [|done]. rewrite Hp in Hp'. injection Hp' as <-.
    intros r' m' [Heq|Hin']%elem_of_cons; [by simplify_eq|]. by apply IH.
Qed.

Lemma closed_mono w w' r :
  (∀ r m, holds w.2.2 r m → holds w'.2.2 r m) →
  (∀ h, is_Some (flat (ps_index (ss_pages w.1)) !! h) → is_Some (flat (ps_index (ss_pages w'.1)) !! h)) →
  closed w r → closed w' r.
Proof. intros Hh Hx (l & Hc & Hp). exists l. split; [by eapply chain_mono|]. intros r' m e Hin He. by eapply Hx, Hp. Qed.

(** ** The other threads *)

Record rely (w w' : SnapshotStore * disk) : Prop := {
  rl_pages : ∀ packs, gc_ok packs (ss_pages w.1) w.2.1 →
    ∃ packs', gc_ok packs' (ss_pages w'.1) w'.2.1 ∧ (∀ h l, backed packs h l → backed packs' h l) ∧
      (names_ok packs (ss_pages w.1) w.2.1 → names_ok packs' (ss_pages w'.1) w'.2.1);
  rl_index : ∀ h l, flat (ps_index (ss_pages w.1)) !! h = Some l → flat (ps_index (ss_pages w'.1)) !! h = Some l;
  rl_new : ∀ h l, flat (ps_index (ss_pages w'.1)) !! h = Some l →
    flat (ps_index (ss_pages w.1)) !! h = Some l ∨ a_pack_id (ps_active (ss_pages w.1)) ≤ pack l;
  rl_active : a_pack_id (ps_active (ss_pages w.1)) ≤ a_pack_id (ps_active (ss_pages w'.1));
  rl_calm : calm w.2.1 ∧ calm (t_fs w.2.2) → calm w'.2.1 ∧ calm (t_fs w'.2.2);
  rl_wf : tree_wf w.2.2 → tree_wf w'.2.2;
  rl_holds : ∀ r m, holds w.2.2 r m → holds w'.2.2 r m;
  rl_late : ∀ r, r ∈ late w → r ∈ late w';
}.

(** Callbacks that respect the store: they only add, they never lower the
    pack-id counter, and a reference they come to hold is registered and
    closed at that moment.  [refs] are the references the rest of the
    system holds. *)
Record hooks_ok {X} (fence : PackId) (refs : X → client) (hooks : GcHooks X) : Prop := {
  ho_sabotage : sabotage hooks = None;
  ho_next : ∀ p w, next_of w.1 ≤ next_of (hook_at hooks p w).1;
  ho_rely : ∀ p w packs, gc_safe fence packs (refs w.2) w.1 → rely w.1 (hook_at hooks p w).1;
  ho_refs : ∀ p w packs r, gc_safe fence packs (refs w.2) w.1 → r ∈ refs (hook_at hooks p w).2 →
    r ∈ refs w.2 ∨ (closed (hook_at hooks p w).1 r ∧ r ∈ late (hook_at hooks p w).1);
  ho_inv : ∀ p w packs, gc_safe fence packs (refs w.2) w.1 → cl_inv (refs (hook_at hooks p w).2);
}.

Lemma hook_safe {X} fence (refs : X → client) hooks p packs w :
  hooks_ok fence refs hooks → gc_safe fence packs (refs w.2) w.1 →
  let w' := hook_at hooks p w in
  ∃ packs', (∀ h l, backed packs h l → backed packs' h l) ∧
    (names_ok packs (ss_pages w.1.1) w.1.2.1 → names_ok packs' (ss_pages w'.1.1) w'.1.2.1) ∧
    gc_safe fence packs' (refs w'.2) w'.1.
Proof.
  intros Hho Hsafe w'. pose proof (ho_rely _ _ _ Hho p w packs Hsafe) as Hrl.
  destruct (rl_pages _ _ Hrl packs (gs_pages _ _ _ _ Hsafe)) as (packs' & Hok' & Hb & Hnm). exists packs'. split; [done|]. split; [done|].
  assert (∀ h, is_Some (flat (ps_index (ss_pages w.1.1)) !! h) → is_Some (flat (ps_index (ss_pages w'.1.1)) !! h)) as Hx.
  { intros h [l Hl']. exists l. by apply (rl_index _ _ Hrl). }
  split; [done|by apply (rl_calm _ _ Hrl), Hsafe|by apply (rl_wf _ _ Hrl), Hsafe| | |by eapply (ho_inv _ _ _ Hho)].
  - pose proof (gs_fence _ _ _ _ Hsafe). pose proof (rl_active _ _ Hrl). unfold w'. lia.
  - intros r Hr. destruct (ho_refs _ _ _ Hho p w packs r Hsafe Hr) as [Hr'|[? _]]; [|done].
    eapply closed_mono; [apply Hrl|exact Hx|by apply (gs_closed _ _ _ _ Hsafe)].
Qed.

Lemma hook_inv {X} fence (refs : X → client) hooks p packs live w :
  hooks_ok fence refs hooks → gc_inv fence packs (refs w.2) live w.1 →
  rely w.1 (hook_at hooks p w).1 ∧ ∃ packs', (∀ h l, backed packs h l → backed packs' h l) ∧
    (names_ok packs (ss_pages w.1.1) w.1.2.1 → names_ok packs' (ss_pages (hook_at hooks p w).1.1) (hook_at hooks p w).1.2.1) ∧
    gc_inv fence packs' (refs (hook_at hooks p w).2) live (hook_at hooks p w).1.
Proof.
  intros Hho [Hsafe Hl Hpr]. pose proof (ho_rely _ _ _ Hho p w packs Hsafe) as Hrl. split; [done|].
  destruct (hook_safe fence refs hooks p packs w Hho Hsafe) as (packs' & Hb & Hnm & Hsafe'). exists packs'. split; [done|]. split; [done|].
  split; [done| |].
  - intros r Hr. destruct (Hl r Hr) as (m & Hh & Hp & Hd). exists m. split_and!; [by apply (rl_holds _ _ Hrl)|done|done].
  - intros r Hr. destruct (ho_refs _ _ _ Hho p w packs r Hsafe Hr) as [Hr'|[_ ?]]; [|by right].
    destruct (Hpr r Hr') as [?|?]; [by left|right]. by apply (rl_late _ _ Hrl).
Qed.

(** ** Finalizing one pack *)

(** What was decided about the records of pack [p]: every index entry into
    [p] has a copy or is in [dead]. *)
Record planned (p : PackId) (packs : packs_t) (copied dead : list (PageHash * PageLoc))
    (w : SnapshotStore * disk) : Prop := {
  pl_cover : ∀ h l, flat (ps_index (ss_pages w.1)) !! h = Some l → pack l = p → h ∈ copied.*1 ∨ (h, l) ∈ dead;
  pl_dead : Forall (λ e, flat (ps_index (ss_pages w.1)) !! e.1 = Some e.2 ∧ pack e.2 = p) dead;
  pl_copied : Forall (λ e, backed packs e.1 e.2 ∧ pack e.2 ≠ p) copied;
}.

(** The plan a sweep starts with: the entries of [p], split into the live
    records, to be copied, and the dead ones. *)
Definition live_of (live : LiveSet) (es : list (PageHash * PageLoc)) := filter (λ e : PageHash * PageLoc, e.1 ∈ lv_pages live) es.
Definition dead_of (live : LiveSet) (es : list (PageHash * PageLoc)) := filter (λ e : PageHash * PageLoc, e.1 ∉ lv_pages live) es.

Lemma plan_entries packs p live w :
  index_ok (ps_index (ss_pages w.1)) → let es := entries_for_pack (ps_index (ss_pages w.1)) p in
  planned p packs [] (live_of live es ++ dead_of live es) w.
Proof.
  intros Hix es. assert (Forall (λ e, flat (ps_index (ss_pages w.1)) !! e.1 = Some e.2 ∧ pack e.2 = p) es) as Hes
    by (apply Forall_forall; intros [h l] He; by apply entries_for_pack_elem in He).
  split; [|apply Forall_app; by split; apply Forall_sub_filter|constructor]. intros h l Hl Hpk. right.
  assert ((h, l) ∈ es) as Hin by by apply entries_for_pack_elem. unfold live_of, dead_of. rewrite elem_of_app, !list_elem_of_filter. cbn.
  destruct (decide (h ∈ lv_pages live)); auto.
Qed.

Lemma plan_none packs p w :
  index_ok (ps_index (ss_pages w.1)) → entries_for_pack (ps_index (ss_pages w.1)) p = [] → planned p packs [] [] w.
Proof. intros Hix Hn. pose proof (plan_entries packs p live_default w Hix) as Hpl. by rewrite Hn in Hpl. Qed.

Lemma plan_copied p packs copied lrecs drecs w :
  planned p packs copied (lrecs ++ drecs) w → copied.*1 = lrecs.*1 → planned p packs copied drecs w.
Proof.
  intros [Hcov Hd Hco] Hms. split; [|by apply Forall_app in Hd as []|done]. intros h l Hl Hpk.
  destruct (Hcov h l Hl Hpk) as [?|Hin]; [by left|]. apply elem_of_app in Hin as [Hin|?]; [left|by right].
  rewrite Hms. apply list_elem_of_fmap. by exists (h, l).
Qed.

(** The dead records that became live have a copy. *)
Definition rescued (live : LiveSet) (copied dead : list (PageHash * PageLoc)) : Prop :=
  ∀ e, e ∈ dead → e.1 ∈ lv_pages live → e.1 ∈ copied.*1.

Lemma planned_rely p packs packs' copied dead w w' :
  planned p packs copied dead w → rely w w' → (∀ h l, backed packs h l → backed packs' h l) →
  p < a_pack_id (ps_active (ss_pages w.1)) → planned p packs' copied dead w'.
Proof.
  intros [Hc Hd Hco] Hrl Hb Hp. split.
  - intros h l Hx Hpl. destruct (rl_new _ _ Hrl h l Hx) as [?|?]; [by apply Hc|lia].
  - eapply Forall_impl; [exact Hd|]. cbn. intros e [He ?]. split; [|done]. by apply (rl_index _ _ Hrl).
  - eapply Forall_impl; [exact Hco|]. cbn. intros e [He ?]. split; [|done]. by apply Hb.
Qed.

(** No index entry points into [p]. *)
Definition vacated (p : PackId) (w : SnapshotStore * disk) : Prop :=
  ∀ h l, flat (ps_index (ss_pages w.1)) !! h = Some l → pack l ≠ p.

(** The next pack id and the options. *)
Definition caps (w : SnapshotStore * disk) : PackId * StoreOptions := (next_of w, ps_opts (ss_pages w.1)).

(** A protected page is marked once nothing is left to drain. *)
Lemma protected_pages fence packs refs live w r l r' m e :
  gc_inv fence packs refs live w → late w = [] → r ∈ refs → chain w.2.2 r l → (r', m) ∈ l → e ∈ entries m →
  page_hash e ∈ lv_pages live ∧ r' ∈ lv_manifests live.
Proof.
  intros [_ Hl Hpr] Hla Hr Hc Hin He. destruct (Hpr r Hr) as [Hm|Hm]; [|by rewrite Hla in Hm; apply elem_of_nil in Hm].
  destruct (marked_chain _ _ _ _ Hl Hc Hm r' m Hin) as [? Hp]. split; [by apply Hp|done].
Qed.

Lemma finalize_pass fence packs refs live p copied dead st pf t :
  gc_inv fence packs refs live (st, (pf, t)) → late (st, (pf, t)) = [] → planned p packs copied dead (st, (pf, t)) → rescued live copied dead →
  ∃ st', (repoint_all p copied ;! remove_dead p live dead) (st, (pf, t)) = (Ok tt, (st', (pf, t))) ∧
    gc_inv fence packs refs live (st', (pf, t)) ∧ vacated p (st', (pf, t)) ∧ late (st', (pf, t)) = [] ∧
    caps (st', (pf, t)) = caps (st, (pf, t)).
Proof.
  intros Hinv Hla [Hcov Hdead Hcop] Hlv. pose proof Hinv as [[Hok Hs Hwf Hfe Hcl Hci] Hl Hpr]. cbn [fst snd] in *.
  pose proof (si_index _ _ _ (proj1 Hok)) as Hix.
  destruct (repoint_all_ok p copied st pf t Hix) as (idx1 & Hr1 & Hix1 & Hfrom & Hkeep).
  { eapply Forall_impl; [exact Hcop|]. by intros e []. }
  set (st1 := set_pages (set_index idx1 (ss_pages st)) st). change (with_pages _ _ _) with (st1, (pf, t)) in Hr1.
  destruct (remove_dead_ok p live dead st1 pf t Hix1) as (idx2 & Hr2 & Hix2 & Hiff).
  set (st2 := set_pages (set_index idx2 (ss_pages st1)) st1). change (with_pages _ _ _) with (st2, (pf, t)) in Hr2.
  cbn [st1 ss_pages set_pages set_index ps_index] in Hiff.
  assert (gc_ok packs (ss_pages st2) pf) as Hok2.
  { change (ss_pages st2) with (set_index idx2 (ss_pages st)). apply gc_ok_index; [done|done|]. intros h l [Hx _]%Hiff.
    destruct (Hfrom h l Hx) as [[Hx0 _]|Hin]; [by apply (si_loc _ _ _ (proj1 Hok))|].
    rewrite Forall_forall in Hcop. apply (Hcop _ Hin). }
  exists st2. split; [by erewrite ibind_step by exact Hr1|]. split; [split; [split|done|done]|split; [|by split]]; [done|done|done|done| |done|].
  - intros r Hr. destruct (Hcl r Hr) as (l & Hc & Hp). exists l. split; [done|]. intros r' m e Hin He. cbn [fst ss_pages st2 set_pages set_index ps_index].
    destruct (protected_pages _ _ _ _ _ _ _ _ _ _ Hinv Hla Hr Hc Hin He) as [Hpage _].
    destruct (Hkeep _ (Hp r' m e Hin He)) as [l' Hl']. exists l'. apply Hiff. split; [done|]. by intros (_ & _ & ?).
  - intros h l Hx Hpl. cbn [fst ss_pages st2 set_pages set_index ps_index] in Hx. apply Hiff in Hx as [Hx Hn]. destruct (Hfrom h l Hx) as [[Hx0 Hnc]|Hin].
    + destruct (Hcov h l Hx0 Hpl) as [?|Hd]; [by apply Hnc|]. specialize (Hnc Hpl). apply Hn. split; [done|]. split.
      * apply list_elem_of_fmap. by exists (h, l).
      * intros Hlive. by apply Hnc, (Hlv (h, l)).
    + rewrite Forall_forall in Hcop. by apply (Hcop _ Hin).
Qed.

Lemma in_store_eq {X E A} (c : SM E A) (w : world X) : in_store c w = ((c w.1).1, ((c w.1).2, w.2)).
Proof. unfold in_store, zoom. by destruct (c w.1). Qed.

Lemma in_store_step {X E A} (c : SM E A) (w : world X) a v : c w.1 = (Ok a, v) → in_store c w = (Ok a, (v, w.2)).
Proof. intros Hc. by rewrite in_store_eq, Hc. Qed.

(** Allocating a compaction pack takes an id. *)
Lemma copy_takes_id records w : next_of w + 1 ≤ next_of (gc_copy_records unix_now records w).2.
Proof.
  unfold gc_copy_records, ibind at 1.
  assert (next_of w + 1 ≤ next_of (on_pages EPageStore (create_gc_pack unix_now) w).2) as Hc.
  { destruct w as [st [pf t]]. rewrite on_pages_eq. cbn. unfold create_gc_pack, ibind, get_store, mod_active, on_fs, zoom, next_of.
    cbn [fst snd]. match goal with |- context [imap_err SPack ?c ?v] => destruct (imap_err SPack c v) as [[]] end; cbn; lia. }
  destruct (on_pages EPageStore (create_gc_pack unix_now) w) as [[g|e|] w1]; cbn [snd] in *; [|done..].
  assert (nondec (let! w2 := copy_loop records g in let! ' (new_pack, offsets) := on_pages EPageStore (on_fs (seal_and_publish w2)) in
    iret ((λ e : PageHash * Z, (e.1, mk_loc new_pack e.2)) <$> offsets))) as Hn.
  { apply nondec_bind; [apply nondec_copy_loop|]. intros g'. apply nondec_bind; [auto with nondec|]. intros []. auto with nondec. }
  specialize (Hn w1). lia.
Qed.

Abbreviation copy_if recs := (if bool_decide (recs%list = []) then iret [] else gc_copy_records unix_now recs).

Lemma copy_room recs w x w' : copy_if recs w = (x, w') → next_of w' ≤ 2 ^ 32 → recs ≠ [] → next_of w < 2 ^ 32.
Proof.
  intros Hr Hnx Hne. rewrite bool_decide_eq_false_2 in Hr by done. pose proof (copy_takes_id recs w) as Hid. rewrite Hr in Hid. cbn [snd] in Hid. lia.
Qed.

(** Copying records of [p] and extending the plan. *)
Lemma copy_planned fence packs refs live p copied dead recs w x w' :
  gc_inv fence packs refs live w → planned p packs copied dead w → p < fence →
  Forall (λ e, flat (ps_index (ss_pages w.1)) !! e.1 = Some e.2 ∧ pack e.2 = p) recs →
  (recs ≠ [] → next_of w < 2 ^ 32) → copy_if recs w = (x, w') →
  late w' = late w ∧ next_of w' ≤ next_of w + 1 ∧ ps_opts (ss_pages w'.1) = ps_opts (ss_pages w.1) ∧
  (PACK_HEADER_SIZE + zlen recs * (RECORD_HEADER_SIZE + PAGE_SIZE) ≤ max_pack_bytes (ps_opts (ss_pages w.1)) → ∃ more, x = Ok more) ∧
  ∃ packs', packs ⊆ packs' ∧ gc_inv fence packs' refs live w' ∧
    ∀ more, x = Ok more → more.*1 = recs.*1 ∧ planned p packs' (copied ++ more) dead w'.
Proof.
  intros Hinv Hpl Hp Hrecs Hnx. destruct (bool_decide (recs = [])) eqn:Hn; b2p.
  { intros [= <- <-]. split; [done|]. split; [lia|]. split; [done|]. split; [by eexists|]. exists packs. split; [done|]. split; [done|]. intros more [= <-]. subst. by rewrite app_nil_r. }
  intros Hr. specialize (Hnx Hn). destruct w as [st [pf t]]. pose proof Hinv as [[Hok [Hs Ht] Hwf Hfe Hcl Hci] Hl Hpr]. cbn [fst snd] in *.
  destruct (gc_copy_ok packs st pf t recs x w' Hok Hs Hnx) as (packs' & ps' & pf' & -> & Hs' & Hok' & Hsub & Hix & Hac & [Hn1 Ho] & Hcop & Hrun).
  { eapply Forall_impl; [exact Hrecs|]. cbn. intros e [? ?]. split; [done|lia]. }
  { exact Hr. }
  split; [done|]. split; [unfold next_of; cbn; lia|]. split; [done|]. split; [done|]. exists packs'. split; [done|]. split.
  - split; [split|done|done]; cbn; [done|done|done|by rewrite Hac| |done]. intros r Hr'. eapply closed_mono; [..|by apply Hcl]; [done|]. cbn. by rewrite Hix.
  - intros more Hx. destruct (Hcop more Hx) as [Hm Hb]. split; [done|]. destruct Hpl as [H1 H2 H3]. split; cbn.
    + rewrite Hix, fmap_app. intros h l Hx' Hpl'. destruct (H1 h l Hx' Hpl') as [?|?]; [left; set_solver|by right].
    + by rewrite Hix.
    + apply Forall_app. split.
      * eapply Forall_impl; [exact H3|]. cbn. intros e [(hdr & rs & Hpk & Hin) ?]. split; [|done]. exists hdr, rs. split; [|done]. by eapply lookup_weaken.
      * eapply Forall_impl; [exact Hb|]. cbn. intros e [? Hnone]. split; [done|]. intros Heq. rewrite Heq in Hnone.
        destruct recs as [|e0 recs']; [done|]. apply Forall_cons in Hrecs as [[He0 Hp0] _].
        destruct (si_loc _ _ _ (proj1 Hok) _ _ He0) as (? & ? & Hpk & _). by rewrite Hp0, Hnone in Hpk.
Qed.

Definition drained (w : SnapshotStore * disk) : SnapshotStore * disk :=
  (match ss_epoch w.1 with Some _ => set_epoch (Some []) w.1 | None => w.1 end, w.2).

Lemma drain_eq {E} w : drain_late_roots (E:=E) w = (Ok (late w), drained w).
Proof. destruct w as [st d]. unfold drain_late_roots, on_state, late, drained. cbn. by destruct (ss_epoch st). Qed.

Lemma drained_id w : late w = [] → drained w = w.
Proof. destruct w as [[] d]. unfold late, drained. cbn. by destruct ss_epoch as [[]|]. Qed.

(** Draining and marking what was drained keeps the invariant; nothing is
    left to drain. *)
Lemma drain_mark fence packs refs live rp w x w' :
  gc_inv fence packs refs live w →
  gc_mark (late w) live rp (drained w) = (x, w') →
  gc_safe fence packs refs w' ∧ late w' = [] ∧ ss_pages w'.1 = ss_pages w.1 ∧ w'.2 = w.2 ∧
  ∀ live' rp', x = Ok (live', rp') → live_le live live' ∧ gc_inv fence packs refs live' w'.
Proof.
  intros [[Hok Hs Hwf Hfe Hcl Hci] Hl Hpr]. set (w1 := drained w). intros Hm.
  assert (ss_pages w1.1 = ss_pages w.1) as Hpg by (unfold w1, drained; cbn; by destruct (ss_epoch w.1)).
  assert (late w1 = []) as Hla by (unfold w1, drained, late; cbn; destruct (ss_epoch w.1) eqn:He; cbn; [done|by rewrite He]).
  destruct (gc_mark_ok (late w) live rp w1 x w' (proj2 Hs) Hl Hm) as [-> Hmk].
  assert (gc_safe fence packs refs w1) as Hsafe.
  { split; rewrite ?Hpg; try done. intros r Hr. eapply closed_mono; [..|by apply Hcl]; [done|]. by rewrite Hpg. }
  split_and!; [done|done|done|done|]. intros live' rp' ->. destruct (Hmk live' rp' eq_refl) as (Hle & Hl' & Hin).
  split; [done|]. split; [done|done|]. intros r Hr. left. destruct (Hpr r Hr) as [?|Hlr]; [by apply Hle|].
  destruct (Hcl r Hr) as (l & Hc & _). destruct (chain_head _ _ _ Hc) as (m & rest & _ & Hh). by eapply Hin.
Qed.

(** ** Pack ids only grow over a cycle *)

Definition gnondec {X E A} (c : GM X E A) : Prop := ∀ w, next_of w.1 ≤ next_of (c w).2.1.
Definition hooks_nondec {X} (hooks : GcHooks X) : Prop := ∀ p w, next_of w.1 ≤ next_of (hook_at hooks p w).1.

Lemma gnondec_ret {X E A} (a : A) : gnondec (X:=X) (E:=E) (iret a).
Proof. by intros w. Qed.
Lemma gnondec_panic {X E A} : gnondec (X:=X) (E:=E) (A:=A) ipanic.
Proof. by intros w. Qed.
Lemma gnondec_bind {X E A B} (c : GM X E A) (k : A → GM X E B) : gnondec c → (∀ a, gnondec (k a)) → gnondec (ibind c k).
Proof.
  intros Hc Hk w. unfold ibind. specialize (Hc w). destruct (c w) as [[a|e|] w1]; cbn [snd] in *; [|done..].
  specialize (Hk a w1). lia.
Qed.
Lemma gnondec_if {X E A} (b : bool) (c d : GM X E A) : gnondec c → gnondec d → gnondec (if b then c else d).
Proof. by destruct b. Qed.
Lemma gnondec_in_store {X E A} (c : SM E A) : nondec c → gnondec (X:=X) (in_store c).
Proof. intros Hc w. rewrite in_store_eq. apply Hc. Qed.
Lemma gnondec_fire {X E} (hooks : GcHooks X) p : hooks_nondec hooks → gnondec (E:=E) (fire hooks p).
Proof. intros Hh w. apply Hh. Qed.

#[local] Hint Resolve gnondec_ret gnondec_panic gnondec_if gnondec_in_store gnondec_fire nondec_drain nondec_mark nondec_copy
  nondec_repoint_all nondec_remove_dead nondec_unlink : nondec.

Lemma gnondec_straggler {X} (hooks : GcHooks X) fuel p copied dead live rp :
  hooks_nondec hooks → gnondec (straggler_loop unix_now fuel hooks p copied dead live rp).
Proof.
  intros Hh. revert copied live rp. induction fuel as [|fuel IH]; intros copied live rp; cbn [straggler_loop]; [auto with nondec|].
  apply gnondec_bind; [auto with nondec|]. intros st. apply gnondec_if.
  - apply gnondec_bind; [apply gnondec_if; [apply gnondec_bind|]; auto with nondec|]. intros _.
    apply gnondec_bind; [auto with nondec|]. intros _. apply gnondec_bind; auto with nondec.
  - apply gnondec_bind; [auto with nondec|]. intros [live' rp']. apply gnondec_bind; auto with nondec.
Qed.

Lemma gnondec_finalize {X} (hooks : GcHooks X) fuel p copied dead live rp :
  hooks_nondec hooks → gnondec (finalize_and_unlink unix_now fuel hooks p copied dead live rp).
Proof.
  intros Hh. unfold finalize_and_unlink. apply gnondec_bind; [auto with nondec|]. intros _.
  apply gnondec_bind; [by apply gnondec_straggler|]. intros [live' rp']. apply gnondec_bind; [auto with nondec|]. intros _.
  apply gnondec_bind; [|auto with nondec]. apply gnondec_if; [auto with nondec|]. apply gnondec_bind; auto with nondec.
Qed.

Lemma gnondec_compact {X} (hooks : GcHooks X) fuel p lrecs drecs live rp :
  hooks_nondec hooks → gnondec (compact_pack unix_now fuel hooks p lrecs drecs live rp).
Proof.
  intros Hh. unfold compact_pack. apply gnondec_bind; [auto with nondec|]. intros copied. apply gnondec_bind; [auto with nondec|]. intros _.
  apply gnondec_bind; [by apply gnondec_finalize|]. auto with nondec.
Qed.

Lemma gnondec_sweep_one {X} (hooks : GcHooks X) fuel thr p live rp :
  hooks_nondec hooks → gnondec (gc_sweep_one_pack unix_now fuel hooks thr p live rp).
Proof.
  intros Hh. unfold gc_sweep_one_pack. apply gnondec_bind; [auto with nondec|]. intros es.
  apply gnondec_bind; [unfold scan_pack; auto with nondec|]. intros recs. cbv zeta. apply gnondec_if.
  - apply gnondec_bind; [by apply gnondec_finalize|]. intros []. auto with nondec.
  - apply gnondec_if; [auto with nondec|]. apply gnondec_bind; [by apply gnondec_compact|]. intros [? []]. auto with nondec.
Qed.

Lemma gnondec_sweep_each {X} (hooks : GcHooks X) fuel thr ids live rp :
  hooks_nondec hooks → gnondec (sweep_each unix_now fuel hooks thr ids live rp).
Proof.
  intros Hh. revert live rp. induction ids as [|p ids IH]; intros live rp; cbn [sweep_each]; [auto with nondec|].
  apply gnondec_bind; [auto with nondec|]. intros _. apply gnondec_bind; [by apply gnondec_sweep_one|]. by intros [].
Qed.

Lemma nondec_delete_manifest r : nondec (delete_manifest r).
Proof.
  unfold delete_manifest. apply nondec_bind; [auto with nondec|]. intros b. apply nondec_if; [auto with nondec|].
  apply nondec_bind; [auto with nondec|]. intros g. apply nondec_bind; [auto with nondec|]. intros _.
  apply nondec_bind; [auto with nondec|]. intros _. apply nondec_bind; [by apply nondec_on_state|]. intros _.
  apply nondec_bind; [by apply nondec_on_state|auto with nondec].
Qed.

Lemma nondec_delete_batch batch live rp : nondec (delete_batch batch live rp).
Proof.
  revert rp. induction batch as [|r batch IH]; intros rp; cbn [delete_batch]; [auto with nondec|].
  apply nondec_if; [done|]. apply nondec_bind; [apply nondec_delete_manifest|done].
Qed.

Lemma gnondec_batches {X} (hooks : GcHooks X) fuel cs live rp : gnondec (sweep_batches fuel hooks cs live rp).
Proof.
  revert cs live rp. induction fuel as [|fuel IH]; intros [|c cs] live rp; cbn [sweep_batches]; auto with nondec.
  apply gnondec_bind; [auto with nondec|]. intros st. apply gnondec_bind; [auto with nondec|]. intros [live' rp'].
  apply gnondec_bind; [apply gnondec_in_store, nondec_delete_batch|done].
Qed.

Lemma gnondec_sweep_manifests {X} (hooks : GcHooks X) live rp : hooks_nondec hooks → gnondec (gc_sweep_manifests hooks live rp).
Proof.
  intros Hh. unfold gc_sweep_manifests. apply gnondec_bind; [auto with nondec|]. intros _.
  apply gnondec_bind; [apply gnondec_in_store, nondec_on_tree|]. intros refs. apply gnondec_batches.
Qed.

(** ** The straggler loop *)

Lemma planned_same p packs copied dead w w' :
  ss_pages w'.1 = ss_pages w.1 → planned p packs copied dead w → planned p packs copied dead w'.
Proof. intros Hp []. split; by rewrite ?Hp. Qed.

Lemma straggler_ok {X} (hooks : GcHooks X) fence packs refs live p copied dead rp fuel (w : world X) x w' :
  sabotage hooks = None → hooks_nondec hooks → p < fence →
  gc_inv fence packs refs live w.1 → planned p packs copied dead w.1 → rescued live copied dead →
  straggler_loop unix_now fuel hooks p copied dead live rp w = (x, w') → next_of w'.1 ≤ 2 ^ 32 →
  w'.2 = w.2 ∧ ∃ packs', gc_safe fence packs' refs w'.1 ∧
    ∀ live' rp', x = Ok (live', rp') → live_le live live' ∧ gc_inv fence packs' refs live' w'.1 ∧ vacated p w'.1.
Proof.
  intros Hsab Hnd Hp. assert (∀ s, hook_is hooks s = false) as Hh by (intros s; unfold hook_is; rewrite Hsab; by apply bool_decide_eq_false_2).
  revert packs live copied rp w. induction fuel as [|fuel IH]; intros packs live copied rp w Hinv Hpl Hres; cbn [straggler_loop].
  { intros [= <- <-] _. split; [done|]. exists packs. by split; [apply Hinv|]. }
  rewrite Hh. erewrite ibind_step by (apply in_store_step, drain_eq). destruct (bool_decide (late w.1 = [])) eqn:Hla; b2p.
  - rewrite !Hh. erewrite ibind_step by reflexivity.
    destruct (drain_mark fence packs refs live rp w.1 (Ok (live, rp)) (drained w.1) Hinv) as (_ & Hla1 & Hpg & _ & Hk).
    { by rewrite Hla. }
    destruct (Hk live rp eq_refl) as [_ Hinv1]. destruct w as [[st [pf t]] y]. cbn [fst snd] in *.
    assert (∃ st1, drained (st, (pf, t)) = (st1, (pf, t))) as [st1 Hst1] by (by eexists). rewrite Hst1 in *.
    assert (planned p packs copied dead (st1, (pf, t))) as Hpl1 by (eapply planned_same; [|exact Hpl]; exact Hpg).
    destruct (finalize_pass fence packs refs live p copied dead st1 pf t Hinv1 Hla1 Hpl1 Hres) as (st2 & Hf & Hinv2 & Hv & _ & _).
    apply ibind_Ok in Hf as ([] & w1 & Hf1 & Hf2).
    erewrite ibind_step by (apply in_store_step; exact Hf1). erewrite ibind_step by (apply in_store_step; exact Hf2).
    intros [= <- <-] _. split; [done|]. exists packs. split; [apply Hinv2|]. intros live' rp' [= <- <-]. by split.
  - unfold ibind at 1. rewrite in_store_eq. cbn [fst snd].
    destruct (gc_mark (late w.1) live rp (drained w.1)) as [y w1] eqn:Hm.
    destruct (drain_mark _ _ _ _ _ _ _ _ Hinv Hm) as (Hsafe1 & Hla1 & Hpg & Htr & Hk). cbn [fst snd].
    destruct y as [[live1 rp1]|e|]; [|intros [= <- <-] _; (split; [done|]); exists packs; by split..].
    destruct (Hk live1 rp1 eq_refl) as [Hle Hinv1].
    assert (planned p packs copied dead w1) as Hpl1 by (eapply planned_same; [|exact Hpl]; exact Hpg).
    set (newly := filter _ dead). unfold ibind at 1. rewrite in_store_eq. cbn [fst snd].
    destruct ((if bool_decide (newly = []) then iret [] else gc_copy_records unix_now newly) w1) as [z w2] eqn:Hc. cbn [fst snd]. intros Hk2 Hnx.
    assert (next_of w2 ≤ 2 ^ 32) as Hnx2.
    { destruct z as [more|e|]; [|by injection Hk2 as <- <-..].
      pose proof (gnondec_straggler hooks fuel p (copied ++ more) dead live1 rp1 Hnd (w2, w.2)) as Hm2. rewrite Hk2 in Hm2. cbn [fst snd] in Hm2. lia. }
    assert (Forall (λ e, flat (ps_index (ss_pages w1.1)) !! e.1 = Some e.2 ∧ pack e.2 = p) newly) as Hnew.
    { apply Forall_forall. intros e [_ He]%list_elem_of_filter. pose proof (pl_dead _ _ _ _ _ Hpl1) as Hd. rewrite Forall_forall in Hd. by apply Hd. }
    destruct (copy_planned fence packs refs live1 p copied dead newly w1 z w2 Hinv1 Hpl1 Hp Hnew (copy_room _ _ _ _ Hc Hnx2) Hc) as (Hla2 & _ & _ & _ & packs2 & _ & Hinv2 & Hmore).
    destruct z as [more|e|]; [|injection Hk2 as <- <-; (split; [done|]); exists packs2; by split; [apply Hinv2|]..].
    destruct (Hmore more eq_refl) as [Hms Hpl2].
    assert (rescued live1 (copied ++ more) dead) as Hres2.
    { intros e He Hlv. rewrite fmap_app. apply elem_of_app. destruct (decide (e.1 ∈ copied.*1)) as [|Hn]; [by left|right].
      rewrite Hms. apply list_elem_of_fmap. exists e. split; [done|]. apply list_elem_of_filter. split; [|done]. split; [done|].
      by rewrite elem_of_list_to_set. }
    destruct (IH packs2 live1 (copied ++ more) rp1 (w2, w.2) Hinv2 Hpl2 Hres2 Hk2 Hnx) as (Hx & packs' & Hs' & Hfin).
    split; [done|]. exists packs'. split; [done|]. intros live' rp' ->. destruct (Hfin live' rp' eq_refl) as (? & ? & ?).
    split_and!; [by etransitivity|done|done].
Qed.

(** ** Unlinking *)

Lemma unlink_ok fence packs refs live p w :
  gc_inv fence packs refs live w → vacated p w → u32_ok p → p < fence →
  ∃ w', unlink_pack p w = (Ok tt, w') ∧ gc_inv fence (delete p packs) refs live w' ∧
    names_ok (delete p packs) (ss_pages w'.1) w'.2.1 ∧ vacated p w' ∧ late w' = late w ∧ caps w' = caps w.
Proof.
  intros [[Hok Hs Hwf Hfe Hcl Hci] Hl Hpr] Hv Hu Hp. destruct w as [st [pf t]]. cbn [fst snd] in *.
  set (ps1 := set_cache (invalidate (ps_cache (ss_pages st)) p) (ss_pages st)).
  assert (gc_ok packs ps1 pf) as Hok1.
  { split; [|apply Hok]. apply store_inv_cache; [apply Hok|]. intros q f g Hq. cbn in Hq.
    apply lookup_delete_Some in Hq as [_ Hq]. by eapply (si_cache _ _ _ (proj1 Hok)). }
  destruct (delete_pack_ok packs ps1 pf p Hok1 (proj1 Hs) Hu) as (pf' & Hdel & Hs' & Hdd & Hok2).
  { cbn. lia. }
  { exact Hv. }
  { cbn. apply lookup_delete_eq. }
  set (ps2 := set_active _ ps1) in *.
  exists (with_pages ps2 pf' (st, (pf, t))). split; [|split; [split; [split|done|done]|split]].
  - unfold unlink_pack. erewrite ibind_step by (apply on_pages_step; reflexivity).
    change (with_pages _ _ _) with (set_pages ps1 st, (pf, t)) at 1. rewrite on_pages_eq. cbn [ss_pages set_pages]. rewrite Hdel. by destruct st.
  - done.
  - split; [done|apply Hs].
  - done.
  - done.
  - intros r Hr. eapply closed_mono; [..|by apply Hcl]; done.
  - done.
  - by apply names_synced.
  - split; [exact Hv|by split].
Qed.

(** ** One pack *)

Lemma finalize_ok {X} (hooks : GcHooks X) fence packs (refs : X → client) live p copied dead rp fuel w x w' :
  hooks_ok fence refs hooks → p < fence → u32_ok p →
  gc_inv fence packs (refs w.2) live w.1 → planned p packs copied dead w.1 → rescued live copied dead →
  finalize_and_unlink unix_now fuel hooks p copied dead live rp w = (x, w') → next_of w'.1 ≤ 2 ^ 32 →
  ∃ packs', gc_safe fence packs' (refs w'.2) w'.1 ∧
    ∀ live' rp', x = Ok (live', rp') → live_le live live' ∧ gc_inv fence packs' (refs w'.2) live' w'.1 ∧
      vacated p w'.1 ∧ names_ok packs' (ss_pages w'.1.1) w'.1.2.1.
Proof.
  intros Hho Hp Hu Hinv Hpl Hres. pose proof (ho_next _ _ _ Hho : hooks_nondec hooks) as Hnd.
  assert (hook_is hooks UnlinkBeforeRepoint = false) as Hsb by (unfold hook_is; by rewrite (ho_sabotage _ _ _ Hho)).
  unfold finalize_and_unlink. rewrite Hsb. erewrite ibind_step by reflexivity.
  destruct (hook_inv fence refs hooks (BeforeFinalize p) packs live w Hho Hinv) as (Hrl & packs1 & Hb1 & _ & Hinv1).
  set (w1 := hook_at hooks (BeforeFinalize p) w) in *.
  assert (planned p packs1 copied dead w1.1) as Hpl1.
  { eapply planned_rely; [done|done|done|]. pose proof (gs_fence _ _ _ _ (gi_safe _ _ _ _ _ Hinv)). lia. }
  unfold ibind at 1. destruct (straggler_loop unix_now fuel hooks p copied dead live rp w1) as [y w2] eqn:Hst. intros Hk Hnx.
  assert (next_of w2.1 ≤ 2 ^ 32) as Hnx2.
  { destruct y as [[lv r2]|e|]; [|by injection Hk as <- <-..].
    assert (gnondec (fire (E:=SnapError) hooks (AfterRepoint p) ;! (in_store (unlink_pack p) ;! fire hooks (AfterUnlink p)) ;! iret (lv, r2))) as Hg.
    { apply gnondec_bind; [auto with nondec|]. intros _. apply gnondec_bind; [|auto with nondec]. apply gnondec_bind; auto with nondec. }
    specialize (Hg w2). rewrite Hk in Hg. cbn [fst snd] in Hg. lia. }
  destruct (straggler_ok hooks fence packs1 (refs w1.2) live p copied dead rp fuel w1 y w2 (ho_sabotage _ _ _ Hho) Hnd Hp Hinv1 Hpl1 Hres Hst Hnx2)
    as (Hx2 & packs2 & Hsafe2 & Hfin). rewrite <-Hx2 in Hsafe2, Hfin.
  destruct y as [[live2 rp2]|e|]; [|injection Hk as <- <-; exists packs2; by split..].
  destruct (Hfin live2 rp2 eq_refl) as (Hle & Hinv2 & Hv2). revert Hk. erewrite ibind_step by reflexivity.
  destruct (hook_inv fence refs hooks (AfterRepoint p) packs2 live2 w2 Hho Hinv2) as (Hrl3 & packs3 & _ & _ & Hinv3).
  set (w3 := hook_at hooks (AfterRepoint p) w2) in *.
  assert (vacated p w3.1) as Hv3.
  { intros h l Hl. destruct (rl_new _ _ Hrl3 h l Hl) as [?|?]; [by eapply Hv2|]. pose proof (gs_fence _ _ _ _ (gi_safe _ _ _ _ _ Hinv2)). lia. }
  destruct (unlink_ok fence packs3 (refs w3.2) live2 p w3.1 Hinv3 Hv3 Hu Hp) as (w4 & Hul & Hinv4 & Hnm4 & Hv4 & _ & _).
  erewrite ibind_step by (erewrite ibind_step by (apply in_store_step; exact Hul); reflexivity). intros [= <- <-].
  destruct (hook_inv fence refs hooks (AfterUnlink p) _ live2 (w4, w3.2) Hho Hinv4) as (Hrl5 & packs5 & _ & Hnm5 & Hinv5).
  exists packs5. split; [apply Hinv5|]. intros live' rp' [= <- <-]. split_and!; [done|done| |by apply Hnm5].
  intros h l Hl. destruct (rl_new _ _ Hrl5 h l Hl) as [?|?]; [by eapply Hv4|]. pose proof (gs_fence _ _ _ _ (gi_safe _ _ _ _ _ Hinv4)). cbn [fst] in *. lia.
Qed.

Lemma on_pages_same {E A} (f : StoreError → E) (c : P A) w :
  (c (ss_pages w.1, w.2.1)).2 = (ss_pages w.1, w.2.1) → (on_pages f c w).2 = w.
Proof. destruct w as [st [pf t]]. cbn [fst snd]. intros Hc. rewrite on_pages_eq, Hc. by destruct st. Qed.

(** The result of sweeping: the system's references are safe whatever
    happened; after success the invariant holds and names are durable. *)
Definition swept {X} fence (refs : X → client) live (x : res SnapError (LiveSet * SweepReport)) (w' : world X) : Prop :=
  ∃ packs', gc_safe fence packs' (refs w'.2) w'.1 ∧
    ∀ live' rp', x = Ok (live', rp') → live_le live live' ∧ gc_inv fence packs' (refs w'.2) live' w'.1 ∧
      names_ok packs' (ss_pages w'.1.1) w'.1.2.1.

Lemma compact_ok {X} (hooks : GcHooks X) fence packs (refs : X → client) live p lrecs drecs rp fuel w x w' :
  hooks_ok fence refs hooks → p < fence → u32_ok p → gc_inv fence packs (refs w.2) live w.1 →
  planned p packs [] (lrecs ++ drecs) w.1 → (∀ e, e ∈ drecs → e.1 ∉ lv_pages live) →
  compact_pack unix_now fuel hooks p lrecs drecs live rp w = (x, w') → next_of w'.1 ≤ 2 ^ 32 →
  swept fence refs live (match x with Ok (_, r) => Ok r | Err e => Err e | Panic => Panic end) w'.
Proof.
  intros Hho Hp Hu Hinv Hpl0 Hdl. pose proof (ho_next _ _ _ Hho : hooks_nondec hooks) as Hnd. unfold compact_pack.
  unfold ibind at 1. rewrite in_store_eq.
  destruct ((if bool_decide (lrecs = []) then iret [] else gc_copy_records unix_now lrecs) w.1) as [z w1] eqn:Hc. cbn [fst snd]. intros Hk Hnx.
  assert (next_of w1 ≤ 2 ^ 32) as Hnx1.
  { destruct z as [copied|e|]; [|by injection Hk as <- <-..]. revert Hk Hnx. clear -Hnd. intros Hk Hnx.
    match type of Hk with ?c ?v = _ => assert (gnondec c) as Hg end.
    { apply gnondec_bind; [auto with nondec|]. intros _. apply gnondec_bind; [by apply gnondec_finalize|]. auto with nondec. }
    specialize (Hg (w1, w.2)). rewrite Hk in Hg. cbn [fst snd] in Hg. lia. }
  assert (Forall (λ e, flat (ps_index (ss_pages w.1.1)) !! e.1 = Some e.2 ∧ pack e.2 = p) lrecs) as Hlr
    by (pose proof (pl_dead _ _ _ _ _ Hpl0) as Hd; by apply Forall_app in Hd as []).
  destruct (copy_planned fence packs (refs w.2) live p [] (lrecs ++ drecs) lrecs w.1 z w1 Hinv Hpl0 Hp Hlr (copy_room _ _ _ _ Hc Hnx1) Hc)
    as (Hla1 & _ & _ & _ & packs1 & _ & Hinv1 & Hmore).
  destruct z as [copied|e|]; [|injection Hk as <- <-; exists packs1; by split; [apply Hinv1|]..].
  destruct (Hmore copied eq_refl) as [Hms Hpl1]. apply plan_copied in Hpl1; [|done]. cbn [app] in Hpl1.
  revert Hk. erewrite ibind_step by reflexivity.
  destruct (hook_inv fence refs hooks (AfterCopy p) packs1 live (w1, w.2) Hho Hinv1) as (Hrl & packs2 & Hb2 & _ & Hinv2).
  set (w2 := hook_at hooks (AfterCopy p) (w1, w.2)) in *.
  assert (planned p packs2 copied drecs w2.1) as Hpl2.
  { eapply planned_rely; [exact Hpl1|done|done|]. pose proof (gs_fence _ _ _ _ (gi_safe _ _ _ _ _ Hinv1)). cbn [fst]. lia. }
  unfold ibind at 1. destruct (finalize_and_unlink unix_now fuel hooks p copied drecs live rp w2) as [z w3] eqn:Hf. intros Hk.
  assert (w3 = w') as -> by (destruct z as [[]|e|]; by injection Hk as _ <-).
  destruct (finalize_ok hooks fence packs2 refs live p copied drecs rp fuel w2 z w' Hho Hp Hu Hinv2 Hpl2) as (packs' & Hs' & Hfin); [|done|done|].
  { intros e He Hlv. by destruct (Hdl e He). }
  exists packs'. split; [done|]. intros live' rp' Hx.
  destruct z as [[live2 rp2]|e|]; injection Hk as <-; [|done..]. simplify_eq. by destruct (Hfin _ _ eq_refl) as (? & ? & _ & ?).
Qed.

Lemma sweep_one_ok {X} (hooks : GcHooks X) fence packs (refs : X → client) live p thr rp fuel w x w' :
  hooks_ok fence refs hooks → p < fence → u32_ok p → gc_inv fence packs (refs w.2) live w.1 →
  names_ok packs (ss_pages w.1.1) w.1.2.1 →
  gc_sweep_one_pack unix_now fuel hooks thr p live rp w = (x, w') → next_of w'.1 ≤ 2 ^ 32 → swept fence refs live x w'.
Proof.
  intros Hho Hp Hu Hinv Hnm.
  pose proof (gi_safe _ _ _ _ _ Hinv) as Hsafe. pose proof (si_index _ _ _ (proj1 (gs_pages _ _ _ _ Hsafe))) as Hix.
  unfold gc_sweep_one_pack. set (es := entries_for_pack (ps_index (ss_pages w.1.1)) p).
  assert (on_pages EPageStore (pack_entries p) w.1 = (Ok es, w.1)) as Hent.
  { unfold es. destruct w as [[st [pf t]] y]. cbn [fst]. rewrite on_pages_eq. cbn. by destruct st. }
  erewrite ibind_step by (apply in_store_step; exact Hent). unfold ibind at 1. rewrite in_store_eq. cbn [fst snd].
  pose proof (on_pages_same EPageStore (scan_pack p) w.1 (scan_pack_same p _ _ (proj1 (gs_calm _ _ _ _ Hsafe)))) as Hsc.
  destruct (on_pages EPageStore (scan_pack p) w.1) as [y w1]. cbn [fst snd] in Hsc |- *. subst w1.
  destruct y as [recs|e|]; [|intros [= <- <-] _; exists packs; by split..].
  replace (w.1, w.2) with w by by destruct w. cbv zeta.
  destruct ((zlen recs =? 0) && bool_decide (es = [])) eqn:Hempty.
  - apply andb_true_iff in Hempty as [_ Hnil]. b2p. pose proof (plan_none packs p w.1 Hix Hnil) as Hpl.
    unfold ibind at 1. destruct (finalize_and_unlink unix_now fuel hooks p [] [] live rp w) as [z w2] eqn:Hf. intros Hk Hnx.
    assert (w2 = w') as -> by (destruct z as [[]|e|]; by injection Hk as _ <-).
    destruct (finalize_ok hooks fence packs refs live p [] [] rp fuel w z w' Hho Hp Hu Hinv Hpl ltac:(by intros e ?%not_elem_of_nil) Hf Hnx)
      as (packs' & Hs' & Hfin). exists packs'. split; [done|]. intros live' rp' ->.
    destruct z as [[live2 rp2]|e|]; [|done..]. injection Hk as <- _. by destruct (Hfin live2 rp2 eq_refl) as (? & ? & _ & ?).
  - destruct (liveness_reaches _ _ _). { intros [= <- <-] _. exists packs. split; [done|]. by intros live' rp' [= <- <-]. }
    pose proof (plan_entries packs p live w.1 Hix) as Hpl0. cbv zeta in Hpl0. fold es in Hpl0.
    set (lrecs := live_of live es) in *. set (drecs := dead_of live es) in *.
    change (filter _ es) with lrecs at 1. change (filter _ es) with drecs at 1.
    unfold ibind at 1. destruct (compact_pack unix_now fuel hooks p lrecs drecs live rp w) as [z w2] eqn:Hc. intros Hk Hnx.
    assert (w2 = w') as -> by (destruct z as [[? []]|e|]; by injection Hk as _ <-).
    destruct (compact_ok hooks fence packs refs live p lrecs drecs rp fuel w z w' Hho Hp Hu Hinv Hpl0) as (packs' & Hs' & Hfin); [|done|done|].
    { by intros e [? _]%list_elem_of_filter. }
    exists packs'. split; [done|]. intros live' rp' ->. destruct z as [[copied [live2 rp2]]|e|]; [|done..]. injection Hk as <- _. by apply (Hfin live2 rp2).
Qed.

(** ** All packs *)

Lemma swept_stop {X} fence (refs : X → client) live packs x (w' : world X) :
  gc_safe fence packs (refs w'.2) w'.1 → (∀ r, x ≠ Ok r) → swept fence refs live x w'.
Proof. intros Hs Hx. exists packs. split; [done|]. intros live' rp' ->. by destruct (Hx (live', rp')). Qed.

Lemma sweep_each_ok {X} (hooks : GcHooks X) fence packs (refs : X → client) live thr ids rp fuel w x w' :
  hooks_ok fence refs hooks → Forall (λ p, u32_ok p ∧ p < fence) ids → gc_inv fence packs (refs w.2) live w.1 →
  names_ok packs (ss_pages w.1.1) w.1.2.1 →
  sweep_each unix_now fuel hooks thr ids live rp w = (x, w') → next_of w'.1 ≤ 2 ^ 32 → swept fence refs live x w'.
Proof.
  intros Hho. pose proof (ho_next _ _ _ Hho : hooks_nondec hooks) as Hnd. revert packs live rp w.
  induction ids as [|p ids IH]; intros packs live rp w Hids Hinv Hnm; cbn [sweep_each].
  { intros [= <- <-] _. exists packs. split; [apply Hinv|]. by intros live' rp' [= <- <-]. }
  apply Forall_cons in Hids as [[Hu Hp] Hids]. erewrite ibind_step by reflexivity.
  destruct (hook_inv fence refs hooks (BeforePackSweep p) packs live w Hho Hinv) as (_ & packs1 & _ & Hnm1 & Hinv1).
  set (w1 := hook_at hooks (BeforePackSweep p) w) in *. specialize (Hnm1 Hnm).
  unfold ibind at 1. destruct (gc_sweep_one_pack unix_now fuel hooks thr p live rp w1) as [y w2] eqn:Hs1. intros Hk Hnx.
  assert (next_of w2.1 ≤ 2 ^ 32) as Hnx2.
  { destruct y as [[live2 rp2]|e|]; [|by injection Hk as <- <-..].
    pose proof (gnondec_sweep_each hooks fuel thr ids live2 rp2 Hnd w2) as Hg. rewrite Hk in Hg. cbn [fst snd] in Hg. lia. }
  destruct (sweep_one_ok hooks fence packs1 refs live p thr rp fuel w1 y w2 Hho Hp Hu Hinv1 Hnm1 Hs1 Hnx2) as (packs2 & Hsafe2 & Hfin).
  destruct y as [[live2 rp2]|e|]; [|injection Hk as <- <-; by eapply swept_stop..].
  destruct (Hfin live2 rp2 eq_refl) as (Hle & Hinv2 & Hnm2).
  destruct (IH packs2 live2 rp2 w2 Hids Hinv2 Hnm2 Hk Hnx) as (packs' & Hs' & Hfin'). exists packs'. split; [done|].
  intros live' rp' ->. destruct (Hfin' live' rp' eq_refl) as (? & ? & ?). split_and!; [by etransitivity|done|done].
Qed.

Lemma sweep_packs_ok {X} (hooks : GcHooks X) fence packs (refs : X → client) live thr rp fuel w x w' :
  hooks_ok fence refs hooks → gc_inv fence packs (refs w.2) live w.1 → names_ok packs (ss_pages w.1.1) w.1.2.1 →
  gc_sweep_packs unix_now fuel hooks fence thr live rp w = (x, w') → next_of w'.1 ≤ 2 ^ 32 → swept fence refs live x w'.
Proof.
  intros Hho Hinv Hnm. unfold gc_sweep_packs.
  destruct (sealed_pack_ids_ok (ss_pages w.1.1) w.1.2.1) as (ids & Hids & Hu32); [apply (gi_safe _ _ _ _ _ Hinv)|].
  assert (on_pages EPageStore sealed_pack_ids w.1 = (Ok ids, w.1)) as Hent.
  { destruct w as [[st [pf t]] y]. cbn [fst snd] in *. rewrite on_pages_eq, Hids. cbn. by destruct st. }
  erewrite ibind_step by (apply in_store_step; exact Hent). replace (w.1, w.2) with w by by destruct w. intros Hk Hnx.
  eapply sweep_each_ok; [done| |exact Hinv|exact Hnm|exact Hk|exact Hnx].
  apply Forall_forall. intros p [? Hin]%list_elem_of_filter. rewrite Forall_forall in Hu32. split; [by apply Hu32|done].
Qed.

(** ** Manifests *)

(** Deleting a manifest: it is gone, the others stay, the pages and the
    epoch are untouched. *)
Record deleted (r : SnapshotRef) (w w' : SnapshotStore * disk) : Prop := {
  de_pages : ss_pages w'.1 = ss_pages w.1;
  de_epoch : ss_epoch w'.1 = ss_epoch w.1;
  de_disk : w'.2.1 = w.2.1;
  de_calm : calm (t_fs w'.2.2);
  de_wf : fs_wf (t_fs w'.2.2);
  de_gone : named (t_fs w'.2.2) (spm_path r) = None;
  de_dirs : t_dirs w'.2.2 = t_dirs w.2.2;
  de_cache : ss_cache w'.1 = fc_remove (ss_cache w.1) r ∨ w' = w;
  de_other : ∀ q, q ≠ spm_path r → named (t_fs w'.2.2) q = named (t_fs w.2.2) q;
}.

Lemma peeks_guest_ram p : peeks (read_guest_ram_bytes p).
Proof.
  unfold read_guest_ram_bytes. apply peeks_bind; [apply peeks_open_existing|]. intros f.
  apply peeks_bind; [apply peeks_read_exact|]. intros [b ?]. by apply peeks_if.
Qed.

Lemma delete_manifest_ok r w :
  calm (t_fs w.2.2) → fs_wf (t_fs w.2.2) → ∃ b w', delete_manifest r w = (Ok b, w') ∧ deleted r w w'.
Proof.
  intros Hs Hwf. destruct w as [st [pf t]]. cbn [fst snd] in *. unfold delete_manifest.
  erewrite ibind_step by (unfold on_tree, imap_err, zoom; cbn [fst snd]; rewrite path_exists_calm by done; reflexivity). cbn [fst snd].
  destruct (fs_dir (t_fs t) !! spm_path r) as [i|] eqn:Hi.
  2: { rewrite bool_decide_eq_false_2 by by intros []. exists false, (st, (pf, t)). split; [done|]. split; cbn; try done; [|by right].
       unfold named. by rewrite Hi. }
  rewrite bool_decide_eq_true_2 by done. cbn [negb].
  assert (∃ y, in_fs (itry (read_guest_ram_bytes (spm_path r))) t = (Ok y, t)) as [y Hy].
  { pose proof (peeks_guest_ram (spm_path r) (t_fs t) Hs) as Hp. unfold in_fs, zoom, itry.
    destruct (read_guest_ram_bytes (spm_path r) (t_fs t)) as [z s'] eqn:Hz. cbn in Hp. subst s'.
    destruct z as [z|e|]; [by exists (Ok z); destruct t|by exists (Err e); destruct t|].
    exfalso. revert Hz. unfold read_guest_ram_bytes.
    erewrite ibind_step by (unfold open_existing; rewrite syscall_calm, Hi by done; reflexivity).
    unfold ibind, read_exact, read_exact_at, ibind. rewrite syscall_calm by done. cbv zeta. destruct (_ && _); [|done]. cbn. by case_match. }
  erewrite ibind_step by (unfold on_tree; apply imap_step; unfold zoom; cbn [fst snd]; rewrite Hy; reflexivity).
  erewrite ibind_step by (unfold on_tree; apply imap_step; unfold zoom, in_fs, zoom, remove_file; cbn [fst snd]; rewrite syscall_calm, Hi by done; reflexivity).
  cbn [fst snd]. set (t1 := set_t_fs _ t).
  erewrite ibind_step by (unfold on_tree; apply imap_step; unfold zoom; cbn [fst snd]; rewrite (sync_shard_calm _ t1) by done; reflexivity).
  erewrite ibind_step by reflexivity. erewrite ibind_step by reflexivity. eexists true, _. split; [reflexivity|].
  split; cbn; try done.
  - apply fs_wf_set_ddir. by apply fs_wf_remove.
  - unfold named. cbn. by rewrite lookup_delete_eq.
  - by left.
  - intros q Hq. unfold named. cbn. by rewrite lookup_delete_ne.
Qed.

Lemma chain_keep t t' r l :
  chain t r l → (∀ r' m, (r', m) ∈ l → holds t r' m → holds t' r' m) → chain t' r l.
Proof.
  induction 1 as [r m Hh Hd|r m p pm rest Hh Hd Hp Hc IH Hg]; intros Hk.
  - apply chain_full; [|done]. apply Hk; [left|done].
  - apply chain_delta; [apply Hk; [left|done]|done|done| |done]. apply IH. intros r' m' Hin. apply Hk. by right.
Qed.

Lemma deleted_holds r w w' r' m : deleted r w w' → hash_ok r → r' ≠ r → holds w.2.2 r' m → holds w'.2.2 r' m.
Proof.
  intros Hde Hr Hne Hh. pose proof (holds_hash_ok _ _ _ Hh) as Hr'. destruct Hh as (Hn & ? & ?). split; [|done].
  rewrite (de_other _ _ _ Hde); [done|]. intros Heq. by apply Hne, spm_path_inj.
Qed.

Lemma deleted_wf r w w' : deleted r w w' → tree_wf w.2.2 → tree_wf w'.2.2.
Proof.
  intros Hde. apply tree_wf_shrink; [|apply Hde]. intros r' m (Hn & ? & ?). split; [|done].
  rewrite (de_other _ _ _ Hde) in Hn; [done|]. intros Heq. rewrite Heq, (de_gone _ _ _ Hde) in Hn. done.
Qed.

Lemma deleted_inv fence packs refs live r w w' :
  gc_inv fence packs refs live w → late w = [] → r ∉ lv_manifests live → hash_ok r → deleted r w w' →
  gc_inv fence packs refs live w' ∧ late w' = [].
Proof.
  intros Hinv Hla Hn Hr Hde. pose proof Hinv as [[Hok Hs Hwf Hfe Hcl Hci] Hl Hpr].
  assert (late w' = []) as Hla' by (unfold late in *; by rewrite (de_epoch _ _ _ Hde)). split; [|done].
  split.
  - split; rewrite ?(de_pages _ _ _ Hde), ?(de_disk _ _ _ Hde); [done|split; [apply Hs|apply Hde]|by eapply deleted_wf|done| |done].
    intros r' Hr'. destruct (Hcl r' Hr') as (l & Hc & Hp). exists l. rewrite (de_pages _ _ _ Hde). split; [|done].
    eapply chain_keep; [exact Hc|]. intros r2 m Hin Hh. eapply deleted_holds; [done|done| |done]. intros ->. apply Hn.
    destruct (Hpr r' Hr') as [Hm|Hm]; [|rewrite Hla in Hm; by apply elem_of_nil in Hm]. by destruct (marked_chain _ _ _ _ Hl Hc Hm r m Hin).
  - intros r' Hr'. destruct (Hl r' Hr') as (m & Hh & Hp & Hd). exists m. split; [|done]. eapply deleted_holds; [done|done| |done]. by intros ->.
  - intros r' Hr'. destruct (Hpr r' Hr') as [?|Hm]; [by left|]. rewrite Hla in Hm. by apply elem_of_nil in Hm.
Qed.

(** What a run of deletions leaves. *)
Record trimmed (gone : list SnapshotRef) (w w' : SnapshotStore * disk) : Prop := {
  tr_pages : ss_pages w'.1 = ss_pages w.1;
  tr_disk : w'.2.1 = w.2.1;
  tr_gone : ∀ r, r ∈ gone → named (t_fs w'.2.2) (spm_path r) = None;
  tr_other : ∀ q, named (t_fs w'.2.2) q = named (t_fs w.2.2) q ∨ named (t_fs w'.2.2) q = None;
  tr_cache : NoDup (fc_entries (ss_cache w.1)).*1 → NoDup (fc_entries (ss_cache w'.1)).*1 ∧
    ∀ r es, fc_get (ss_cache w'.1) r = Some es → fc_get (ss_cache w.1) r = Some es ∧
      (is_Some (named (t_fs w.2.2) (spm_path r)) → hash_ok r → is_Some (named (t_fs w'.2.2) (spm_path r)));
}.

Lemma trimmed_refl w : trimmed [] w w.
Proof. split; try done; [by intros r ?%not_elem_of_nil|by left]. Qed.

Lemma trimmed_trans g1 g2 w1 w2 w3 : trimmed g1 w1 w2 → trimmed g2 w2 w3 → trimmed (g1 ++ g2) w1 w3.
Proof.
  intros [Hp1 Hd1 Hg1 Ho1 Hc1] [Hp2 Hd2 Hg2 Ho2 Hc2]. split; [congruence|congruence| | |].
  - intros r [Hr|Hr]%elem_of_app; [|by apply Hg2]. destruct (Ho2 (spm_path r)) as [->|?]; [by apply Hg1|done].
  - intros q. destruct (Ho2 q) as [->|?]; [apply Ho1|by right].
  - intros Hnd. destruct (Hc1 Hnd) as [Hnd2 H1]. destruct (Hc2 Hnd2) as [Hnd3 H2]. split; [done|].
    intros r es Hg. destruct (H2 r es Hg) as [Hg2' Hs2]. destruct (H1 r es Hg2') as [Hg1' Hs1]. split; [done|]. auto.
Qed.

Lemma trimmed_deleted r w w' : hash_ok r → deleted r w w' → trimmed [r] w w'.
Proof.
  intros Hr Hde. split; [apply Hde|apply Hde| | |].
  - intros r' ->%list_elem_of_singleton. apply Hde.
  - intros q. destruct (decide (q = spm_path r)) as [->|Hq]; [right; apply Hde|left; by apply Hde].
  - intros Hnd. destruct (de_cache _ _ _ Hde) as [Hc| ->]; [|done]. rewrite Hc. unfold fc_get, fc_remove. cbn [fc_entries]. split.
    + eapply sublist_NoDup; [done|apply remove_first_sublist].
    + intros r' es Ha. assert (r' ≠ r) as Hne.
      { intros ->. apply assoc_elem in Ha. by apply (remove_first_gone r (fc_entries (ss_cache w.1))). }
      rewrite assoc_remove_first in Ha by done. split; [done|]. intros Hsome Hr'. rewrite (de_other _ _ _ Hde); [done|].
      intros Heq. by apply Hne, spm_path_inj.
Qed.

Lemma delete_batch_ok fence packs refs live batch rp w :
  gc_inv fence packs refs live w → late w = [] → Forall hash_ok batch →
  ∃ rp' w' gone, delete_batch batch live rp w = (Ok rp', w') ∧ gc_inv fence packs refs live w' ∧ late w' = [] ∧
    trimmed gone w w' ∧ ∀ r, r ∈ batch → r ∈ gone ∨ r ∈ lv_manifests live.
Proof.
  revert rp w. induction batch as [|r batch IH]; intros rp w Hinv Hla Hall; cbn [delete_batch].
  { exists rp, w, []. split_and!; [done|done|done|apply trimmed_refl|by intros r ?%not_elem_of_nil]. }
  apply Forall_cons in Hall as [Hr Hall]. destruct (bool_decide (r ∈ lv_manifests live)) eqn:Hlv; b2p.
  { destruct (IH rp w Hinv Hla Hall) as (rp' & w' & gone & ? & ? & ? & ? & Hg). exists rp', w', gone. split_and!; try done.
    intros r' [->|?]%elem_of_cons; [by right|by apply Hg]. }
  destruct (delete_manifest_ok r w) as (b & w1 & Hd & Hde); [apply (gi_safe _ _ _ _ _ Hinv)..|].
  destruct (deleted_inv _ _ _ _ _ _ _ Hinv Hla Hlv Hr Hde) as [Hinv1 Hla1].
  erewrite ibind_step by exact Hd. destruct (IH (if b then add_deleted_manifest rp else rp) w1 Hinv1 Hla1 Hall)
    as (rp' & w' & gone & Hk & ? & ? & Htr & Hg). exists rp', w', ([r] ++ gone). split_and!; [exact Hk|done|done| |].
  - eapply trimmed_trans; [by apply trimmed_deleted|done].
  - intros r' [->|Hr']%elem_of_cons; [left; left|]. destruct (Hg r' Hr') as [?|?]; [left; by right|by right].
Qed.

(** What the manifest sweep leaves. *)
Definition batches_done {X} fence packs refs live (candidates : list SnapshotRef) (x : res SnapError (LiveSet * SweepReport)) (w w' : world X) : Prop :=
  w'.2 = w.2 ∧ gc_safe fence packs refs w'.1 ∧
  ∀ live' rp', x = Ok (live', rp') → live_le live live' ∧ gc_inv fence packs refs live' w'.1 ∧
    ∃ gone, trimmed gone w.1 w'.1 ∧ ∀ r, r ∈ candidates → r ∈ gone ∨ r ∈ lv_manifests live'.

Lemma batches_nil {X} fence packs refs live rp (w : world X) :
  gc_inv fence packs refs live w.1 → batches_done fence packs refs live [] (Ok (live, rp)) w w.
Proof.
  intros Hinv. split; [done|]. split; [apply Hinv|]. intros live' rp' [= <- <-]. split; [done|]. split; [done|].
  exists []. split; [apply trimmed_refl|by intros r ?%not_elem_of_nil].
Qed.

Lemma trimmed_drained w : trimmed [] w (drained w).
Proof.
  unfold drained. destruct w as [st d]. cbn [fst snd]. destruct (ss_epoch st); [|apply trimmed_refl].
  split; try done; [by intros r ?%not_elem_of_nil|by left].
Qed.

Lemma sweep_batches_ok {X} (hooks : GcHooks X) fence packs refs live candidates rp fuel (w : world X) x w' :
  sabotage hooks = None → (length candidates ≤ fuel)%nat → Forall hash_ok candidates →
  gc_inv fence packs refs live w.1 → sweep_batches fuel hooks candidates live rp w = (x, w') →
  batches_done fence packs refs live candidates x w w'.
Proof.
  intros Hsab. assert (hook_is hooks SkipLateRootsDrain = false) as Hh by (unfold hook_is; by rewrite Hsab).
  revert candidates live rp w. induction fuel as [|fuel IH]; intros [|c0 cs0] live rp w Hlen Hall Hinv; cbn [sweep_batches];
    [intros [= <- <-]; by apply batches_nil|cbn in Hlen; lia|intros [= <- <-]; by apply batches_nil|].
  set (cs := c0 :: cs0) in *. rewrite Hh. erewrite ibind_step by (apply in_store_step, drain_eq).
  unfold ibind at 1. rewrite in_store_eq. cbn [fst snd]. destruct (gc_mark (late w.1) live rp (drained w.1)) as [y w1] eqn:Hm.
  destruct (drain_mark _ _ _ _ _ _ _ _ Hinv Hm) as (Hsafe1 & Hla1 & _ & _ & Hk). cbn [fst snd].
  assert (w1 = drained w.1) as Hw1.
  { apply (gc_mark_ok (late w.1) live rp (drained w.1) y w1); [|apply Hinv|done].
    unfold drained. cbn. apply (gi_safe _ _ _ _ _ Hinv). }
  destruct y as [[live1 rp1]|e|]; [|intros [= <- <-]; split; [done|]; by split..].
  destruct (Hk live1 rp1 eq_refl) as [Hle1 Hinv1].
  set (cs1 := if bool_decide (late w.1 = []) then cs else filter (λ r, r ∉ lv_manifests live1) cs).
  assert (Forall hash_ok cs1) as Hall1 by (unfold cs1; case_bool_decide; [done|by apply Forall_sub_filter]).
  assert (length cs1 ≤ length cs)%nat as Hlen1 by (unfold cs1; case_bool_decide; [done|apply length_filter]).
  assert (∀ r, r ∈ cs → r ∈ cs1 ∨ r ∈ lv_manifests live1) as Hsplit.
  { intros r Hr. unfold cs1. case_bool_decide; [by left|]. destruct (decide (r ∈ lv_manifests live1)); [by right|left]. by apply list_elem_of_filter. }
  destruct (delete_batch_ok fence packs refs live1 (take BATCH cs1) rp1 w1 Hinv1 Hla1 ltac:(by apply Forall_take))
    as (rp2 & w2 & gone & Hdb & Hinv2 & Hla2 & Htr & Hg).
  erewrite ibind_step by (apply in_store_step; exact Hdb). cbn [fst snd]. intros Hk2.
  assert (length (drop BATCH cs1) ≤ fuel)%nat as Hlen2 by (rewrite length_drop; unfold BATCH; cbn [length cs] in *; lia).
  destruct (IH (drop BATCH cs1) live1 rp2 (w2, w.2) Hlen2 ltac:(by apply Forall_drop) Hinv2 Hk2) as (Hx & Hsafe' & Hfin).
  split; [done|]. split; [done|]. intros live' rp' ->. destruct (Hfin live' rp' eq_refl) as (Hle & Hinv' & gone2 & Htr2 & Hg2).
  split; [by etransitivity|]. split; [done|]. exists (([] ++ gone) ++ gone2). split.
  - eapply trimmed_trans; [|exact Htr2]. eapply trimmed_trans; [apply trimmed_drained|]. by rewrite <-Hw1.
  - intros r Hr. destruct (Hsplit r Hr) as [Hr1|?]; [|right; by apply Hle]. rewrite <-(take_drop BATCH cs1) in Hr1.
    apply elem_of_app in Hr1 as [Hr1|Hr1]; [destruct (Hg r Hr1) as [?|?]; [left; set_solver|right; by apply Hle]|].
    destruct (Hg2 r Hr1) as [?|?]; [left; set_solver|by right].
Qed.

(** ** Listing manifests *)

Lemma hex_pairs_length n s b : (String.length s ≤ n)%nat → hex_pairs s = Some b → (2 * length b)%nat = String.length s.
Proof.
  revert s b. induction n as [|n IH]; intros [|x [|y s]] b Hn; cbn in Hn |- *; try lia; try (by intros [= <-]); try done.
  destruct (hex_val x) as [hi|]; [|done]. destruct (hex_val y) as [lo|]; [|done]. cbn.
  destruct (hex_pairs s) as [tl|] eqn:Ht; [|done]. intros [= <-]. cbn. specialize (IH s tl ltac:(lia) Ht). lia.
Qed.

Lemma ref_of_name_ok n r : ref_of_name n = Some r → hash_ok r.
Proof.
  unfold ref_of_name. destruct (strip_suffix _ _) as [hex|]; [|done]. cbn. unfold hex_to_32.
  destruct (String.length hex =? 64)%nat eqn:Hl; [|done]. intros Hh. apply Nat.eqb_eq in Hl.
  apply (hex_pairs_length (String.length hex)) in Hh; [|done]. unfold hash_ok. lia.
Qed.

Lemma list_shards_ok shards t : calm (t_fs t) →
  ∃ refs, list_shards shards t = (Ok refs, t) ∧ Forall hash_ok refs ∧
    ∀ r, hash_ok r → is_Some (fs_dir (t_fs t) !! spm_path r) → shard_dir r ∈ shards → r ∈ refs.
Proof.
  intros Hs. induction shards as [|d shards (refs & Hl & Hall & Hin)]; cbn [list_shards].
  { exists []. split; [done|]. split; [constructor|]. by intros r _ _ ?%not_elem_of_nil. }
  erewrite ibind_step by (unfold read_shard, in_fs, zoom; rewrite syscall_calm by done; reflexivity).
  replace (set_t_fs (t_fs t) t) with t by by destruct t. erewrite ibind_step by exact Hl. eexists. split; [reflexivity|]. split.
  - apply Forall_app. split; [|done]. apply Forall_forall. intros r (n & _ & Hn)%list_elem_of_omap. by eapply ref_of_name_ok.
  - intros r Hr Hsome [<-|Hd]%elem_of_cons; [|apply elem_of_app; right; by apply Hin]. apply elem_of_app. left.
    apply list_elem_of_omap. exists (ref_to_hex r +:+ ".spm"). split.
    + apply list_elem_of_omap. exists (spm_path r). split.
      * destruct Hsome as [i Hi]. apply list_elem_of_fmap. exists (spm_path r, i). split; [done|]. by apply elem_of_map_to_list.
      * unfold spm_path. rewrite <-string_app_assoc. apply strip_prefix_app.
    + unfold ref_of_name. rewrite strip_suffix_app. cbn. by apply hex_to_32_ref.
Qed.

(** Every manifest lies in a shard directory that exists. *)
Definition dirs_ok (t : tree) : Prop := ∀ r, hash_ok r → is_Some (fs_dir (t_fs t) !! spm_path r) → shard_dir r ∈ t_dirs t.

Lemma list_manifests_ok w : calm (t_fs w.2.2) →
  ∃ refs, list_manifest_refs w = (Ok refs, w) ∧ Forall hash_ok refs ∧
    (dirs_ok w.2.2 → ∀ r, hash_ok r → is_Some (fs_dir (t_fs w.2.2) !! spm_path r) → r ∈ refs).
Proof.
  intros Hs. destruct w as [st [pf t]]. cbn [fst snd] in *.
  destruct (list_shards_ok (elements (t_dirs t)) t Hs) as (refs & Hl & Hall & Hin). exists refs. split; [|split; [done|]].
  - unfold list_manifest_refs, on_tree, imap_err, zoom. cbn [fst snd].
    erewrite ibind_step by (unfold in_fs, zoom; rewrite syscall_calm by done; reflexivity).
    replace (set_t_fs (t_fs t) t) with t by by destruct t. by rewrite Hl.
  - intros Hd r Hr Hsome. apply Hin; [done|done|]. apply elem_of_elements. by apply Hd.
Qed.

Lemma sweep_manifests_ok {X} (hooks : GcHooks X) fence packs (refs : X → client) live rp w x w' :
  hooks_ok fence refs hooks → gc_inv fence packs (refs w.2) live w.1 → names_ok packs (ss_pages w.1.1) w.1.2.1 →
  gc_sweep_manifests hooks live rp w = (x, w') → let w1 := hook_at hooks BeforeManifestSweep w in
  ∃ packs1, names_ok packs1 (ss_pages w1.1.1) w1.1.2.1 ∧
    ∃ candidates, batches_done fence packs1 (refs w1.2) live candidates x w1 w' ∧
      (dirs_ok w1.1.2.2 → ∀ r, hash_ok r → is_Some (fs_dir (t_fs w1.1.2.2) !! spm_path r) → r ∈ candidates ∨ r ∈ lv_manifests live).
Proof.
  intros Hho Hinv Hnm Hk. cbv zeta. unfold gc_sweep_manifests in Hk. erewrite ibind_step in Hk by reflexivity.
  destruct (hook_inv fence refs hooks BeforeManifestSweep packs live w Hho Hinv) as (_ & packs1 & _ & Hnm1 & Hinv1).
  set (w1 := hook_at hooks BeforeManifestSweep w) in *. exists packs1. split; [by apply Hnm1|].
  destruct (list_manifests_ok w1.1) as (ls & Hl & Hall & Hin); [apply (gi_safe _ _ _ _ _ Hinv1)|].
  erewrite ibind_step in Hk by (apply in_store_step; exact Hl). replace (w1.1, w1.2) with w1 in Hk by by destruct w1.
  eexists. split.
  - eapply sweep_batches_ok; [apply Hho|reflexivity| |exact Hinv1|exact Hk]. by apply Forall_sub_filter.
  - intros Hd r Hr Hsome. destruct (decide (r ∈ lv_manifests live)); [by right|left]. apply list_elem_of_filter. split; [done|]. by apply Hin.
Qed.

End gcinv.
