(* ===== verification/StoreGcRun.v ===== *)
(** * Completion of a garbage-collection cycle

    A cycle that nothing disturbs runs to the end.  [gc_ready] says what it
    needs: every pack file below the fence is a sealed pack of the store
    under its canonical name, each such pack fits the current size limit
    (its live records go to one compaction pack), no chain is longer than
    [MAX_CHAIN], and enough pack ids are left. *)

From Stdlib Require Import Floats.SpecFloat.
From S2P Require Import Prelude Types Manifest Fs Faults Pack Index Names ReadCache PageStore PageStoreInv.
From S2P Require Import PageStoreIngest PageStoreRead PageStoreSync PageStoreGc SnapStore SnapStoreInv SnapStoreRead StoreGc StoreGcInv.

Section gcrun.
Context {HB : Blake3} {HZ : Zstd} {HC : Crc32} (unix_now : Z).

(** The size of a pack with [n] page records. *)
Definition pack_bytes (n : Z) : Z := PACK_HEADER_SIZE + n * (RECORD_HEADER_SIZE + PAGE_SIZE).

Record gc_ready (fence : PackId) (packs : packs_t) (w : SnapshotStore * disk) : Prop := {
  gr_files : ∀ name id, is_Some (fs_dir w.2.1 !! name) → parse_pack_name name = Some id → id < fence →
    name = pack_path id ∧ is_Some (packs !! id);
  gr_fits : ∀ id hdr rs, packs !! id = Some (hdr, rs) → id < fence → pack_bytes (zlen rs) ≤ max_pack_bytes (ps_opts (ss_pages w.1));
  gr_cap : max_pack_bytes (ps_opts (ss_pages w.1)) < 2 ^ 64;
  gr_ids : next_of w + Z.of_nat (size packs) ≤ 2 ^ 32;
  gr_chains : ∀ r l, chain w.2.2 r l → (length l ≤ MAX_CHAIN)%nat;
}.

(** ** Mark *)

Lemma mark_chain_run fuel first r l live rp w :
  calm (t_fs w.2.2) → chain w.2.2 r l → (length l ≤ fuel)%nat → ∃ live', mark_chain fuel first r live rp w = (Ok (live', rp), w).
Proof.
  intros Hs Hc. revert fuel first live. destruct w as [st [pf t]]. cbn [fst snd] in *.
  induction Hc as [r m Hh Hd|r m p pm rest Hh Hd Hp Hc IH Hg]; intros [|fuel] first live Hlen; cbn [length] in Hlen; try lia;
    cbn [mark_chain]; (case_bool_decide; [by eexists|]).
  all: erewrite ibind_step by (unfold itry, on_tree, imap_err, zoom; cbn [fst snd]; rewrite (read_manifest_found _ _ _ Hs Hh); reflexivity).
  all: cbv beta iota delta [map_err]; erewrite ibind_step by (apply imap_step; unfold iof; rewrite decode_encode by apply Hh; reflexivity); cbv zeta; rewrite Hd.
  - by eexists.
  - erewrite ibind_step by (unfold iof; rewrite Hp; reflexivity). apply IH. cbn [length]. lia.
Qed.


Lemma mark_missing_run fuel r live rp w :
  calm (t_fs w.2.2) → named (t_fs w.2.2) (spm_path r) = None → ∃ rp', mark_chain (S fuel) true r live rp w = (Ok (live, rp'), w).
Proof.
  intros Hs Hn. destruct w as [st [pf t]]. cbn [fst snd mark_chain] in *. case_bool_decide; [by eexists|].
  assert (read_manifest_bytes r t = (Err ESnapNotFound, t)) as Hr.
  { unfold read_manifest_bytes. erewrite ibind_step by by apply path_exists_calm. unfold named in Hn.
    destruct (fs_dir (t_fs t) !! spm_path r) as [i|]; [done|]. by rewrite bool_decide_eq_false_2 by by intros [? ?]. }
  erewrite ibind_step by (unfold itry, on_tree, imap_err, zoom; cbn [fst snd]; rewrite Hr; reflexivity). by eexists.
Qed.

#[local] Opaque mark_chain.

Lemma gc_mark_run idx roots live rp w :
  calm (t_fs w.2.2) → tree_inv idx w.2.2 → (∀ r l, chain w.2.2 r l → (length l ≤ MAX_CHAIN)%nat) → Forall hash_ok roots →
  ∃ live' rp', gc_mark roots live rp w = (Ok (live', rp'), w).
Proof.
  intros Hs Hi Hd. revert live rp. induction roots as [|r roots IH]; intros live rp Hall; cbn [gc_mark]; [by eexists _, _|].
  apply Forall_cons in Hall as [Hr Hall].
  assert (∃ live1 rp1, mark_chain MAX_CHAIN true r live rp w = (Ok (live1, rp1), w)) as (live1 & rp1 & Hm).
  { destruct (named (t_fs w.2.2) (spm_path r)) as [c|] eqn:Hn.
    - destruct (ti_files _ _ Hi r c Hr Hn) as (m & rest & _ & Hc).
      destruct (mark_chain_run MAX_CHAIN true r _ live rp w Hs Hc (Hd _ _ Hc)) as (live1 & Hm). by eexists _, _.
    - destruct (mark_missing_run (pred MAX_CHAIN) r live rp w Hs Hn) as (rp1 & Hm). by eexists _, _. }
  erewrite ibind_step by exact Hm. by apply IH.
Qed.


(** ** One pack *)

Lemma scan_run packs ps s p hdr rs :
  store_inv packs ps s → calm s → p ≠ a_pack_id (ps_active ps) → packs !! p = Some (hdr, rs) → zlen rs < 2 ^ 64 →
  scan_pack p (ps, s) = (Ok (locs PACK_HEADER_SIZE rs), (ps, s)).
Proof.
  intros Hi Hs Hne Hp Hn. destruct (si_sealed _ _ _ Hi _ _ _ Hne Hp) as (Hh & i & Hd & Hc).
  destruct (open_sealed_ok (pack_path p) i hdr rs p s Hs Hd Hc Hh) as (r & Ho & Hsc & _); [|done|].
  { eapply Forall_impl; [exact (si_pages _ _ _ Hi _ _ _ Hp)|]. apply page_ok_shape. }
  unfold scan_pack. apply on_fs_step, imap_step. by erewrite ibind_step by exact Ho.
Qed.

(** The index has at most one entry per record of a pack. *)
Lemma entries_bound packs ps s p hdr rs :
  store_inv packs ps s → packs !! p = Some (hdr, rs) → (length (entries_for_pack (ps_index ps) p) ≤ length rs)%nat.
Proof.
  intros Hi Hp. rewrite <-(length_fmap fst (entries_for_pack _ _)), <-(length_fmap rr_hash rs).
  apply submseteq_length, NoDup_submseteq; [apply entries_for_pack_NoDup, Hi|].
  intros h ([h' l] & -> & Hin)%list_elem_of_fmap. apply entries_for_pack_elem in Hin as [Hl Hpl]; [|apply Hi].
  destruct (si_loc _ _ _ Hi _ _ Hl) as (hdr' & rs' & Hp' & Hin'). rewrite Hpl, Hp in Hp'. injection Hp' as <- <-.
  rewrite <-(locs_hashes PACK_HEADER_SIZE). apply list_elem_of_fmap. by exists (offset l, h').
Qed.

Lemma finalize_run {X} fence packs refs live p copied dead rp fuel (w : world X) :
  gc_inv fence packs refs live w.1 → late w.1 = [] → planned p packs copied dead w.1 → rescued live copied dead →
  u32_ok p → p < fence →
  ∃ w', finalize_and_unlink unix_now (S fuel) hooks_none p copied dead live rp w = (Ok (live, rp), (w', w.2)) ∧
    gc_inv fence (delete p packs) refs live w' ∧ names_ok (delete p packs) (ss_pages w'.1) w'.2.1 ∧ late w' = [] ∧ caps w' = caps w.1.
Proof.
  intros Hinv Hla Hpl Hres Hu Hp. destruct w as [[st [pf t]] y]. cbn [fst snd] in *.
  destruct (finalize_pass fence packs refs live p copied dead st pf t Hinv Hla Hpl Hres) as (st2 & Hf & Hinv2 & Hv & Hla2 & Hcap).
  apply ibind_Ok in Hf as ([] & w1 & Hf1 & Hf2).
  destruct (unlink_ok fence packs refs live p _ Hinv2 Hv Hu Hp) as (w4 & Hul & Hinv4 & Hnm4 & _ & Hla4 & Hcap4).
  exists w4. split; [|split_and!; [done|done|congruence|congruence]].
  assert (straggler_loop unix_now (S fuel) hooks_none p copied dead live rp ((st, (pf, t)), y) = (Ok (live, rp), ((st2, (pf, t)), y))) as Hst.
  { cbn [straggler_loop]. change (hook_is hooks_none SkipLateRootsDrain) with false. change (hook_is hooks_none UnlinkBeforeRepoint) with false.
    change (hook_is hooks_none SkipIndexRemoveOfDead) with false. cbv iota.
    erewrite ibind_step by (apply in_store_step, drain_eq). cbn [fst snd]. rewrite Hla, bool_decide_eq_true_2, drained_id by done.
    erewrite ibind_step by reflexivity. erewrite ibind_step by (apply in_store_step; exact Hf1).
    by erewrite ibind_step by (apply in_store_step; exact Hf2). }
  unfold finalize_and_unlink. erewrite ibind_step by reflexivity. cbn [hook_at hooks_none]. erewrite ibind_step by exact Hst. cbv beta iota.
  change (hook_is hooks_none UnlinkBeforeRepoint) with false. erewrite ibind_step by reflexivity. cbn [hook_at hooks_none].
  by erewrite ibind_step by (erewrite ibind_step by (apply in_store_step; exact Hul); reflexivity).
Qed.

(** What sweeping [p] leads to. *)
Record swept_one {X} (fence p : PackId) (packs packs' : packs_t) refs live (w w' : world X) : Prop := {
  so_rest : w'.2 = w.2;
  so_inv : gc_inv fence packs' refs live w'.1;
  so_names : names_ok packs' (ss_pages w'.1.1) w'.1.2.1;
  so_late : late w'.1 = [];
  so_packs : ∀ q v, q ≠ p → packs !! q = Some v → packs' !! q = Some v;
  so_opts : ps_opts (ss_pages w'.1.1) = ps_opts (ss_pages w.1.1);
  so_next : next_of w'.1 ≤ next_of w.1 + 1;
}.

Lemma compact_run {X} fence packs refs live p lrecs drecs rp fuel (w : world X) :
  gc_inv fence packs refs live w.1 → late w.1 = [] → planned p packs [] (lrecs ++ drecs) w.1 → (∀ e, e ∈ drecs → e.1 ∉ lv_pages live) →
  u32_ok p → p < fence → next_of w.1 < 2 ^ 32 → pack_bytes (zlen lrecs) ≤ max_pack_bytes (ps_opts (ss_pages w.1.1)) →
  ∃ copied rp' packs' w', compact_pack unix_now (S fuel) hooks_none p lrecs drecs live rp w = (Ok (copied, (live, rp')), w') ∧
    swept_one fence p packs packs' refs live w w'.
Proof.
  intros Hinv Hla Hpl Hdl Hu Hp Hnx Hfit. unfold compact_pack.
  assert (Forall (λ e, flat (ps_index (ss_pages w.1.1)) !! e.1 = Some e.2 ∧ pack e.2 = p) lrecs) as Hlr
    by (pose proof (pl_dead _ _ _ _ _ Hpl) as Hd; by apply Forall_app in Hd as []).
  destruct ((if bool_decide (lrecs = []) then iret [] else gc_copy_records unix_now lrecs) w.1) as [z w1] eqn:Hc.
  destruct (copy_planned unix_now fence packs refs live p [] (lrecs ++ drecs) lrecs w.1 z w1 Hinv Hpl Hp Hlr (λ _, Hnx) Hc)
    as (Hla1 & Hnx1 & Ho1 & Hrun & packs1 & Hsub & Hinv1 & Hmore).
  destruct (Hrun Hfit) as [copied ->]. destruct (Hmore copied eq_refl) as [Hms Hpl1]. apply plan_copied in Hpl1; [|done].
  erewrite ibind_step by (apply in_store_step; exact Hc). erewrite ibind_step by reflexivity. cbn [hook_at hooks_none].
  destruct (finalize_run fence packs1 refs live p copied drecs rp fuel (w1, w.2) Hinv1) as (w2 & Hf & Hinv2 & Hnm2 & Hla2 & Hcap);
    [by rewrite <-Hla, <-Hla1|exact Hpl1|by intros e He ?; destruct (Hdl e He)|done|done|].
  erewrite ibind_step by exact Hf. eexists _, _, _, _. split; [reflexivity|]. injection Hcap as Hn2 Ho2.
  split; cbn [fst snd] in *; [done|exact Hinv2|done|done| |congruence|lia].
  intros q v Hne Hq. rewrite lookup_delete_ne by done. by eapply lookup_weaken.
Qed.

Lemma sweep_one_run {X} fence packs refs live p hdr rs thr rp fuel (w : world X) :
  gc_inv fence packs refs live w.1 → names_ok packs (ss_pages w.1.1) w.1.2.1 → late w.1 = [] →
  p < fence → packs !! p = Some (hdr, rs) → next_of w.1 < 2 ^ 32 →
  pack_bytes (zlen rs) ≤ max_pack_bytes (ps_opts (ss_pages w.1.1)) < 2 ^ 64 →
  ∃ rp' packs' w', gc_sweep_one_pack unix_now (S fuel) hooks_none thr p live rp w = (Ok (live, rp'), w') ∧
    swept_one fence p packs packs' refs live w w'.
Proof.
  intros Hinv Hnm Hla Hp Hpk Hnx Hfit. pose proof (gi_safe _ _ _ _ _ Hinv) as Hsafe. pose proof (proj1 (gs_pages _ _ _ _ Hsafe)) as Hi.
  pose proof (si_index _ _ _ Hi) as Hix. pose proof (si_u32 _ _ _ p Hi ltac:(by rewrite Hpk)) as Hu.
  pose proof (gs_fence _ _ _ _ Hsafe) as Hfe. unfold gc_sweep_one_pack. set (es := entries_for_pack (ps_index (ss_pages w.1.1)) p).
  assert (zlen es ≤ zlen rs) as Hle by (pose proof (entries_bound _ _ _ _ _ _ Hi Hpk); unfold zlen, es; lia).
  pose proof (zlen_nonneg rs) as Hz. unfold pack_bytes, PACK_HEADER_SIZE, RECORD_HEADER_SIZE, PAGE_SIZE in Hfit.
  assert (p ≠ a_pack_id (ps_active (ss_pages w.1.1))) as Hna by lia. assert (zlen rs < 2 ^ 64) as Hn64 by lia.
  assert (on_pages EPageStore (pack_entries p) w.1 = (Ok es, w.1)) as Hent.
  { unfold es. destruct w as [[st [pf t]] y]. cbn [fst]. rewrite on_pages_eq. cbn. by destruct st. }
  assert (on_pages EPageStore (scan_pack p) w.1 = (Ok (locs PACK_HEADER_SIZE rs), w.1)) as Hsc.
  { destruct w as [[st [pf t]] y]. cbn [fst snd] in *. rewrite on_pages_eq.
    rewrite (scan_run _ _ _ _ _ _ Hi (proj1 (gs_calm _ _ _ _ Hsafe)) Hna Hpk Hn64). cbn. by destruct st. }
  erewrite ibind_step by (apply in_store_step; exact Hent). erewrite ibind_step by (apply in_store_step; exact Hsc).
  replace (w.1, w.2) with w by by destruct w. cbv zeta. destruct ((zlen _ =? 0) && bool_decide (es = [])) eqn:Hempty.
  - apply andb_true_iff in Hempty as [_ Hnil]. b2p. pose proof (plan_none packs p w.1 Hix Hnil) as Hpl.
    destruct (finalize_run fence packs refs live p [] [] rp fuel w Hinv Hla Hpl ltac:(by intros e ?%not_elem_of_nil) Hu Hp)
      as (w2 & Hf & Hinv2 & Hnm2 & Hla2 & Hcap). erewrite ibind_step by exact Hf. injection Hcap as Hn2 Ho2.
    eexists _, _, _. split; [reflexivity|]. split; cbn [fst snd]; [done|exact Hinv2|done|done| |done|unfold next_of in *; lia]. intros q v Hne Hq. by rewrite lookup_delete_ne.
  - destruct (liveness_reaches _ _ _). { eexists _, packs, _. split; [reflexivity|]. split; try done. cbn [fst]. lia. }
    pose proof (plan_entries packs p live w.1 Hix) as Hpl. cbv zeta in Hpl. fold es in Hpl.
    destruct (compact_run fence packs refs live p (live_of live es) (dead_of live es) rp fuel w Hinv Hla Hpl ltac:(by intros e [? _]%list_elem_of_filter) Hu Hp Hnx)
      as (copied & rp' & packs' & w' & Hc & Hso).
    { pose proof (length_filter (λ e : PageHash * PageLoc, e.1 ∈ lv_pages live) es) as Hlf.
      unfold pack_bytes, live_of, PACK_HEADER_SIZE, RECORD_HEADER_SIZE, PAGE_SIZE, zlen in *. lia. }
    erewrite ibind_step by exact Hc. eexists _, packs', w'. by split.
Qed.

(** ** All packs *)

Lemma sweep_ids_run fence packs w :
  calm w.2.1 → gc_ready fence packs w →
  ∃ ids, sealed_pack_ids (ss_pages w.1, w.2.1) = (Ok ids, (ss_pages w.1, w.2.1)) ∧
    NoDup (filter (λ p, p < fence) ids) ∧ (∀ p, p ∈ ids → p < fence → is_Some (packs !! p)).
Proof.
  intros Hs Hr. unfold sealed_pack_ids. erewrite ibind_step by reflexivity. erewrite ibind_step.
  2: { apply on_fs_step. unfold discover_packs. erewrite ibind_step by (apply imap_step; unfold read_dir; rewrite syscall_calm by done; reflexivity). reflexivity. }
  eexists. split; [reflexivity|].
  assert (∀ n, n ∈ (map_to_list (fs_dir w.2.1)).*1 → is_Some (fs_dir w.2.1 !! n)) as Hn.
  { intros n ([n' i] & -> & Hi%elem_of_map_to_list)%list_elem_of_fmap. by exists i. }
  split.
  - apply NoDup_filter_filter. rewrite sort_by_key_perm. apply omap_NoDup; [apply NoDup_fst_map_to_list|]. intros a1 a2 b H1 H2 Hb Hin1 Hin2.
    destruct (gr_files _ _ _ Hr a1 b (Hn _ Hin1) H1 Hb) as [-> _]. by destruct (gr_files _ _ _ Hr a2 b (Hn _ Hin2) H2 Hb) as [-> _].
  - intros p [_ Hp]%list_elem_of_filter Hlt. rewrite sort_by_key_perm in Hp. apply list_elem_of_omap in Hp as (n & Hin & Hp).
    by apply (gr_files _ _ _ Hr n p (Hn _ Hin) Hp).
Qed.

Lemma sweep_each_run {X} fence packs refs live thr ids rp fuel (w : world X) :
  gc_inv fence packs refs live w.1 → names_ok packs (ss_pages w.1.1) w.1.2.1 → late w.1 = [] → NoDup ids →
  Forall (λ p, p < fence ∧ ∃ hdr rs, packs !! p = Some (hdr, rs) ∧ pack_bytes (zlen rs) ≤ max_pack_bytes (ps_opts (ss_pages w.1.1))) ids →
  max_pack_bytes (ps_opts (ss_pages w.1.1)) < 2 ^ 64 → next_of w.1 + zlen ids ≤ 2 ^ 32 →
  ∃ rp' packs' w', sweep_each unix_now (S fuel) hooks_none thr ids live rp w = (Ok (live, rp'), w') ∧ next_of w'.1 ≤ 2 ^ 32 ∧
    gc_inv fence packs' refs live w'.1 ∧ names_ok packs' (ss_pages w'.1.1) w'.1.2.1 ∧ late w'.1 = [].
Proof.
  revert packs rp w. induction ids as [|p ids IH]; intros packs rp w Hinv Hnm Hla Hnd Hids Hcap Hnx; cbn [sweep_each].
  { exists rp, packs, w. split_and!; try done. rewrite zlen_nil in Hnx. lia. }
  apply NoDup_cons in Hnd as [Hni Hnd]. apply Forall_cons in Hids as [(Hp & hdr & rs & Hpk & Hfit) Hids]. rewrite zlen_cons in Hnx.
  pose proof (zlen_nonneg ids) as Hz. erewrite ibind_step by reflexivity. cbn [hook_at hooks_none].
  destruct (sweep_one_run fence packs refs live p hdr rs thr rp fuel w Hinv Hnm Hla Hp Hpk ltac:(lia) ltac:(done))
    as (rp1 & packs1 & w1 & Hrun & [Hx Hinv1 Hnm1 Hla1 Hsub Ho Hn1]).
  erewrite ibind_step by exact Hrun. cbv beta iota. apply (IH packs1); [done|done|done|done| |by rewrite Ho|lia].
  rewrite Ho. apply Forall_forall. intros q Hq. rewrite Forall_forall in Hids. destruct (Hids q Hq) as (Hqf & hdr' & rs' & Hpk' & Hfit').
  split; [done|]. exists hdr', rs'. split; [|done]. apply Hsub; [|done]. by intros ->.
Qed.

Lemma sweep_packs_run {X} fence packs refs live thr rp fuel (w : world X) :
  gc_inv fence packs refs live w.1 → names_ok packs (ss_pages w.1.1) w.1.2.1 → late w.1 = [] → gc_ready fence packs w.1 →
  ∃ rp' packs' w', gc_sweep_packs unix_now (S fuel) hooks_none fence thr live rp w = (Ok (live, rp'), w') ∧ next_of w'.1 ≤ 2 ^ 32 ∧
    gc_inv fence packs' refs live w'.1 ∧ names_ok packs' (ss_pages w'.1.1) w'.1.2.1 ∧ late w'.1 = [].
Proof.
  intros Hinv Hnm Hla Hr. unfold gc_sweep_packs. pose proof (gi_safe _ _ _ _ _ Hinv) as Hsafe.
  destruct (sweep_ids_run fence packs w.1 (proj1 (gs_calm _ _ _ _ Hsafe)) Hr) as (ids & Hids & Hnd & Hin).
  assert (on_pages EPageStore sealed_pack_ids w.1 = (Ok ids, w.1)) as Hent.
  { destruct w as [[st [pf t]] y]. cbn [fst snd] in *. rewrite on_pages_eq, Hids. cbn. by destruct st. }
  erewrite ibind_step by (apply in_store_step; exact Hent). replace (w.1, w.2) with w by by destruct w.
  eapply sweep_each_run; [exact Hinv|exact Hnm|exact Hla|exact Hnd| |apply Hr|].
  - apply Forall_forall. intros p [Hp Hpi]%list_elem_of_filter. split; [done|]. destruct (Hin p Hpi Hp) as [[hdr rs] Hpk].
    exists hdr, rs. split; [done|]. by eapply (gr_fits _ _ _ Hr).
  - pose proof (gr_ids _ _ _ Hr) as Hid.
    assert (length (filter (λ p : PackId, (p < fence)%Z) ids) ≤ size packs)%nat as Hlen; [|unfold zlen; lia].
    rewrite <-size_dom, <-(size_list_to_set (C:=gset PackId)) by done. apply subseteq_size. intros p Hp%elem_of_list_to_set.
    apply list_elem_of_filter in Hp as [Hp Hpi]. apply elem_of_dom. by apply Hin.
Qed.

(** ** Manifests *)

Lemma sweep_batches_run {X} fence packs refs live cs rp fuel (w : world X) :
  (length cs ≤ fuel)%nat → Forall hash_ok cs → gc_inv fence packs refs live w.1 → late w.1 = [] →
  ∃ rp' w', sweep_batches fuel hooks_none cs live rp w = (Ok (live, rp'), w') ∧ next_of w'.1 = next_of w.1.
Proof.
  revert cs rp w. induction fuel as [|fuel IH]; intros [|c cs] rp w Hlen Hall Hinv Hla; cbn [sweep_batches];
    [by eexists _, _|cbn in Hlen; lia|by eexists _, _|].
  change (hook_is hooks_none SkipLateRootsDrain) with false. erewrite ibind_step by (apply in_store_step, drain_eq).
  rewrite Hla, drained_id by done. erewrite ibind_step by (apply in_store_step; reflexivity). rewrite bool_decide_eq_true_2 by done. cbn [fst snd].
  destruct (delete_batch_ok fence packs refs live (take BATCH (c :: cs)) rp w.1 Hinv Hla ltac:(by apply Forall_take))
    as (rp2 & w2 & gone & Hdb & Hinv2 & Hla2 & Htr & _).
  erewrite ibind_step by (apply in_store_step; exact Hdb). cbn [fst snd].
  destruct (IH (drop BATCH (c :: cs)) rp2 (w2, w.2)) as (rp' & w' & Hk & Hn); [|by apply Forall_drop|done|done|].
  { rewrite length_drop. unfold BATCH. cbn [length] in *. lia. }
  exists rp', w'. split; [exact Hk|]. rewrite Hn. unfold next_of. cbn [fst]. by rewrite (tr_pages _ _ _ Htr).
Qed.

Lemma sweep_manifests_run {X} fence packs refs live rp (w : world X) :
  gc_inv fence packs refs live w.1 → late w.1 = [] →
  ∃ rp' w', gc_sweep_manifests hooks_none live rp w = (Ok (live, rp'), w') ∧ next_of w'.1 = next_of w.1.
Proof.
  intros Hinv Hla. unfold gc_sweep_manifests. erewrite ibind_step by reflexivity. cbn [hook_at hooks_none].
  destruct (list_manifests_ok w.1) as (ls & Hl & Hall & _); [apply (gi_safe _ _ _ _ _ Hinv)|].
  erewrite ibind_step by (apply in_store_step; exact Hl). replace (w.1, w.2) with w by by destruct w.
  eapply sweep_batches_run; [reflexivity|by apply Forall_sub_filter|exact Hinv|done].
Qed.

(** ** The cycle *)

Lemma mark_sweep_run {X} fence packs roots thr fuel (w : world X) :
  gc_safe fence packs (just []) w.1 → names_ok packs (ss_pages w.1.1) w.1.2.1 → late w.1 = [] →
  tree_inv (ps_index (ss_pages w.1.1)) w.1.2.2 → Forall hash_ok roots → gc_ready fence packs w.1 →
  ∃ rp w', gc_mark_sweep unix_now (S fuel) hooks_none thr fence roots w = (Ok rp, w') ∧ next_of w'.1 ≤ 2 ^ 32.
Proof.
  intros Hsafe Hnm Hla Ht Hroots Hr. pose proof (gs_calm _ _ _ _ Hsafe) as [_ Hs].
  destruct (gc_mark_run _ roots live_default report_default w.1 Hs Ht (gr_chains _ _ _ Hr) Hroots) as (live & rp1 & Hm).
  destruct (gc_mark_ok roots live_default report_default w.1 _ _ Hs (live_default_ok _ _) Hm) as [_ Hmk]. destruct (Hmk live rp1 eq_refl) as (_ & Hl & _).
  assert (gc_inv fence packs (just []) live w.1) as Hinv by (split; [done|done|by intros r ?%not_elem_of_nil]).
  destruct (sweep_packs_run fence packs (just []) live thr rp1 fuel w Hinv Hnm Hla Hr) as (rp2 & packs2 & w2 & Hsp & Hnx & Hinv2 & Hnm2 & Hla2).
  destruct (sweep_manifests_run fence packs2 (just []) live rp2 w2 Hinv2 Hla2) as (rp3 & w3 & Hsm & Hn3).
  exists rp3, w3. split; [|lia]. unfold gc_mark_sweep. erewrite ibind_step by reflexivity. cbn [hook_at hooks_none].
  erewrite ibind_step by (apply in_store_step; exact Hm). replace (w.1, w.2) with w by by destruct w.
  erewrite ibind_step by exact Hsp. cbv beta iota. by erewrite ibind_step by exact Hsm.
Qed.

End gcrun.
