(* ===== verification/SnapStoreSpec.v ===== *)
(** * The snapshot store's contract

    What [put_snapshot] guarantees: it never publishes a manifest whose
    closure is missing, whatever fails; a successful put is a durable one;
    and without faults it accepts exactly the containers it should. *)

From S2P Require Import Prelude Types Manifest Fs Faults Pack Index Names ReadCache PageStore PageStoreInv.
From S2P Require Import PageStoreIngest PageStoreRead PageStoreSync PageStoreSpec SnapStore SnapStoreInv SnapStoreRead.

Section spec.
Context {HB : Blake3} {HZ : Zstd} {HC : Crc32}.

(** The container does not collide with a stored one. *)
Definition no_collision (t : tree) (c : bytes) : Prop :=
  ∀ c', named (t_fs t) (spm_path (snapshot_ref c)) = Some c' → c' = c.

(** What is left of the tree after a crash: durable bytes under durable
    names in shard directories that are durable themselves. *)
Definition survives (ddirs : gset string) (p : string) : bool :=
  in_dir "tmp" p || existsb (λ d, in_dir d p) (elements ddirs).
Definition crash_tree (t : tree) : tree :=
  mk_tree (crash (set_ddir (filter (λ e, survives (t_ddirs t) e.1 = true) (fs_ddir (t_fs t))) (t_fs t)))
    (t_ddirs t) (t_ddirs t).

Lemma survives_shard dd r : shard_dir r ∈ dd → survives dd (spm_path r) = true.
Proof.
  intros Hd. apply orb_true_iff. right. apply existsb_exists. exists (shard_dir r).
  split; [|apply in_dir_spm]. by apply list_elem_of_In, elem_of_elements.
Qed.

Lemma crash_tree_named t p i :
  fs_ddir (t_fs t) !! p = Some i → survives (t_ddirs t) p = true →
  named (t_fs (crash_tree t)) p = Some (durable (t_fs t) i).
Proof.
  intros Hi Hs. unfold named. cbn [crash_tree t_fs crash fs_dir set_ddir fs_ddir].
  rewrite (proj2 (map_lookup_filter_Some _ _ _ _)) by done. cbn [fmap option_fmap option_map]. f_equal.
  exact (content_crash (set_ddir _ (t_fs t)) i).
Qed.


Lemma put_snap_ok iter packs w c r w' :
  (∀ X, iter X ≡ₚ elements X) → snap_ok packs w → no_collision w.2.2 c →
  put_snapshot iter c w = (Ok r, w') → snap_ok packs w' ∧ put_done iter c w w' r ∧ t_ddirs w'.2.2 = t_ddirs w.2.2 ∧
  all_durable packs w'.2.1.
Proof.
  destruct w as [st [pf t]]. intros Hiter [Hpg Hi Hc] Hnc Hr. cbn [fst snd] in *.
  destruct (put_cases _ _ _ _ _ _ _ Hi Hnc Hr) as (Hx & Hi' & Hca & Hdd & Hmo & Hok). specialize (Hok r eq_refl).
  destruct (pd_sync _ _ _ _ _ Hok) as (ps & pf' & Hsy & Hps & Hpf). cbn [fst snd] in Hsy.
  destruct (sync_Ok _ _ _ _ _ _ Hiter Hpg Hsy) as (Hok' & Hxs & Hdur). split; [|split_and!; [done|done|by rewrite Hpf]]. split.
  - by rewrite Hps, Hpf.
  - by rewrite Hx.
  - rewrite Hca. split; [apply Hc|]. intros r' es Hg. destruct (proj2 Hc r' es Hg) as (l & Hl & Hf). exists l. split; [|done]. by eapply chain_mono.
Qed.

(** C5. [put_snapshot] never leaves a dangling manifest: whatever it
    returns and whatever I/O fails on the way, afterwards every manifest
    file still holds the container its name says, every stored delta still
    reaches a FULL root through stored parents of equal RAM size, every
    page a stored manifest names is in the page index, and nothing stored
    before is lost. *)
Theorem put_snapshot_safe iter c st pf t x w' :
  tree_inv (ps_index (ss_pages st)) t → no_collision t c →
  put_snapshot iter c (st, (pf, t)) = (x, w') →
  tree_inv (ps_index (ss_pages w'.1)) w'.2.2 ∧ (∀ r m, holds t r m → holds w'.2.2 r m) ∧
  (∀ r, x = Ok r → r = snapshot_ref c ∧ ∃ m, c = encode m ∧ holds w'.2.2 r m).
Proof.
  intros Hi Hnc Hr. destruct (put_cases _ _ _ _ _ _ _ Hi Hnc Hr) as (Hx & Hi' & _ & _ & Hmo & Hok). rewrite Hx.
  split_and!; [done|done|]. intros r ->. specialize (Hok r eq_refl). split; [apply Hok|].
  destruct (pd_holds _ _ _ _ _ Hok) as (m & Hd & Hh). exists m. split; [|done]. symmetry. by apply decode_canonical.
Qed.

(** C10. An acknowledged put is durable: when [put_snapshot] returns [Ok]
    for a new container, under any faults, then after a crash every page
    named by any manifest of its chain can be read from the page store;
    and its manifest file survives with the exact container exactly when
    the shard directory it was put in has a durable entry of its own. *)
Theorem put_snapshot_durable iter packs w c r w' :
  (∀ X, iter X ≡ₚ elements X) → snap_ok packs w → no_collision w.2.2 c →
  named (t_fs w.2.2) (spm_path r) = None → put_snapshot iter c w = (Ok r, w') →
  snap_ok packs w' ∧
  named (t_fs (crash_tree w'.2.2)) (spm_path r) = (if survives (t_ddirs w.2.2) (spm_path r) then Some c else None) ∧
  ∀ l r' m e, chain w'.2.2 r l → (r', m) ∈ l → e ∈ entries m →
    readable_after_crash (ss_pages w'.1) w'.2.1 (page_hash e).
Proof.
  intros Hiter Hok Hnc Hnew Hr. destruct (put_snap_ok _ _ _ _ _ _ Hiter Hok Hnc Hr) as (Hok' & Hd & Hdd & Hdur).
  split; [done|]. split.
  - destruct (pd_durable _ _ _ _ _ Hd Hnew) as (i & Hi & Hdu). rewrite <-Hdd. destruct (survives _ _) eqn:Hs.
    + rewrite (crash_tree_named _ _ _ Hi Hs). by rewrite Hdu.
    + unfold named. cbn [crash_tree t_fs crash fs_dir set_ddir fs_ddir].
      rewrite (proj2 (map_lookup_filter_None _ _ _)); [done|]. right. intros j _. cbn [fst]. by rewrite Hs.
  - intros l r' m e Hl Hm He. pose proof (chain_holds _ _ _ _ _ Hl Hm) as Hh.
    eapply all_durable_readable; [exact (proj1 (sk_pages _ _ Hok'))|exact Hdur|].
    rewrite flat_lookup by apply (sk_pages _ _ Hok'). eapply (ti_pages _ _ (sk_tree _ _ Hok')); [by eapply holds_hash_ok|done|done].
Qed.

(** ** Fault-free puts *)

Lemma publish_calm r c t : calm (t_fs t) → ∃ t', publish r c t = (Ok tt, t') ∧ calm (t_fs t').
Proof.
  intros Hs. set (t1 := mk_tree (t_fs t) ({[shard_dir r]} ∪ t_dirs t) (t_ddirs t)).
  assert (create_dir_all (shard_dir r) t = (Ok tt, t1)) as H1.
  { unfold create_dir_all. erewrite ibind_step by (unfold in_fs, zoom; rewrite syscall_calm by done; reflexivity). by destruct t. }
  destruct (replace_file_calm (tmp_path r) (spm_path r) c (t_fs t1) Hs) as (s2 & H2 & Hs2).
  eexists. rewrite publish_replace. erewrite ibind_step by exact H1.
  erewrite ibind_step by (unfold in_fs, zoom; rewrite H2; reflexivity). rewrite sync_shard_calm by done. done.
Qed.

Lemma register_calm st pf t r :
  ss_epoch st = None → calm (t_fs t) → is_Some (fs_dir (t_fs t) !! spm_path r) →
  register_live_ref r (st, (pf, t)) = (Ok tt, (st, (pf, t))).
Proof.
  intros He Hs Hr. unfold register_live_ref. erewrite ibind_step by (unfold on_state, push_late_root; cbn [fst snd]; rewrite He; reflexivity).
  cbv beta iota. erewrite ibind_step; [|unfold has_manifest, on_tree, imap_err, zoom; cbn [fst snd]; rewrite path_exists_calm by done; reflexivity].
  by rewrite bool_decide_eq_true_2.
Qed.

(** What a put requires of its container. *)
Definition acceptable (idx : ShardedIndex) (t : tree) (m : Manifest) : Prop :=
  (∀ e, e ∈ entries m → is_Some (index_get idx (page_hash e))) ∧
  (delta m = true → ∃ p pm, parent m = Some p ∧ holds t p pm ∧ guest_ram_bytes pm = guest_ram_bytes m).

Lemma missing_none idx hs :
  Forall (λ h, is_Some (index_get idx h)) hs →
  missing_of hs ((λ h, bool_decide (is_Some (index_get idx h))) <$> hs) = [].
Proof.
  induction 1 as [|h hs Hh _ IH]; [done|]. unfold missing_of. cbn [fmap list_fmap zip zip_with].
  rewrite bool_decide_eq_true_2 by done. rewrite filter_cons. cbn [snd]. rewrite decide_False by done. exact IH.
Qed.

Lemma check_parent_calm st pf t m :
  calm (t_fs t) → (delta m = true → ∃ p pm, parent m = Some p ∧ holds t p pm ∧ guest_ram_bytes pm = guest_ram_bytes m) →
  check_parent m (st, (pf, t)) = (Ok tt, (st, (pf, t))).
Proof.
  intros Hs Hp. unfold check_parent. destruct (delta m); [|done]. destruct (Hp eq_refl) as (p & pm & -> & Hh & Hg).
  erewrite ibind_step by reflexivity.
  erewrite ibind_step by (unfold on_tree, imap_err, zoom; cbn [fst snd]; rewrite (read_manifest_calm _ _ _ Hh Hs); reflexivity).
  erewrite ibind_step by (apply imap_step; unfold iof; rewrite decode_encode by apply Hh; reflexivity).
  by rewrite Hg, Z.eqb_refl.
Qed.

Lemma check_pages_calm st pf t m :
  (∀ e, e ∈ entries m → is_Some (index_get (ps_index (ss_pages st)) (page_hash e))) →
  check_pages m (st, (pf, t)) = (Ok tt, (st, (pf, t))).
Proof.
  intros Hp. unfold check_pages. erewrite ibind_step by (unfold on_pages, imap_err, zoom; reflexivity). cbn [fst snd].
  rewrite missing_none; [by destruct st|]. apply Forall_fmap, Forall_forall. exact Hp.
Qed.

Lemma finish_put_calm st pf t m c :
  hash_ok (snapshot_ref c) → fs_wf (t_fs t) → calm (t_fs t) → ss_epoch st = None →
  ∃ t', finish_put m (snapshot_ref c) c (st, (pf, t)) =
      (Ok (snapshot_ref c), (match named (t_fs t) (spm_path (snapshot_ref c)) with
        | Some _ => st
        | None => set_counters (fetch_add64 (ss_total st) 1) (fetch_add64 (ss_logical st) (guest_ram_bytes m)) st
        end, (pf, t'))) ∧ calm (t_fs t') ∧
    (is_Some (named (t_fs t) (spm_path (snapshot_ref c))) → t' = t).
Proof.
  intros Hro Hwf Hs He. unfold finish_put, register_put. set (r := snapshot_ref c).
  erewrite ibind_step by (unfold on_tree, imap_err, zoom; cbn [fst snd]; rewrite path_exists_calm by done; reflexivity).
  cbn [snd]. destruct (fs_dir (t_fs t) !! spm_path r) as [i|] eqn:Hi.
  - rewrite bool_decide_eq_true_2 by done. cbv iota.
    erewrite ibind_step by (apply imap_step, register_calm; [done|done|by rewrite Hi]).
    exists t. unfold named. rewrite Hi. by cbn.
  - rewrite bool_decide_eq_false_2 by by intros []. cbv iota.
    destruct (publish_calm r c t Hs) as (t' & Hp & Hs').
    destruct (pb_ok _ _ _ _ _ (proj2 (publish_cases _ _ _ _ _ Hro Hwf Hp))) as (Hn & _); [done|].
    erewrite ibind_step by (unfold on_tree; apply imap_step; unfold zoom; cbn [fst snd]; rewrite Hp; reflexivity).
    erewrite ibind_step by reflexivity. cbn [fst snd].
    erewrite ibind_step by (apply imap_step, register_calm; [done|done|by eapply named_dir]).
    exists t'. unfold named. rewrite Hi. cbn. split; [done|]. split; [done|]. by intros [].
Qed.

Lemma put_calm iter packs st pf t m :
  (∀ X, iter X ≡ₚ elements X) → snap_ok packs (st, (pf, t)) → calm pf → calm (t_fs t) → ss_epoch st = None →
  manifest_wf m → acceptable (ps_index (ss_pages st)) t m →
  ∃ w', put_snapshot iter (encode m) (st, (pf, t)) = (Ok (snapshot_ref (encode m)), w') ∧
    calm w'.2.1 ∧ calm (t_fs w'.2.2) ∧ ss_epoch w'.1 = None ∧
    ss_total w'.1 = (match named (t_fs t) (spm_path (snapshot_ref (encode m))) with Some _ => ss_total st | None => fetch_add64 (ss_total st) 1 end) ∧
    (is_Some (named (t_fs t) (spm_path (snapshot_ref (encode m)))) → w'.2.2 = t).
Proof.
  intros Hiter [Hpg Hi Hc] Hs Ht He Hm [Hp Hd]. cbn [fst snd] in *.
  destruct (sync_ok iter packs (ss_pages st) pf Hiter Hpg Hs) as (ps & pf' & Hsy & Hs' & _).
  unfold put_snapshot. erewrite ibind_step by (apply imap_step; unfold iof; rewrite decode_encode by done; reflexivity).
  erewrite ibind_step by by apply check_parent_calm. erewrite ibind_step by by apply check_pages_calm.
  erewrite ibind_step by (unfold on_pages; apply imap_step; unfold zoom; cbn [fst snd]; rewrite Hsy; reflexivity). cbn [fst snd].
  assert (hash_ok (snapshot_ref (encode m))) as Hro by (rewrite snapshot_ref_encode; apply blake3_hash_ok).
  set (st1 := set_pages ps st).
  destruct (finish_put_calm st1 pf' t m (encode m) Hro (ti_wf _ _ Hi) Ht He) as (t' & Hf & Ht' & Heq).
  eexists. split; [exact Hf|]. cbn [fst snd]. destruct (named _ _); by split_and!.
Qed.

(** A successful put had an acceptable container. *)
Lemma put_acceptable iter st pf t m r w' :
  tree_inv (ps_index (ss_pages st)) t → manifest_wf m →
  put_snapshot iter (encode m) (st, (pf, t)) = (Ok r, w') → acceptable (ps_index (ss_pages st)) t m.
Proof.
  intros Hi Hm Hr. unfold put_snapshot in Hr.
  erewrite ibind_step in Hr by (apply imap_step; unfold iof; rewrite decode_encode by done; reflexivity).
  apply ibind_Ok in Hr as ([] & w1 & Hp & Hr). apply ibind_Ok in Hr as ([] & w2 & Hg & _). split.
  - destruct (framed_check_parent m _ _ _ Hp) as [Hf _]. cbn [fst] in Hf. rewrite <-Hf. by eapply check_pages_Ok.
  - intros Hd. destruct (parent_chain _ _ _ _ _ Hi Hm (same_tree_refl t : same_tree t (st, (pf, t)).2.2) Hp Hd)
      as (p & pm & rest & Hpa & Hc & Hram).
    exists p, pm. split; [done|]. split; [|done]. destruct (chain_head _ _ _ Hc) as (m2 & ? & Heq & Hh). by injection Heq as -> _.
Qed.


Lemma no_name t c : fs_dir (t_fs t) !! spm_path (snapshot_ref c) = None → no_collision t c.
Proof. intros Hn c'. unfold named. by rewrite Hn. Qed.

(** ** A put retried after a failed directory sync *)

(** Every call of the publication succeeds but the last [fsync]. *)
Lemma publish_dirsync_fails r c t :
  fs_faults (t_fs t) = [None; None; None; None; None; None; Some 0%nat] →
  ∃ t', publish r c t = (Err EOther, t') ∧ calm (t_fs t') ∧ is_Some (fs_dir (t_fs t') !! spm_path r) ∧
    fs_ddir (t_fs t') = fs_ddir (t_fs t).
Proof.
  destruct t as [[d dd fl n fa] ds dds]. cbn [t_fs fs_faults]. intros ->.
  unfold publish, create_dir_all, sync_shard, open_truncate, write_all_, write_all, sync_data, rename, in_fs, zoom, syscall, tick, ibind.
  cbn -[write_bytes spm_path tmp_path shard_dir sync_names String.append]. destruct (d !! tmp_path r) as [i|] eqn:Hi;
    cbn -[write_bytes spm_path tmp_path shard_dir sync_names String.append]; rewrite ?Hi, ?lookup_insert_eq;
    cbn -[write_bytes spm_path tmp_path shard_dir sync_names String.append];
    (eexists; split; [reflexivity|]; cbn; split; [done|]; split; [|done]; by rewrite lookup_insert_eq).
Qed.

Lemma put_dirsync_fails iter packs st pf t m :
  (∀ X, iter X ≡ₚ elements X) → snap_ok packs (st, (pf, t)) → calm pf →
  fs_faults (t_fs t) = None :: [None; None; None; None; None; None; Some 0%nat] → ss_epoch st = None →
  manifest_wf m → delta m = false → (∀ e, e ∈ entries m → is_Some (index_get (ps_index (ss_pages st)) (page_hash e))) →
  fs_dir (t_fs t) !! spm_path (snapshot_ref (encode m)) = None →
  ∃ st1 pf1 t1, put_snapshot iter (encode m) (st, (pf, t)) = (Err (PutIo EOther), (st1, (pf1, t1))) ∧
    snap_ok packs (st1, (pf1, t1)) ∧ calm pf1 ∧ calm (t_fs t1) ∧ ss_epoch st1 = None ∧ ss_total st1 = ss_total st ∧
    ps_index (ss_pages st1) = ps_index (ss_pages st) ∧
    named (t_fs t1) (spm_path (snapshot_ref (encode m))) = Some (encode m) ∧
    fs_ddir (t_fs t1) = fs_ddir (t_fs t).
Proof.
  intros Hiter [Hpg Hi Hc] Hs Hf He Hm Hd Hp Hnew. cbn [fst snd] in *. set (r := snapshot_ref (encode m)) in *.
  destruct (sync_ok iter packs (ss_pages st) pf Hiter Hpg Hs) as (ps & pf' & Hsy & Hs' & Hpg' & Hx & _).
  set (t0 := set_t_fs (set_faults [None; None; None; None; None; None; Some 0%nat] (t_fs t)) t).
  destruct (publish_dirsync_fails r (encode m) t0 eq_refl) as (t1 & Hpub & Ht1 & Hd1 & Hdd1).
  assert (put_snapshot iter (encode m) (st, (pf, t)) = (Err (PutIo EOther), (set_pages ps st, (pf', t1)))) as Hr.
  { unfold put_snapshot. erewrite ibind_step by (apply imap_step; unfold iof; rewrite decode_encode by done; reflexivity).
    erewrite ibind_step by (unfold check_parent; rewrite Hd; reflexivity). erewrite ibind_step by by apply check_pages_calm.
    erewrite ibind_step by (unfold on_pages; apply imap_step; unfold zoom; cbn [fst snd]; rewrite Hsy; reflexivity). cbn [fst snd].
    unfold finish_put. fold r. erewrite ibind_step.
    2: { unfold on_tree. apply imap_step. unfold zoom, path_exists, path_len, syscall, tick, ibind. cbn [fst snd].
         rewrite Hf. cbn [fs_dir set_faults]. rewrite Hnew. reflexivity. }
    cbv iota. cbn [fst snd]. fold t0. unfold ibind at 1, on_tree, imap_err, zoom. cbn [fst snd]. by rewrite Hpub. }
  destruct (put_cases iter _ _ _ _ _ _ Hi (no_name _ _ Hnew) Hr) as (_ & Hi' & _ & _ & Hmo & _). cbn [fst snd] in *.
  assert (hash_ok r) as Hro by (unfold r; rewrite snapshot_ref_encode; apply blake3_hash_ok).
  assert (fs_wf (t_fs t0)) as Hwf0 by exact (fs_wf_set_faults _ _ (ti_wf _ _ Hi)).
  destruct (pb_self _ _ _ _ _ (proj2 (publish_cases _ _ _ _ _ Hro Hwf0 Hpub))) as [Hn|Hn].
  { unfold named in Hn. destruct Hd1 as [i Hi1]. rewrite Hi1 in Hn. change (fs_dir (t_fs t0)) with (fs_dir (t_fs t)) in Hn.
    by rewrite Hnew in Hn. }
  exists (set_pages ps st), pf', t1. split; [exact Hr|]. split_and!; try done. split; cbn [fst snd ss_pages set_pages]; [done|by rewrite Hx|].
  split; [apply Hc|]. intros r' es Hg. destruct (proj2 Hc r' es Hg) as (l & Hl & Hfl). exists l. split; [by eapply chain_mono|done].
Qed.

(** An acknowledged put need not be durable when it retries a failed
    one: if the directory [fsync] of a first put fails, that put reports the
    error but leaves the manifest under its final name; a second put of the
    same container finds the name, syncs no directory, counts nothing and
    answers [Ok], and a crash after that answer loses the manifest. *)
Theorem put_retry_not_durable iter packs st pf t m :
  (∀ X, iter X ≡ₚ elements X) → snap_ok packs (st, (pf, t)) → calm pf →
  fs_faults (t_fs t) = None :: [None; None; None; None; None; None; Some 0%nat] → ss_epoch st = None →
  manifest_wf m → delta m = false → (∀ e, e ∈ entries m → is_Some (index_get (ps_index (ss_pages st)) (page_hash e))) →
  let p := spm_path (snapshot_ref (encode m)) in
  fs_dir (t_fs t) !! p = None → fs_ddir (t_fs t) !! p = None →
  ∃ w1 w2, put_snapshot iter (encode m) (st, (pf, t)) = (Err (PutIo EOther), w1) ∧
    put_snapshot iter (encode m) w1 = (Ok (snapshot_ref (encode m)), w2) ∧
    named (t_fs w2.2.2) p = Some (encode m) ∧ named (t_fs (crash_tree w2.2.2)) p = None ∧
    ss_total w2.1 = ss_total st.
Proof.
  intros Hiter Hok Hs Hf He Hm Hd Hp p Hn Hnd.
  destruct (put_dirsync_fails iter packs st pf t m Hiter Hok Hs Hf He Hm Hd Hp Hn)
    as (st1 & pf1 & t1 & Hr1 & Hok1 & Hs1 & Ht1 & He1 & Htot & Hx1 & Hn1 & Hdd1).
  assert (acceptable (ps_index (ss_pages st1)) t1 m) as Ha by (rewrite Hx1; split; [done|by rewrite Hd]).
  destruct (put_calm iter packs st1 pf1 t1 m Hiter Hok1 Hs1 Ht1 He1 Hm Ha) as (w2 & Hr2 & _ & _ & _ & Htot2 & Heq).
  rewrite Hn1 in Htot2, Heq. exists (st1, (pf1, t1)), w2. split; [exact Hr1|]. split; [exact Hr2|].
  rewrite Heq by done. split; [exact Hn1|]. split; [|by rewrite Htot2].
  unfold named. cbn [crash_tree t_fs crash fs_dir set_ddir fs_ddir].
  rewrite (proj2 (map_lookup_filter_None _ _ _)); [done|]. left. by rewrite Hdd1.
Qed.

End spec.

(** ** Witnesses *)

#[local] Existing Instances toy_blake3 toy_crc32 toy_zstd.

Definition ex_full : Manifest :=
  mk_manifest VERSION false None 4096 [mk_entry 0 (blake3 ex_page)] (mk_blob 0 false [] 0).
Definition ex_full_ref : SnapshotRef := Eval vm_compute in snapshot_ref (encode ex_full).
Definition ex_delta : Manifest :=
  mk_manifest VERSION true (Some ex_full_ref) 4096 [mk_entry 0 (blake3 ex_page)] (mk_blob 0 false [] 0).

Lemma ex_full_ref_eq : snapshot_ref (encode ex_full) = ex_full_ref.
Proof. vm_cast_no_check (eq_refl ex_full_ref). Qed.

Lemma ex_refs_ne : snapshot_ref (encode ex_delta) ≠ ex_full_ref.
Proof.
  enough (bool_decide (snapshot_ref (encode ex_delta) = ex_full_ref) = false) as Hb by by apply bool_decide_eq_false in Hb.
  vm_cast_no_check (eq_refl false).
Qed.

#[local] Opaque ex_page blake3 encode spm_path shard_dir snapshot_ref.

Lemma ex_one_entry_ok : entry_ok (mk_entry 0 (blake3 ex_page)).
Proof. split; [by unfold u64_ok|apply blake3_hash_ok]. Qed.

Lemma ex_one_wf : manifest_wf ex_full.
Proof.
  split; [done|by unfold u64_ok| | | | |done].
  - constructor; [apply ex_one_entry_ok|done].
  - repeat constructor.
  - split_and!; [done|done|]. intros [|k] e; [by intros [= <-]|done].
  - by unfold blob_ok, u32_ok, u64_ok.
Qed.

Lemma ex_child_wf : manifest_wf ex_delta.
Proof.
  split; [done|by unfold u64_ok| | | | |done].
  - constructor; [apply ex_one_entry_ok|done].
  - repeat constructor.
  - split; [exists ex_full_ref; by split_and!|]. repeat constructor.
  - by unfold blob_ok, u32_ok, u64_ok.
Qed.

(** A store with one stored page and no manifest. *)
Lemma ex_snap fl dd : ∃ packs st pf, let t := mk_tree (set_faults fl empty_fs) dd dd in
  snap_ok packs (st, (pf, t)) ∧ calm pf ∧ ss_epoch st = None ∧ ss_total st = 0 ∧
  is_Some (index_get (ps_index (ss_pages st)) (blake3 ex_page)).
Proof.
  destruct ex_fresh as (ps & s & Hs & Hok & _ & _ & Hroom).
  destruct (ingest_ok 1700000000 id _ ps s [ex_page; ex_page] (λ l, Permutation_refl l) Hok Hs ex_pages_ok Hroom)
    as (out & packs1 & ps1 & s1 & _ & Hig & Hok1 & Hs1 & _).
  exists packs1, (mk_snap ps1 None (fc_new 16) 0 0), s1. split.
  - split; [exact Hok1| |by split; [constructor|intros r es]]. split.
    + split; cbn; intros *; rewrite lookup_empty; by try intros [? ?].
    + intros r c _. unfold named. cbn. by rewrite lookup_empty.
    + intros r m _ (Hn & _). unfold named in Hn. cbn in Hn. by rewrite lookup_empty in Hn.
  - split_and!; [done|done|done|]. destruct (ig_outcome _ _ _ _ Hig 0%nat ex_page eq_refl) as (l & b & _ & Hl & _). by exists l.
Qed.

Lemma ex_acceptable idx t : is_Some (index_get idx (blake3 ex_page)) → acceptable idx t ex_full.
Proof. intros Hp. split; [|done]. intros e ->%list_elem_of_singleton. exact Hp. Qed.

Lemma perm_elements (X : gset PackId) : elements X ≡ₚ elements X.
Proof. done. Qed.
Lemma named_empty fl p : named (set_faults fl empty_fs) p = None.
Proof. unfold named. cbn. by rewrite lookup_empty. Qed.
Lemma ex_no_name fl dd c : no_collision (mk_tree (set_faults fl empty_fs) dd dd) c.
Proof. apply no_name. cbn. apply lookup_empty. Qed.

Lemma put_snapshot_safe_witness : ∃ x w', put_snapshot elements (encode ex_full) w'.1 = (x, w'.2) ∧
  ∃ m, holds w'.2.2.2 ex_full_ref m.
Proof.
  destruct (ex_snap [] ∅) as (packs & st & pf & Hok & Hs & He & _ & Hp). set (t := mk_tree _ _ _) in *.
  destruct (put_calm elements packs st pf t ex_full perm_elements Hok Hs eq_refl He ex_one_wf (ex_acceptable _ _ Hp)) as (w' & Hr & _).
  eexists _, ((st, (pf, t)), w'). split; [exact Hr|].
  destruct (put_snapshot_safe elements _ _ _ _ _ _ (sk_tree _ _ Hok) (ex_no_name [] _ _) Hr) as (_ & _ & H3).
  destruct (H3 _ eq_refl) as (_ & m & _ & Hh). exists m. rewrite <-ex_full_ref_eq. exact Hh.
Defined.




Lemma put_retry_not_durable_witness : ∃ w w1 w2,
  put_snapshot elements (encode ex_full) w = (Err (PutIo EOther), w1) ∧
  put_snapshot elements (encode ex_full) w1 = (Ok ex_full_ref, w2) ∧
  named (t_fs (crash_tree w2.2.2)) (spm_path ex_full_ref) = None.
Proof.
  destruct (ex_snap (None :: [None; None; None; None; None; None; Some 0%nat]) ∅) as (packs & st & pf & Hok & Hs & He & _ & Hp).
  set (t := mk_tree _ _ _) in *.
  destruct (put_retry_not_durable elements packs st pf t ex_full perm_elements Hok Hs eq_refl He ex_one_wf eq_refl
    (proj1 (ex_acceptable _ t Hp)) (lookup_empty _) (lookup_empty _)) as (w1 & w2 & H1 & H2 & _ & H3 & _).
  exists (st, (pf, t)), w1, w2. rewrite <-ex_full_ref_eq. by split_and!.
Defined.

Lemma ex_durable_shard r : ∃ dd : gset string, shard_dir r ∈ dd.
Proof. exists {[shard_dir r]}. by apply elem_of_singleton. Qed.

Lemma put_snapshot_durable_witness : ∃ w', put_snapshot elements (encode ex_full) w'.1 = (Ok (snapshot_ref (encode ex_full)), w'.2) ∧
  named (t_fs (crash_tree w'.2.2.2)) (spm_path (snapshot_ref (encode ex_full))) = Some (encode ex_full) ∧
  readable_after_crash (ss_pages w'.2.1) w'.2.2.1 (blake3 ex_page).
Proof.
  destruct (ex_durable_shard (snapshot_ref (encode ex_full))) as [dd Hdd].
  destruct (ex_snap [] dd) as (packs & st & pf & Hok & Hs & He & _ & Hp). set (t := mk_tree _ _ _) in *.
  assert (∀ p, named (t_fs t) p = None) as Hnone by (intros p; apply (named_empty [] p)).
  assert (calm (t_fs t) ∧ t_ddirs t = dd ∧ no_collision t (encode ex_full)) as (Ht & Htd & Hnc) by (split_and!; [done|done|apply ex_no_name]).
  clearbody t.
  destruct (put_calm elements packs st pf t ex_full perm_elements Hok Hs Ht He ex_one_wf (ex_acceptable _ _ Hp)) as (w' & Hr & _).
  assert (named (t_fs t) (spm_path (snapshot_ref (encode ex_full))) = None) as Hnew by apply Hnone.
  destruct (put_snapshot_durable elements packs (st, (pf, t)) (encode ex_full) (snapshot_ref (encode ex_full)) w' perm_elements Hok Hnc Hnew Hr) as (Hok' & Hn & Hrd).
  cbn [fst snd] in Hn. rewrite survives_shard in Hn by (rewrite Htd; exact Hdd).
  exists ((st, (pf, t)), w'). split; [exact Hr|]. split; [exact Hn|].
  destruct (put_snap_ok elements packs _ _ _ _ perm_elements Hok Hnc Hr) as (_ & Hd & _).
  destruct (pd_holds _ _ _ _ _ Hd) as (m & Hdm & Hh). rewrite decode_encode in Hdm by apply ex_one_wf. injection Hdm as <-.
  pose proof (chain_full _ _ _ Hh eq_refl) as Hc.
  exact (Hrd _ _ ex_full (mk_entry 0 (blake3 ex_page)) Hc (list_elem_of_here _ []) (list_elem_of_here _ [])).
Defined.

(** A tree that holds a FULL manifest and a delta on top of it. *)
Section two_manifests.
Context (idx : ShardedIndex) (r1 r2 : SnapshotRef) (m1 m2 : Manifest).
Context (Hw1 : manifest_wf m1) (Hw2 : manifest_wf m2) (Hr1 : blake3 (encode_body m1) = r1) (Hr2 : blake3 (encode_body m2) = r2).
Context (Hd1 : delta m1 = false) (Hd2 : delta m2 = true) (Hp2 : parent m2 = Some r1).
Context (Hram : guest_ram_bytes m1 = guest_ram_bytes m2) (Hne : r2 ≠ r1).
Context (Hidx : ∀ e, e ∈ entries m1 ∨ e ∈ entries m2 → is_Some (index_get idx (page_hash e))) (dd : gset string).

Let t : tree := mk_tree (mk_fs {[spm_path r1 := 0%N; spm_path r2 := 1%N]} ∅
  {[0%N := mk_file (encode m1) []; 1%N := mk_file (encode m2) []]} 2%N []) dd dd.

Lemma two_named p c : named (t_fs t) p = Some c → (p = spm_path r1 ∧ c = encode m1) ∨ (p = spm_path r2 ∧ c = encode m2).
Proof.
  unfold named. cbn. destruct (decide (p = spm_path r1)) as [->|H1]; [rewrite lookup_insert_eq; cbn; intros [= <-]; by left|].
  rewrite lookup_insert_ne by done. destruct (decide (p = spm_path r2)) as [->|H2]; [|by rewrite lookup_singleton_ne].
  rewrite lookup_singleton_eq. cbn. intros [= <-]. by right.
Qed.

Lemma two_wf : fs_wf (t_fs t).
Proof.
  split; cbn.
  - intros p i [[_ <-]|[_ [_ <-]%lookup_singleton_Some]]%lookup_insert_Some; [by eexists|by eexists].
  - intros p q i [[<- <-]|[_ [<- <-]%lookup_singleton_Some]]%lookup_insert_Some
      [[<- Heq]|[_ [<- Heq]%lookup_singleton_Some]]%lookup_insert_Some; done.
  - intros i [f [[<- _]|[_ [<- _]%lookup_singleton_Some]]%lookup_insert_Some]; done.
Qed.

Lemma two_chain1 : chain t r1 [(r1, m1)].
Proof. apply chain_full; [|done]. split; [|done]. unfold named. cbn. by rewrite lookup_insert_eq. Qed.

Lemma two_chain2 : chain t r2 [(r2, m2); (r1, m1)].
Proof.
  eapply chain_delta; [|done|done|exact two_chain1|done]. split; [|done]. unfold named. cbn.
  rewrite lookup_insert_ne, lookup_singleton_eq; [done|]. intros Heq. apply Hne. symmetry.
  apply spm_path_inj; [rewrite <-Hr1; apply blake3_hash_ok|rewrite <-Hr2; apply blake3_hash_ok|done].
Qed.

Lemma two_manifests_ok : ∃ t, calm (t_fs t) ∧ tree_inv idx t ∧ chain t r2 [(r2, m2); (r1, m1)] ∧ t_dirs t = dd ∧
  ∀ r c, hash_ok r → named (t_fs t) (spm_path r) = Some c → (r = r1 ∧ chain t r [(r1, m1)]) ∨ r = r2.
Proof.
  assert (hash_ok r1) as Ho1 by (rewrite <-Hr1; apply blake3_hash_ok).
  assert (hash_ok r2) as Ho2 by (rewrite <-Hr2; apply blake3_hash_ok).
  exists t. split; [done|]. split; [|split; [exact two_chain2|split; [done|]]]; [split|].
  - exact two_wf.
  - intros r c Hr [[Hp ->]|[Hp ->]]%two_named; apply spm_path_inj in Hp; try done; subst r.
    + exists m1, []. split; [done|exact two_chain1].
    + exists m2, [(r1, m1)]. split; [done|exact two_chain2].
  - intros r m Hr (Hn & Hw & _) e He. apply two_named in Hn as [[_ Heq]|[_ Heq]]; apply encode_inj in Heq; try done; subst m; apply Hidx; auto.
  - intros r c Hr [[Hp _]|[Hp _]]%two_named; apply spm_path_inj in Hp; try done; subst r; [left; split; [done|exact two_chain1]|by right].
Qed.
End two_manifests.

Lemma ex_chain : ∃ packs st pf t r, snap_ok packs (st, (pf, t)) ∧ calm pf ∧ calm (t_fs t) ∧ r ≠ ex_full_ref ∧
  chain t r [(r, ex_delta); (ex_full_ref, ex_full)].
Proof.
  destruct (ex_snap [] ∅) as (packs & st & pf & [Hok _ _] & Hs & He & _ & Hp). cbn [fst snd] in *.
  pose proof ex_refs_ne as Hne. pose proof ex_full_ref_eq as Hr1. pose proof (snapshot_ref_encode ex_delta) as Hr2.
  pose proof (snapshot_ref_encode ex_full) as Hr1'.
  set (r := snapshot_ref (encode ex_delta)) in *. clearbody r.
  destruct (two_manifests_ok (ps_index (ss_pages st)) ex_full_ref r ex_full ex_delta ex_one_wf ex_child_wf
    (eq_trans (eq_sym Hr1') Hr1) (eq_sym Hr2) eq_refl eq_refl eq_refl eq_refl Hne) with (dd := ∅ : gset string) as (t & Ht & Hi & Hc & _).
  { intros e [->%list_elem_of_singleton| ->%list_elem_of_singleton]; exact Hp. }
  exists packs, (mk_snap (ss_pages st) None (fc_new 16) 0 0), pf, t, r.
  split; [split; [exact Hok|exact Hi|by split; [constructor|intros r' es]]|]. split; [exact Hs|]. split; [exact Ht|]. split; [exact Hne|exact Hc].
Qed.

Lemma resolve_pages_full_witness : ∃ st pf t r it w items w',
  resolve_pages r None false (st, (pf, t)) = (Ok it, w) ∧ resolved_collect (S (length (rp_entries it))) it w = (items, w') ∧
  zlen items = 1 ∧ ∃ d, items !! 0%nat = Some (Ok (0, blake3 ex_page, Some d)) ∧ blake3 d = blake3 ex_page.
Proof.
  destruct ex_chain as (packs & st & pf & t & r & Hok & Hs & Ht & _ & Hc).
  destruct (resolve_pages_full packs st pf t r _ Hok Hs Ht Hc) as (m & it & w & items & w' & Hm & Hr & Hit & Hz & Hi).
  assert (m = ex_delta) as ->. { destruct (chain_head _ _ _ Hc) as (m2 & rest & Heq & Hh). injection Heq as <- _. exact (holds_fun _ _ _ _ Hm Hh). }
  exists st, pf, t, r, it, w, items, w'. split; [exact Hr|]. split; [exact Hit|]. split; [exact Hz|].
  destruct (Hi 0 ltac:(by split)) as (e & d & Hx & He & Hb & _). injection He as <-. exists d. by split.
Defined.

Lemma resolve_pages_baseline_witness : ∃ st pf t r it w, r ≠ ex_full_ref ∧
  resolve_pages r (Some ex_full_ref) false (st, (pf, t)) = (Ok it, w) ∧ mk_entry 0 (blake3 ex_page) ∈ rp_entries it.
Proof.
  destruct ex_chain as (packs & st & pf & t & r & Hok & Hs & Ht & Hne & Hc).
  assert (ex_full_ref ∉ [(r, ex_delta)].*1) as Hni by (intros Heq%list_elem_of_singleton; by apply Hne).
  destruct (resolve_pages_baseline packs st pf t r _ ex_full_ref Hok Hs Ht Hc (leb_complete 2 MAX_CHAIN eq_refl)) as [_ H2].
  destruct (H2 [(r, ex_delta)] ex_full [] eq_refl Hni) as (it & w & items & w' & Hr & _ & _ & _ & He).
  exists st, pf, t, r, it, w. split; [exact Hne|]. split; [exact Hr|]. by apply He.
Defined.
