(* ===== verification/SnapStoreRace.v ===== *)
(** * Two puts of the same container

    [put_snapshot] holds only the read side of the commit gate, so two
    calls may run at once.  Calls with the same container stage it in the
    same file under [tmp/].  The file splits [publish] at its system calls
    and follows one interleaving of two of them. *)

From S2P Require Import Prelude Types Manifest Fs Pack Index Names ReadCache PageStore PageStoreInv PageStoreSpec.
From S2P Require Import SnapStore SnapStoreInv SnapStoreRead SnapStoreSpec.

Section race.
Context {HB : Blake3} {HZ : Zstd} {HC : Crc32}.

(** [publish] in three parts: open the staging file, fill it, give it its
    final name. *)
Definition publish_open (r : SnapshotRef) : M tree io_error handle :=
  create_dir_all (shard_dir r) ;! in_fs (open_truncate (tmp_path r)).
Definition publish_write (container : bytes) (tmp : handle) : M tree io_error unit :=
  in_fs (write_all_ tmp container) ;! in_fs (sync_data tmp).
Definition publish_name (r : SnapshotRef) : M tree io_error unit :=
  in_fs (rename (tmp_path r) (spm_path r)) ;! sync_shard (shard_dir r).

Lemma publish_split r c t :
  publish r c t = (let! tmp := publish_open r in publish_write c tmp ;! publish_name r) t.
Proof.
  unfold publish, publish_open, publish_write, publish_name, ibind.
  destruct (create_dir_all (shard_dir r) t) as [[[]|e|] t1]; [|done..].
  destruct (in_fs (open_truncate (tmp_path r)) t1) as [[h|e|] t2]; [|done..].
  destruct (in_fs (write_all_ h c) t2) as [[[]|e|] t3]; [|done..].
  by destruct (in_fs (sync_data h) t3) as [[[]|e|] t4].
Qed.

(** Two calls side by side: the first fills the staging file, the second
    opens (and truncates) it, the first gives it its name and returns. *)
Definition overlapping_puts (r : SnapshotRef) (container : bytes) : M tree io_error handle :=
  let! first := publish_open r in
  publish_write container first ;!
  let! second := publish_open r in
  publish_name r ;!
  iret second.

Lemma publish_open_calm r t : calm (t_fs t) → ∃ t1, publish_open r t =
  match fs_dir (t_fs t) !! tmp_path r with
  | Some i => (Ok (mk_handle i 0), set_t_fs (set_content i [] (t_fs t)) t1)
  | None => (Ok (mk_handle (fs_next (t_fs t)) 0), set_t_fs (fresh_file (tmp_path r) (t_fs t)) t1)
  end.
Proof.
  intros Hs. exists (mk_tree (t_fs t) ({[shard_dir r]} ∪ t_dirs t) (t_ddirs t)). unfold publish_open, create_dir_all.
  erewrite ibind_step; [|erewrite ibind_step by (unfold in_fs, zoom; rewrite syscall_calm by done; reflexivity); reflexivity].
  unfold in_fs, zoom, open_truncate. cbn [t_fs set_t_fs]. rewrite syscall_calm by done. by destruct (fs_dir (t_fs t) !! tmp_path r).
Qed.

Lemma publish_write_calm c i t : calm (t_fs t) → content (t_fs t) i = [] →
  ∃ s, publish_write c (mk_handle i 0) t = (Ok tt, set_t_fs s t) ∧ calm s ∧ content s i = c ∧ fs_dir s = fs_dir (t_fs t) ∧ fs_next s = fs_next (t_fs t).
Proof.
  intros Hs Hc. eexists. split; [|split; [|split]].
  - unfold publish_write. erewrite ibind_step.
    2: { unfold in_fs, zoom, write_all_. rewrite write_all_calm by done. reflexivity. }
    unfold in_fs, zoom, sync_data. cbn [t_fs set_t_fs]. by rewrite syscall_calm.
  - done.
  - unfold content at 1. cbn. rewrite lookup_insert_eq. cbn. rewrite Hc. change 0 with (zlen (@nil Init.Byte.byte)).
    rewrite write_bytes_end. unfold content. cbn. by rewrite lookup_insert_eq.
  - done.
Qed.

Lemma publish_name_calm r t : calm (t_fs t) → publish_name r t =
  match fs_dir (t_fs t) !! tmp_path r with
  | Some i => let s := set_dir (<[spm_path r := i]> (delete (tmp_path r) (fs_dir (t_fs t)))) (t_fs t) in
              (Ok tt, set_t_fs (set_ddir (sync_names (shard_dir r) s) s) t)
  | None => (Err ENotFound, t)
  end.
Proof.
  intros Hs. unfold publish_name. destruct (fs_dir (t_fs t) !! tmp_path r) as [i|] eqn:Hd.
  - erewrite ibind_step by (unfold in_fs, zoom, rename; rewrite syscall_calm, Hd by done; reflexivity). by rewrite sync_shard_calm.
  - unfold ibind, in_fs, zoom, rename. rewrite syscall_calm, Hd by done. by destruct t.
Qed.

(** Two overlapping puts of one container: the first returns success
    while the manifest it acknowledged is empty, so reading it back fails
    as corrupt until the second call has filled the shared file; the
    second call then fails, because the staging file is gone. *)
Theorem overlapping_puts_torn r c t :
  calm (t_fs t) → fs_dir (t_fs t) !! tmp_path r = None →
  ∃ second t1 t2, overlapping_puts r c t = (Ok second, t1) ∧
    read_manifest_bytes r t1 = (Err ManifestCorrupt, t1) ∧
    publish_write c second t1 = (Ok tt, t2) ∧ named (t_fs t2) (spm_path r) = Some c ∧
    publish_name r t2 = (Err ENotFound, t2).
Proof.
  intros Hs Hn. unfold overlapping_puts. set (i := fs_next (t_fs t)).
  destruct (publish_open_calm r t Hs) as (t1 & H1). rewrite Hn in H1. fold i in H1.
  erewrite ibind_step by exact H1. set (t1' := set_t_fs _ t1).
  destruct (publish_write_calm c i t1') as (s2 & H2 & Hs2 & Hc2 & Hd2 & _); [done|unfold content; cbn; by rewrite lookup_insert_eq|].
  erewrite ibind_step by exact H2. set (t2 := set_t_fs s2 t1'). assert (fs_dir s2 !! tmp_path r = Some i) as Hi by (rewrite Hd2; cbn; apply lookup_insert_eq).
  destruct (publish_open_calm r t2 Hs2) as (t3 & H3). change (t_fs t2) with s2 in H3. rewrite Hi in H3.
  erewrite ibind_step by exact H3. set (t3' := set_t_fs _ t3).
  assert (publish_name r t3' = _) as H4 by (apply publish_name_calm; done). change (fs_dir (t_fs t3')) with (fs_dir s2) in H4. rewrite Hi in H4. cbv zeta in H4.
  erewrite ibind_step by exact H4. set (t4 := set_t_fs _ t3').
  assert (fs_dir (t_fs t4) = <[spm_path r := i]> (delete (tmp_path r) (fs_dir s2))) as Hd4 by done.
  assert (content (t_fs t4) i = []) as Hc4 by (unfold content; cbn; by rewrite lookup_insert_eq).
  assert (calm (t_fs t4)) as Hs4 by exact Hs2.
  assert (named (t_fs t4) (spm_path r) = Some []) as Hn4 by (unfold named; rewrite Hd4, lookup_insert_eq; exact (f_equal Some Hc4)).
  destruct (publish_write_calm c i t4) as (s5 & H5 & Hs5 & Hc5 & Hd5 & _); [done|done|].
  exists (mk_handle i 0), t4, (set_t_fs s5 t4). split; [done|]. split; [|split; [exact H5|split]].
  - unfold read_manifest_bytes. erewrite ibind_step by by apply path_exists_calm.
    rewrite bool_decide_eq_true_2 by (rewrite Hd4, lookup_insert_eq; by eexists). cbn [negb].
    erewrite ibind_step by (apply imap_step; unfold in_fs, zoom; rewrite (read_file_calm _ _ [] Hs4 Hn4); reflexivity).
    by destruct t4.
  - unfold named. cbn [t_fs set_t_fs]. rewrite Hd5, Hd4, lookup_insert_eq. exact (f_equal Some Hc5).
  - rewrite publish_name_calm by done. cbn [t_fs set_t_fs]. rewrite Hd5, Hd4, lookup_insert_ne, lookup_delete_eq; [done|].
    apply spm_path_ne_tmp.
Qed.

End race.

(** ** Witness *)

#[local] Existing Instances toy_blake3 toy_crc32 toy_zstd.
#[local] Opaque blake3 encode spm_path shard_dir snapshot_ref tmp_path.

Lemma overlapping_puts_torn_witness : ∃ t second t1, overlapping_puts ex_full_ref (encode ex_full) t = (Ok second, t1) ∧
  read_manifest_bytes ex_full_ref t1 = (Err ManifestCorrupt, t1).
Proof.
  destruct (overlapping_puts_torn ex_full_ref (encode ex_full) (mk_tree empty_fs ∅ ∅) eq_refl eq_refl) as (second & t1 & t2 & H1 & H2 & _).
  exists (mk_tree empty_fs ∅ ∅), second, t1. split; [exact H1|exact H2].
Defined.
