(* ===== verification/StoreGcSpec.v ===== *)
(** * What a garbage-collection cycle promises

    Safety under interleaving: whatever other threads do at the callback
    points, and whatever the cycle returns, every reference the rest of the
    system holds keeps its chain and its pages.  Exactness of an
    undisturbed cycle: what is left is what the roots reach. *)

From Stdlib Require Import Floats.SpecFloat.
From S2P Require Import Prelude Types Manifest Fs Faults Pack Index Names ReadCache PageStore PageStoreInv.
From S2P Require Import PageStoreIngest PageStoreRead PageStoreSync PageStoreGc PageStoreSpec.
From S2P Require Import SnapStore SnapStoreInv SnapStoreRead SnapStoreSpec StoreGc StoreGcInv StoreGcRun.

Section gcspec.
Context {HB : Blake3} {HZ : Zstd} {HC : Crc32} (unix_now : Z).
Abbreviation live_ok t live := (marked t live None).

Lemma stored_closed packs w r m : snap_ok packs w → holds w.2.2 r m → closed w r.
Proof.
  intros [Hpg Hi _] Hh. pose proof (holds_hash_ok _ _ _ Hh) as Hr. destruct (ti_files _ _ Hi r _ Hr (proj1 Hh)) as (m' & rest & _ & Hc).
  eexists. split; [exact Hc|]. intros r' m2 e Hin He. pose proof (chain_holds _ _ _ _ _ Hc Hin) as Hh2.
  rewrite flat_lookup by apply Hpg. eapply (ti_pages _ _ Hi); [by eapply holds_hash_ok|done|done].
Qed.

(** The mark phase of a cycle, after its first callback. *)
Lemma mark_phase {X} fence (refs : X → client) hooks packs roots w x w' :
  hooks_ok fence refs hooks → gc_safe fence packs (refs w.2) w.1 → names_ok packs (ss_pages w.1.1) w.1.2.1 →
  (∀ r, r ∈ refs w.2 → r ∈ roots) →
  in_store (gc_mark roots live_default report_default) (hook_at hooks BeforeMark w) = (x, w') →
  w' = hook_at hooks BeforeMark w ∧ swept fence refs live_default x w'.
Proof.
  intros Hho Hsafe Hnm Hro. rewrite in_store_eq.
  pose proof (ho_rely _ _ _ Hho BeforeMark w packs Hsafe) as Hrl.
  destruct (hook_safe fence refs hooks BeforeMark packs w Hho Hsafe) as (packs1 & _ & Hnm1 & Hsafe1).
  set (w1 := hook_at hooks BeforeMark w) in *.
  destruct (gc_mark roots live_default report_default w1.1) as [y w2] eqn:Hm.
  destruct (gc_mark_ok roots live_default report_default w1.1 y w2 (proj2 (gs_calm _ _ _ _ Hsafe1)) (live_default_ok _ _) Hm) as [-> Hok].
  intros [= <- <-]. split; [by destruct w1|]. exists packs1. split; [done|]. intros live' rp' ->.
  destruct (Hok live' rp' eq_refl) as (Hle & Hl & Hin). split; [done|]. split; [|by apply Hnm1]. split; [done|done|].
  intros r Hr. destruct (ho_refs _ _ _ Hho BeforeMark w packs r Hsafe Hr) as [Hr'|[_ ?]]; [left|by right].
  destruct (gs_closed _ _ _ _ Hsafe1 r Hr) as (l & Hc & _). destruct (chain_head _ _ _ Hc) as (m & rest & _ & Hh).
  eapply Hin; [by apply Hro|exact Hh].
Qed.

(** What holds after mark and sweep. *)
Definition collected {X} fence (refs : X → client) (x : res SnapError SweepReport) (w' : world X) : Prop :=
  ∃ packs', gc_safe fence packs' (refs w'.2) w'.1 ∧
    ∀ rp, x = Ok rp → store_ok packs' (ss_pages w'.1.1) w'.1.2.1.

Lemma mark_sweep_ok {X} fence (refs : X → client) fuel hooks thr packs roots w x w' :
  hooks_ok fence refs hooks → gc_safe fence packs (refs w.2) w.1 → names_ok packs (ss_pages w.1.1) w.1.2.1 →
  (∀ r, r ∈ refs w.2 → r ∈ roots) →
  gc_mark_sweep unix_now fuel hooks thr fence roots w = (x, w') → next_of w'.1 ≤ 2 ^ 32 → collected fence refs x w'.
Proof.
  intros Hho Hsafe Hnm Hro. pose proof (ho_next _ _ _ Hho : hooks_nondec hooks) as Hnd.
  unfold gc_mark_sweep. erewrite ibind_step by reflexivity. unfold ibind at 1.
  destruct (in_store (gc_mark roots live_default report_default) (hook_at hooks BeforeMark w)) as [y w1] eqn:Hm.
  destruct (mark_phase _ _ _ _ _ _ _ _ Hho Hsafe Hnm Hro Hm) as (_ & packs1 & Hsafe1 & Hfin1).
  destruct y as [[live1 rp1]|e|]; [|intros [= <- <-] _; exists packs1; by split..].
  destruct (Hfin1 live1 rp1 eq_refl) as (_ & Hinv1 & Hnm1).
  unfold ibind at 1. destruct (gc_sweep_packs unix_now fuel hooks fence thr live1 rp1 w1) as [z w2] eqn:Hsp. intros Hk Hnx.
  assert (next_of w2.1 ≤ 2 ^ 32) as Hnx2.
  { destruct z as [[live2 rp2]|e|]; [|by injection Hk as <- <-..]. revert Hk. unfold ibind.
    pose proof (gnondec_sweep_manifests hooks live2 rp2 Hnd w2) as Hg.
    destruct (gc_sweep_manifests hooks live2 rp2 w2) as [[[]|e|] w3]; intros [= <- <-]; cbn [fst snd] in Hg; lia. }
  destruct (sweep_packs_ok unix_now hooks fence packs1 refs live1 thr rp1 fuel w1 z w2 Hho Hinv1 Hnm1 Hsp Hnx2) as (packs2 & Hsafe2 & Hfin2).
  destruct z as [[live2 rp2]|e|]; [|injection Hk as <- <-; exists packs2; by split..].
  destruct (Hfin2 live2 rp2 eq_refl) as (_ & Hinv2 & Hnm2).
  revert Hk. unfold ibind. destruct (gc_sweep_manifests hooks live2 rp2 w2) as [z w3] eqn:Hsm.
  destruct (sweep_manifests_ok hooks fence packs2 refs live2 rp2 w2 z w3 Hho Hinv2 Hnm2 Hsm) as (packs3 & Hnm3 & cs & (Hx & Hsafe3 & Hfin3) & _).
  rewrite <-Hx in Hsafe3. intros Hk. assert (w3 = w') as -> by (destruct z as [[]|e|]; by injection Hk as _ <-).
  exists packs3. split; [done|]. intros rp ->. destruct z as [[live3 rp3]|e|]; [|done..].
  destruct (Hfin3 live3 rp3 eq_refl) as (_ & Hinv3 & gone & Htr & _). apply store_gc_ok. split; [apply Hinv3|].
  by rewrite (tr_pages _ _ _ Htr), (tr_disk _ _ _ Htr).
Qed.


Lemma begin_epoch_eq {X} (w : world X) (roots : list SnapshotRef) :
  ss_epoch w.1.1 = None →
  in_store (begin_gc_epoch (E:=SnapError) (iret roots)) w =
  (Ok (a_pack_id (ps_active (ss_pages w.1.1)), roots), ((set_epoch (Some []) w.1.1, w.1.2), w.2)).
Proof.
  destruct w as [[st d] x]. cbn [fst snd]. intros He. apply in_store_step. unfold begin_gc_epoch.
  erewrite ibind_step by reflexivity. cbn [fst snd]. erewrite ibind_step by (unfold on_state; cbn [fst snd]; rewrite He; reflexivity). done.
Qed.


(** ** Exactness *)

(** The references a stored reference depends on, itself included. *)
Inductive reaches (t : tree) : SnapshotRef → SnapshotRef → Prop :=
  | reaches_self r m : holds t r m → reaches t r r
  | reaches_parent r m p r' : holds t r m → delta m = true → parent m = Some p → reaches t p r' → reaches t r r'.

Lemma reaches_chain t r l r' m : chain t r l → (r', m) ∈ l → reaches t r r'.
Proof.
  induction 1 as [r m0 Hh Hd|r m0 p pm rest Hh Hd Hp Hc IH Hg].
  - intros Heq%list_elem_of_singleton. simplify_eq. by eapply reaches_self.
  - intros [Heq|Hin]%elem_of_cons; [simplify_eq; by eapply reaches_self|]. eapply reaches_parent; [done..|]. by apply IH.
Qed.

Lemma chain_reaches t r l r' : chain t r l → reaches t r r' → ∃ m, (r', m) ∈ l.
Proof.
  intros Hc Hr. revert l Hc. induction Hr as [r m Hh|r m p r' Hh Hd Hp Hr IH]; intros l Hc.
  - destruct (chain_head _ _ _ Hc) as (m' & rest & -> & _). exists m'. left.
  - inversion Hc as [r0 m0 Hh0 Hd0|r0 m0 p0 pm rest Hh0 Hd0 Hp0 Hc0 Hg]; subst; rewrite (holds_fun _ _ _ _ Hh0 Hh) in *; [congruence|].
    rewrite Hp in Hp0. injection Hp0 as <-. destruct (IH _ Hc0) as [m' Hin]. exists m'. by right.
Qed.

(** Marking adds only what the roots reach. *)
Lemma mark_chain_upper fuel first cursor live rp w live' rp' w' :
  mark_chain fuel first cursor live rp w = (Ok (live', rp'), w') → calm (t_fs w.2.2) →
  ∀ r, r ∈ lv_manifests live' → r ∈ lv_manifests live ∨ reaches w.2.2 cursor r.
Proof.
  intros Hm Hs. revert first cursor live Hm. induction fuel as [|fuel IH]; intros first cursor live; cbn [mark_chain]; [done|].
  case_bool_decide; [intros [= <- <- <-]; by left|]. destruct w as [st [pf t]]. cbn [fst snd] in *.
  intros Hk. apply ibind_Ok in Hk as (b & w1 & Hb & Hk). unfold itry, on_tree, imap_err, zoom in Hb. cbn [fst snd] in Hb.
  destruct (read_manifest_bytes cursor t) as [y t'] eqn:Hr. pose proof (read_manifest_same cursor t Hs) as Ht. rewrite Hr in Ht. cbn in Ht. subst t'.
  destruct y as [buf|e|]; cbn in Hb; [| |done]; injection Hb as <- <-.
  2: { destruct e; try done. destruct first; [|done]. injection Hk as <- <- <-. by left. }
  apply ibind_Ok in Hk as (m & w2 & Hd%imap_err_Ok & Hk). unfold iof in Hd. injection Hd as Hd <-.
  destruct (read_manifest_Ok _ _ _ _ Hr) as [Hn Href].
  assert (holds t cursor m) as Hh. { rewrite <-Href. apply decode_holds; [done|]. by rewrite Href. }
  destruct (delta m) eqn:Hdm.
  - destruct (holds_parent _ _ _ Hh Hdm) as (p & Hp). rewrite Hp in Hk. erewrite ibind_step in Hk by reflexivity.
    intros r Hr'. destruct (IH false p _ Hk r Hr') as [[->%elem_of_singleton|?]%elem_of_union|?]; [right; by eapply reaches_self|by left|].
    right. by eapply reaches_parent.
  - injection Hk as <- <- <-. intros r [->%elem_of_singleton|?]%elem_of_union; [right; by eapply reaches_self|by left].
Qed.

#[local] Opaque mark_chain MAX_CHAIN.

Lemma gc_mark_upper roots live rp w live' rp' w' :
  gc_mark roots live rp w = (Ok (live', rp'), w') → calm (t_fs w.2.2) → live_ok w.2.2 live →
  ∀ r, r ∈ lv_manifests live' → r ∈ lv_manifests live ∨ ∃ root, root ∈ roots ∧ reaches w.2.2 root r.
Proof.
  intros Hm Hs. revert live rp Hm. induction roots as [|r0 roots IH]; intros live rp Hm Hl; cbn [gc_mark] in Hm; [injection Hm as <- <- <-; by left|].
  apply ibind_Ok in Hm as ([live1 rp1] & w1 & H1 & Hk).
  destruct (mark_chain_ok _ _ _ _ _ _ _ _ Hs (marked_weaken _ _ _ Hl) H1) as [-> Hok].
  destruct (Hok live1 rp1 eq_refl) as [_ Hcase].
  assert (live_ok w.2.2 live1) as Hl1 by (destruct Hcase as [[_ ?]|(_ & -> & _)]; done).
  intros r Hr. destruct (IH live1 rp1 Hk Hl1 r Hr) as [Hr1|(root & ? & ?)]; [|right; exists root; split; [by right|done]].
  destruct (mark_chain_upper _ _ _ _ _ _ _ _ _ H1 Hs r Hr1) as [?|?]; [by left|right; exists r0; split; [left|done]].
Qed.

(** ** A cycle without other threads *)

(** Only the page store changes. *)
Definition kept (w w' : SnapshotStore * disk) : Prop :=
  w'.2.2 = w.2.2 ∧ ss_cache w'.1 = ss_cache w.1 ∧ ss_epoch w'.1 = ss_epoch w.1.
#[local] Instance kept_preorder : PreOrder kept.
Proof. split; [done|]. intros w1 w2 w3 (? & ? & ?) (? & ? & ?). split_and!; congruence. Qed.

Definition pages_only {E A} (c : SM E A) : Prop := ∀ w, kept w (c w).2.

Lemma pages_only_ret {E A} (a : A) : pages_only (E:=E) (iret a).
Proof. by intros w. Qed.
Lemma pages_only_err {E A} (e : E) : pages_only (A:=A) (ierr e).
Proof. by intros w. Qed.
Lemma pages_only_bind {E A B} (c : SM E A) (k : A → SM E B) : pages_only c → (∀ a, pages_only (k a)) → pages_only (ibind c k).
Proof.
  intros Hc Hk w. unfold ibind. specialize (Hc w). destruct (c w) as [[a|e|] w1]; cbn [snd] in *; [|done..].
  etransitivity; [exact Hc|apply Hk].
Qed.
Lemma pages_only_if {E A} (b : bool) (c d : SM E A) : pages_only c → pages_only d → pages_only (if b then c else d).
Proof. by destruct b. Qed.
Lemma pages_only_for {E A} (l : list A) (f : A → SM E unit) : (∀ a, pages_only (f a)) → pages_only (ifor l f).
Proof. intros Hf. induction l as [|a l IH]; cbn [ifor]; [apply pages_only_ret|]. by apply pages_only_bind. Qed.
Lemma pages_only_on_pages {E A} (f : StoreError → E) (c : P A) : pages_only (on_pages f c).
Proof. intros [st [pf t]]. rewrite on_pages_eq. done. Qed.

Create HintDb pages_only.
#[local] Hint Resolve pages_only_ret pages_only_err pages_only_if pages_only_for pages_only_on_pages : pages_only.

Lemma pages_only_copy records : pages_only (gc_copy_records unix_now records).
Proof.
  unfold gc_copy_records. apply pages_only_bind; [auto with pages_only|]. intros g. apply pages_only_bind.
  - revert g. induction records as [|[h l] records IH]; intros g; cbn [copy_loop]; [auto with pages_only|].
    apply pages_only_bind; [auto with pages_only|]. intros d. apply pages_only_if; [auto with pages_only|]. apply pages_only_bind; auto with pages_only.
  - intros g'. apply pages_only_bind; [auto with pages_only|]. intros []. auto with pages_only.
Qed.
Lemma pages_only_repoint p copied : pages_only (repoint_all p copied).
Proof. apply pages_only_for. intros e. apply pages_only_bind; auto with pages_only. Qed.
Lemma pages_only_remove p live dead : pages_only (remove_dead p live dead).
Proof. apply pages_only_for. intros e. apply pages_only_if; [auto with pages_only|]. apply pages_only_bind; auto with pages_only. Qed.
Lemma pages_only_unlink p : pages_only (unlink_pack p).
Proof. apply pages_only_bind; auto with pages_only. Qed.
#[local] Hint Resolve pages_only_copy pages_only_repoint pages_only_remove pages_only_unlink : pages_only.

(** A computation of an undisturbed cycle with nothing to drain: the page
    store changes, and [ok] holds of what it returns. *)
Definition alone {X E A} (ok : A → Prop) (c : GM X E A) : Prop := ∀ w x w',
  late w.1 = [] → c w = (x, w') → kept w.1 w'.1 ∧ w'.2 = w.2 ∧ ∀ a, x = Ok a → ok a.

Lemma alone_ret {X E A} (ok : A → Prop) (a : A) : ok a → alone (X:=X) (E:=E) ok (iret a).
Proof. intros Ha w x w' _ [= <- <-]. split_and!; [done|done|]. by intros ? [= <-]. Qed.
Lemma alone_bind {X E A B} (P : A → Prop) (ok : B → Prop) (c : GM X E A) (k : A → GM X E B) :
  alone P c → (∀ a, P a → alone ok (k a)) → alone ok (ibind c k).
Proof.
  intros Hc Hk w x w' Hla. unfold ibind. destruct (c w) as [y w1] eqn:Hw. destruct (Hc w y w1 Hla Hw) as (Hk1 & Hx1 & Hp).
  destruct y as [a|e|]; [|intros [= <- <-]; by split_and!..]. intros Hr.
  destruct (Hk a (Hp a eq_refl) w1 x w') as (Hk2 & Hx2 & Hq); [unfold late in *; by rewrite (proj2 (proj2 Hk1))|done|].
  split_and!; [by etransitivity|congruence|done].
Qed.
Lemma alone_in_store {X E A} (c : SM E A) : pages_only c → alone (X:=X) (λ _, True) (in_store c).
Proof. intros Hc w x w' _. rewrite in_store_eq. intros [= <- <-]. specialize (Hc w.1). by split_and!. Qed.
Lemma alone_fire {X E} p : alone (X:=X) (E:=E) (λ _, True) (fire hooks_none p).
Proof. intros w x w' _ [= <- <-]. by split_and!. Qed.

Abbreviation same_live live := (λ r : LiveSet * SweepReport, r.1 = live).

Lemma alone_straggler {X} fuel p copied dead live rp :
  alone (X:=X) (same_live live) (straggler_loop unix_now fuel hooks_none p copied dead live rp).
Proof.
  destruct fuel as [|fuel]; cbn [straggler_loop]; [by intros w x w' _ [= <- <-]|]. intros w x w' Hla.
  change (hook_is hooks_none SkipLateRootsDrain) with false. change (hook_is hooks_none UnlinkBeforeRepoint) with false.
  change (hook_is hooks_none SkipIndexRemoveOfDead) with false. cbv iota.
  erewrite ibind_step by (apply in_store_step, drain_eq). rewrite Hla, drained_id by done. cbn [bool_decide decide_rel].
  rewrite bool_decide_eq_true_2 by done. replace (w.1, w.2) with w by by destruct w. erewrite ibind_step by reflexivity.
  revert Hla. generalize w x w'. change (alone (same_live live) (in_store (X:=X) (repoint_all p copied) ;! in_store (remove_dead p live dead) ;! iret (live, rp))).
  apply (alone_bind (λ _, True)); [apply alone_in_store; auto with pages_only|]. intros _ _.
  apply (alone_bind (λ _, True)); [apply alone_in_store; auto with pages_only|]. intros _ _. by apply alone_ret.
Qed.

Lemma alone_finalize {X} fuel p copied dead live rp :
  alone (X:=X) (same_live live) (finalize_and_unlink unix_now fuel hooks_none p copied dead live rp).
Proof.
  unfold finalize_and_unlink. change (hook_is hooks_none UnlinkBeforeRepoint) with false. cbv iota.
  apply (alone_bind (λ _, True)); [apply alone_fire|]. intros _ _.
  apply (alone_bind (same_live live)); [apply alone_straggler|]. intros [live' rp'] Heq. cbn in Heq. subst live'.
  apply (alone_bind (λ _, True)); [apply alone_fire|]. intros _ _.
  apply (alone_bind (λ _, True)); [|intros _ _; by apply alone_ret].
  apply (alone_bind (λ _, True)); [apply alone_in_store; auto with pages_only|]. intros _ _. apply alone_fire.
Qed.

Lemma alone_sweep_one {X} fuel thr p live rp :
  alone (X:=X) (same_live live) (gc_sweep_one_pack unix_now fuel hooks_none thr p live rp).
Proof.
  unfold gc_sweep_one_pack. apply (alone_bind (λ _, True)); [apply alone_in_store; auto with pages_only|]. intros es _.
  apply (alone_bind (λ _, True)); [apply alone_in_store; auto with pages_only|]. intros recs _. cbv zeta.
  destruct (_ && _).
  - apply (alone_bind (same_live live)); [apply alone_finalize|]. intros [live' rp'] Heq. by apply alone_ret.
  - destruct (liveness_reaches _ _ _); [by apply alone_ret|]. unfold compact_pack.
    apply (alone_bind (λ r, r.2.1 = live)); [|intros [copied [live' rp']] Heq; by apply alone_ret].
    apply (alone_bind (λ _, True)); [apply alone_in_store; auto with pages_only|]. intros copied _.
    apply (alone_bind (λ _, True)); [apply alone_fire|]. intros _ _.
    apply (alone_bind (same_live live)); [apply alone_finalize|]. intros r Heq. by apply alone_ret.
Qed.

Lemma alone_sweep_packs {X} fuel fence thr live rp :
  alone (X:=X) (same_live live) (gc_sweep_packs unix_now fuel hooks_none fence thr live rp).
Proof.
  unfold gc_sweep_packs. apply (alone_bind (λ _, True)); [apply alone_in_store; auto with pages_only|]. intros ids _.
  generalize (filter (λ p, p < fence) ids). intros l. revert live rp. induction l as [|p l IH]; intros live rp; cbn [sweep_each]; [by apply alone_ret|].
  apply (alone_bind (λ _, True)); [apply alone_fire|]. intros _ _.
  apply (alone_bind (same_live live)); [apply alone_sweep_one|]. intros [live' rp'] Heq. cbn in Heq. subst live'. apply IH.
Qed.

Lemma hooks_none_ok {X} fence (refs : X → client) : hooks_ok fence refs hooks_none.
Proof.
  split; cbn; [done|done| |by left|by intros p w packs []]. intros p w packs Hs. split; try done; [by intros packs' ?; exists packs'|by left].
Qed.

(** The manifest sweep of an undisturbed cycle removes what is not live. *)
Lemma sweep_manifests_alone {X} fence packs (refs : X → client) live rp w live' rp' w' :
  gc_inv fence packs (refs w.2) live w.1 → names_ok packs (ss_pages w.1.1) w.1.2.1 → late w.1 = [] → dirs_ok w.1.2.2 →
  gc_sweep_manifests hooks_none live rp w = (Ok (live', rp'), w') →
  w'.2 = w.2 ∧ ∃ packs', gc_inv fence packs' (refs w.2) live' w'.1 ∧ names_ok packs' (ss_pages w'.1.1) w'.1.2.1 ∧
    ∃ gone, trimmed gone w.1 w'.1 ∧
    ∀ r, hash_ok r → is_Some (named (t_fs w'.1.2.2) (spm_path r)) → r ∈ lv_manifests live'.
Proof.
  intros Hinv Hnm Hla Hd Hr.
  destruct (sweep_manifests_ok hooks_none fence packs refs live rp w _ w' (hooks_none_ok _ _) Hinv Hnm Hr)
    as (packs1 & Hnm1 & cs & (Hx & _ & Hfin) & Hcs). cbn [hook_at hooks_none] in *.
  destruct (Hfin live' rp' eq_refl) as (Hle & Hinv' & gone & Htr & Hg). split; [done|]. exists packs1. split; [done|].
  split; [by rewrite (tr_pages _ _ _ Htr), (tr_disk _ _ _ Htr)|]. exists gone. split; [done|].
  intros r Hrk Hsome. destruct (tr_other _ _ _ Htr (spm_path r)) as [Heq|Heq]; [|rewrite Heq in Hsome; by destruct Hsome].
  assert (is_Some (fs_dir (t_fs w.1.2.2) !! spm_path r)) as Hdir.
  { rewrite Heq in Hsome. destruct Hsome as [c Hc]. by eapply named_dir. }
  destruct (Hcs Hd r Hrk Hdir) as [Hin|?]; [|by apply Hle]. destruct (Hg r Hin) as [Hgone|?]; [|done].
  rewrite (tr_gone _ _ _ Htr r Hgone) in Hsome. by destruct Hsome.
Qed.

(** Deleting manifests does not touch the epoch. *)
Definition epoch_same {E A} (c : SM E A) : Prop := ∀ w, ss_epoch (c w).2.1 = ss_epoch w.1.
Lemma epoch_same_bind {E A B} (c : SM E A) (k : A → SM E B) : epoch_same c → (∀ a, epoch_same (k a)) → epoch_same (ibind c k).
Proof.
  intros Hc Hk w. unfold ibind. specialize (Hc w). destruct (c w) as [[a|e|] w1]; cbn [snd] in *; [|done..].
  by rewrite Hk.
Qed.
Lemma epoch_same_on_tree {E F A} (f : E → F) (c : M tree E A) : epoch_same (on_tree f c).
Proof. intros [st [pf t]]. unfold on_tree, imap_err, zoom. cbn. by destruct (c t). Qed.
Lemma epoch_same_on_state {E A} (f : SnapshotStore → A * SnapshotStore) :
  (∀ st, ss_epoch (f st).2 = ss_epoch st) → epoch_same (E:=E) (on_state f).
Proof. intros Hf [st d]. unfold on_state. cbn. specialize (Hf st). by destruct (f st). Qed.

Lemma epoch_same_delete r : epoch_same (delete_manifest r).
Proof.
  unfold delete_manifest. apply epoch_same_bind; [apply epoch_same_on_tree|]. intros b. destruct (negb b); [by intros w|].
  apply epoch_same_bind; [apply epoch_same_on_tree|]. intros g. apply epoch_same_bind; [apply epoch_same_on_tree|]. intros _.
  apply epoch_same_bind; [apply epoch_same_on_tree|]. intros _. apply epoch_same_bind; [by apply epoch_same_on_state|]. intros _.
  apply epoch_same_bind; [by apply epoch_same_on_state|by intros _ w].
Qed.

Lemma epoch_same_batch batch live rp : epoch_same (delete_batch batch live rp).
Proof.
  revert rp. induction batch as [|r batch IH]; intros rp; cbn [delete_batch]; [by intros w|].
  case_bool_decide; [done|]. apply epoch_same_bind; [apply epoch_same_delete|done].
Qed.

Lemma batches_live {X} fuel cs live rp (w : world X) live' rp' w' :
  late w.1 = [] → sweep_batches fuel hooks_none cs live rp w = (Ok (live', rp'), w') → live' = live.
Proof.
  revert cs rp w. induction fuel as [|fuel IH]; intros [|c cs] rp w Hla; cbn [sweep_batches]; try (by intros [= <- <- <-]).
  change (hook_is hooks_none SkipLateRootsDrain) with false. cbv iota.
  erewrite ibind_step by (apply in_store_step, drain_eq). rewrite Hla, drained_id by done. erewrite ibind_step by reflexivity.
  intros Hk. apply ibind_Ok in Hk as (rp1 & w1 & Hb & Hk). rewrite in_store_eq in Hb.
  pose proof (f_equal snd Hb) as Hw1. cbn [snd] in Hw1. subst w1.
  eapply IH; [|exact Hk]. cbn [fst]. unfold late in *. by rewrite epoch_same_batch.
Qed.

(** ** The tree after an undisturbed cycle *)

Section left.
Context (t t' : tree) (idx : ShardedIndex) (live : LiveSet) (roots : list SnapshotRef).
Context (Hwf : fs_wf (t_fs t')) (Hlive : live_ok t live) (Hlive' : live_ok t' live).
Context (Hother : ∀ q, named (t_fs t') q = named (t_fs t) q ∨ named (t_fs t') q = None).
Context (Hleft : ∀ r, hash_ok r → is_Some (named (t_fs t') (spm_path r)) → r ∈ lv_manifests live).
Context (Hupper : ∀ r, r ∈ lv_manifests live → ∃ root, root ∈ roots ∧ reaches t root r).
Context (Hroots : ∀ root m, root ∈ roots → holds t root m → root ∈ lv_manifests live ∧
  ∃ l, chain t' root l ∧ ∀ r' m e, (r', m) ∈ l → e ∈ entries m → is_Some (index_get idx (page_hash e))).

Lemma left_before r m : holds t' r m → holds t r m.
Proof. intros (Hn & ?). split; [|done]. destruct (Hother (spm_path r)) as [<-|Hno]; [done|congruence]. Qed.

Lemma left_live r m : holds t r m → r ∈ lv_manifests live → holds t' r m.
Proof. intros Hh Hr. destruct (Hlive' r Hr) as (m' & Hh' & _). by rewrite <-(holds_fun _ _ _ _ (left_before _ _ Hh') Hh). Qed.

Lemma left_chain r l : chain t r l → r ∈ lv_manifests live → chain t' r l.
Proof.
  intros Hc Hr. eapply chain_keep; [exact Hc|]. intros r' m Hin Hh. apply left_live; [done|].
  by destruct (marked_chain _ _ _ _ Hlive Hc Hr r' m Hin).
Qed.

Lemma reaches_holds r r' : reaches t r r' → ∃ m, holds t r m.
Proof. by destruct 1; eexists. Qed.

Lemma left_exact r m : holds t' r m ↔ holds t r m ∧ ∃ root, root ∈ roots ∧ reaches t root r.
Proof.
  split.
  - intros Hh. split; [by apply left_before|]. apply Hupper, Hleft; [by eapply holds_hash_ok|]. rewrite (proj1 Hh). by eexists.
  - intros [Hh (root & Hin & Hre)]. apply left_live; [done|]. destruct (reaches_holds _ _ Hre) as [m0 Hh0].
    destruct (Hroots root m0 Hin Hh0) as (Hr & l & Hc & _).
    assert (chain t root l) as Hc' by (eapply chain_mono; [exact left_before|exact Hc]).
    destruct (chain_reaches _ _ _ _ Hc' Hre) as [m' Hin']. by destruct (marked_chain _ _ _ _ Hlive Hc' Hr _ _ Hin').
Qed.

Lemma left_inv idx0 : tree_inv idx0 t → tree_inv idx t'.
Proof.
  intros Hi. split; [done| |].
  - intros r c Hr Hn. assert (named (t_fs t) (spm_path r) = Some c) as Hn0 by (destruct (Hother (spm_path r)); congruence).
    destruct (ti_files _ _ Hi r c Hr Hn0) as (m & rest & -> & Hc). exists m, rest. split; [done|]. apply left_chain; [done|].
    apply Hleft; [done|]. rewrite Hn. by eexists.
  - intros r m Hr Hh e He. apply left_exact in Hh as [Hh (root & Hin & Hre)]. destruct (reaches_holds _ _ Hre) as [m0 Hh0].
    destruct (Hroots root m0 Hin Hh0) as (_ & l & Hc & Hp).
    assert (chain t root l) as Hc' by (eapply chain_mono; [exact left_before|exact Hc]).
    destruct (chain_reaches _ _ _ _ Hc' Hre) as [m' Hin']. rewrite (holds_fun _ _ _ _ Hh (chain_holds _ _ _ _ _ Hc' Hin')) in He. by eapply Hp.
Qed.

Lemma left_cache c c' :
  cache_ok t c → NoDup (fc_entries c').*1 →
  (∀ r es, fc_get c' r = Some es → fc_get c r = Some es ∧
    (is_Some (named (t_fs t) (spm_path r)) → hash_ok r → is_Some (named (t_fs t') (spm_path r)))) → cache_ok t' c'.
Proof.
  intros [_ Hc] Hnd Hg. split; [done|]. intros r es He. destruct (Hg r es He) as [He0 Hst]. destruct (Hc r es He0) as (l & Hl & Hf).
  exists l. split; [|done]. destruct (chain_head _ _ _ Hl) as (m & rest & _ & Hh). pose proof (holds_hash_ok _ _ _ Hh) as Hr.
  apply left_chain; [done|]. apply Hleft; [done|]. apply Hst; [|done]. rewrite (proj1 Hh). by eexists.
Qed.
End left.

Lemma sweep_manifests_live {X} live rp (w : world X) live' rp' w' :
  late w.1 = [] → calm (t_fs w.1.2.2) → gc_sweep_manifests hooks_none live rp w = (Ok (live', rp'), w') → live' = live.
Proof.
  intros Hla Hs. unfold gc_sweep_manifests. erewrite ibind_step by reflexivity. cbn [hook_at hooks_none].
  destruct (list_manifests_ok w.1 Hs) as (ls & Hl & _). erewrite ibind_step by (apply in_store_step; exact Hl).
  intros Hk. eapply batches_live; [|exact Hk]. done.
Qed.

(** What the three phases of an undisturbed cycle lead to. *)
Record phases {X} (fence : PackId) (roots : list SnapshotRef) (refs : client) (packs' : packs_t) (live : LiveSet) (w2 w w' : world X) : Prop := {
  ph_rest : w'.2 = w.2;
  ph_upper : ∀ r, r ∈ lv_manifests live → ∃ root, root ∈ roots ∧ reaches w.1.2.2 root r;
  ph_roots : ∀ r, r ∈ refs → r ∈ lv_manifests live;
  ph_marked : live_ok w.1.2.2 live;
  ph_kept : kept w.1 w2.1;
  ph_inv : gc_inv fence packs' refs live w'.1;
  ph_names : names_ok packs' (ss_pages w'.1.1) w'.1.2.1;
  ph_trim : ∃ gone, trimmed gone w2.1 w'.1;
  ph_left : ∀ r, hash_ok r → is_Some (named (t_fs w'.1.2.2) (spm_path r)) → r ∈ lv_manifests live;
}.

Lemma mark_sweep_phases {X} fuel thr packs roots refs fence (w : world X) rp w' :
  gc_safe fence packs refs w.1 → names_ok packs (ss_pages w.1.1) w.1.2.1 → (∀ r, r ∈ refs → r ∈ roots) →
  late w.1 = [] → dirs_ok w.1.2.2 →
  gc_mark_sweep unix_now fuel hooks_none thr fence roots w = (Ok rp, w') → next_of w'.1 ≤ 2 ^ 32 →
  ∃ packs' live w2, phases fence roots refs packs' live w2 w w'.
Proof.
  intros Hsafe Hnm Hsub Hla Hd. set (rf := λ _ : X, refs). pose proof (gs_calm _ _ _ _ Hsafe) as [_ Ht].
  pose proof (hooks_none_ok fence rf) as Hho. pose proof (ho_next _ _ _ Hho : hooks_nondec hooks_none) as Hnd.
  unfold gc_mark_sweep. erewrite ibind_step by reflexivity. cbn [hook_at hooks_none].
  intros Hk Hnx. apply ibind_Ok in Hk as ([live1 rp1] & w1 & Hm & Hk).
  destruct (mark_phase fence rf hooks_none packs roots w _ _ Hho Hsafe Hnm Hsub Hm) as (-> & packs1 & _ & Hfin1). cbn [hook_at hooks_none] in *.
  destruct (Hfin1 live1 rp1 eq_refl) as (_ & Hinv1 & Hnm1). rewrite in_store_eq in Hm.
  destruct (gc_mark roots live_default report_default w.1) as [y wm] eqn:Hgm. injection Hm as -> _.
  pose proof (gc_mark_upper _ _ _ _ _ _ _ Hgm Ht (live_default_ok _ _)) as Hup.
  apply ibind_Ok in Hk as ([live2 rp2] & w2 & Hsp & Hk). apply ibind_Ok in Hk as ([live3 rp3] & w3 & Hsm & Hk). injection Hk as _ <-.
  assert (next_of w2.1 ≤ 2 ^ 32) as Hnx2.
  { pose proof (gnondec_sweep_manifests hooks_none live2 rp2 Hnd w2) as Hg. rewrite Hsm in Hg. cbn [fst snd] in Hg. lia. }
  destruct (alone_sweep_packs fuel fence thr live1 rp1 w _ w2 Hla Hsp) as (Hkept & Hx2 & Hlv). specialize (Hlv _ eq_refl). cbn in Hlv. subst live2.
  destruct (sweep_packs_ok unix_now hooks_none fence packs1 rf live1 thr rp1 fuel w _ w2 Hho Hinv1 Hnm1 Hsp Hnx2) as (packs2 & _ & Hfin2).
  destruct (Hfin2 live1 rp2 eq_refl) as (_ & Hinv2 & Hnm2). pose proof Hkept as (Htr & _ & Hep).
  assert (late w2.1 = []) as Hla2 by (unfold late in *; by rewrite Hep).
  assert (live3 = live1) as -> by (eapply sweep_manifests_live; [exact Hla2| |exact Hsm]; rewrite Htr; exact Ht).
  destruct (sweep_manifests_alone fence packs2 rf live1 rp2 w2 live1 rp3 w3 Hinv2 Hnm2 Hla2) as (Hx3 & packs3 & Hinv3 & Hnm3 & gone & Htrim & Hleft);
    [by rewrite Htr|done|].
  exists packs3, live1, w2. split; try done; [congruence| | |apply Hinv1|by exists gone]; intros r Hr.
  - destruct (Hup r Hr) as [Hr'|?]; [by apply elem_of_empty in Hr'|done].
  - destruct (gi_prot _ _ _ _ _ Hinv1 r Hr) as [?|Hm]; [done|]. rewrite Hla in Hm. by apply elem_of_nil in Hm.
Qed.

Lemma mark_sweep_alone {X} fuel thr packs roots (w : world X) rp w' :
  let fence := a_pack_id (ps_active (ss_pages w.1.1)) in
  snap_ok packs w.1 → calm w.1.2.1 → calm (t_fs w.1.2.2) → late w.1 = [] → dirs_ok w.1.2.2 →
  gc_mark_sweep unix_now fuel hooks_none thr fence roots w = (Ok rp, w') → next_of w'.1 ≤ 2 ^ 32 →
  w'.2 = w.2 ∧ ∃ packs', snap_ok packs' w'.1 ∧
    ∀ r m, holds w'.1.2.2 r m ↔ holds w.1.2.2 r m ∧ ∃ root, root ∈ roots ∧ reaches w.1.2.2 root r.
Proof.
  intros fence Hok Hs Ht Hla Hd Hrun Hnx. set (refs := just (filter (λ r, is_Some (named (t_fs w.1.2.2) (spm_path r)) ∧ hash_ok r) roots)).
  assert (∀ r, r ∈ refs → ∃ m, holds w.1.2.2 r m) as Hrefs.
  { intros r [[[c Hn] Hr] _]%list_elem_of_filter. destruct (ti_files _ _ (sk_tree _ _ Hok) r c Hr Hn) as (m & rest & -> & Hc).
    exists m. destruct (chain_head _ _ _ Hc) as (m' & ? & Heq & Hh). by injection Heq as -> _. }
  pose proof (sk_pages _ _ Hok) as Hpg. apply store_gc_ok in Hpg as [Hgc Hnm].
  assert (gc_safe fence packs refs w.1) as Hsafe.
  { split; [done|done|apply (tree_inv_wf _ _ (sk_tree _ _ Hok))|done| |done]. intros r [m Hh]%Hrefs. by eapply stored_closed. }
  destruct (mark_sweep_phases fuel thr packs roots refs fence w rp w' Hsafe Hnm ltac:(by intros r [_ ?]%list_elem_of_filter) Hla Hd Hrun Hnx)
    as (packs' & live & w2 & [Hx Hup Hrl Hl (Htr & Hca & Hep) [Hsafe' Hl' _] Hnm' [gone Htrim] Hleft]).
  pose proof (tr_other _ _ _ Htrim) as Hother. rewrite Htr in Hother.
  assert (∀ root m, root ∈ roots → holds w.1.2.2 root m → root ∈ lv_manifests live ∧
    ∃ l, chain w'.1.2.2 root l ∧ ∀ r' m e, (r', m) ∈ l → e ∈ entries m → is_Some (index_get (ps_index (ss_pages w'.1.1)) (page_hash e))) as Hroots.
  { intros root m Hin Hh. assert (root ∈ refs) as Hr.
    { apply list_elem_of_filter. split; [|done]. split; [rewrite (proj1 Hh); by eexists|by eapply holds_hash_ok]. }
    split; [by apply Hrl|].
    destruct (gs_closed _ _ _ _ Hsafe' root Hr) as (l & Hc & Hp). exists l. split; [done|]. intros r' m' e Hin' He.
    rewrite <-flat_lookup by apply Hsafe'. by eapply Hp. }
  split; [done|]. exists packs'. split; [split|].
  - apply store_gc_ok. split; [apply Hsafe'|done].
  - eapply (left_inv w.1.2.2 w'.1.2.2); [apply Hsafe'|exact Hl|exact Hl'|exact Hother|exact Hleft|exact Hup|exact Hroots|apply Hok].
  - destruct (tr_cache _ _ _ Htrim) as [Hnd Hcg]; [rewrite Hca; apply (sk_cache _ _ Hok)|]. rewrite Hca, Htr in Hcg.
    eapply (left_cache w.1.2.2 w'.1.2.2 live); [..|apply Hok|exact Hnd|exact Hcg]; try done.
  - intros r m. eapply (left_exact w.1.2.2 w'.1.2.2 (ps_index (ss_pages w'.1.1)) live roots); done.
Qed.

Lemma gc_collect_run {X} (root_refs : X → list SnapshotRef) fuel thr packs w :
  let fence := a_pack_id (ps_active (ss_pages w.1.1)) in
  snap_ok packs w.1 → calm w.1.2.1 → calm (t_fs w.1.2.2) → ss_epoch w.1.1 = None →
  gc_ready fence packs w.1 → Forall hash_ok (root_refs w.2) →
  let w1 := ((set_epoch (Some []) w.1.1, w.1.2), w.2) in
  ∃ report w2, gc_mark_sweep unix_now (S fuel) hooks_none thr fence (root_refs w.2) w1 = (Ok report, w2) ∧
    next_of w2.1 ≤ 2 ^ 32 ∧
    gc_collect unix_now (S fuel) hooks_none thr root_refs w = (Ok report, ((set_epoch None w2.1.1, w2.1.2), w2.2)).
Proof.
  intros fence Hok Hs Ht He Hr Hroots w1.
  pose proof (sk_pages _ _ Hok) as Hpg. apply store_gc_ok in Hpg as [Hgc Hnm].
  assert (gc_ready fence packs w1.1) as Hr1 by (split; apply Hr).
  destruct (mark_sweep_run unix_now fence packs (root_refs w.2) thr fuel w1) as (rp & w2 & Hrun & Hnx); [|done|done|apply Hok|done|done|].
  { split; [done|done|apply (tree_inv_wf _ _ (sk_tree _ _ Hok))|done|by intros r ?%not_elem_of_nil|done]. }
  exists rp, w2. split; [done|]. split; [done|]. unfold gc_collect. rewrite begin_epoch_eq by done. fold fence w1.
  unfold with_epoch_guard. rewrite Hrun, in_store_eq. done.
Qed.

Lemma snap_epoch packs st d e : snap_ok packs (st, d) → snap_ok packs (set_epoch e st, d).
Proof. intros []. by split. Qed.

(** C14. A cycle nothing disturbs runs to the end and leaves exactly what
    the roots need: it returns a report, the store is healthy, the epoch is
    over, and a manifest is still stored if and only if it was stored
    before and some root reaches it through the parents of deltas.  What
    the metadata holds is unchanged. *)
Theorem gc_cycle_exact {X} (root_refs : X → list SnapshotRef) fuel thr packs w :
  let fence := a_pack_id (ps_active (ss_pages w.1.1)) in
  snap_ok packs w.1 → calm w.1.2.1 → calm (t_fs w.1.2.2) → ss_epoch w.1.1 = None → dirs_ok w.1.2.2 →
  gc_ready fence packs w.1 → Forall hash_ok (root_refs w.2) →
  ∃ report w', gc_collect unix_now (S fuel) hooks_none thr root_refs w = (Ok report, w') ∧
    w'.2 = w.2 ∧ ss_epoch w'.1.1 = None ∧ ∃ packs', snap_ok packs' w'.1 ∧
    ∀ r m, holds w'.1.2.2 r m ↔ holds w.1.2.2 r m ∧ ∃ root, root ∈ root_refs w.2 ∧ reaches w.1.2.2 root r.
Proof.
  intros fence Hok Hs Ht He Hd Hr Hroots.
  destruct (gc_collect_run root_refs fuel thr packs w Hok Hs Ht He Hr Hroots) as (rp & w2 & Hrun & Hnx & Hc).
  set (w1 := ((set_epoch (Some []) w.1.1, w.1.2), w.2)) in *. assert (snap_ok packs w1.1) as Hok1 by (by apply snap_epoch; destruct (w.1)).
  destruct (mark_sweep_alone (S fuel) thr packs (root_refs w.2) w1 rp w2 Hok1 Hs Ht eq_refl Hd Hrun Hnx) as (Hx & packs' & Hok' & Hiff).
  eexists _, _. split; [exact Hc|]. cbn [fst snd]. split_and!; [done|done|]. exists packs'. split; [split; apply Hok'|exact Hiff].
Qed.

End gcspec.

(** ** Witnesses *)

#[local] Existing Instances toy_blake3 toy_crc32 toy_zstd.

(** A FULL manifest of a guest without memory, and a delta on top. *)
Definition ex_base : Manifest := mk_manifest VERSION false None 0 [] (mk_blob 0 false [] 0).
Definition ex_base_ref : SnapshotRef := Eval vm_compute in snapshot_ref (encode ex_base).
Definition ex_next : Manifest := mk_manifest VERSION true (Some ex_base_ref) 0 [] (mk_blob 0 false [] 0).

Lemma ex_base_ref_eq : snapshot_ref (encode ex_base) = ex_base_ref.
Proof. vm_cast_no_check (eq_refl ex_base_ref). Qed.

Lemma ex_next_ne : snapshot_ref (encode ex_next) ≠ ex_base_ref.
Proof.
  enough (bool_decide (snapshot_ref (encode ex_next) = ex_base_ref) = false) as Hb by by apply bool_decide_eq_false in Hb.
  vm_cast_no_check (eq_refl false).
Qed.

#[local] Opaque blake3 encode spm_path shard_dir snapshot_ref.

Lemma ex_base_wf : manifest_wf ex_base.
Proof.
  split; [done|by unfold u64_ok|constructor|constructor| |by unfold blob_ok, u32_ok, u64_ok|done].
  split_and!; [done|done|]. by intros k e.
Qed.

Lemma ex_next_wf : manifest_wf ex_next.
Proof.
  split; [done|by unfold u64_ok|constructor|constructor| |by unfold blob_ok, u32_ok, u64_ok|done].
  split; [exists ex_base_ref; by split_and!|constructor].
Qed.

(** A fresh store that holds both. *)
Lemma ex_collect : ∃ packs st pf t r, snap_ok packs (st, (pf, t)) ∧ calm pf ∧ calm (t_fs t) ∧ ss_epoch st = None ∧ dirs_ok t ∧
  gc_ready (a_pack_id (ps_active (ss_pages st))) packs (st, (pf, t)) ∧ r ≠ ex_base_ref ∧
  chain t r [(r, ex_next); (ex_base_ref, ex_base)] ∧ chain t ex_base_ref [(ex_base_ref, ex_base)].
Proof.
  destruct (open_fresh 1700000000 default_options) as (ps & pf & _ & Hs & Hok & Ho & Hn & Hx).
  pose proof ex_next_ne as Hne. pose proof ex_base_ref_eq as Hr1. pose proof (snapshot_ref_encode ex_next) as Hr2.
  pose proof (snapshot_ref_encode ex_base) as Hr1'. set (r := snapshot_ref (encode ex_next)) in *. clearbody r.
  destruct (two_manifests_ok (ps_index ps) ex_base_ref r ex_base ex_next ex_base_wf ex_next_wf
    (eq_trans (eq_sym Hr1') Hr1) (eq_sym Hr2) eq_refl eq_refl eq_refl eq_refl Hne) with (dd := {[shard_dir ex_base_ref; shard_dir r]} : gset string)
    as (t & Ht & Hi & Hc & Hdd & Hnm). { intros e [He|He]; exact (False_ind _ (proj1 (elem_of_nil e) He)). }
  exists {[0 := (pack_header 0 1700000000, [])]}, (mk_snap ps None (fc_new 16) 0 0), pf, t, r.
  assert (a_pack_id (ps_active ps) = 0) as Hid.
  { destruct (si_active _ _ _ (proj1 Hok)) as (hdr & rs & Hp & _). by apply lookup_singleton_Some in Hp as [<- _]. }
  assert (chain t ex_base_ref [(ex_base_ref, ex_base)]) as Hc1.
  { pose proof (chain_holds _ _ _ _ _ Hc (list_elem_of_further _ _ _ (list_elem_of_here _ _))) as Hh.
    destruct (Hnm ex_base_ref _ (holds_hash_ok _ _ _ Hh) (proj1 Hh)) as [[_ Hc']|Heq]; [exact Hc'|]. by destruct Hne. }
  split; [split; [exact Hok|exact Hi|by split; [constructor|intros r' es]]|]. split; [exact Hs|]. split; [exact Ht|]. split; [done|]. split.
  - intros r' Hr' [i Hi']. rewrite Hdd. destruct (Hnm r' (content (t_fs t) i) Hr') as [[-> _]| ->]; [unfold named; rewrite Hi'; exact eq_refl|exact (elem_of_union_l _ _ _ (elem_of_singleton_2 _ _ eq_refl))|exact (elem_of_union_r _ _ _ (elem_of_singleton_2 _ _ eq_refl))].
  - split; [|by split_and!]. split; cbn [fst snd ss_pages].
    + intros name id _ Hp. apply parse_pack_u32 in Hp. destruct Hp as [? _]. lia.
    + intros id hdr rs [<- _]%lookup_singleton_Some. lia.
    + rewrite Ho. done.
    + unfold next_of. cbn [fst ss_pages]. rewrite Hn, map_size_singleton. done.
    + intros r' l Hl. destruct (chain_head _ _ _ Hl) as (m' & rest & _ & Hh). pose proof (holds_hash_ok _ _ _ Hh) as Hr'.
      destruct (Hnm r' _ Hr' (proj1 Hh)) as [[-> Hc']| ->].
      * rewrite (chain_fun _ _ _ _ Hl Hc'). apply leb_complete. done.
      * rewrite (chain_fun _ _ _ _ Hl Hc). apply leb_complete. done.
Qed.


Lemma gc_cycle_exact_witness : ∃ w report w', gc_collect 1700000000 1 hooks_none (f64_of 1) (λ x, x) w = (Ok report, w') ∧
  holds w'.1.2.2 ex_base_ref ex_base ∧ ∃ r, holds w.1.2.2 r ex_next ∧ ¬ holds w'.1.2.2 r ex_next.
Proof.
  destruct ex_collect as (packs & st & pf & t & r & Hok & Hs & Ht & He & Hd & Hr & Hne & Hc & Hc1).
  pose proof (chain_holds _ _ _ _ _ Hc (list_elem_of_here _ _)) as Hh. pose proof (chain_holds _ _ _ _ _ Hc1 (list_elem_of_here _ _)) as Hh1.
  set (w := ((st, (pf, t)), [ex_base_ref]) : world (list SnapshotRef)).
  assert (Forall hash_ok [ex_base_ref]) as Hall by (constructor; [by eapply holds_hash_ok|constructor]).
  destruct (gc_cycle_exact 1700000000 (λ x, x) 0 (f64_of 1) packs w Hok Hs Ht He Hd Hr Hall) as (report & w' & Hrun & _ & _ & packs' & _ & Hiff).
  exists w, report, w'. split; [exact Hrun|]. split.
  - apply Hiff. split; [exact Hh1|]. exists ex_base_ref. split; [apply list_elem_of_here|by eapply reaches_self].
  - exists r. split; [exact Hh|]. intros [_ (root & ->%list_elem_of_singleton & Hre)]%Hiff.
    destruct (chain_reaches _ _ _ _ Hc1 Hre) as [m Hin]. apply list_elem_of_singleton in Hin. injection Hin as Heq _. exact (Hne Heq).
Defined.
