(* ===== verification/StoreRely.v ===== *)
(** * The store's operations next to a garbage collection

    While a collection cycle runs, other threads use the store.  Every
    operation they call keeps the conditions the cycle relies on ([rely] of
    StoreGcInv): packs and the index only grow, manifests stay, the manifest
    directory stays well formed, late roots are not lost.  Registering a
    reference under an epoch shows that its closure is stored. *)

From S2P Require Import Prelude Types Manifest Fs Pack Index Names ReadCache PageStore PageStoreInv PageStoreIngest PageStoreRead PageStoreSync PageStoreGc SnapStore StoreGc SnapStoreInv SnapStoreRead SnapStoreSpec StoreGcInv.

Section rely.
Context {HB : Blake3} {HZ : Zstd} {HC : Crc32} (unix_now : Z).

(** ** [rely] is a preorder *)

#[export] Instance rely_preorder : PreOrder rely.
Proof.
  split.
  - intros w. split; try done; [|by left]. intros packs Hok. by exists packs.
  - intros w1 w2 w3 H1 H2. split.
    + intros packs Hok. destruct (rl_pages _ _ H1 packs Hok) as (p2 & Hok2 & Hb2 & Hn2).
      destruct (rl_pages _ _ H2 p2 Hok2) as (p3 & Hok3 & Hb3 & Hn3). exists p3. naive_solver.
    + intros h l Hl. by apply (rl_index _ _ H2), (rl_index _ _ H1).
    + intros h l [Hl|Hl]%(rl_new _ _ H2); [by apply (rl_new _ _ H1)|right]. pose proof (rl_active _ _ H1). lia.
    + pose proof (rl_active _ _ H1). pose proof (rl_active _ _ H2). lia.
    + intros Hs. by apply (rl_calm _ _ H2), (rl_calm _ _ H1).
    + intros Hs. by apply (rl_wf _ _ H2), (rl_wf _ _ H1).
    + intros r m Hh. by apply (rl_holds _ _ H2), (rl_holds _ _ H1).
    + intros r Hr. by apply (rl_late _ _ H2), (rl_late _ _ H1).
Qed.

(** The part of [gc_safe] that does not mention references. *)
Record fit (w : SnapshotStore * disk) : Prop := {
  ft_pages : ∃ packs, gc_ok packs (ss_pages w.1) w.2.1;
  ft_calm : calm w.2.1 ∧ calm (t_fs w.2.2);
  ft_wf : tree_wf w.2.2;
}.

Lemma safe_fit fence packs refs w : gc_safe fence packs refs w → fit w.
Proof. intros [Hok Hs Hw _ _]. split; [by exists packs|done|done]. Qed.

(** A step another thread takes: the epoch stays open if it was. *)
Record step (w w' : SnapshotStore * disk) : Prop := {
  sp_rely : rely w w';
  sp_epoch : is_Some (ss_epoch w.1) → is_Some (ss_epoch w'.1);
}.

#[export] Instance step_preorder : PreOrder step.
Proof.
  split; [by intros w; split|]. intros w1 w2 w3 [H1 E1] [H2 E2]. split; [by etrans|naive_solver].
Qed.

Lemma fit_rely w w' : fit w → rely w w' → fit w'.
Proof.
  intros [[packs Hok] Hs Hw] Hr. destruct (rl_pages _ _ Hr packs Hok) as (packs' & Hok' & _).
  split; [by exists packs'|by apply (rl_calm _ _ Hr)|by apply (rl_wf _ _ Hr)].
Qed.

Definition polite {E A} (c : SM E A) : Prop := ∀ w, fit w → step w (c w).2.

(** Reads leave the world as it is. *)
Definition still {E A} (c : SM E A) : Prop := ∀ w, calm (t_fs w.2.2) → (c w).2 = w.

Lemma still_polite {E A} (c : SM E A) : still c → polite c.
Proof. intros Hc w Hw. by rewrite (Hc w (proj2 (ft_calm _ Hw))). Qed.

Lemma still_ret {E A} (a : A) : still (E:=E) (iret a).
Proof. done. Qed.
Lemma still_err {E A} (e : E) : still (A:=A) (ierr e).
Proof. done. Qed.
Lemma still_of {E A} (r : res E A) : still (iof r).
Proof. done. Qed.
Lemma still_bind {E A B} (c : SM E A) (k : A → SM E B) : still c → (∀ a, still (k a)) → still (ibind c k).
Proof.
  intros Hc Hk w Hw. unfold ibind. specialize (Hc w Hw). destruct (c w) as [[a|e|] w']; cbn in *; subst w'; [|done..]. by apply Hk.
Qed.
Lemma still_map_err {E F A} (f : E → F) (c : SM E A) : still c → still (imap_err f c).
Proof. intros Hc w Hw. specialize (Hc w Hw). unfold imap_err. by destruct (c w). Qed.
Lemma still_if {E A} (b : bool) (c d : SM E A) : still c → still d → still (if b then c else d).
Proof. by destruct b. Qed.
Lemma still_on_tree {E F A} (f : E → F) (c : M tree E A) :
  (∀ t, calm (t_fs t) → (c t).2 = t) → still (on_tree f c).
Proof.
  intros Hc [st [pf t]] Hw. specialize (Hc t Hw). unfold on_tree, imap_err, zoom. cbn. destruct (c t) as [x t']. cbn in *. by subst t'.
Qed.
Lemma still_contains {E} (f : StoreError → E) hs : still (on_pages f (contains_batch hs)).
Proof. intros [[] [pf t]] _. done. Qed.
Lemma still_state {E A} (f : SnapshotStore → A) : still (E:=E) (on_state (λ st, (f st, st))).
Proof. by intros [st [pf t]] _. Qed.

Create HintDb still.
#[local] Hint Resolve still_ret still_err still_of still_map_err still_if still_contains still_state : still.

Lemma still_path_exists {E F} (f : E → F) p : still (on_tree f (path_exists p)).
Proof. apply still_on_tree. intros t Hs. by rewrite path_exists_calm. Qed.
Lemma still_read_manifest {F} (f : SnapError → F) r : still (on_tree f (read_manifest_bytes r)).
Proof. apply still_on_tree. intros t Hs. by apply read_manifest_same. Qed.
#[local] Hint Resolve still_path_exists still_read_manifest : still.

Lemma still_check_parent m : still (check_parent m).
Proof.
  unfold check_parent. apply still_if; [|auto with still].
  apply still_bind; [auto with still|]. intros p. apply still_bind; [auto with still|]. intros b.
  apply still_bind; auto with still.
Qed.
Lemma still_check_pages m : still (check_pages m).
Proof. unfold check_pages. apply still_bind; auto with still. Qed.
Lemma still_validate fuel r : still (validate_loop fuel r).
Proof.
  revert r. induction fuel as [|fuel IH]; intros r; cbn [validate_loop]; [auto with still|].
  apply still_bind; [auto with still|]. intros b. apply still_bind; [auto with still|]. intros m.
  apply still_bind; [auto with still|]. intros present. case_match.
  - destruct p. apply still_bind; auto with still.
  - apply still_if; [|auto with still]. apply still_bind; auto with still.
Qed.

(** ** Combinators *)

Lemma polite_ret {E A} (a : A) : polite (E:=E) (iret a).
Proof. by intros w _. Qed.
Lemma polite_err {E A} (e : E) : polite (A:=A) (ierr e).
Proof. by intros w _. Qed.
Lemma polite_of {E A} (r : res E A) : polite (iof r).
Proof. by intros w _. Qed.
Lemma polite_bind {E A B} (c : SM E A) (k : A → SM E B) : polite c → (∀ a, polite (k a)) → polite (ibind c k).
Proof.
  intros Hc Hk w Hw. unfold ibind. pose proof (Hc w Hw) as Hs. destruct (c w) as [[a|e|] w']; cbn in *; [|done..].
  etrans; [exact Hs|]. apply Hk. eapply fit_rely; [done|apply Hs].
Qed.
Lemma polite_map_err {E F A} (f : E → F) (c : SM E A) : polite c → polite (imap_err f c).
Proof. intros Hc w Hw. specialize (Hc w Hw). unfold imap_err. by destruct (c w). Qed.
Lemma polite_if {E A} (b : bool) (c d : SM E A) : polite c → polite d → polite (if b then c else d).
Proof. by destruct b. Qed.

(** Changes of the bookkeeping outside the pages. *)
Lemma state_step st st' d : ss_pages st' = ss_pages st →
  (∀ r, r ∈ late (st, d) → r ∈ late (st', d)) → (is_Some (ss_epoch st) → is_Some (ss_epoch st')) → step (st, d) (st', d).
Proof.
  intros Hp Hl He. split; [|done]. split; cbn [fst snd]; rewrite ?Hp; try done; [|by left]. intros packs Hok. by exists packs.
Qed.

Lemma polite_push r : polite (E:=SnapError) (on_state (push_late_root r)).
Proof.
  intros [st d] _. unfold on_state, push_late_root. cbn. destruct (ss_epoch st) as [l|] eqn:He; cbn; [|done].
  apply state_step; [done| |by eexists]. unfold late. cbn. rewrite He. set_solver.
Qed.

Lemma polite_counters {E} (f g : SnapshotStore → Z) : polite (E:=E) (on_state (λ st, (tt, set_counters (f st) (g st) st))).
Proof. intros [st d] _. by apply state_step. Qed.
Lemma polite_fcache {E} (f : SnapshotStore → FlattenCache) : polite (E:=E) (on_state (λ st, (tt, set_fcache (f st) st))).
Proof. intros [st d] _. by apply state_step. Qed.

(** ** Operations on pages *)

Lemma gc_ok_upto packs ps s : gc_ok packs ps s → store_upto (names_ok packs ps s) packs ps s.
Proof. intros [Hi [H1 H3]]. split; [done|]. split_and!; [done| |done]. intros Hn. exact Hn. Qed.

Lemma upto_gc_ok (N : Prop) packs ps s : store_upto N packs ps s → gc_ok packs ps s ∧ (N → names_ok packs ps s).
Proof. intros [Hi (H1 & H2 & H3)]. split; [by split; [|split]|done]. Qed.

Lemma backed_le packs packs' h l : packs_le packs packs' → backed packs h l → backed packs' h l.
Proof.
  intros Hle (hdr & rs & Hp & Hin). destruct (Hle _ _ _ Hp) as [rs' Hp']. exists hdr, (rs ++ rs'). split; [done|].
  rewrite locs_app. set_solver.
Qed.

(** An operation on the pages alone, known by its effect on every
    description of the packs. *)
Lemma pages_step st pf t ps' pf' :
  (∀ packs, gc_ok packs (ss_pages st) pf → ∃ packs', store_upto (names_ok packs (ss_pages st) pf) packs' ps' pf' ∧ packs_le packs packs') →
  calm pf' → flat (ps_index (ss_pages st)) ⊆ flat (ps_index ps') → grows (ss_pages st) ps' →
  step (st, (pf, t)) (set_pages ps' st, (pf', t)).
Proof.
  intros Hp Hs Hx [Ha Hn]. split; [|done]. split; cbn [fst snd ss_pages set_pages]; try done.
  - intros packs Hok. destruct (Hp packs Hok) as (packs' & Hup & Hle). apply upto_gc_ok in Hup as [Hok' Hnm].
    exists packs'. split_and!; [done| |done]. intros h l. by apply backed_le.
  - intros h l Hl. by eapply lookup_weaken.
  - by intros [_ ?].
Qed.

Lemma polite_sync {E} (f : StoreError → E) iter : (∀ X, iter X ≡ₚ elements X) → polite (on_pages f (sync iter)).
Proof.
  intros Hiter [st [pf t]] [[packs0 Hok0] [Hs _] _]. cbn [fst snd] in *. rewrite on_pages_eq.
  destruct (sync_upto _ iter packs0 _ pf Hiter (gc_ok_upto _ _ _ Hok0) Hs) as (ps' & s' & Hr & Hs' & Hup & Hx & Ha & _).
  rewrite Hr. cbn. apply (pages_step st pf t); [|done|by rewrite Hx|split; [lia|rewrite Hx; naive_solver]].
  intros packs Hok. destruct (sync_upto _ iter packs _ pf Hiter (gc_ok_upto _ _ _ Hok) Hs) as (ps2 & s2 & Hr2 & _ & Hup2 & _).
  rewrite Hr in Hr2. simplify_eq. by exists packs.
Qed.

Lemma polite_get_batch {E} (f : StoreError → E) hs : polite (on_pages f (get_batch hs)).
Proof.
  intros [st [pf t]] [[packs0 Hok0] [Hs _] _]. cbn [fst snd] in *. rewrite on_pages_eq.
  destruct (get_batch_upto _ packs0 _ pf hs (gc_ok_upto _ _ _ Hok0) Hs) as (out & ps' & s' & Hr & Hs' & Hup & Hx & _ & Ha & _).
  rewrite Hr. cbn. apply (pages_step st pf t); [|done|by rewrite Hx|split; [lia|rewrite Hx; naive_solver]].
  intros packs Hok. destruct (get_batch_upto _ packs _ pf hs (gc_ok_upto _ _ _ Hok) Hs) as (out2 & ps2 & s2 & Hr2 & _ & Hup2 & _).
  rewrite Hr in Hr2. simplify_eq. by exists packs.
Qed.

(** Ingesting pages that fit. *)
Lemma ingest_step {E} (f : StoreError → E) iter pages k w :
  (∀ l, iter l ≡ₚ l) → fit w → Forall (λ p, zlen p = PAGE_SIZE) pages → has_room (ss_pages w.1) (length pages + k) →
  ∃ out w', on_pages f (ingest unix_now iter pages) w = (Ok out, w') ∧ step w w' ∧ has_room (ss_pages w'.1) k.
Proof.
  intros Hiter [[packs0 Hok0] [Hs _] _] Hl Hroom. destruct w as [st [pf t]]. cbn [fst snd] in *.
  destruct (ingest_upto unix_now _ iter packs0 _ pf pages k Hiter (gc_ok_upto _ _ _ Hok0) Hs Hl Hroom)
    as (out & p0 & ps' & s' & Hr & Hig & _ & Hs' & _ & Hg & Hk).
  exists out, (set_pages ps' st, (s', t)). split; [rewrite on_pages_eq, Hr; done|]. split; [|done].
  apply (pages_step st pf t); [|done|apply Hig|done]. intros packs Hok.
  destruct (ingest_upto unix_now _ iter packs _ pf pages k Hiter (gc_ok_upto _ _ _ Hok) Hs Hl Hroom)
    as (out2 & packs' & ps2 & s2 & Hr2 & _ & Hup & _ & Hle & _). rewrite Hr in Hr2. simplify_eq. by exists packs'.
Qed.

(** ** Registering a reference *)

Lemma find_false_none (idx : ShardedIndex) hs :
  list_find (λ ok, ok = false) ((λ h, bool_decide (is_Some (index_get idx h))) <$> hs) = None →
  ∀ h, h ∈ hs → is_Some (index_get idx h).
Proof.
  rewrite list_find_None, Forall_fmap, Forall_forall. intros Hf h Hh. specialize (Hf h Hh). cbn in Hf.
  by destruct (bool_decide_reflect (is_Some (index_get idx h))).
Qed.

(** Validation has read the whole chain and found every page. *)
Lemma validate_closed fuel r w w' :
  fit w → validate_loop fuel r w = (Ok tt, w') → closed w r.
Proof.
  intros Hw. revert r w'. induction fuel as [|fuel IH]; intros r w' H; [done|]. cbn [validate_loop] in H.
  pose proof (proj2 (ft_calm _ Hw)) as Hs.
  apply ibind_Ok in H as (buf & w1 & H1 & H). pose proof (still_read_manifest id r w Hs) as S1. rewrite H1 in S1. cbn in S1. subst w1.
  assert (named (t_fs w.2.2) (spm_path r) = Some buf ∧ snapshot_ref buf = r) as [Hn <-].
  { unfold on_tree, imap_err, zoom in H1. destruct (read_manifest_bytes r w.2.2) as [[b|e|] t'] eqn:Hr; [|done..]. cbn in H1. simplify_eq.
    by eapply read_manifest_Ok. }
  apply ibind_Ok in H as (m & w1 & H2 & H). unfold imap_err, iof in H2. destruct (decode buf) as [m'|e|] eqn:Hdec; [|done..].
  cbn in H2. simplify_eq. pose proof (decode_holds _ _ _ Hdec Hn) as Hh.
  apply ibind_Ok in H as (present & w2 & H3 & H). pose proof (still_contains EPageStore (page_hash <$> entries m) w1 Hs) as S3.
  rewrite H3 in S3. cbn in S3. subst w2.
  assert (present = (λ h, bool_decide (is_Some (index_get (ps_index (ss_pages w1.1)) h))) <$> (page_hash <$> entries m)) as ->.
  { unfold on_pages, imap_err, zoom in H3. cbn in H3. by simplify_eq. }
  destruct (list_find _ _) as [[pos b]|] eqn:Hf; [exfalso; by apply ibind_Ok in H as (? & ? & _ & ?)|].
  assert (∀ e, e ∈ entries m → is_Some (flat (ps_index (ss_pages w1.1)) !! page_hash e)) as Hpg.
  { intros e He. destruct (ft_pages _ Hw) as [packs [Hi _]]. rewrite flat_lookup by apply Hi.
    eapply find_false_none; [exact Hf|]. by apply list_elem_of_fmap_2. }
  destruct (delta m) eqn:Hd.
  - apply ibind_Ok in H as (p & w2 & Hp & H). destruct (parent m) as [p'|] eqn:Hpar; [|done]. unfold iof in Hp. cbn in Hp. simplify_eq.
    destruct (IH p _ H) as (l & Hc & Hl). destruct (chain_head _ _ _ Hc) as (pm & rest & -> & Hpm).
    exists ((snapshot_ref buf, m) :: (p, pm) :: rest). split.
    + apply chain_delta; [done..|]. by eapply (tw_ram _ (ft_wf _ Hw)).
    + intros r' m' e [[= -> ->]|Hin]%elem_of_cons He; [by apply Hpg|by eapply Hl].
  - exists [(snapshot_ref buf, m)]. split; [by apply chain_full|]. intros r' m' e [= -> ->]%list_elem_of_singleton. apply Hpg.
Qed.

Lemma still_closure r : still (validate_closure r).
Proof. apply still_validate. Qed.
Lemma closure_closed r w w' : fit w → validate_closure r w = (Ok tt, w') → closed w r.
Proof. apply validate_closed. Qed.
#[local] Opaque validate_closure.

Lemma polite_register r : polite (register_live_ref r).
Proof.
  unfold register_live_ref. apply polite_bind; [apply polite_push|]. intros b. apply polite_if; [apply still_polite, still_closure|].
  apply still_polite, still_bind; [apply still_path_exists|auto with still].
Qed.

(** A reference registered under an epoch is complete, and the collector
    will see it. *)
Lemma register_closed r w w' :
  fit w → is_Some (ss_epoch w.1) → register_live_ref r w = (Ok tt, w') → closed w' r ∧ r ∈ late w'.
Proof.
  intros Hw [l He] H. unfold register_live_ref in H. apply ibind_Ok in H as (b & w1 & Hp & H).
  pose proof (polite_push r w Hw) as Hstep. rewrite Hp in Hstep. cbn in Hstep.
  unfold on_state, push_late_root in Hp. rewrite He in Hp. simplify_eq.
  set (w1 := (set_epoch (Some (l ++ [r])) w.1, w.2)) in *. assert (fit w1) as Hw1 by (eapply fit_rely; [done|apply Hstep]).
  assert (w' = w1) as ->.
  { pose proof (still_closure r w1 (proj2 (ft_calm _ Hw1))) as Hv. by rewrite H in Hv. }
  split; [by eapply closure_closed|]. unfold late. cbn. set_solver.
Qed.

(** ** Storing a snapshot *)

(** The reference of container [c] is not the parent of a stored delta
    with another RAM size.  Such a delta was accepted next to a parent of
    its own size, so it would take two containers with one reference. *)
Definition no_clash (t : tree) (c : bytes) : Prop :=
  ∀ r' m' m, decode c = Ok m → holds t r' m' → delta m' = true → parent m' = Some (snapshot_ref c) →
    guest_ram_bytes m = guest_ram_bytes m'.

Lemma tree_step st pf t t' :
  calm (t_fs t') → tree_wf t' → (∀ r m, holds t r m → holds t' r m) → step (st, (pf, t)) (st, (pf, t')).
Proof.
  intros Hs Hw Hh. split; [|done]. split; cbn [fst snd]; try done; [|by left|by intros [? _]].
  intros packs Hok. by exists packs.
Qed.

Lemma publish_step m c st pf t :
  decode c = Ok m → fit (st, (pf, t)) → fs_dir (t_fs t) !! spm_path (snapshot_ref c) = None → no_clash t c →
  (delta m = true → ∃ p pm, parent m = Some p ∧ holds t p pm ∧ guest_ram_bytes pm = guest_ram_bytes m) →
  ∃ t', publish (snapshot_ref c) c t = (Ok tt, t') ∧ step (st, (pf, t)) (st, (pf, t')).
Proof.
  intros Hdec Hw Hnone Hnc Hpar. pose proof (decode_wf _ _ Hdec) as Hwf. pose proof (decode_canonical _ _ Hdec) as Henc.
  set (r := snapshot_ref c) in *.
  assert (blake3 (encode_body m) = r) as Href by (unfold r; rewrite <-Henc; symmetry; apply snapshot_ref_encode).
  assert (hash_ok r) as Hr by (rewrite <-Href; apply blake3_hash_ok).
  destruct (publish_calm r c t (proj2 (ft_calm _ Hw))) as (t' & Hpub & Hs'). exists t'. split; [done|].
  destruct (publish_cases _ _ _ _ _ Hr (tw_fs _ (ft_wf _ Hw)) Hpub) as [_ Hpb]. rewrite <-Henc in Hpb.
  assert (named (t_fs t) (spm_path r) = None) as Hnn by (unfold named; by rewrite Hnone).
  assert (∀ r' m', holds t r' m' → holds t' r' m') as Hmono.
  { intros r' m' Hh. refine (published_holds t t' r m true r' m' _ Hpb Hh). intros c'. by rewrite Hnn. }
  assert (∀ r' m', holds t' r' m' → (r' = r ∧ m' = m) ∨ (r' ≠ r ∧ holds t r' m')) as Hinv.
  { intros r' m' Hh. pose proof (holds_hash_ok _ _ _ Hh) as Hr'. destruct Hh as (Hn & Hw' & Hb). destruct (decide (r' = r)) as [->|Hne].
    - left. split; [done|]. rewrite (proj1 (pb_ok _ _ _ _ _ Hpb eq_refl)) in Hn. apply encode_inj; [done..|congruence].
    - right. split; [done|]. split; [|done]. by rewrite <-(pb_other _ _ _ _ _ Hpb). }
  apply tree_step; [done| |done]. split; [apply Hpb|]. intros r1 m1 p pm H1 Hd Hp H2.
  destruct (Hinv _ _ H1) as [[-> ->]|[Hne1 H1']], (Hinv _ _ H2) as [[-> ->]|[Hne2 H2']]; [done| |by eapply Hnc|by eapply (tw_ram _ (ft_wf _ Hw))].
  destruct (Hpar Hd) as (p' & pm' & Hp' & Hh & <-). simplify_eq. by rewrite (holds_fun _ _ _ _ H2' Hh).
Qed.

Lemma check_parent_holds m w w' :
  fit w → check_parent m w = (Ok tt, w') → delta m = true →
  ∃ p pm, parent m = Some p ∧ holds w.2.2 p pm ∧ guest_ram_bytes pm = guest_ram_bytes m.
Proof.
  intros Hw H Hd. pose proof H as H'. destruct (check_parent_Ok _ _ _ H' Hd) as (p & pb & pm & Hp & Hn & Hdec & Hg).
  exists p, pm. split_and!; [done| |done]. unfold check_parent in H. rewrite Hd, Hp in H.
  apply ibind_Ok in H as (p1 & w1 & H1 & H). unfold iof in H1. cbn in H1. simplify_eq.
  apply ibind_Ok in H as (b & w2 & H2 & H). unfold on_tree, imap_err, zoom in H2.
  destruct (read_manifest_bytes p1 w1.2.2) as [[b'|e|] t'] eqn:Hr; [|done..]. cbn in H2. simplify_eq.
  apply read_manifest_Ok in Hr as [Hn' <-]. rewrite Hn in Hn'. simplify_eq. by apply decode_holds.
Qed.

Lemma finish_put_step m c w :
  decode c = Ok m → fit w → no_clash w.2.2 c →
  (delta m = true → ∃ p pm, parent m = Some p ∧ holds w.2.2 p pm ∧ guest_ram_bytes pm = guest_ram_bytes m) →
  step w (finish_put m (snapshot_ref c) c w).2.
Proof.
  intros Hdec Hw Hnc Hpar. destruct w as [st [pf t]]. unfold finish_put. cbn [fst snd] in *.
  assert (polite (register_put (snapshot_ref c))) as Hreg by apply polite_map_err, polite_register.
  erewrite ibind_step by (unfold on_tree, imap_err, zoom; cbn [fst snd]; rewrite path_exists_calm by apply Hw; reflexivity).
  cbn [fst snd]. case_bool_decide as Hd; cbv iota.
  - refine (polite_bind _ _ _ _ _ Hw); [exact Hreg|intros []; apply polite_ret].
  - apply eq_None_not_Some in Hd. destruct (publish_step m c st pf t Hdec Hw Hd Hnc Hpar) as (t' & Hp & Hs).
    erewrite ibind_step by (unfold on_tree, imap_err, zoom; cbn [fst snd]; rewrite Hp; reflexivity). cbn [fst snd].
    etrans; [exact Hs|]. refine (polite_bind _ _ _ _ _ (fit_rely _ _ Hw (sp_rely _ _ Hs))); [apply polite_counters|]. intros _.
    apply polite_bind; [exact Hreg|intros []; apply polite_ret].
Qed.

Lemma put_snapshot_step iter c w :
  (∀ X, iter X ≡ₚ elements X) → fit w → no_clash w.2.2 c → step w (put_snapshot iter c w).2.
Proof.
  intros Hiter Hw Hnc. pose proof (proj2 (ft_calm _ Hw)) as Hs. unfold put_snapshot, ibind at 1, imap_err, iof.
  destruct (decode c) as [m|e|] eqn:Hdec; [|done..]. cbn [map_err].
  unfold ibind at 1. pose proof (still_check_parent m w Hs) as S1. destruct (check_parent m w) as [x1 w1] eqn:H1. cbn in S1. subst w1.
  destruct x1 as [[]|e|]; [|done..]. pose proof (check_parent_holds _ _ _ Hw H1) as Hpar.
  unfold ibind at 1. pose proof (still_check_pages m w Hs) as S2. destruct (check_pages m w) as [x2 w2] eqn:H2. cbn in S2. subst w2.
  destruct x2 as [[]|e|]; [|done..].
  unfold ibind at 1. pose proof (polite_sync PutPageStore iter Hiter w Hw) as S3.
  assert ((on_pages PutPageStore (sync iter) w).2.2.2 = w.2.2) as Ht.
  { destruct w as [st [pf t]]. rewrite on_pages_eq. by destruct (sync iter _) as [? []]. }
  destruct (on_pages PutPageStore (sync iter) w) as [x3 w3] eqn:H3. cbn in S3, Ht.
  destruct x3 as [[]|e|]; [|done..]. cbn [snd]. etrans; [exact S3|].
  apply finish_put_step; [done|by eapply fit_rely; [|apply S3]|by rewrite Ht|by rewrite Ht].
Qed.

(** ** Resolving a snapshot *)

Lemma walk_chain_same fuel r t : calm (t_fs t) → (walk_chain fuel r t).2 = t.
Proof.
  intros Hs. revert r. induction fuel as [|fuel IH]; intros r; [done|]. cbn [walk_chain]. unfold ibind at 1.
  pose proof (read_manifest_same r t Hs) as S1. destruct (read_manifest_bytes r t) as [[b|e|] t1]; cbn in S1; subst t1; [|done..].
  unfold ibind at 1, imap_err, iof. destruct (decode b) as [m|e|]; [|done..]. cbn [map_err]. destruct (delta m); [|done].
  unfold ibind, iof. destruct (expect (parent m)) as [p|e|]; [|done..]. specialize (IH p).
  destruct (walk_chain fuel p t) as [[l|e|] t1]; cbn in IH; by subst t1.
Qed.

Lemma still_walk fuel r : still (on_tree id (walk_chain fuel r)).
Proof. apply still_on_tree. intros t. apply walk_chain_same. Qed.

Lemma polite_flatten chain r : polite (flatten_chain chain r).
Proof.
  unfold flatten_chain. apply polite_bind; [apply still_polite, still_state|]. intros [es|]; [apply polite_ret|].
  apply polite_bind; [apply polite_map_err, polite_of|]. intros es.
  apply polite_bind; [apply (polite_fcache (λ st, fc_insert (ss_cache st) r es))|intros _; apply polite_ret].
Qed.

Lemma polite_resolve_walk fuel r (k : list (SnapshotRef * Manifest) → SM SnapError ResolvedPages) :
  (∀ l, polite (k l)) → polite (ibind (on_tree id (walk_chain fuel r)) k).
Proof. intros Hk. apply polite_bind; [apply still_polite, still_walk|done]. Qed.

Lemma polite_resolve_pages r b h : polite (resolve_pages r b h).
Proof.
  unfold resolve_pages. apply polite_resolve_walk. intros l. destruct b as [b|].
  - destruct (list_find _ _) as [[pos ?]|]; [|apply polite_err]. cbv zeta. apply polite_if; [apply polite_ret|].
    apply polite_bind; [apply polite_map_err, polite_of|intros es; apply polite_ret].
  - apply polite_bind; [apply polite_flatten|intros es; apply polite_ret].
Qed.

Lemma collect_step fuel it w : fit w → step w (resolved_collect fuel it w).2.
Proof.
  revert it w. induction fuel as [|fuel IH]; intros it w Hw; [done|]. cbn [resolved_collect].
  destruct (resolved_next it w) as [[x it'] w'] eqn:Hn.
  assert (step w w') as Hs.
  { unfold resolved_next in Hn. destruct (rp_hashes_only it); [by destruct (rp_entries it !! rp_pos it); simplify_eq|].
    destruct (rp_chunk it); [|by simplify_eq]. destruct (_ <=? _)%nat; [by simplify_eq|]. cbv zeta in Hn.
    set (hs := page_hash <$> _) in Hn. pose proof (polite_get_batch EPageStore hs w Hw) as Hg.
    destruct (on_pages EPageStore (get_batch hs) w) as [y w1]. cbn in Hg. by simplify_eq. }
  destruct x as [x|]; [|done]. specialize (IH it' w' (fit_rely _ _ Hw (sp_rely _ _ Hs))).
  destruct (resolved_collect fuel it' w') as [xs w'']. cbn in *. by etrans.
Qed.

Lemma still_get_snapshot r : still (get_snapshot r).
Proof. apply still_read_manifest. Qed.
Lemma still_has_pages hs : still (has_pages hs).
Proof. apply still_contains. Qed.
Lemma still_unique_pages {E} (f : StoreError → E) : still (on_pages f unique_pages).
Proof. by intros [[] [pf t]] _. Qed.

(** ** The pack-id counter never decreases *)

Lemma np_if {A} (b : bool) (c d : P A) : nondec_p c → nondec_p d → nondec_p (if b then c else d).
Proof. by destruct b. Qed.
Lemma np_still {A} (c : P A) : (∀ w, ps_active (c w).2.1 = ps_active w.1) → nondec_p c.
Proof. intros Hc w. by rewrite Hc. Qed.
Lemma np_ret {A} (a : A) : nondec_p (iret a).
Proof. by apply np_still. Qed.
Lemma np_err {A} e : nondec_p (A:=A) (ierr e).
Proof. by apply np_still. Qed.
Lemma np_panic {A} : nondec_p (A:=A) ipanic.
Proof. by apply np_still. Qed.
Lemma np_of {A} (r : res StoreError A) : nondec_p (iof r).
Proof. by apply np_still. Qed.
Lemma np_get : nondec_p get_store.
Proof. by apply np_still. Qed.
Lemma np_index f : nondec_p (mod_index f).
Proof. by apply np_still. Qed.
Lemma np_cache f : nondec_p (mod_cache f).
Proof. by apply np_still. Qed.
Lemma np_active f : (∀ a, a_next a ≤ a_next (f a)) → nondec_p (mod_active f).
Proof. intros Hf [ps s]. apply Hf. Qed.
Lemma np_writer {A} (c : W A) : nondec_p (on_writer c).
Proof. intros [ps s]. unfold on_writer, imap_err, zoom. cbn. by destruct (c _) as [? []]. Qed.
Lemma np_on_cache {A} (c : M (LruHandleMap * fs) PackError A) (f : PackError → StoreError) : nondec_p (imap_err f (on_cache c)).
Proof. intros [ps s]. unfold on_cache, imap_err, zoom. cbn. by destruct (c _) as [? []]. Qed.
Lemma np_for {A} (l : list A) (f : A → P unit) : (∀ a, nondec_p (f a)) → nondec_p (ifor l f).
Proof. intros Hf. induction l; cbn [ifor]; [apply np_ret|]. by apply nondec_p_bind. Qed.

Create HintDb np.
#[local] Hint Resolve np_ret np_err np_panic np_of np_get np_index np_cache np_writer np_on_cache np_if nondec_p_on_fs : np.
Ltac np := repeat first [solve [auto with np] | apply np_if | apply nondec_p_bind; [|intros ?] | case_match].

Lemma np_rotate : nondec_p (rotate_locked unix_now).
Proof.
  unfold rotate_locked. apply nondec_p_bind; [auto with np|]. intros ps. apply nondec_p_bind; [by apply np_active|]. intros _.
  apply nondec_p_bind; [auto with np|]. intros _. apply nondec_p_bind; [auto with np|]. intros ps0.
  apply nondec_p_bind; [auto with np|]. intros _. intros [ps1 s]. erewrite ibind_step by reflexivity. cbv zeta. erewrite ibind_step by reflexivity. cbn [fst snd].
  match goal with |- context [ibind ?c ?k ?w] => assert (nondec_p (ibind c k)) as Hk; [|specialize (Hk w)] end.
  - apply nondec_p_bind; [auto with np|]. intros wr. apply nondec_p_bind; [by apply np_active|auto with np].
  - cbn in Hk |- *. lia.
Qed.
#[local] Hint Resolve np_rotate : np.

Lemma np_write_misses pages out tw : nondec_p (write_misses unix_now pages out tw).
Proof.
  revert out. induction tw as [|[h i] tw IH]; intros out; cbn [write_misses]; [auto with np|].
  apply nondec_p_bind; [|done]. unfold write_miss. apply nondec_p_bind; [auto with np|]. intros ps. case_match; [auto with np|].
  apply nondec_p_bind; [auto with np|]. intros _. case_match; [|auto with np]. apply nondec_p_bind; [auto with np|]. intros off.
  apply nondec_p_bind; [auto with np|]. intros ps'. apply nondec_p_bind; [by apply np_active|]. intros _.
  apply nondec_p_bind; auto with np.
Qed.
#[local] Hint Resolve np_write_misses : np.

Lemma np_ingest iter pages : nondec_p (ingest unix_now iter pages).
Proof.
  unfold ingest. apply np_if; [auto with np|]. apply nondec_p_bind; [auto with np|]. intros ps. destruct (probe _ _ _ _).
  apply nondec_p_bind; [auto with np|]. intros out'. apply nondec_p_bind; auto with np.
Qed.

Lemma np_sync iter : nondec_p (sync iter).
Proof.
  unfold sync. apply nondec_p_bind; [auto with np|]. intros _. apply nondec_p_bind; [auto with np|]. intros ps. cbv zeta.
  apply nondec_p_bind; [by apply np_active|]. intros _. apply nondec_p_bind.
  { apply np_for. intros id. np. }
  intros _. apply nondec_p_bind; [auto with np|]. intros ps'. apply np_if; [|auto with np].
  apply nondec_p_bind; [auto with np|]. intros _. by apply np_active.
Qed.

Lemma np_cached h l : nondec_p (read_from_cached_handle h l).
Proof. unfold read_from_cached_handle. np. Qed.
#[local] Hint Resolve np_cached : np.

Lemma np_retry h l : nondec_p (read_sealed_with_retry h l).
Proof.
  intros w. unfold read_sealed_with_retry. pose proof (np_cached h l w) as H1.
  destruct (read_from_cached_handle h l w) as [[d|e|] w1]; cbn [fst snd] in *; [done| |done]. destruct (is_not_found e); [|done].
  etrans; [exact H1|]. match goal with |- context [ibind ?c ?k w1] => assert (nondec_p (ibind c k)) as Hk; [|exact (Hk w1)] end.
  apply nondec_p_bind; [auto with np|]. intros _. apply nondec_p_bind; [auto with np|]. intros ps. case_match; [|auto with np].
  apply np_if; [auto with np|]. apply nondec_p_bind; auto with np.
Qed.
#[local] Hint Resolve np_retry : np.

Lemma np_retry_each g out : nondec_p (read_retry_each g out).
Proof.
  revert out. induction g as [|[[i h] l] g IH]; intros out; cbn [read_retry_each]; [auto with np|]. apply nondec_p_bind; auto with np.
Qed.
#[local] Hint Resolve np_retry_each : np.

Lemma np_group f g : nondec_p (read_group f g).
Proof.
  induction g as [|[[i h] l] g IH]; cbn [read_group]; [auto with np|]. apply nondec_p_bind; [|intros r; apply nondec_p_bind; auto with np].
  intros [ps s]. unfold read_in_group. cbn [fst snd]. destruct (read_at_from_file f (offset l) h s) as [[d|[[]| | | | | | |]|] s1]; try done.
  match goal with |- context [ibind ?c ?k ?w] => assert (nondec_p (ibind c k)) as Hk; [|exact (Hk w)] end. apply nondec_p_bind; auto with np.
Qed.
#[local] Hint Resolve np_group : np.

Lemma np_read_sealed fuel ls out : nondec_p (read_sealed fuel ls out).
Proof.
  revert ls out. induction fuel as [|fuel IH]; intros ls out; cbn [read_sealed]; [auto with np|]. destruct ls as [|x ls]; [auto with np|].
  cbv zeta. destruct (split_run _ _) as [g rest]. apply nondec_p_bind.
  { intros [ps s]. unfold itry, on_cache, zoom. cbn [fst snd]. by destruct (get_or_open (pack x.2) (ps_cache ps, s)) as [[?|?|] []]. }
  intros o. apply nondec_p_bind; [|auto with np]. destruct o as [f|e|]; [|auto with np..]. apply nondec_p_bind; auto with np.
Qed.
#[local] Hint Resolve np_read_sealed : np.

Lemma np_read_active ls out : nondec_p (read_active ls out).
Proof.
  revert out. induction ls as [|[[i h] l] ls IH]; intros out; cbn [read_active]; [auto with np|]. apply nondec_p_bind; [|auto with np].
  unfold read_active_one. np.
Qed.
#[local] Hint Resolve np_read_active : np.

Lemma np_get_batch hs : nondec_p (get_batch hs).
Proof.
  unfold get_batch. apply np_if; [auto with np|]. apply nondec_p_bind; [auto with np|]. intros ps. cbv zeta.
  apply np_if; [auto with np|]. apply nondec_p_bind; [auto with np|]. intros out. apply np_if; [auto with np|].
  apply nondec_p_bind; [auto with np|]. intros ps'. apply nondec_p_bind; [auto with np|]. intros _. apply nondec_p_bind; auto with np.
Qed.

#[local] Hint Resolve np_ingest np_sync np_get_batch : np.
#[local] Hint Resolve nondec_ret nondec_err nondec_of nondec_map_err nondec_if nondec_on_tree : np.

Lemma nondec_pages {E A} (f : StoreError → E) (c : P A) : nondec_p c → nondec (on_pages f c).
Proof. apply nondec_on_pages. Qed.
#[local] Hint Resolve nondec_pages : np.

Lemma np_contains hs : nondec_p (contains_batch hs).
Proof. by apply np_still. Qed.
Lemma np_unique : nondec_p unique_pages.
Proof. by apply np_still. Qed.
#[local] Hint Resolve np_contains np_unique : np.

Lemma nondec_validate fuel r : nondec (validate_loop fuel r).
Proof.
  revert r. induction fuel as [|fuel IH]; intros r; cbn [validate_loop]; [auto with np|].
  apply nondec_bind; [auto with np|]. intros b. apply nondec_bind; [auto with np|]. intros m.
  apply nondec_bind; [auto with np|]. intros present. case_match.
  - destruct p. apply nondec_bind; auto with np.
  - apply nondec_if; [|auto with np]. apply nondec_bind; auto with np.
Qed.
#[local] Transparent validate_closure.
Lemma nondec_closure r : nondec (validate_closure r).
Proof. apply nondec_validate. Qed.
#[local] Opaque validate_closure.

Lemma nondec_register r : nondec (register_live_ref r).
Proof.
  unfold register_live_ref. apply nondec_bind.
  { apply nondec_on_state. intros st. unfold push_late_root. by destruct (ss_epoch st). }
  intros b. apply nondec_if; [apply nondec_closure|]. apply nondec_bind; [apply nondec_on_tree|auto with np].
Qed.
#[local] Hint Resolve nondec_register : np.

Lemma nondec_put_snapshot iter c : nondec (put_snapshot iter c).
Proof.
  unfold put_snapshot. apply nondec_bind; [auto with np|]. intros m. apply nondec_bind.
  { unfold check_parent. apply nondec_if; [|auto with np]. repeat (apply nondec_bind; [auto with np|intros ?]). auto with np. }
  intros _. apply nondec_bind; [unfold check_pages; apply nondec_bind; auto with np|]. intros _.
  apply nondec_bind; [auto with np|]. intros _. unfold finish_put, register_put. apply nondec_bind; [auto with np|]. intros b.
  apply nondec_if; [apply nondec_bind; auto with np|]. apply nondec_bind; [auto with np|]. intros _.
  apply nondec_bind; [by apply nondec_on_state|]. intros _. apply nondec_bind; auto with np.
Qed.

Lemma nondec_resolve_walk fuel r (k : list (SnapshotRef * Manifest) → SM SnapError ResolvedPages) :
  (∀ l, nondec (k l)) → nondec (ibind (on_tree id (walk_chain fuel r)) k).
Proof. intros Hk. apply nondec_bind; auto with np. Qed.

Lemma nondec_resolve r b h : nondec (resolve_pages r b h).
Proof.
  unfold resolve_pages. apply nondec_resolve_walk. intros l. destruct b as [b|].
  - destruct (list_find _ _) as [[pos ?]|]; [|auto with np]. cbv zeta. apply nondec_if; [auto with np|]. apply nondec_bind; auto with np.
  - unfold flatten_chain. apply nondec_bind; [|auto with np]. apply nondec_bind; [by apply nondec_on_state|].
    intros [es|]; [auto with np|]. apply nondec_bind; [auto with np|]. intros es. apply nondec_bind; [by apply nondec_on_state|auto with np].
Qed.

Lemma nondec_collect fuel it w : next_of w ≤ next_of (resolved_collect fuel it w).2.
Proof.
  revert it w. induction fuel as [|fuel IH]; intros it w; [done|]. cbn [resolved_collect].
  destruct (resolved_next it w) as [[x it'] w'] eqn:Hn. assert (next_of w ≤ next_of w') as Hs.
  { unfold resolved_next in Hn. destruct (rp_hashes_only it); [by destruct (rp_entries it !! rp_pos it); simplify_eq|].
    destruct (rp_chunk it); [|by simplify_eq]. destruct (_ <=? _)%nat; [by simplify_eq|]. cbv zeta in Hn.
    set (hs := page_hash <$> _) in Hn. pose proof (nondec_pages EPageStore (get_batch hs) (np_get_batch hs) w) as Hg.
    destruct (on_pages EPageStore (get_batch hs) w) as [y w1]. cbn in Hg. by simplify_eq. }
  destruct x as [x|]; [|done]. specialize (IH it' w'). destruct (resolved_collect fuel it' w') as [xs w'']. cbn in *. lia.
Qed.

End rely.
