(* ===== verification/GcCycle.v ===== *)
(** * The garbage-collection cycle of the server

    Model of [crates/snapstore-server/src/gc.rs] and of the metrics it
    records: reap tombstones, rotate the active pack, fence and read the
    roots, mark and sweep, persist the cycle's state. *)

From Stdlib Require Import Floats.SpecFloat.
From S2P Require Import Prelude Types Fs Pack Index PageStore SnapStore StoreGc Sql Meta MetaRead.

(** ** The server's state beside the snapshot store *)

Record Metrics := mk_metrics {
  pages_new_total : Z; pages_dup_total : Z;
  nodes_frontier : Z; nodes_expanded : Z; nodes_pruned : Z; nodes_goal : Z;
  integrity_errors : Z;
  pc_bytes_in : Z; pc_bytes_out : Z; pc_batches_put : Z; pc_batches_get : Z; pc_clients : Z; pc_crosscheck_mismatch : Z;
  gc_cycles_total : Z; gc_pages_reclaimed_total : Z; gc_bytes_reclaimed_total : Z; gc_manifests_deleted_total : Z;
  gc_nodes_reaped_total : Z; gc_packs_compacted_total : Z; gc_running : Z;
}.
Definition metrics_new : Metrics := mk_metrics 0 0 0 0 0 0 0 0 0 0 0 0 0 0 0 0 0 0 0 0.

(** [sv_latch]: the [GcRunner] latch is held. *)
Record Server := mk_server { sv_meta : MetaDb; sv_latch : bool; sv_metrics : Metrics }.
Definition set_meta_db (m : MetaDb) (x : Server) : Server := mk_server m (sv_latch x) (sv_metrics x).
Definition set_latch (b : bool) (x : Server) : Server := mk_server (sv_meta x) b (sv_metrics x).
Definition set_metrics (m : Metrics) (x : Server) : Server := mk_server (sv_meta x) (sv_latch x) m.

(** ** Options, report and errors *)

Record GcOpts := mk_opts { compact_threshold : spec_float; rotate_active_first : bool; tombstone_grace_cycles : Z }.
Definition opts_default : GcOpts := mk_opts (S754_finite false 4503599627370496 (-53)) false 1.

Record GcReport := mk_gc_report {
  nodes_reaped : Z; gr_manifests_deleted : Z; gr_pages_reclaimed : Z; gr_bytes_reclaimed : Z;
  gr_packs_compacted : Z; gr_packs_deleted : Z; gr_missing_root_manifests : Z; duration_ms : Z;
  reaped_subtrees : list (ExperimentId * NodeId);
}.
Definition gc_report_default : GcReport := mk_gc_report 0 0 0 0 0 0 0 0 [].

Inductive CycleError := CycleAlreadyRunning | CycleStore (e : SnapError) | CycleMeta (e : MetaError).

Definition in_meta {A} (c : M MetaDb MetaError A) : GM Server CycleError A :=
  imap_err CycleMeta (zoom (λ w : world Server, sv_meta w.2) (λ m w, (w.1, set_meta_db m w.2)) c).

(** [a + b] on [u64]. *)
Definition add_u64 {E} (a b : Z) : res E Z := match checked_add a b with Some c => Ok c | None => Panic end.

Definition record_gc_cycle (r : GcReport) (m : Metrics) : Metrics :=
  mk_metrics (pages_new_total m) (pages_dup_total m) (nodes_frontier m) (nodes_expanded m) (nodes_pruned m) (nodes_goal m)
    (integrity_errors m) (pc_bytes_in m) (pc_bytes_out m) (pc_batches_put m) (pc_batches_get m) (pc_clients m) (pc_crosscheck_mismatch m)
    (gc_cycles_total m + 1) (gc_pages_reclaimed_total m + gr_pages_reclaimed r) (gc_bytes_reclaimed_total m + gr_bytes_reclaimed r)
    (gc_manifests_deleted_total m + gr_manifests_deleted r) (gc_nodes_reaped_total m + nodes_reaped r)
    (gc_packs_compacted_total m + gr_packs_compacted r) (gc_running m).
Definition set_gc_running (n : Z) (m : Metrics) : Metrics :=
  mk_metrics (pages_new_total m) (pages_dup_total m) (nodes_frontier m) (nodes_expanded m) (nodes_pruned m) (nodes_goal m)
    (integrity_errors m) (pc_bytes_in m) (pc_bytes_out m) (pc_batches_put m) (pc_batches_get m) (pc_clients m) (pc_crosscheck_mismatch m)
    (gc_cycles_total m) (gc_pages_reclaimed_total m) (gc_bytes_reclaimed_total m)
    (gc_manifests_deleted_total m) (gc_nodes_reaped_total m) (gc_packs_compacted_total m) n.

Section cycle.
Context `{Blake3, Zstd, Crc32, Scan} (unix_now : Z).

(** Step 1: the tombstones of the horizon, oldest first. *)
Fixpoint reap_each (ts : list TombstoneRow) (report : GcReport) : M MetaDb MetaError GcReport :=
  match ts with
  | [] => iret report
  | t :: rest =>
      let! n := call_u64 (ReapTombstone (tomb_experiment t) (tomb_node t)) in
      let subtrees := if 0 <? n then reaped_subtrees report ++ [(tomb_experiment t, tomb_node t)] else reaped_subtrees report in
      let! total := iof (add_u64 (nodes_reaped report) n) in
      reap_each rest (mk_gc_report total 0 0 0 0 0 0 0 subtrees)
  end.

Definition horizon (opts : GcOpts) (prior : GcStateRow) : Z :=
  if tombstone_grace_cycles opts =? 0 then u64_max else last_fence_counter prior.

(** Step 3: the closure that reads the roots inside the fence. *)
Definition cycle_roots {X} (hooks : GcHooks X) : M MetaDb MetaError (list SnapshotRef) :=
  let! roots := meta_query gc_root_refs in
  if hook_is hooks DropPinsFromRoots then
    let! pins := meta_query list_pins in
    iret (filter (λ r, r ∉ pin_ref <$> pins) roots)
  else iret roots.

(** [begin_gc_epoch] with that closure, which runs only when no other epoch
    is active. *)
Definition begin_cycle (hooks : GcHooks Server) : GM Server CycleError (PackId * list SnapshotRef) := λ w,
  let '(r, m) := cycle_roots hooks (sv_meta w.2) in
  match in_store (begin_gc_epoch (iof r)) w with
  | (Ok v, w') => (Ok v, (w'.1, set_meta_db m w'.2))
  | (Err AlreadyRunning, w') => (Err CycleAlreadyRunning, w')
  | (Err (Roots e), w') => (Err (CycleMeta e), (w'.1, set_meta_db m w'.2))
  | (Panic, w') => (Panic, w')
  end.

(** [EpochGuard]. *)
Definition epoch_guard {A} (c : GM Server CycleError A) : GM Server CycleError A := λ w,
  let '(r, w') := c w in (r, (in_store (E:=CycleError) end_gc_epoch w').2).

Definition read_counter : GM Server CycleError Z :=
  let! s := in_meta (meta_query (stats None)) in iret (logical_counter s).

(** Steps 4 to 6, inside the guard. *)
Definition cycle_body (fuel : nat) (opts : GcOpts) (hooks : GcHooks Server) (elapsed : Z) (prior : GcStateRow)
    (report : GcReport) (fence_pack : PackId) (roots : list SnapshotRef) : GM Server CycleError GcReport :=
  let! fence_logical_counter := read_counter in
  let! sweep := imap_err CycleStore (gc_mark_sweep unix_now fuel hooks (compact_threshold opts) fence_pack roots) in
  let! finished_logical_counter := read_counter in
  let! cycles := iof (add_u64 (cycles_total prior) 1) in
  in_meta (call_unit (SetGcState (mk_gc_state cycles fence_logical_counter finished_logical_counter (bytes_reclaimed sweep)))) ;!
  iret (mk_gc_report (nodes_reaped report) (manifests_deleted sweep) (pages_reclaimed sweep) (bytes_reclaimed sweep)
          (packs_compacted sweep) (packs_deleted sweep) (missing_root_manifests sweep) elapsed (reaped_subtrees report)).

Definition run_gc_cycle (fuel : nat) (opts : GcOpts) (hooks : GcHooks Server) (elapsed : Z) : GM Server CycleError GcReport :=
  let! prior := in_meta (meta_query gc_state) in
  let! ts := in_meta (meta_query (list_tombstones (horizon opts prior))) in
  let! report := in_meta (reap_each ts gc_report_default) in
  (if rotate_active_first opts
   then let! _ := imap_err CycleStore (in_store (on_pages EPageStore (rotate_active unix_now))) in iret tt
   else iret tt) ;!
  let! ' (fence_pack, roots) := begin_cycle hooks in
  epoch_guard (cycle_body fuel opts hooks elapsed prior report fence_pack roots).

(** ** The latch *)

Definition with_server (f : Server → Server) : GM Server CycleError unit := imod (λ w, (w.1, f w.2)).

(** The latch is released on every exit path. *)
Definition latched {A} (c : GM Server CycleError A) : GM Server CycleError A := λ w,
  if sv_latch w.2 then (Err CycleAlreadyRunning, w)
  else let '(r, w') := c (w.1, set_latch true w.2) in (r, (w'.1, set_latch false w'.2)).

(** [GcRunner::run] and [run_and_record]. *)
Definition runner_run (fuel : nat) (opts : GcOpts) (hooks : GcHooks Server) (elapsed : Z) : GM Server CycleError GcReport :=
  latched (run_gc_cycle fuel opts hooks elapsed).

Definition run_and_record (fuel : nat) (opts : GcOpts) (hooks : GcHooks Server) (elapsed : Z) : GM Server CycleError GcReport :=
  latched (
    with_server (λ x, set_metrics (set_gc_running 1 (sv_metrics x)) x) ;!
    let! result := itry (run_gc_cycle fuel opts hooks elapsed) in
    with_server (λ x, set_metrics (set_gc_running 0 (sv_metrics x)) x) ;!
    match result with
    | Ok report => with_server (λ x, set_metrics (record_gc_cycle report (sv_metrics x)) x) ;! iret report
    | r => iof r
    end).
End cycle.
