(* ===== verification/Startup.v ===== *)
(** * Starting the server

    Model of [crates/snapstore-server/src/startup.rs]: the version file, the
    opening of the metadata database and the store, the removal of corrupt
    manifests and the reconciliation of nodes whose snapshot is gone.  The
    result of SQLite's own integrity check is a parameter; log lines are
    left out. *)

From S2P Require Import Prelude Types Manifest LocalProto Fs Pack Index Names ReadCache PageStore SnapStore StoreGc.
From S2P Require Import Sql Meta MetaRead GcCycle.

Definition STORE_VERSION : bytes := [Byte.x31; Byte.x0a].
Definition STORE_VERSION_FILE : string := "STORE_VERSION".

Inductive StartupError :=
  | StartIo (e : io_error)
  | VersionMismatch (found : bytes)
  | MetaIntegrity (e : MetaError)
  | MetaOpen (e : MetaError)
  | StoreOpen (e : SnapError).

(** The settings of [ServerConfig] that start-up reads. *)
Record StartupConfig := mk_startup_config {
  sc_input_log_max_bytes : option Z;
  sc_write_buf_size : option Z;
  sc_max_pack_bytes : option Z;
  sc_read_handle_cap : option nat }.

Definition sc_meta (c : StartupConfig) : MetaConfig :=
  mk_meta_config (default DEFAULT_INPUT_LOG_MAX_BYTES (sc_input_log_max_bytes c)).
Definition sc_pages (c : StartupConfig) : StoreOptions :=
  PageStore.mk_opts (default (4 * 1024 * 1024) (sc_write_buf_size c)) (default PACK_MAX_BYTES (sc_max_pack_bytes c))
    (default 256%nat (sc_read_handle_cap c)).

(** ** Step 1: the version file *)

Definition write_version : io unit :=
  let! f := open_truncate STORE_VERSION_FILE in
  write_all_ f STORE_VERSION ;!
  sync_data f.

(** [read_to_string] refuses bytes that are not UTF-8. *)
Definition check_version : M fs StartupError unit := λ s,
  match path_len STORE_VERSION_FILE s with
  | (Ok _, s') =>
      (let! content := imap_err StartIo (read_file STORE_VERSION_FILE) in
       fail_if negb (LocalProto.utf8_valid content) with StartIo EOther in
       fail_if negb (bool_decide (content = STORE_VERSION)) with VersionMismatch content in
       iret tt) s'
  | (_, s') => imap_err StartIo write_version s'
  end.

(** ** Step 4: manifests with a bad footer *)

Inductive violation := BadStem | TooShort | BadFooter | WrongName.

Definition count_integrity (m : Metrics) : Metrics :=
  mk_metrics (pages_new_total m) (pages_dup_total m) (nodes_frontier m) (nodes_expanded m) (nodes_pruned m) (nodes_goal m)
    (integrity_errors m + 1) (pc_bytes_in m) (pc_bytes_out m) (pc_batches_put m) (pc_batches_get m) (pc_clients m) (pc_crosscheck_mismatch m)
    (gc_cycles_total m) (gc_pages_reclaimed_total m) (gc_bytes_reclaimed_total m) (gc_manifests_deleted_total m)
    (gc_nodes_reaped_total m) (gc_packs_compacted_total m) (gc_running m).

(** The tree and the metrics. *)
Abbreviation TM A := (M (tree * Metrics) Empty_set A).

Definition tree_io {A} (c : io A) : TM (res io_error A) := zoom fst (λ t w, (t, w.2)) (itry (in_fs c)).

Section startup.
Context `{Blake3, Zstd, Crc32, Scan} (unix_now : Z).

(** What [check_spm_integrity] finds in the bytes of a file. *)
Definition check_spm_bytes (expected_ref bs : bytes) : option violation :=
  if zlen bs <? 32 then Some TooShort else
  let body := sub 0 (zlen bs - 32) bs in
  let computed := blake3 body in
  let stored_footer := sub (zlen bs - 32) (zlen bs) bs in
  if negb (bool_decide (computed = stored_footer)) then Some BadFooter else
  if negb (bool_decide (computed = expected_ref)) then Some WrongName else None.

(** A stem that is not hexadecimal, and a file that cannot be read, are no
    violation: both [?] return [None]. *)
Definition check_spm_integrity (path stem : string) : TM (option violation) :=
  if negb (String.length stem =? 64)%nat then iret (Some BadStem) else
  match hex_to_32 stem with
  | None => iret None
  | Some expected_ref =>
      let! bs := tree_io (read_file path) in
      iret (match bs with Ok bs => check_spm_bytes expected_ref bs | _ => None end)
  end.

Definition purge_file (d name : string) : TM unit :=
  match strip_suffix ".spm" name with (* [path.extension() == Some("spm")] *)
  | None | Some EmptyString => iret tt
  | Some stem =>
      let path := d +:+ "/" +:+ name in
      let! v := check_spm_integrity path stem in
      match v with
      | None => iret tt
      | Some _ =>
          let! _ := tree_io (remove_file path) in
          imod (λ w, (w.1, count_integrity w.2))
      end
  end.

Definition purge_shard (d : string) : TM unit :=
  let! names := zoom fst (λ t w, (t, w.2)) (itry (read_shard d)) in
  match names with
  | Ok names => ifor names (purge_file d)
  | _ => iret tt
  end.

Definition purge_bad_footer_manifests : TM unit := λ w,
  match tree_io (syscall (iret (elements (t_dirs w.1)))) w with
  | (Ok (Ok shards), w') => ifor shards purge_shard w'
  | (_, w') => (Ok tt, w')
  end.

(** ** Step 5: nodes whose snapshot is gone *)

Abbreviation WM A := (M (world Server) Empty_set A).

Definition meta_try {A} (c : M MetaDb MetaError A) : WM (res MetaError A) :=
  itry (zoom (λ w : world Server, sv_meta w.2) (λ m w, (w.1, set_meta_db m w.2)) c).

Definition prune_update (n : NodeId) : NodeUpdate :=
  mk_update n (Some Pruned) (u_score (update_new n)) (u_attrs (update_new n)) (u_visit_delta (update_new n))
    (u_touch (update_new n)) (u_icount (update_new n)) (u_vns (update_new n)).

Definition reconcile_node (e : ExperimentId) (node : NodeRow) : WM unit :=
  if bool_decide (status node = Pruned) then iret tt else
  let! present := in_store (has_manifest (snapshot_ref_of node)) in
  if (present : bool) then iret tt else
  let! r := meta_try (call_u64 (UpdateNodes e [prune_update (node_id node)])) in
  match r with
  | Panic => ipanic
  | _ => imod (λ w, (w.1, set_metrics (count_integrity (sv_metrics w.2)) w.2))
  end.

(** The pages of one experiment; [Panic] when the fuel ends. *)
Fixpoint reconcile_pages (fuel : nat) (e : ExperimentId) (cursor : option Z) : WM unit :=
  match fuel with
  | O => ipanic
  | S fuel' =>
      let f := filter_new e in
      let f := mk_filter (q_experiment f) (q_status f) (q_parent f) (q_min_depth f) (q_max_depth f) (q_order f)
                 cursor (q_updated_after f) (Some 512) in
      let! nodes := meta_try (meta_query (query_nodes f)) in
      match nodes with
      | Panic => ipanic
      | Err _ => iret tt
      | Ok nodes =>
          match last nodes with
          | None => iret tt
          | Some l =>
              ifor nodes (reconcile_node e) ;!
              if zlen nodes <? 512 then iret tt else reconcile_pages fuel' e (Some (created_at l))
          end
      end
  end.

Definition reconcile_snapshot_refs (fuel : nat) : WM unit :=
  let! experiments := meta_try (meta_read list_experiments) in
  match experiments with
  | Panic => ipanic
  | Err _ => iret tt
  | Ok experiments => ifor experiments (λ e, reconcile_pages fuel e None)
  end.

(** ** The sequence *)

(** The data root, the database file with the faults of its readers, the
    store's disk and the metrics. *)
Record Boot := mk_boot {
  b_root : fs; b_conn : conn db; b_reads : list bool; b_disk : disk; b_metrics : Metrics }.

Definition on_root {A} (c : M fs StartupError A) : M Boot StartupError A :=
  zoom b_root (λ s b, mk_boot s (b_conn b) (b_reads b) (b_disk b) (b_metrics b)) c.
Definition root_call : M Boot StartupError unit := on_root (imap_err StartIo (syscall (iret tt))).
Definition on_disk {A} (c : M disk SnapError A) : M Boot StartupError A :=
  imap_err StoreOpen (zoom b_disk (λ k b, mk_boot (b_root b) (b_conn b) (b_reads b) k (b_metrics b)) c).

(** [integrity]: what [PRAGMA integrity_check] answers. *)
Definition open_metadata (new_uuid : bytes) (now : Z) (integrity : db → bool) (migrations : nat) (config : MetaConfig)
    : M Boot StartupError MetaDb := λ b,
  match open_meta new_uuid now migrations config (b_conn b) with
  | (Ok a, c) =>
      let m := mk_meta a true (b_reads b) in
      let '(r, m) := meta_read (λ d, if integrity d then Ok tt else Err MIo) m in
      let b := mk_boot (b_root b) c (md_read_faults m) (b_disk b) (b_metrics b) in
      match r with Ok _ => (Ok m, b) | Err e => (Err (MetaIntegrity e), b) | Panic => (Panic, b) end
  | (Err e, c) => (Err (MetaOpen e), mk_boot (b_root b) c (b_reads b) (b_disk b) (b_metrics b))
  | (Panic, c) => (Panic, mk_boot (b_root b) c (b_reads b) (b_disk b) (b_metrics b))
  end.

(** Steps 4 and 5 never fail; the server they leave is the result. *)
Definition clean_up (fuel : nat) (store : SnapshotStore) (meta : MetaDb) : M Boot StartupError (world Server) := λ b,
  match purge_bad_footer_manifests ((b_disk b).2, b_metrics b) with
  | (Ok _, (t, m)) =>
      match reconcile_snapshot_refs fuel ((store, ((b_disk b).1, t)), mk_server meta false m) with
      | (Ok _, w) => (Ok w, mk_boot (b_root b) (b_conn b) (b_reads b) w.1.2 (sv_metrics w.2))
      | (_, w) => (Panic, b)
      end
  | _ => (Panic, b)
  end.

Definition run_startup (new_uuid : bytes) (now : Z) (integrity : db → bool) (migrations fuel : nat) (config : StartupConfig)
    : M Boot StartupError (world Server) :=
  root_call ;!
  on_root check_version ;!
  root_call ;!
  let! meta := open_metadata new_uuid now integrity migrations (sc_meta config) in
  root_call ;!
  let! store := on_disk (open_with_options unix_now (sc_pages config) 1024) in
  clean_up fuel store meta.
End startup.
