(* ===== verification/GcCycleSpec.v ===== *)
(** * The garbage-collection cycle is safe

    A whole cycle of the server, composed with the metadata database, keeps
    everything the database refers to; which tombstones it reaps and which
    it spares. *)

From Stdlib Require Import Floats.SpecFloat.
From S2P Require Import Prelude Types Manifest Fs Pack Index Names ReadCache PageStore PageStoreInv PageStoreIngest PageStoreGc.
From S2P Require Import SnapStore StoreGc SnapStoreInv SnapStoreRead StoreGcInv StoreGcRun StoreGcSpec.
From S2P Require Import Sql Meta MetaRead MetaInv MetaTree MetaSpec MetaQuery MetaBatch MetaHandle GcCycle.

(** ** Only the callbacks touch the rest of the system *)

Section moves.
Context `{Blake3, Zstd, Crc32} {X : Type} (R : X → X → Prop) `{!PreOrder R} (unix_now : Z) (hooks : GcHooks X).
Hypothesis Hhooks : ∀ p w, R w.2 (hook_at hooks p w).2.

Definition moves {E A} (c : GM X E A) : Prop := ∀ w, R w.2 (c w).2.2.

Lemma moves_ret {E A} (a : A) : moves (E:=E) (iret a).
Proof. by intros w. Qed.
Lemma moves_panic {E A} : moves (E:=E) (A:=A) ipanic.
Proof. by intros w. Qed.
Lemma moves_bind {E A B} (c : GM X E A) (k : A → GM X E B) : moves c → (∀ a, moves (k a)) → moves (ibind c k).
Proof.
  intros Hc Hk w. unfold ibind. specialize (Hc w). destruct (c w) as [[a|e|] w1]; cbn [snd] in *; [|done..]. etrans; [done|]. apply Hk.
Qed.
Lemma moves_if {E A} (b : bool) (c d : GM X E A) : moves c → moves d → moves (if b then c else d).
Proof. by destruct b. Qed.
Lemma moves_in_store {E A} (c : SM E A) : moves (in_store c).
Proof. intros w. by rewrite in_store_eq. Qed.
Lemma moves_fire {E} p : moves (E:=E) (fire hooks p).
Proof. intros w. apply Hhooks. Qed.

Create HintDb moves.
#[local] Hint Resolve moves_ret moves_panic moves_if moves_in_store moves_fire : moves.
Ltac mv := repeat first [ progress intros | solve [auto with moves] | case_match | apply moves_bind | apply moves_if ].

Lemma moves_straggler fuel p copied dead live rp : moves (straggler_loop unix_now fuel hooks p copied dead live rp).
Proof. revert copied live rp. induction fuel as [|fuel IH]; intros copied live rp; cbn [straggler_loop]; mv. Qed.
#[local] Hint Resolve moves_straggler : moves.
Lemma moves_finalize fuel p copied dead live rp : moves (finalize_and_unlink unix_now fuel hooks p copied dead live rp).
Proof. unfold finalize_and_unlink. mv. Qed.
#[local] Hint Resolve moves_finalize : moves.
Lemma moves_sweep_one fuel thr p live rp : moves (gc_sweep_one_pack unix_now fuel hooks thr p live rp).
Proof. unfold gc_sweep_one_pack, compact_pack. mv. Qed.
#[local] Hint Resolve moves_sweep_one : moves.
Lemma moves_sweep_each fuel thr ids live rp : moves (sweep_each unix_now fuel hooks thr ids live rp).
Proof. revert live rp. induction ids as [|p ids IH]; intros live rp; cbn [sweep_each]; mv. Qed.
#[local] Hint Resolve moves_sweep_each : moves.
Lemma moves_batches fuel cs live rp : moves (sweep_batches fuel hooks cs live rp).
Proof. revert cs live rp. induction fuel as [|fuel IH]; intros [|c cs] live rp; cbn [sweep_batches]; mv. Qed.
#[local] Hint Resolve moves_batches : moves.
Lemma moves_mark_sweep fuel thr fence roots : moves (gc_mark_sweep unix_now fuel hooks thr fence roots).
Proof. unfold gc_mark_sweep, gc_sweep_packs, gc_sweep_manifests. mv. Qed.
End moves.

(** ** The metadata during a cycle *)

Section cycle_safe.
Context {HB : Blake3} {HZ : Zstd} {HC : Crc32} {HS : Scan} (unix_now : Z) (config : MetaConfig).

(** What the server holds: the references of its database, which is
    usable. *)
Definition server_refs (x : Server) : client := mk_client (meta_refs (sv_meta x)) (meta_ok config (sv_meta x)).

(** The database stays usable and gains no reference. *)
Definition shrinks (m m' : MetaDb) : Prop := meta_ok config m → meta_ok config m' ∧ ∀ r, r ∈ meta_refs m' → r ∈ meta_refs m.

#[local] Instance shrinks_preorder : PreOrder shrinks.
Proof.
  split; [by intros m|]. intros m1 m2 m3 H12 H23 H1. destruct (H12 H1) as [H2 Hr2]. destruct (H23 H2) as [H3 Hr3]. split; [done|]. auto.
Qed.

Lemma shrinks_read {A} (f : db → res MetaError A) m : shrinks m (meta_read f m).2.
Proof. intros Hm. split; [by apply meta_read_ok|]. intros r. unfold meta_refs. by rewrite meta_read_db. Qed.
Lemma shrinks_call cmd m : brought cmd = [] → shrinks m (meta_call cmd m).2.
Proof.
  intros Hb Hm. split; [by apply meta_call_ok|]. intros r Hr. destruct (meta_call_refs config cmd m r Hm Hr) as [|Hin]; [done|].
  rewrite Hb in Hin. by apply not_elem_of_nil in Hin.
Qed.
Lemma shrinks_u64 cmd m : brought cmd = [] → shrinks m (call_u64 cmd m).2.
Proof.
  intros Hb. pose proof (shrinks_call cmd m Hb) as Hc. unfold call_u64, ibind. destruct (meta_call cmd m) as [[[]|e|] m']; done.
Qed.
Lemma shrinks_unit cmd m : brought cmd = [] → shrinks m (call_unit cmd m).2.
Proof.
  intros Hb. pose proof (shrinks_call cmd m Hb) as Hc. unfold call_unit, ibind. destruct (meta_call cmd m) as [[[]|e|] m']; done.
Qed.

Lemma shrinks_reap ts report m : shrinks m (reap_each ts report m).2.
Proof.
  revert report m. induction ts as [|t ts IH]; intros report m; cbn [reap_each]; [done|]. unfold ibind at 1.
  pose proof (shrinks_u64 (ReapTombstone (tomb_experiment t) (tomb_node t)) m eq_refl) as Hc.
  destruct (call_u64 _ m) as [[n|e|] m1]; cbn [snd] in *; [|done..]. etrans; [exact Hc|]. unfold ibind. cbv zeta.
  destruct (add_u64 (nodes_reaped report) n); cbn; [apply IH|done..].
Qed.

Lemma in_meta_eq {A} (c : M MetaDb MetaError A) (w : world Server) :
  in_meta c w = (map_err CycleMeta (c (sv_meta w.2)).1, (w.1, set_meta_db (c (sv_meta w.2)).2 w.2)).
Proof. unfold in_meta, imap_err, zoom. by destruct (c (sv_meta w.2)). Qed.

Lemma meta_read_cases {A} (f : db → res MetaError A) m : (meta_read f m).1 = f (md_db m) ∨ ∃ e, (meta_read f m).1 = Err e.
Proof. unfold meta_read. destruct (md_read_faults m) as [|[] ?]; eauto. Qed.

(** The roots of the fence are everything the database refers to. *)
Lemma cycle_roots_all {X} (hooks : GcHooks X) m : sabotage hooks = None → meta_ok config m → (∀ r, r ∈ meta_refs m → hash_ok r) →
  let '(x, m') := cycle_roots hooks m in
  meta_ok config m' ∧ meta_refs m' = meta_refs m ∧ x ≠ Panic ∧ ∀ roots, x = Ok roots → ∀ r, r ∈ meta_refs m → r ∈ roots.
Proof.
  intros Hsab Hm Hh. unfold cycle_roots, ibind, meta_query, hook_is. rewrite Hsab, bool_decide_eq_false_2 by done.
  pose proof (meta_read_ok config (λ d, map_err MSqlite (gc_root_refs d)) m Hm) as Hok.
  pose proof (meta_read_db (λ d, map_err MSqlite (gc_root_refs d)) m) as Hdb.
  assert (Forall hash_ok (scan (elements (root_blobs (md_db m))))) as Hall.
  { apply Forall_forall. intros r' Hr'. apply Hh. unfold meta_refs. by rewrite scan_perm in Hr'. }
  destruct (meta_read_cases (λ d, map_err MSqlite (gc_root_refs d)) m) as [Hv|[e Hv]]; destruct (meta_read _ m) as [x m']; cbn [fst snd] in *; subst x.
  - unfold gc_root_refs. rewrite rcollect_hashes by done. cbn. split; [done|]. split; [by unfold meta_refs; rewrite Hdb|]. split; [done|].
    intros ? [= <-] r Hr. by rewrite scan_perm.
  - cbn. split; [done|]. split; [by unfold meta_refs; rewrite Hdb|done].
Qed.

(** ** Rotation *)

Lemma rotate_active_ok packs (w : SnapshotStore * disk) :
  snap_ok packs w → calm w.2.1 → next_of w < 2 ^ 32 →
  ∃ id packs' w', on_pages EPageStore (rotate_active unix_now) w = (Ok id, w') ∧
    snap_ok packs' w' ∧ calm w'.2.1 ∧ w'.2.2 = w.2.2 ∧ ss_epoch w'.1 = ss_epoch w.1.
Proof.
  intros Hok Hs Hn. destruct w as [st [pf t]]. cbn [fst snd] in *. unfold on_pages, imap_err, zoom, rotate_active, get_store, ibind. cbn [fst snd].
  destruct (_ && _).
  - eexists _, packs, _. split; [done|]. cbn. destruct Hok as [Hp Ht Hc]. split; [|done]. by split.
  - destruct (rotate_store_ok unix_now packs (ss_pages st) pf (sk_pages _ _ Hok) Hs Hn) as (packs' & ps' & s' & Hr & Hok' & Hs' & _ & _ & Hx & _).
    rewrite Hr. eexists _, packs', _. split; [done|]. cbn. split; [|done]. destruct Hok as [Hp Ht Hc]. cbn in *. split; cbn; [done|by rewrite Hx|done].
Qed.

(** ** Safety of the cycle *)

(** What a cycle leaves behind, whether it succeeds or not. *)
Definition cycle_left (x : res CycleError GcReport) (w : world Server) : Prop :=
  (∀ r, r ∈ server_refs w.2 → closed w.1 r) ∧ ss_epoch w.1.1 = None ∧
  ∃ packs, store_inv packs (ss_pages w.1.1) w.1.2.1 ∧ ∀ report, x = Ok report → store_ok packs (ss_pages w.1.1) w.1.2.1.

(** Before the fence. *)
Record unfenced (packs : packs_t) (w : world Server) : Prop := {
  uf_snap : snap_ok packs w.1;
  uf_calm : calm w.1.2.1 ∧ calm (t_fs w.1.2.2);
  uf_epoch : ss_epoch w.1.1 = None;
  uf_meta : meta_ok config (sv_meta w.2);
  uf_refs : ∀ r, r ∈ server_refs w.2 → ∃ m, holds w.1.2.2 r m;
}.

Lemma unfenced_left packs x w : unfenced packs w → cycle_left x w.
Proof.
  intros [Hsn Hc He Hm Hr]. split; [|split; [done|]].
  - intros r [m Hh]%Hr. by eapply stored_closed.
  - exists packs. destruct (sk_pages _ _ Hsn) as [Hi Hd]. by split.
Qed.

Lemma unfenced_meta packs w m : unfenced packs w → shrinks (sv_meta w.2) m → unfenced packs (w.1, set_meta_db m w.2).
Proof. intros [Hsn Hc He Hm Hr] Hs. destruct (Hs Hm) as [Hm' Hr']. split; [done..|]. cbn. intros r Hin. by apply Hr, Hr'. Qed.

Lemma epoch_end_eq {X} (w : world X) : (in_store (E:=CycleError) end_gc_epoch w).2 = ((set_epoch None w.1.1, w.1.2), w.2).
Proof. rewrite in_store_eq. by destruct w as [[st d] x]. Qed.

Lemma unfenced_epoch packs w : unfenced packs w → unfenced packs ((set_epoch None w.1.1, w.1.2), w.2).
Proof. intros [Hsn Hc He Hm Hr]. split; [|done..]. destruct Hsn. by split. Qed.

Lemma begin_epoch_cases {X R E} (w : world X) (r : res E R) : ss_epoch w.1.1 = None →
  in_store (begin_gc_epoch (iof r)) w =
  match r with
  | Ok a => (Ok (a_pack_id (ps_active (ss_pages w.1.1)), a), ((set_epoch (Some []) w.1.1, w.1.2), w.2))
  | Err e => (Err (Roots e), ((set_epoch None w.1.1, w.1.2), w.2))
  | Panic => (Panic, ((set_epoch (Some []) w.1.1, w.1.2), w.2))
  end.
Proof.
  destruct w as [[st d] x]. cbn [fst snd]. intros He. rewrite in_store_eq. cbn [fst snd]. unfold begin_gc_epoch.
  erewrite ibind_step by reflexivity. erewrite ibind_step by (unfold on_state; cbn [fst snd]; rewrite He; reflexivity). by destruct r.
Qed.

(** Computations that only touch the metadata. *)
Definition meta_only {E A} (c : GM Server E A) : Prop :=
  ∀ w, ∃ m, (c w).2 = (w.1, set_meta_db m w.2) ∧ shrinks (sv_meta w.2) m.

Lemma meta_only_in {A} (c : M MetaDb MetaError A) : (∀ m, shrinks m (c m).2) → meta_only (in_meta c).
Proof. intros Hc w. rewrite in_meta_eq. eauto. Qed.
Lemma meta_only_of {E A} (r : res E A) : meta_only (iof r).
Proof. intros w. exists (sv_meta w.2). split; [|done]. destruct w as [[] []]. by destruct r. Qed.
Lemma meta_only_bind {E A B} (c : GM Server E A) (k : A → GM Server E B) : meta_only c → (∀ a, meta_only (k a)) → meta_only (ibind c k).
Proof.
  intros Hc Hk w. destruct (Hc w) as (m & He & Hm). unfold ibind. destruct (c w) as [[a|e|] w1]; cbn [snd] in He; [|cbn; eauto..]. subst w1.
  destruct (Hk a (w.1, set_meta_db m w.2)) as (m2 & He2 & Hm2). rewrite He2. exists m2. split; [done|]. by etrans.
Qed.
Lemma meta_only_counter : meta_only read_counter.
Proof. apply meta_only_bind; [apply meta_only_in; intros; apply shrinks_read|]. intros st. apply (meta_only_of (Ok _)). Qed.

Lemma meta_only_finish prior report elapsed sweep fence_counter :
  meta_only (let! finished_logical_counter := read_counter in
    let! cycles := iof (add_u64 (cycles_total prior) 1) in
    in_meta (call_unit (SetGcState (mk_gc_state cycles fence_counter finished_logical_counter (bytes_reclaimed sweep)))) ;!
    iret (mk_gc_report (nodes_reaped report) (manifests_deleted sweep) (pages_reclaimed sweep) (bytes_reclaimed sweep)
          (packs_compacted sweep) (packs_deleted sweep) (missing_root_manifests sweep) elapsed (reaped_subtrees report))).
Proof.
  apply meta_only_bind; [apply meta_only_counter|]. intros fin. apply meta_only_bind; [apply meta_only_of|]. intros cycles.
  apply meta_only_bind; [apply meta_only_in; intros; by apply shrinks_unit|]. intros _. apply (meta_only_of (Ok _)).
Qed.

Lemma gc_safe_refs fence packs refs refs' w : (∀ r, r ∈ refs' → r ∈ refs) → cl_inv refs' → gc_safe fence packs refs w → gc_safe fence packs refs' w.
Proof. intros Hr Hi [? ? ? ? Hc _]. split; auto. Qed.

(** Inside the fence. *)
Lemma cycle_body_safe fuel opts hooks elapsed prior report fence roots packs w x w' :
  hooks_ok fence server_refs hooks → gc_safe fence packs (server_refs w.2) w.1 → names_ok packs (ss_pages w.1.1) w.1.2.1 →
  (∀ r, r ∈ server_refs w.2 → r ∈ roots) →
  cycle_body unix_now fuel opts hooks elapsed prior report fence roots w = (x, w') → next_of w'.1 ≤ 2 ^ 32 →
  ∃ packs', gc_safe fence packs' (server_refs w'.2) w'.1 ∧ ∀ report, x = Ok report → store_ok packs' (ss_pages w'.1.1) w'.1.2.1.
Proof.
  intros Hho Hsafe Hnm Hro. pose proof (gs_inv _ _ _ _ Hsafe) as Hm. unfold cycle_body, ibind at 1. destruct (meta_only_counter w) as (m1 & He1 & Hs1). destruct (Hs1 Hm) as [Hm1 Hr1].
  destruct (read_counter w) as [y1 w1]. cbn [snd] in He1. subst w1.
  assert (gc_safe fence packs (server_refs (set_meta_db m1 w.2)) w.1) as Hsafe1 by exact (gc_safe_refs _ _ (server_refs w.2) (server_refs (set_meta_db m1 w.2)) _ Hr1 Hm1 Hsafe).
  destruct y1 as [c|e|]; [|intros [= <- <-] _; exists packs; by split..]. unfold ibind at 1, imap_err.
  destruct (gc_mark_sweep unix_now fuel hooks (compact_threshold opts) fence roots (w.1, set_meta_db m1 w.2)) as [y2 w2] eqn:Hms. intros Hk Hnx.
  assert (∃ m3, w' = (w2.1, set_meta_db m3 w2.2) ∧ shrinks (sv_meta w2.2) m3 ∧ ∀ rp, x = Ok rp → ∃ sw, y2 = Ok sw) as (m3 & -> & Hs3 & Hx).
  { destruct y2 as [sw|e|]; cbn [map_err] in Hk; [|injection Hk as <- <-; exists (sv_meta w2.2); by destruct w2 as [? []]..].
    destruct (meta_only_finish prior report elapsed sw c w2) as (m3 & He3 & Hs3). rewrite Hk in He3. cbn in He3. eauto. }
  destruct (mark_sweep_ok unix_now fence server_refs fuel hooks (compact_threshold opts) packs roots (w.1, set_meta_db m1 w.2) y2 w2 Hho Hsafe1 Hnm) as (packs2 & Hsafe2 & Hfin2);
    [intros r Hr; by apply Hro, Hr1|done|done|].
  destruct (Hs3 (gs_inv _ _ _ _ Hsafe2)) as [Hm3 Hr3].
  exists packs2. split; [exact (gc_safe_refs _ _ (server_refs w2.2) (server_refs (set_meta_db m3 w2.2)) _ Hr3 Hm3 Hsafe2)|]. intros rp [sw Hsw]%Hx. by apply (Hfin2 sw).
Qed.

Lemma cycle_body_left fuel opts hooks elapsed prior report fence roots packs w x w' :
  hooks_ok fence server_refs hooks → gc_safe fence packs (server_refs w.2) w.1 → names_ok packs (ss_pages w.1.1) w.1.2.1 →
  (∀ r, r ∈ server_refs w.2 → r ∈ roots) →
  epoch_guard (cycle_body unix_now fuel opts hooks elapsed prior report fence roots) w = (x, w') → next_of w'.1 ≤ 2 ^ 32 → cycle_left x w'.
Proof.
  intros Hho Hsafe Hnm Hro. unfold epoch_guard. destruct (cycle_body _ _ _ _ _ _ _ _ _ w) as [y w1] eqn:Hb. rewrite epoch_end_eq.
  intros [= <- <-] Hnx. destruct (cycle_body_safe _ _ _ _ _ _ _ _ _ _ _ _ Hho Hsafe Hnm Hro Hb Hnx) as (packs' & Hsafe' & Hfin).
  split; [|split; [done|exists packs'; split; [apply Hsafe'|done]]]. cbn. intros r Hr. destruct (gs_closed _ _ _ _ Hsafe' r Hr) as (l & Hc & Hp). by exists l.
Qed.

(** A garbage-collection cycle of the server never takes a page or a
    manifest from a snapshot that a node or a pin of the metadata database
    refers to.  Other threads may act at every callback point, as long as
    they only add to the store and register what they come to refer to; the
    cycle may fail at any step, and any statement of the database may fail.
    Afterwards every reference in the database has its whole chain stored
    and every page of the chain indexed, and the epoch is over. *)
Lemma gc_cycle_safe fuel opts hooks elapsed packs w x w' :
  (∀ fence, hooks_ok fence server_refs hooks) →
  unfenced packs w → next_of w.1 < 2 ^ 32 →
  run_gc_cycle unix_now fuel opts hooks elapsed w = (x, w') → next_of w'.1 ≤ 2 ^ 32 → cycle_left x w'.
Proof.
  intros Hho Huf Hnx. unfold run_gc_cycle.
  assert (∀ {A} (c : M MetaDb MetaError A) (k : A → GM Server CycleError GcReport) w x w', (∀ m, shrinks m (c m).2) → unfenced packs w → next_of w.1 < 2 ^ 32 →
    (∀ a w, unfenced packs w → next_of w.1 < 2 ^ 32 → k a w = (x, w') → next_of w'.1 ≤ 2 ^ 32 → cycle_left x w') →
    ibind (in_meta c) k w = (x, w') → next_of w'.1 ≤ 2 ^ 32 → cycle_left x w') as Hstep.
  { clear -Hho. intros A c k w x w' Hc Huf Hn Hk. unfold ibind. rewrite in_meta_eq. pose proof (unfenced_meta packs w _ Huf (Hc (sv_meta w.2))) as Huf'.
    destruct (c (sv_meta w.2)) as [[a|e|] m]; cbn in *; [by apply Hk|intros [= <- <-] _; by eapply unfenced_left..]. }
  revert w x w' Huf Hnx. intros w x w' Huf Hnx.
  apply Hstep; [intros; apply shrinks_read|done|done|]. clear w Huf Hnx. intros prior w Huf Hnx.
  apply Hstep; [intros; apply shrinks_read|done|done|]. clear w Huf Hnx. intros ts w Huf Hnx.
  apply Hstep; [intros; apply shrinks_reap|done|done|]. clear w Huf Hnx. intros report w Huf Hnx.
  assert (∃ packs1 w1, unfenced packs1 w1 ∧ (if rotate_active_first opts
     then let! _ := imap_err CycleStore (in_store (on_pages EPageStore (rotate_active unix_now))) in iret tt else iret tt) w = (Ok tt, w1)) as (packs1 & w1 & Huf1 & Hrot).
  { destruct (rotate_active_first opts); [|by eauto]. destruct Huf as [Hsn [Hs Ht] He Hm Hr].
    destruct (rotate_active_ok packs w.1 Hsn Hs Hnx) as (id & packs1 & w1 & Hro & Hsn1 & Hs1 & Ht1 & He1). exists packs1, (w1, w.2). split.
    - split; cbn; [done|by rewrite Ht1|by rewrite He1|done|by rewrite Ht1].
    - unfold ibind, imap_err. rewrite in_store_eq, Hro. done. }
  unfold ibind at 1. rewrite Hrot. clear Hrot Huf Hnx w. unfold ibind, begin_cycle.
  pose proof (cycle_roots_all hooks (sv_meta w1.2) (ho_sabotage _ _ _ (Hho 0)) (uf_meta _ _ Huf1)) as Hroots.
  destruct (cycle_roots hooks (sv_meta w1.2)) as [y m]. destruct Hroots as (Hm & Hre & Hnp & Hro).
  { intros r [m' Hh]%(uf_refs _ _ Huf1). by eapply holds_hash_ok. }
  rewrite begin_epoch_cases by apply Huf1. assert (shrinks (sv_meta w1.2) m) as Hsh by (intros _; split; [done|by rewrite Hre]).
  destruct y as [roots|e|]; [| |done].
  - pose proof (sk_pages _ _ (uf_snap _ _ Huf1)) as [Hgc Hnm]%store_gc_ok. apply (cycle_body_left _ _ _ _ _ _ _ _ packs1); [done| |done|].
    + split; [done|apply Huf1|apply (tree_inv_wf _ _ (sk_tree _ _ (uf_snap _ _ Huf1)))|done| |exact Hm]. intros r Hr. change (r ∈ meta_refs m) in Hr. rewrite Hre in Hr.
      destruct (uf_refs _ _ Huf1 r Hr) as [m' Hh]. exact (stored_closed packs1 w1.1 r m' (uf_snap _ _ Huf1) Hh).
    + intros r Hr. change (r ∈ meta_refs m) in Hr. rewrite Hre in Hr. by eapply Hro.
  - intros [= <- <-] _. eapply unfenced_left. by apply (unfenced_meta packs1 ((set_epoch None w1.1.1, w1.1.2), w1.2)); [apply unfenced_epoch|].
Qed.

End cycle_safe.
