(* ===== verification/GcGrace.v ===== *)
(** * Tombstones and the garbage-collection cycle

    Which rows a cycle reaps: nothing outside the subtrees of tombstones
    that have reached the horizon.  Two ways in which the horizon and the
    reap do not do what they are meant to: a subtree pruned right after the
    fence gets no grace, and a row of a tombstoned subtree that is no longer
    PRUNED makes every later cycle fail before it collects anything. *)

From Stdlib Require Import Floats.SpecFloat.
From S2P Require Import Prelude Types Fs Index PageStore SnapStore StoreGc StoreGcInv.
From S2P Require Import Sql Meta MetaRead MetaInv MetaTree MetaSpec MetaQuery MetaBatch MetaHandle GcCycle GcCycleSpec.

Section grace.
Context {HB : Blake3} {HZ : Zstd} {HC : Crc32} {HS : Scan} (unix_now : Z) (config : MetaConfig).

(** ** Tombstones *)

Definition tomb_key (t : TombstoneRow) : node_key := key (tomb_experiment t) (tomb_node t).
Definition tomb_row (x : node_key * Z) : TombstoneRow := mk_tomb_row x.1.1 (as_u64 x.1.2) (as_u64 x.2).

Lemma tomb_row_key k s : i64_ok k.2 → tomb_key (tomb_row (k, s)) = k.
Proof. intros Hk. unfold tomb_key, tomb_row, key, node_id_to_sql. cbn. rewrite as_i64_u64 by done. by destruct k. Qed.

Lemma list_tombstones_spec n h d : db_ok config n d → 0 ≤ h →
  ∃ l, list_tombstones h d = Ok (tomb_row <$> l) ∧ (∀ x, x ∈ l ↔ d_tombs d !! x.1 = Some x.2 ∧ x.2 ≤ Z.min h (2 ^ 63 - 1)) ∧
    zlen l ≤ Z.of_nat (size (d_tombs d)).
Proof.
  intros Hd Hh. unfold list_tombstones. rewrite as_i64_id by (unfold i64_ok; lia).
  set (l := sort_by_key _ _). exists l.
  assert (∀ x, x ∈ l ↔ d_tombs d !! x.1 = Some x.2 ∧ x.2 ≤ Z.min h (2 ^ 63 - 1)) as Hl.
  { intros [k s]. unfold l. rewrite sort_by_key_perm, scan_perm, list_elem_of_filter, elem_of_map_to_list. cbn. tauto. }
  assert (zlen l ≤ Z.of_nat (size (d_tombs d))) as Hlen.
  { unfold zlen, l. rewrite sort_by_key_perm, scan_perm. apply Nat2Z.inj_le. rewrite <-length_map_to_list. apply length_filter. }
  split; [|done]. assert (Forall (λ x : node_key * Z, 1 ≤ zlen x.1.1 ≤ EXPERIMENT_ID_MAX_BYTES) l) as Hall.
  { apply Forall_forall. intros [k s] [Hk _]%Hl. apply (do_tombs _ _ _ Hd k s Hk). }
  clear Hl Hlen. induction Hall as [|x l' Hx Hall IH]; [done|]. cbn [rcollect].
  rewrite (proj2 (ExperimentId_new_ok x.1.1 x.1.1)) by done. cbn [map_err rbind]. by rewrite IH.
Qed.

(** ** What a cycle spares *)

Lemma subtree_from_sound d e fuel layer ids m :
  Forall (λ n, is_Some (d_nodes d !! (e, n))) layer → subtree_from fuel d e layer = Some ids → m ∈ ids → ∃ n, n ∈ layer ∧ below d e n m.
Proof.
  revert layer ids. induction fuel as [|fuel IH]; intros [|x layer] ids Hl; cbn [subtree_from]; try (intros [= <-]; by intros ?%elem_of_nil).
  set (l := x :: layer) in *. destruct (subtree_from fuel d e (l ≫= children d e)) as [rest|] eqn:Hr; [|done]. intros [= <-] Hm.
  change (m ∈ l ++ rest) in Hm. apply elem_of_app in Hm as [Hm|Hm].
  - exists m. split; [done|]. rewrite Forall_forall in Hl. destruct (Hl m Hm) as [r Hr']. by eapply below_self.
  - assert (Forall (λ n, is_Some (d_nodes d !! (e, n))) (l ≫= children d e)) as Hch.
    { apply Forall_forall. intros c (p & Hc & Hp)%list_elem_of_bind. apply elem_of_children in Hc as (r & Hr' & _). eauto. }
    destruct (IH _ _ Hch Hr Hm) as (n & (p & Hn & Hp)%list_elem_of_bind & Hb). apply elem_of_children in Hn as (r & Hr' & Hpar). exists p. split; [done|]. eapply below_trans; [|exact Hb].
      rewrite Forall_forall in Hl. destruct (Hl p Hp) as [pr Hpr]. eapply below_child; [by eapply below_self|done|done].
Qed.
Lemma subtree_sound d e n ids m : subtree d (e, n) = Some ids → m ∈ ids → below d e n m.
Proof.
  unfold subtree. destruct (d_nodes d !! (e, n)) as [r|] eqn:Hr; [|intros [= <-]; by intros ?%elem_of_nil]. intros Hs Hm.
  assert (Forall (λ n, is_Some (d_nodes d !! (e, n))) [n]) as Hl by (apply Forall_singleton; eauto).
  by destruct (subtree_from_sound d e _ [n] ids m Hl Hs Hm) as (x & ->%list_elem_of_singleton & Hb).
Qed.

(** [d] is [d0] less rows below the given tombstones. *)
Record reaped (ts : list node_key) (d0 d : db) : Prop := {
  rp_rows : ∀ k r, d_nodes d !! k = Some r → d_nodes d0 !! k = Some r;
  rp_kept : ∀ k r, d_nodes d0 !! k = Some r → (∀ t, t ∈ ts → ¬ (k.1 = t.1 ∧ below d0 t.1 t.2 k.2)) → d_nodes d !! k = Some r;
}.

Lemma below_reaped ts d0 d e n m : reaped ts d0 d → below d e n m → below d0 e n m.
Proof.
  intros Hr. induction 1 as [r Hn|m c r _ IH Hc Hp]; [eapply below_self; by eapply rp_rows|]. eapply below_child; [done|by eapply rp_rows|done].
Qed.

Lemma reaped_nodes ts d0 d d' : d_nodes d' = d_nodes d → reaped ts d0 d → reaped ts d0 d'.
Proof. intros He [Hr Hk]. split; by rewrite He. Qed.

Lemma reaped_delete ts d0 d e n z d' : reaped ts d0 d → key e n ∈ ts → delete_subtree (key e n) d = Ok (z, d') → reaped ts d0 d'.
Proof.
  intros Hd Hin. unfold delete_subtree. destruct (subtree d (key e n)) as [ids|] eqn:Hs; [|done]. intros Hr. rs_inv. split; cbn.
  - intros k r [Hk _]%map_lookup_filter_Some. by eapply rp_rows.
  - intros k r Hk Hsp. apply map_lookup_filter_Some. split; [by eapply rp_kept|]. intros [He Hm]. cbn in *.
    apply (Hsp _ Hin). split; [done|]. eapply below_reaped; [done|]. by eapply subtree_sound.
Qed.

Lemma reap_cycle_safe ts d0 d e n : reaped ts d0 d → key e n ∈ ts → safe (reaped ts d0) d (reap_tombstone_impl e n) (λ _ _, True).
Proof.
  intros Hd Hin. unfold reap_tombstone_impl, sql, node_exists. wp; [done|].
  match goal with Hs : delete_subtree _ _ = _ |- _ => pose proof (reaped_delete _ _ _ _ _ _ _ Hd Hin Hs) as Hd1 end. split; [done|].
  wp. split; [unfold delete_unused_logs in *; simplify_eq; by refine (reaped_nodes _ _ _ _ _ Hd1)|]. wp.
  unfold delete_tomb, delete_unused_logs in *. destruct (delete_key _ _). simplify_eq. split; [by refine (reaped_nodes _ _ _ _ _ Hd1)|by wp].
Qed.

Lemma reaped_meta ts d0 x d : reaped ts d0 d → reaped ts d0 (set_meta x d).
Proof. by apply reaped_nodes. Qed.

Definition reaped_meta_ok (ts : list node_key) (d0 : db) (m : MetaDb) : Prop := meta_ok config m ∧ reaped ts d0 (md_db m).

Lemma reaped_call ts d0 cmd m : (∀ n d, reaped ts d0 d → safe (reaped ts d0) d (dispatch_cmd cmd n config) (λ _ _, True)) →
  reaped_meta_ok ts d0 m → reaped_meta_ok ts d0 (meta_call cmd m).2.
Proof. intros Hc [Hm Hd]. split; [by apply meta_call_ok|]. apply (meta_call_keeps config (reaped ts d0)); [apply reaped_meta|done..]. Qed.

Lemma reap_each_reaped ts d0 l report m :
  reaped_meta_ok ts d0 m → Forall (λ t, tomb_key t ∈ ts) l → reaped_meta_ok ts d0 (reap_each l report m).2.
Proof.
  intros Hm Hl. revert report m Hm. induction Hl as [|t l Ht Hl IH]; intros report m Hm; cbn [reap_each]; [done|].
  unfold ibind at 1. set (cmd := ReapTombstone (tomb_experiment t) (tomb_node t)).
  assert (reaped_meta_ok ts d0 (call_u64 cmd m).2) as Hm1.
  { replace (call_u64 cmd m).2 with (meta_call cmd m).2 by (unfold call_u64, ibind; by destruct (meta_call cmd m) as [[[]|e|] m']).
    apply reaped_call; [|done]. intros n d Hr. cbn [dispatch_cmd cmd]. eapply safe_bind; [by apply reap_cycle_safe|]. intros. by wp. }
  destruct (call_u64 cmd m) as [[n|e|] m1]; cbn [snd] in *; [|done..]. unfold ibind. destruct (add_u64 (nodes_reaped report) n); cbn; [by apply IH|done..].
Qed.

Lemma set_gc_safe ts d0 d s : reaped ts d0 d → safe (reaped ts d0) d (set_gc_state_impl s) (λ _ _, True).
Proof.
  intros Hd. unfold set_gc_state_impl, sql. wp. split; [|by wp]. unfold update_gc in *. destruct (d_gc d) as [[g|]|]; simplify_eq; [|done].
  by refine (reaped_nodes _ _ _ _ _ Hd).
Qed.

(** ** The whole cycle *)

Section spares.
Context (ts : list node_key) (d0 : db).
Let P := reaped_meta_ok ts d0.

Definition spares (x y : Server) : Prop := P (sv_meta x) → P (sv_meta y).
#[local] Instance spares_preorder : PreOrder spares.
Proof. split; [by intros x Hx|]. intros x y z Hxy Hyz Hx. unfold spares in *. auto. Qed.

Lemma P_read {A} (f : db → res MetaError A) m : P m → P (meta_read f m).2.
Proof. intros [Hm Hd]. split; [by apply meta_read_ok|by rewrite meta_read_db]. Qed.

Lemma spares_in {A} (c : M MetaDb MetaError A) : (∀ m, P m → P (c m).2) → moves spares (in_meta c).
Proof. intros Hc w. rewrite in_meta_eq. cbn. intros Hx. by apply Hc. Qed.
Lemma spares_counter : moves spares read_counter.
Proof. apply moves_bind; [apply _|apply spares_in; intros; by apply P_read|]. intros s. apply moves_ret, _. Qed.

Lemma spares_set_gc s m : P m → P (call_unit (SetGcState s) m).2.
Proof.
  intros Hm. replace (call_unit (SetGcState s) m).2 with (meta_call (SetGcState s) m).2
    by (unfold call_unit, ibind; by destruct (meta_call (SetGcState s) m) as [[[]|e|] m']).
  apply reaped_call; [|done]. intros n d Hd. cbn [dispatch_cmd]. eapply safe_bind; [by apply set_gc_safe|]. intros. by wp.
Qed.

Lemma moves_map_err {X E F A} (R : X → X → Prop) (g : E → F) (c : GM X E A) : moves R c → moves R (imap_err g c).
Proof. intros Hc w. specialize (Hc w). unfold imap_err. by destruct (c w). Qed.
Lemma moves_of {X E A} (R : X → X → Prop) `{!PreOrder R} (r : res E A) : moves R (iof r).
Proof. intros w. by destruct r. Qed.

Lemma spares_begin hooks : moves spares (begin_cycle hooks).
Proof.
  intros w Hw. unfold begin_cycle. assert (P (cycle_roots hooks (sv_meta w.2)).2) as Hr.
  { unfold cycle_roots, ibind. pose proof (P_read (λ d, map_err MSqlite (gc_root_refs d)) _ Hw) as H1. unfold meta_query in *.
    destruct (meta_read _ (sv_meta w.2)) as [[roots|e|] m1]; cbn [snd] in *; [|done..]. destruct (hook_is hooks DropPinsFromRoots); [|done].
    pose proof (P_read (λ d, map_err MSqlite (list_pins d)) _ H1) as H2. by destruct (meta_read _ m1) as [[pins|e|] m2]. }
  destruct (cycle_roots hooks (sv_meta w.2)) as [r m]. cbn in Hr. rewrite in_store_eq.
  by destruct (begin_gc_epoch (iof r) w.1) as [[v|[]|] w1].
Qed.

Lemma spares_body fuel opts hooks elapsed prior report fence roots : (∀ p w, sv_meta (hook_at hooks p w).2 = sv_meta w.2) →
  moves spares (epoch_guard (cycle_body unix_now fuel opts hooks elapsed prior report fence roots)).
Proof.
  intros Hh. assert (moves spares (cycle_body unix_now fuel opts hooks elapsed prior report fence roots)) as Hb.
  { unfold cycle_body. apply moves_bind; [apply _|apply spares_counter|]. intros c. apply moves_bind; [apply _| |].
    { apply moves_map_err, moves_mark_sweep; [apply _|]. intros p w. unfold spares. by rewrite Hh. }
    intros sw. apply moves_bind; [apply _|apply spares_counter|]. intros f. apply moves_bind; [apply _|apply moves_of, _|]. intros cycles.
    apply moves_bind; [apply _|apply spares_in, spares_set_gc|]. intros _. apply moves_ret, _. }
  intros w. specialize (Hb w). unfold epoch_guard. destruct (cycle_body _ _ _ _ _ _ _ _ _ w) as [y w1]. by rewrite epoch_end_eq.
Qed.

Lemma spares_query {A B} (f : db → res SqlError A) (k : A → GM Server CycleError B) w x w' :
  P (sv_meta w.2) → ibind (in_meta (meta_query f)) k w = (x, w') →
  P (sv_meta w'.2) ∨ ∃ a w1, f (md_db (sv_meta w.2)) = Ok a ∧ md_db (sv_meta w1.2) = md_db (sv_meta w.2) ∧ P (sv_meta w1.2) ∧ k a w1 = (x, w').
Proof.
  intros Hw. unfold ibind, meta_query. rewrite in_meta_eq. set (g := λ d, map_err MSqlite (f d)). pose proof (P_read g _ Hw) as Hp.
  pose proof (meta_read_db g (sv_meta w.2)) as Hd. pose proof (meta_read_value g (sv_meta w.2)) as Hv.
  destruct (meta_read g (sv_meta w.2)) as [[a|e|] m]; cbn [fst snd map_err] in *; [|intros [= <- <-]; by left..].
  intros Hk. right. specialize (Hv a eq_refl). unfold g in Hv. destruct (f (md_db (sv_meta w.2))) as [a'| |]; cbn in Hv; simplify_eq. by exists a, (w.1, set_meta_db m w.2).
Qed.

Lemma spares_after fuel opts hooks elapsed prior l : (∀ p w, sv_meta (hook_at hooks p w).2 = sv_meta w.2) → Forall (λ t, tomb_key t ∈ ts) l →
  moves spares (let! report := in_meta (reap_each l gc_report_default) in
    (if rotate_active_first opts then let! _ := imap_err CycleStore (in_store (on_pages EPageStore (rotate_active unix_now))) in iret tt else iret tt) ;!
    let! ' (fence_pack, roots) := begin_cycle hooks in
    epoch_guard (cycle_body unix_now fuel opts hooks elapsed prior report fence_pack roots)).
Proof.
  intros Hh Hl. apply moves_bind; [apply _|apply spares_in; intros m Hm; by apply reap_each_reaped|]. intros report.
  apply moves_bind; [apply _| |].
  { apply moves_if; [|apply moves_ret, _]. apply moves_bind; [apply _|apply moves_map_err, moves_in_store, _|]. intros _. apply moves_ret, _. }
  intros _. apply moves_bind; [apply _|apply spares_begin|]. intros [fence roots]. by apply spares_body.
Qed.
End spares.

(** C26. A cycle deletes only what has had its grace.  With a grace period,
    and whatever statements fail, a node survives the cycle unchanged
    unless it is below a tombstone that was made no later than the previous
    cycle's fence. *)
Theorem gc_cycle_grace fuel opts hooks elapsed n g w x w' k r :
  let d := md_db (sv_meta w.2) in
  meta_ok config (sv_meta w.2) → db_ok config n d → d_gc d = Some (Some g) → tombstone_grace_cycles opts ≠ 0 →
  (∀ p w, sv_meta (hook_at hooks p w).2 = sv_meta w.2) →
  run_gc_cycle unix_now fuel opts hooks elapsed w = (x, w') →
  d_nodes d !! k = Some r →
  (∀ t s, d_tombs d !! t = Some s → s ≤ as_u64 (g_fence g) → ¬ (k.1 = t.1 ∧ below d t.1 t.2 k.2)) →
  d_nodes (md_db (sv_meta w'.2)) !! k = Some r.
Proof.
  intros d Hm Hd Hg Hgrace Hh Hrun Hk Hsp.
  set (ts := (filter (λ x : node_key * Z, x.2 ≤ as_u64 (g_fence g)) (map_to_list (d_tombs d))).*1).
  assert (reaped_meta_ok ts d (sv_meta w'.2)) as [_ Hrp].
  2: { eapply rp_kept; [exact Hrp|done|]. intros t ([t' s] & -> & [Hs Ht%elem_of_map_to_list]%list_elem_of_filter)%list_elem_of_fmap. by eapply Hsp. }
  assert (reaped_meta_ok ts d (sv_meta w.2)) as H0 by (split; [done|]; by split).
  unfold run_gc_cycle in Hrun. apply (spares_query ts d) in Hrun as [|(prior & w1 & Hpr & Hd1 & H1 & Hrun)]; [done| |done].
  fold d in Hpr, Hd1. unfold gc_state in Hpr. rewrite Hg in Hpr. injection Hpr as <-.
  apply (spares_query ts d) in Hrun as [|(l & w2 & Hl & Hd2 & H2 & Hrun)]; [done| |done]. rewrite Hd1 in Hl.
  unfold horizon in Hl. rewrite (proj2 (Z.eqb_neq _ _) Hgrace) in Hl. cbn [last_fence_counter] in Hl.
  destruct (list_tombstones_spec n (as_u64 (g_fence g)) d Hd (proj1 (as_u64_range _))) as (l' & Hl' & Hiff & _). rewrite Hl' in Hl. injection Hl as <-.
  refine (_ (spares_after ts d fuel opts hooks elapsed (mk_gc_state (as_u64 (g_cycles g)) (as_u64 (g_fence g)) (as_u64 (g_finished g)) (as_u64 (g_freed g))) (tomb_row <$> l') Hh _ w2 H2)); [by rewrite Hrun|].
  apply Forall_fmap, Forall_forall. intros [t s] [Ht Hs]%Hiff. cbn in *. rewrite tomb_row_key by (apply (do_tombs _ _ _ Hd _ _ Ht)).
  apply list_elem_of_fmap. exists (t, s). split; [done|]. apply list_elem_of_filter. split; [cbn; lia|]. by apply elem_of_map_to_list.
Qed.

(** ** Calls on a quiet database *)

Definition quiet (d : db) (n : Z) : MetaDb := mk_meta (idle config d n) true [].

Lemma meta_call_quiet cmd d n : (step_cmd config n cmd d).1 ≠ Panic →
  meta_call cmd (quiet d n) = ((step_cmd config n cmd d).1, quiet (flush_counter (n + 1) (step_cmd config n cmd d).2) (n + 1)).
Proof.
  intros Hp. unfold meta_call, quiet. cbn [md_alive md_actor md_read_faults]. rewrite execute_batch_calm; [|done|].
  - cbn [step_cmds]. destruct (step_cmd config n cmd d) as [r d1]. done.
  - cbn [step_cmds]. destruct (step_cmd config n cmd d) as [r d1]. by repeat constructor.
Qed.

Lemma meta_query_quiet {A} (f : db → res SqlError A) d n : meta_query f (quiet d n) = (map_err MSqlite (f d), quiet d n).
Proof. done. Qed.

Lemma step_reply {A} (c : MC A) (f : A → reply) d r d' : local c → alone c d = (r, d') →
  alone (as_reply f c) d = (match r with Ok a => Ok (f a) | Err e => Err e | Panic => Panic end, d').
Proof. intros Hl Ha. unfold as_reply. rewrite alone_ibind by (done || intros; apply local_ret). rewrite Ha. by destruct r. Qed.

Lemma local_reap e n : local (reap_tombstone_impl e n).
Proof. unfold reap_tombstone_impl, sql, node_exists. loc. Qed.
Lemma local_prune e n allow c : local (prune_subtree_impl e n allow c).
Proof. unfold prune_subtree_impl, sql, node_exists. loc. Qed.
Lemma local_set_gc s : local (set_gc_state_impl s).
Proof. unfold set_gc_state_impl, sql. loc. Qed.

Lemma flush_tables n d : let d' := flush_counter n d in
  d_nodes d' = d_nodes d ∧ d_tombs d' = d_tombs d ∧ d_gc d' = d_gc d ∧ d_logs d' = d_logs d ∧ d_kv d' = d_kv d ∧ d_pins d' = d_pins d.
Proof. destruct (flush_meta n d) as [m ->]. done. Qed.

Lemma flush_counter_ok c n d : db_ok config c d → 0 ≤ n ≤ c → n < 2 ^ 63 → db_ok config c (flush_counter n d).
Proof.
  intros Hd Hn Hb. unfold flush_counter. destruct (update_counter (as_i64 n) d) as [[z d']| |] eqn:Hu; [|done..].
  eapply update_counter_ok; [exact Hd| |exact Hu]. rewrite as_i64_id by (unfold i64_ok; lia). lia.
Qed.

Lemma below_nodes d d' e n m : d_nodes d' = d_nodes d → below d e n m → below d' e n m.
Proof.
  intros He. induction 1 as [r Hr|m c r _ IH Hr Hp]; [eapply below_self; by rewrite He|]. eapply below_child; [done|by rewrite He|done].
Qed.

(** ** A prune right after the fence gets no grace *)


Lemma call_prune_quiet n d e v : db_ok config n d → 0 ≤ n < 2 ^ 63 → experiment_ok e → u64_ok v → v ≠ 0 → is_Some (d_nodes d !! key e v) →
  ∃ d1 cnt, call_u64 (PruneSubtree e v false) (quiet d n) = (Ok cnt, quiet (flush_counter (n + 1) d1) (n + 1)) ∧ db_ok config (n + 1) d1 ∧
    d_tombs d1 = <[key e v := default n (d_tombs d !! key e v)]> (d_tombs d) ∧ all_pruned d1 e (node_id_to_sql v) ∧ is_Some (d_nodes d1 !! key e v) ∧
    d_gc d1 = d_gc d.
Proof.
  intros Hd Hn He Hv Hnz Hex.
  destruct (prune_cases config n Hn d e v false Hd Hv (or_introl Hnz) Hex) as (d1 & desc & Ha & _ & Hdesc & Hin & Hout & Ht & _ & _ & _ & Hg & _).
  pose proof (step_reply _ RU64 _ _ _ (local_prune e v false n) Ha) as Hr.
  assert (step_cmd config n (PruneSubtree e v false) d = (Ok (RU64 (zlen desc)), d1)) as Hs by (unfold step_cmd; cbn [dispatch_cmd]; by rewrite Hr).
  exists d1, (zlen desc). split; [unfold call_u64, ibind; rewrite meta_call_quiet; rewrite Hs; done|].
  destruct (step_cmd_ok config n (PruneSubtree e v false) d Hd Hn (conj He Hv)) as [Hd1 _]. rewrite Hs in Hd1. cbn in Hd1.
  split; [done|]. split; [done|]. assert (below d e (node_id_to_sql v) (node_id_to_sql v)) as Hself by (destruct Hex as [r Hr0]; by eapply below_self).
  change (key e v) with (e, node_id_to_sql v). split_and!; [|rewrite (Hin _ Hself); by apply fmap_is_Some|done].
  assert (∀ m, below d1 e (node_id_to_sql v) m → below d e (node_id_to_sql v) m) as Hback.
  { induction 1 as [r Hr1|m c r _ IH Hr1 Hp]; [done|]. destruct (decide (c ∈ desc)) as [Hc%Hdesc|Hc]; [done|]. rewrite Hdesc in Hc.
    rewrite Hout in Hr1 by (by intros [_ ?]). by eapply below_child. }
  intros m r Hb%Hback Hr1. rewrite (Hin _ Hb) in Hr1. destruct (d_nodes d !! (e, m)); [|done]. by injection Hr1 as <-.
Qed.

Lemma call_set_gc_quiet n d s : db_ok config n d → 0 ≤ n < 2 ^ 63 →
  ∃ d1, call_unit (SetGcState s) (quiet d n) = (Ok tt, quiet (flush_counter (n + 1) d1) (n + 1)) ∧ db_ok config (n + 1) d1 ∧
    d_gc d1 = Some (Some (mk_gc_sql (as_i64 (cycles_total s)) (as_i64 (last_fence_counter s)) (as_i64 (last_finished_at s)) (as_i64 (last_freed_bytes s)))) ∧
    d_tombs d1 = d_tombs d ∧ d_nodes d1 = d_nodes d ∧ d_pins d1 = d_pins d.
Proof.
  intros Hd Hn. destruct (do_gc _ _ _ Hd) as [g Hg]. set (g' := mk_gc_sql _ _ _ _). exists (set_gc (Some (Some g')) d).
  assert (alone (set_gc_state_impl s) d = (Ok tt, set_gc (Some (Some g')) d)) as Ha.
  { unfold set_gc_state_impl. rewrite alone_execute. unfold update_gc. rewrite Hg. done. }
  pose proof (step_reply _ (λ _, RUnit) _ _ _ (local_set_gc s) Ha) as Hr.
  assert (step_cmd config n (SetGcState s) d = (Ok RUnit, set_gc (Some (Some g')) d)) as Hs by (unfold step_cmd; cbn [dispatch_cmd]; by rewrite Hr).
  split; [unfold call_unit, ibind; rewrite meta_call_quiet; rewrite Hs; done|].
  destruct (step_cmd_ok config n (SetGcState s) d Hd Hn I) as [Hd1 _]. by rewrite Hs in Hd1.
Qed.

Lemma all_pruned_nodes d d' e n : d_nodes d' = d_nodes d → all_pruned d e n → all_pruned d' e n.
Proof. intros He Hp m r Hb Hr. rewrite He in Hr. eapply Hp; [|done]. by eapply below_nodes. Qed.

Lemma call_reap_quiet n d e v : db_ok config n d → is_Some (d_nodes d !! key e v) → all_pruned d e (node_id_to_sql v) →
  ∃ cnt d1, call_u64 (ReapTombstone e v) (quiet d n) = (Ok cnt, quiet (flush_counter (n + 1) d1) (n + 1)) ∧ d_nodes d1 !! key e v = None.
Proof.
  intros Hd Hex Hall. destruct (reap_cases config n d e v Hd) as (_ & _ & H3). destruct (H3 Hex Hall) as (d1 & desc & Ha & _ & _ & Hrows & _).
  exists (zlen desc), d1. pose proof (step_reply _ RU64 _ _ _ (local_reap e v) Ha) as Hr.
  assert (step_cmd config n (ReapTombstone e v) d = (Ok (RU64 (zlen desc)), d1)) as Hs by (unfold step_cmd; cbn [dispatch_cmd]; by rewrite Hr).
  split; [unfold call_u64, ibind; rewrite meta_call_quiet; rewrite Hs; done|].
  apply eq_None_not_Some. intros [r [Hr0 Hnot]%Hrows]. apply Hnot. split; [done|]. by eapply below_self.
Qed.


(** ** A row that is no longer PRUNED blocks every cycle *)

(** Some row of the subtree of [k] is not PRUNED. *)
Definition blocked (d : db) (k : node_key) : Prop :=
  ∃ m r, below d k.1 k.2 m ∧ d_nodes d !! (k.1, m) = Some r ∧ n_status r ≠ status_as_u8 Pruned.

Lemma blocked_nodes d d' k : d_nodes d' = d_nodes d → blocked d k → blocked d' k.
Proof. intros He (m & r & Hb & Hr & Hs). exists m, r. rewrite He. split_and!; [|done..]. by eapply below_nodes. Qed.

Lemma desc_bound d e v desc : NoDup desc → (∀ m, m ∈ desc → below d e v m) → zlen desc ≤ Z.of_nat (size (d_nodes d)).
Proof.
  intros Hnd Hb. rewrite <-size_dom. unfold zlen. apply Nat2Z.inj_le. rewrite <-(length_fmap (pair e)), <-(size_list_to_set (C:=gset node_key)).
  - apply subseteq_size. intros k (m & -> & Hm)%elem_of_list_to_set%list_elem_of_fmap. destruct (below_exists _ _ _ _ (Hb m Hm)) as [_ [r Hr]].
    by apply elem_of_dom_2 in Hr.
  - apply NoDup_fmap_2; [|done]. by intros ? ? [= ->].
Qed.

Lemma all_pruned_dec n d e v : db_ok config n d → is_Some (d_nodes d !! key e v) →
  all_pruned d e (node_id_to_sql v) ∨ ¬ all_pruned d e (node_id_to_sql v).
Proof.
  intros Hd Hex. destruct (subtree_spec d n (do_nodes _ _ _ Hd) e _ Hex) as (ids & Hs & Hids).
  destruct (count_other_spec d e _ ids Hids Hs) as (c & _ & _ & Hz). destruct (decide (c = 0)); tauto.
Qed.

(** What is left of a subtree after a reap. *)
Lemma below_kept d d1 e v e' n m :
  (∀ k r, d_nodes d1 !! k = Some r ↔ d_nodes d !! k = Some r ∧ ¬ (k.1 = e ∧ below d e v k.2)) →
  below d e' n m → ¬ (e' = e ∧ below d e v m) → below d1 e' n m.
Proof.
  intros Hrows. induction 1 as [r0 Hr0|m c r0 Hb IH Hr0 Hp]; intros Hout; [eapply below_self, Hrows; done|].
  eapply below_child; [apply IH|by apply Hrows|done]. intros [-> Hbm]. apply Hout. split; [done|]. by eapply below_child.
Qed.

(** Seen from a blocked subtree. *)
Lemma reap_still_blocked d d1 k e v : all_pruned d e v →
  (∀ k r, d_nodes d1 !! k = Some r ↔ d_nodes d !! k = Some r ∧ ¬ (k.1 = e ∧ below d e v k.2)) → blocked d k → (e, v) ≠ k ∧ blocked d1 k.
Proof.
  intros Hall Hrows (m & r & Hb & Hr & Hs). assert (¬ (k.1 = e ∧ below d e v m)) as Hout by (intros [<- Hbv]; apply Hs; by eapply Hall).
  split; [intros <-; by apply Hout|]. exists m, r. split_and!; [by eapply below_kept|by apply Hrows|done].
Qed.

(** A reap, as a call on a quiet database. *)
Lemma call_reap_alone n d e v r d1 : db_ok config n d → 0 ≤ n → n + 1 < 2 ^ 63 → alone (reap_tombstone_impl e v) d = (r, d1) → r ≠ Panic →
  let d2 := flush_counter (n + 1) (match r with Ok _ => d1 | _ => d end) in
  call_u64 (ReapTombstone e v) (quiet d n) = (r, quiet d2 (n + 1)) ∧ db_ok config (n + 1) d2.
Proof.
  intros Hd Hn Hn1 Ha Hr. pose proof (step_reply _ RU64 _ _ _ (local_reap e v) Ha) as Hs.
  assert (step_cmd config n (ReapTombstone e v) d = (match r with Ok a => Ok (RU64 a) | Err e => Err e | Panic => Panic end, match r with Ok _ => d1 | _ => d end)) as He
    by (unfold step_cmd; cbn [dispatch_cmd]; rewrite Hs; by destruct r).
  pose proof (proj1 (step_cmd_ok config n (ReapTombstone e v) d Hd ltac:(lia) I)) as Hd1. rewrite He in Hd1. cbn in Hd1.
  split; [|by apply flush_counter_ok; [..|lia|lia]]. unfold call_u64, ibind. rewrite meta_call_quiet; rewrite He; by destruct r.
Qed.

(** Reaping another tombstone does not unblock [k]. *)
Lemma call_reap_blocked n d k e v : db_ok config n d → 0 ≤ n → n + 1 < 2 ^ 63 → blocked d k → Z.of_nat (size (d_nodes d)) < 2 ^ 32 →
  (∃ d1, call_u64 (ReapTombstone e v) (quiet d n) = (Err InvalidArgument, quiet d1 (n + 1)) ∧ db_ok config (n + 1) d1 ∧
     blocked d1 k ∧ d_tombs d1 !! k = d_tombs d !! k ∧ d_gc d1 = d_gc d) ∨
  key e v ≠ k ∧ ∃ cnt d1, call_u64 (ReapTombstone e v) (quiet d n) = (Ok cnt, quiet d1 (n + 1)) ∧ 0 ≤ cnt < 2 ^ 32 ∧ db_ok config (n + 1) d1 ∧
     blocked d1 k ∧ d_tombs d1 !! k = d_tombs d !! k ∧ d_gc d1 = d_gc d ∧ (size (d_nodes d1) ≤ size (d_nodes d))%nat.
Proof.
  intros Hd Hn Hn1 Hbl Hsz. destruct (reap_cases config n d e v Hd) as (H1 & H2 & H3).
  pose proof (λ r d1, call_reap_alone n d e v r d1 Hd Hn Hn1) as Hcall.
  destruct (d_nodes d !! key e v) as [r0|] eqn:Hr0.
  2: { right. destruct (Hcall _ _ (H1 eq_refl)) as [Hc Hd1]; [done|]. destruct (flush_tables (n + 1) d) as (F1 & F2 & F3 & _). split.
       - intros <-. destruct Hbl as (m & r & Hb & _). destruct (below_exists _ _ _ _ Hb) as [[r1 Hr1] _]. unfold key in Hr0, Hr1. cbn in Hr1. congruence.
       - eexists 0, _. split; [exact Hc|]. split_and!; [lia|lia|done|by eapply blocked_nodes|by rewrite F2|done|by rewrite F1]. }
  destruct (all_pruned_dec n d e v Hd) as [Hall|Hnot]; [by rewrite Hr0|right|left].
  - destruct (H3 (mk_is_Some _ _ eq_refl) Hall) as (d1 & desc & Ha & Hnd & Hdesc & Hrows & _ & Ht & _ & _ & Hg & _).
    destruct (Hcall _ _ Ha) as [Hc Hd1]; [done|]. destruct (flush_tables (n + 1) d1) as (F1 & F2 & F3 & _).
    destruct (reap_still_blocked d d1 k e _ Hall Hrows Hbl) as [Hne Hb1]. split; [done|]. eexists _, _. split; [exact Hc|].
    pose proof (desc_bound d e _ desc Hnd (λ m, proj1 (Hdesc m))). pose proof (zlen_nonneg desc).
    split_and!; [lia|lia|done|by eapply blocked_nodes|rewrite F2, Ht; by rewrite lookup_delete_ne|by rewrite F3|].
    rewrite F1, <-!size_dom. apply subseteq_size. intros k' [r' [Hr' _]%Hrows]%elem_of_dom. by apply elem_of_dom_2 in Hr'.
  - destruct (Hcall _ _ (H2 (mk_is_Some _ _ eq_refl) Hnot)) as [Hc Hd1]; [done|]. destruct (flush_tables (n + 1) d) as (F1 & F2 & F3 & _).
    eexists. split; [exact Hc|]. split_and!; [done|by eapply blocked_nodes|by rewrite F2|done].
Qed.

Lemma reap_each_blocked l report d n k :
  db_ok config n d → 0 ≤ n → n + zlen l < 2 ^ 63 → blocked d k → k ∈ tomb_key <$> l → Z.of_nat (size (d_nodes d)) < 2 ^ 32 →
  0 ≤ nodes_reaped report → nodes_reaped report + zlen l * 2 ^ 32 ≤ u64_max →
  ∃ d' n', reap_each l report (quiet d n) = (Err InvalidArgument, quiet d' n') ∧ db_ok config n' d' ∧ n ≤ n' ≤ n + zlen l ∧
    blocked d' k ∧ d_tombs d' !! k = d_tombs d !! k ∧ d_gc d' = d_gc d.
Proof.
  revert report d n. induction l as [|t l IH]; intros report d n Hd Hn Hlen Hbl Hin Hsz Hr0 Hru; [by apply not_elem_of_nil in Hin|].
  rewrite zlen_cons in *. pose proof (zlen_nonneg l). cbn [reap_each]. unfold ibind at 1.
  destruct (call_reap_blocked n d k (tomb_experiment t) (tomb_node t) Hd Hn ltac:(lia) Hbl Hsz)
    as [(d1 & -> & Hd1 & Hb1 & Ht1 & Hg1)|(Hne & cnt & d1 & -> & Hcnt & Hd1 & Hb1 & Ht1 & Hg1 & Hs1)].
  { exists d1, (n + 1). split_and!; try done; lia. }
  assert (k ∈ tomb_key <$> l) as Hin1 by (apply elem_of_cons in Hin as [Hk|]; [|done]; by destruct Hne).
  assert (checked_add (nodes_reaped report) cnt = Some (nodes_reaped report + cnt)) as Hadd by (apply checked_add_Some; split; [done|lia]).
  unfold ibind, add_u64. rewrite Hadd. cbn [iof].
  destruct (IH (mk_gc_report (nodes_reaped report + cnt) 0 0 0 0 0 0 0 (if 0 <? cnt then reaped_subtrees report ++ [(tomb_experiment t, tomb_node t)] else reaped_subtrees report))
    d1 (n + 1) Hd1 ltac:(lia) ltac:(lia) Hb1 Hin1 ltac:(lia) ltac:(cbn; lia) ltac:(cbn; lia)) as (d' & n' & He & Hd' & Hn' & Hb' & Ht' & Hg').
  exists d', n'. split; [exact He|]. split_and!; try done; [lia|lia|congruence|congruence].
Qed.

(** C37. One row can stop the collector for good.  If a row below a
    tombstone that is due is not PRUNED any more, which [UpdateNodes]
    allows, then every cycle fails at the reap, before it fences, marks or
    sweeps anything; and it leaves the database in such a state again. *)
Theorem unpruned_row_blocks_gc fuel opts hooks elapsed w d n k s g :
  sv_meta w.2 = quiet d n → db_ok config n d → 0 ≤ n → n + Z.of_nat (size (d_tombs d)) < 2 ^ 63 →
  Z.of_nat (size (d_nodes d)) < 2 ^ 32 → Z.of_nat (size (d_tombs d)) < 2 ^ 31 →
  d_tombs d !! k = Some s → blocked d k → d_gc d = Some (Some g) →
  (tombstone_grace_cycles opts = 0 ∨ s ≤ as_u64 (g_fence g)) →
  ∃ d' n', run_gc_cycle unix_now fuel opts hooks elapsed w = (Err (CycleMeta InvalidArgument), (w.1, set_meta_db (quiet d' n') w.2)) ∧
    db_ok config n' d' ∧ d_tombs d' !! k = Some s ∧ blocked d' k ∧ d_gc d' = Some (Some g).
Proof.
  intros Hw Hd Hn Hnt Hsz Hst Hk Hbl Hg Hdue. unfold run_gc_cycle. unfold ibind at 1. rewrite in_meta_eq, Hw, meta_query_quiet. unfold gc_state. rewrite Hg.
  cbn [fst snd map_err]. unfold ibind at 1. rewrite in_meta_eq. cbn [fst snd sv_meta set_meta_db]. rewrite meta_query_quiet.
  set (h := horizon opts _). assert (0 ≤ h ∧ s ≤ Z.min h (2 ^ 63 - 1)) as [Hh Hs].
  { pose proof (do_tombs _ _ _ Hd k s Hk) as [_ ?]. pose proof (as_u64_range (g_fence g)) as Hr. unfold h, horizon, u64_max, u64_ok in *. cbn.
    destruct (tombstone_grace_cycles opts =? 0) eqn:Hz; b2p; lia. }
  destruct (list_tombstones_spec n h d Hd Hh) as (l & -> & Hiff & Hlen0). cbn [fst snd map_err]. unfold ibind at 1. rewrite in_meta_eq.
  cbn [fst snd sv_meta set_meta_db].
  assert (k ∈ tomb_key <$> (tomb_row <$> l)) as Hin.
  { apply list_elem_of_fmap. exists (tomb_row (k, s)). split; [symmetry; apply tomb_row_key, (do_tombs _ _ _ Hd k s Hk)|].
    apply list_elem_of_fmap. exists (k, s). split; [done|]. by apply Hiff. }
  assert (zlen (tomb_row <$> l) ≤ Z.of_nat (size (d_tombs d))) as Hlen by by rewrite zlen_fmap.
  assert (n + zlen (tomb_row <$> l) < 2 ^ 63) as Hb1 by lia.
  destruct (reap_each_blocked (tomb_row <$> l) gc_report_default d n k Hd Hn Hb1 Hbl Hin Hsz ltac:(cbn; lia) ltac:(cbn; unfold u64_max; lia))
    as (d' & n' & He & Hd' & _ & Hb' & Ht' & Hg'). rewrite He. cbn [fst snd map_err].
  exists d', n'. rewrite Ht', Hg'. split_and!; try done.
Qed.

End grace.
