(* ===== verification/GcCollect.v ===== *)
(** * What a cycle collects

    A garbage-collection cycle of the server that nothing disturbs runs to
    its end.  Of the database it deletes exactly the subtrees whose
    tombstones are due, and of the store it keeps exactly the manifests that
    the remaining nodes and the pins reach. *)

From S2P Require Import Prelude Types Fs PageStore PageStoreInv PageStoreGc SnapStore StoreGc SnapStoreInv SnapStoreRead StoreGcInv StoreGcRun StoreGcSpec.
From S2P Require Import Sql Meta MetaRead MetaInv MetaTree MetaSpec MetaQuery MetaBatch MetaHandle GcCycle GcCycleSpec GcGrace.

Section collect.
Context {HB : Blake3} {HZ : Zstd} {HC : Crc32} {HS : Scan} (unix_now : Z) (config : MetaConfig).

(** [d'] has the rows of [d] that are not below a key of [ts]. *)
Definition without (ts : list node_key) (d d' : db) : Prop :=
  ∀ k r, d_nodes d' !! k = Some r ↔ d_nodes d !! k = Some r ∧ ¬ ∃ t, t ∈ ts ∧ k.1 = t.1 ∧ below d t.1 t.2 k.2.

Lemma without_nil d : without [] d d.
Proof. intros k r. split; [|by intros [? _]]. intros ?. split; [done|]. by intros (t & ?%not_elem_of_nil & _). Qed.

Lemma without_below ts d d' e n m : without ts d d' → below d' e n m → below d e n m.
Proof. intros Hw. induction 1 as [r Hr|m c r _ IH Hr Hp]; [by eapply below_self, Hw|]. eapply below_child; [done|by eapply Hw|done]. Qed.

(** Deleting one more subtree. *)
Lemma without_cons t ts d d1 d' : without [t] d d1 → without ts d1 d' → without (t :: ts) d d'.
Proof.
  intros H1 H2 k r. rewrite (H2 k r), (H1 k r). split.
  - intros [[Hk Ht] Hts]. split; [done|]. intros (u & [->|Hu]%elem_of_cons & He & Hb); [apply Ht; exists t; by split; [left|]|].
    apply Hts. exists u. split; [done|]. split; [done|]. destruct u as [ue un], t as [te tn], k as [ke km]. cbn in *. subst.
    eapply (below_kept d d1 te tn); [|exact Hb|].
    + intros k' r'. rewrite (H1 k' r'). split; intros [? Hn]; (split; [done|]); intros Hx; apply Hn; [exists (te, tn); by split; [left|]|].
      by destruct Hx as (? & ->%list_elem_of_singleton & ?).
    + intros [-> Hb']. apply Ht. exists (te, tn). by split; [left|].
  - intros [Hk Hall]. split; [split; [done|]|].
    + intros (u & ->%list_elem_of_singleton & Hu). apply Hall. exists t. by split; [left|].
    + intros (u & Hu & He & Hb). apply Hall. exists u. split; [by right|]. split; [done|]. by eapply without_below.
Qed.

Lemma without_nodes ts d d1 d2 : d_nodes d2 = d_nodes d1 → without ts d d1 → without ts d d2.
Proof. intros He H k r. rewrite He. apply H. Qed.
Lemma without_size ts d d' : without ts d d' → (size (d_nodes d') ≤ size (d_nodes d))%nat.
Proof. intros H. rewrite <-!size_dom. apply subseteq_size. intros k [r [Hr _]%H]%elem_of_dom. by apply elem_of_dom_2 in Hr. Qed.

(** ** Reaping *)

(** One tombstone whose subtree is PRUNED, or gone already. *)
Lemma call_reap_pruned n d e v : db_ok config n d → 0 ≤ n → n + 1 < 2 ^ 63 → Z.of_nat (size (d_nodes d)) < 2 ^ 32 →
  all_pruned d e (node_id_to_sql v) →
  ∃ cnt d1, call_u64 (ReapTombstone e v) (quiet config d n) = (Ok cnt, quiet config d1 (n + 1)) ∧ db_ok config (n + 1) d1 ∧
    0 ≤ cnt < 2 ^ 32 ∧ without [key e v] d d1 ∧ d_pins d1 = d_pins d ∧ d_gc d1 = d_gc d.
Proof.
  intros Hd Hn Hn1 Hsz Hall. destruct (reap_cases config n d e v Hd) as (H1 & _ & H3).
  destruct (d_nodes d !! key e v) as [r0|] eqn:Hr0.
  - destruct (H3 (mk_is_Some _ _ eq_refl) Hall) as (d1 & desc & Ha & Hnd & Hdesc & Hrows & _ & _ & _ & Hp & Hg & _).
    destruct (call_reap_alone config n d e v _ _ Hd Hn Hn1 Ha) as [Hc Hd1]; [done|]. cbv zeta in Hc, Hd1.
    destruct (flush_tables (n + 1) d1) as (F1 & _ & F3 & _ & _ & F6). eexists _, _. split; [exact Hc|]. split; [exact Hd1|].
    pose proof (desc_bound d e _ desc Hnd (λ m, proj1 (Hdesc m))). pose proof (zlen_nonneg desc). rewrite F3, F6.
    split_and!; [lia|lia| |done|done]. apply (without_nodes _ _ d1); [done|]. intros k r. rewrite Hrows. split; intros [Hk Hno]; (split; [done|]).
    + by intros (t & ->%list_elem_of_singleton & ?).
    + intros Hx. apply Hno. exists (key e v). by split; [left|].
  - destruct (call_reap_alone config n d e v _ _ Hd Hn Hn1 (H1 eq_refl)) as [Hc Hd1]; [done|]. cbv zeta in Hc, Hd1.
    destruct (flush_tables (n + 1) d) as (F1 & _ & F3 & _ & _ & F6). eexists _, _. split; [exact Hc|]. split; [exact Hd1|]. rewrite F3, F6.
    split_and!; [lia|lia| |done|done]. apply (without_nodes _ _ d); [done|]. intros k r. split; [|by intros [? _]]. intros Hk. split; [done|].
    intros (t & ->%list_elem_of_singleton & _ & Hb). destruct (below_exists _ _ _ _ Hb) as [[r1 Hr1] _]. unfold key in *. cbn in Hr1. congruence.
Qed.

Lemma all_pruned_without ts d d' e v : without ts d d' → all_pruned d e v → all_pruned d' e v.
Proof. intros Hw Hall m r Hb [Hr _]%Hw. eapply Hall; [by eapply without_below|done]. Qed.

Lemma reap_each_done l report d n :
  db_ok config n d → 0 ≤ n → n + zlen l < 2 ^ 63 → Z.of_nat (size (d_nodes d)) < 2 ^ 32 →
  Forall (λ t, all_pruned d (tomb_key t).1 (tomb_key t).2) l →
  0 ≤ nodes_reaped report → nodes_reaped report + zlen l * 2 ^ 32 ≤ u64_max →
  ∃ report' d', reap_each l report (quiet config d n) = (Ok report', quiet config d' (n + zlen l)) ∧ db_ok config (n + zlen l) d' ∧
    without (tomb_key <$> l) d d' ∧ d_pins d' = d_pins d ∧ d_gc d' = d_gc d.
Proof.
  revert report d n. induction l as [|t l IH]; intros report d n Hd Hn Hlen Hsz Hall Hr0 Hru; cbn [reap_each].
  { eexists _, d. rewrite zlen_nil, Z.add_0_r. split; [done|]. split_and!; [done|apply without_nil|done|done]. }
  rewrite zlen_cons in *. pose proof (zlen_nonneg l). apply Forall_cons in Hall as [Ht Hall]. unfold ibind at 1.
  destruct (call_reap_pruned n d (tomb_experiment t) (tomb_node t) Hd Hn ltac:(lia) Hsz Ht) as (cnt & d1 & -> & Hd1 & Hcnt & Hw & Hp1 & Hg1).
  assert (checked_add (nodes_reaped report) cnt = Some (nodes_reaped report + cnt)) as Hadd by (apply checked_add_Some; split; [done|lia]).
  unfold ibind, add_u64. rewrite Hadd. cbn [iof]. pose proof (without_size _ _ _ Hw).
  destruct (IH (mk_gc_report (nodes_reaped report + cnt) 0 0 0 0 0 0 0 (if 0 <? cnt then reaped_subtrees report ++ [(tomb_experiment t, tomb_node t)] else reaped_subtrees report))
    d1 (n + 1) Hd1 ltac:(lia) ltac:(lia) ltac:(lia)) as (report' & d' & He & Hd' & Hw' & Hp' & Hg'); [|cbn; lia|cbn; lia|].
  { eapply Forall_impl; [exact Hall|]. intros t'. by apply (all_pruned_without _ _ _ _ _ Hw). }
  exists report', d'. replace (n + (1 + zlen l)) with (n + 1 + zlen l) by lia. split; [exact He|]. split_and!; [done|by eapply without_cons|congruence|congruence].
Qed.

(** ** The whole cycle *)

(** A tombstone of stamp [s] is due. *)
Definition due (opts : GcOpts) (g : gc_sql) (s : Z) : Prop := tombstone_grace_cycles opts = 0 ∨ s ≤ as_u64 (g_fence g).

(** The statements before the fence. *)
Lemma reap_due opts d n g (x : Server) :
  sv_meta x = quiet config d n → db_ok config n d → 0 ≤ n → n + Z.of_nat (size (d_tombs d)) < 2 ^ 63 →
  Z.of_nat (size (d_nodes d)) < 2 ^ 32 → Z.of_nat (size (d_tombs d)) < 2 ^ 31 → d_gc d = Some (Some g) →
  (∀ k s, d_tombs d !! k = Some s → due opts g s → all_pruned d k.1 k.2) →
  ∃ prior ts report d' n', gc_state d = Ok prior ∧ cycles_total prior = as_u64 (g_cycles g) ∧ list_tombstones (horizon opts prior) d = Ok ts ∧
    reap_each ts gc_report_default (quiet config d n) = (Ok report, quiet config d' n') ∧ db_ok config n' d' ∧
    n ≤ n' ≤ n + Z.of_nat (size (d_tombs d)) ∧ d_pins d' = d_pins d ∧ d_gc d' = d_gc d ∧
    ∀ k r, d_nodes d' !! k = Some r ↔ d_nodes d !! k = Some r ∧
      ¬ ∃ t s, d_tombs d !! t = Some s ∧ due opts g s ∧ k.1 = t.1 ∧ below d t.1 t.2 k.2.
Proof.
  intros Hw Hd Hn Hnt Hsz Hst Hg Hall. set (prior := mk_gc_state (as_u64 (g_cycles g)) (as_u64 (g_fence g)) (as_u64 (g_finished g)) (as_u64 (g_freed g))).
  assert (gc_state d = Ok prior) as Hpr by (unfold gc_state; by rewrite Hg).
  assert (0 ≤ horizon opts prior) as Hh by (pose proof (as_u64_range (g_fence g)) as [? _]; unfold horizon, u64_max; unfold prior; destruct (_ =? 0); cbn; lia).
  destruct (list_tombstones_spec config n (horizon opts prior) d Hd Hh) as (l & Hl & Hiff & Hlen).
  assert (∀ t s, d_tombs d !! t = Some s → due opts g s ↔ s ≤ Z.min (horizon opts prior) (2 ^ 63 - 1)) as Hdue.
  { intros t s Ht. pose proof (do_tombs _ _ _ Hd t s Ht) as [_ ?]. unfold due, horizon, prior, u64_max in *. cbn.
    destruct (tombstone_grace_cycles opts =? 0) eqn:Hz; b2p; [lia|]. split; [intros [?|?]|]; lia. }
  assert (∀ x, x ∈ l → tomb_key (tomb_row x) = x.1) as Hkey by (intros [t s] [Ht _]%Hiff; apply tomb_row_key, (do_tombs _ _ _ Hd _ _ Ht)).
  assert (zlen (tomb_row <$> l) ≤ Z.of_nat (size (d_tombs d))) as Hz by by rewrite zlen_fmap.
  assert (n + zlen (tomb_row <$> l) < 2 ^ 63) as Hb1 by lia.
  destruct (reap_each_done (tomb_row <$> l) gc_report_default d n Hd Hn Hb1 Hsz) as (report & d' & He & Hd' & Hw' & Hp & Hg'); [|cbn; lia|cbn; unfold u64_max; lia|].
  { apply Forall_fmap, Forall_forall. intros [t s] Hin. cbn [compose]. rewrite (Hkey _ Hin). apply Hiff in Hin as [Ht Hs]. apply (Hall t s Ht). by apply (Hdue t). }
  pose proof (zlen_nonneg (tomb_row <$> l)). exists prior, (tomb_row <$> l), report, d', (n + zlen (tomb_row <$> l)).
  split; [done|]. split; [done|]. split; [done|]. split; [done|]. split; [done|]. split; [lia|]. split; [done|]. split; [done|].
  intros k r. rewrite (Hw' k r). split; intros [Hk Hno]; (split; [done|]); intros Hx; apply Hno.
  - destruct Hx as (t & s & Ht & Hs & He' & Hb). exists t. split; [|done]. apply list_elem_of_fmap. assert ((t, s) ∈ l) as Hin by (apply Hiff; split; [done|by apply (Hdue t)]).
    exists (tomb_row (t, s)). split; [by rewrite (Hkey _ Hin)|]. by apply list_elem_of_fmap_2.
  - destruct Hx as (t & (y & -> & (x' & -> & Hin)%list_elem_of_fmap)%list_elem_of_fmap & He' & Hb). rewrite (Hkey _ Hin) in *. destruct x' as [t s]. apply Hiff in Hin as [Ht Hs].
    exists t, s. split; [done|]. split; [by apply (Hdue t)|done].
Qed.

Lemma read_counter_quiet v d n x c : db_ok config c d → sv_meta x = quiet config d n → ∃ z, read_counter (v, x) = (Ok z, (v, x)).
Proof.
  intros Hd Hx. unfold read_counter, ibind. rewrite in_meta_eq. cbn [fst snd]. rewrite Hx, meta_query_quiet.
  destruct (do_meta _ _ _ Hd) as (m & Hm & _). unfold stats, select_counter. rewrite Hm. cbn. eexists. f_equal. destruct x; cbn in *. by subst.
Qed.

Lemma begin_cycle_quiet v d n x c : db_ok config c d → sv_meta x = quiet config d n → ss_epoch v.1 = None →
  ∃ roots, begin_cycle hooks_none (v, x) = (Ok (a_pack_id (ps_active (ss_pages v.1)), roots), ((set_epoch (Some []) v.1, v.2), x)) ∧
    Forall hash_ok roots ∧ ∀ r, r ∈ roots ↔ r ∈ root_blobs d.
Proof.
  intros Hd Hx He. destruct (gc_root_refs_spec config c d Hd) as (roots & Hr & Hh & Hiff). exists roots. split; [|done].
  assert (cycle_roots (X:=Server) hooks_none (quiet config d n) = (Ok roots, quiet config d n)) as Hc.
  { unfold cycle_roots, ibind. rewrite meta_query_quiet, Hr. done. }
  unfold begin_cycle. cbn [snd]. rewrite Hx, Hc. destruct v as [st dk]. cbn [fst snd] in *.
  assert (in_store (begin_gc_epoch (E:=MetaError) (iret roots)) ((st, dk), x) =
    (Ok (a_pack_id (ps_active (ss_pages st)), roots), ((set_epoch (Some []) st, dk), x))) as Hb.
  { apply in_store_step. unfold begin_gc_epoch. erewrite ibind_step by reflexivity. cbn [fst snd].
    erewrite ibind_step by (unfold on_state; cbn [fst snd]; rewrite He; reflexivity). done. }
  change (iof (Ok roots)) with (iret (S:=SnapshotStore * disk) (E:=MetaError) roots). rewrite Hb. cbn. destruct x; cbn in *. by subst.
Qed.

(** The cycle once the fence is taken. *)
Lemma cycle_body_quiet fuel opts elapsed prior report packs v x d n roots :
  let fence := a_pack_id (ps_active (ss_pages v.1)) in
  db_ok config n d → 0 ≤ n → n + 1 < 2 ^ 63 → sv_meta x = quiet config d n → 0 ≤ cycles_total prior < u64_max →
  snap_ok packs v → calm v.2.1 → calm (t_fs v.2.2) → ss_epoch v.1 = None → dirs_ok v.2.2 → gc_ready fence packs v → Forall hash_ok roots →
  ∃ rp v' d', epoch_guard (cycle_body unix_now (S fuel) opts hooks_none elapsed prior report fence roots) ((set_epoch (Some []) v.1, v.2), x) =
      (Ok rp, (v', set_meta_db (quiet config d' (n + 1)) x)) ∧ ss_epoch v'.1 = None ∧ (∃ packs', snap_ok packs' v') ∧ next_of v' ≤ 2 ^ 32 ∧
    (∀ r m, holds v'.2.2 r m ↔ holds v.2.2 r m ∧ ∃ root, root ∈ roots ∧ reaches v.2.2 root r) ∧
    d_nodes d' = d_nodes d ∧ d_pins d' = d_pins d ∧ (∃ st, gc_state d' = Ok st ∧ cycles_total st = cycles_total prior + 1).
Proof.
  intros fence Hd Hn Hn1 Hx Hcy Hok Hs Ht He Hdirs Hr Hroots. set (w1 := ((set_epoch (Some []) v.1, v.2), x) : world Server).
  pose proof (sk_pages _ _ Hok) as Hpg. apply store_gc_ok in Hpg as [Hgc Hnm].
  destruct (mark_sweep_run unix_now fence packs roots (compact_threshold opts) fuel w1) as (rp & w2 & Hrun & Hnx); [|done|done|apply Hok|done|by split; apply Hr|].
  { split; [done|done|apply (tree_inv_wf _ _ (sk_tree _ _ Hok))|done|by intros r ?%not_elem_of_nil|done]. }
  destruct (mark_sweep_alone unix_now (S fuel) (compact_threshold opts) packs roots w1 rp w2) as (Hx2 & packs' & Hok' & Hiff); [|done|done|done|done|exact Hrun|done|].
  { destruct v. by apply snap_epoch. }
  unfold epoch_guard, cycle_body. destruct (read_counter_quiet w1.1 d n x n Hd Hx) as [fc Hfc]. change (w1.1, x) with w1 in Hfc.
  erewrite ibind_step by exact Hfc. erewrite ibind_step by (unfold imap_err; rewrite Hrun; reflexivity).
  destruct w2 as [v2 x2]. cbn [snd] in Hx2. subst x2. cbn [fst snd] in *.
  destruct (read_counter_quiet v2 d n x n Hd Hx) as [lc Hlc]. erewrite ibind_step by exact Hlc.
  assert (checked_add (cycles_total prior) 1 = Some (cycles_total prior + 1)) as Hadd by (apply checked_add_Some; split; [done|lia]).
  erewrite ibind_step by (unfold iof, add_u64; rewrite Hadd; reflexivity).
  destruct (call_set_gc_quiet config n d (mk_gc_state (cycles_total prior + 1) fc lc (bytes_reclaimed rp)) Hd ltac:(lia)) as (d1 & Hset & _ & Hg & _ & Hnodes & Hpins).
  destruct (flush_tables (n + 1) d1) as (F1 & _ & F3 & _ & _ & F6). erewrite ibind_step.
  2: { rewrite in_meta_eq. cbn [fst snd]. rewrite Hx, Hset. reflexivity. }
  unfold iret. cbv beta iota. rewrite in_store_eq. cbn [fst snd]. eexists _, (set_epoch None v2.1, v2.2), (flush_counter (n + 1) d1). split; [reflexivity|].
  cbn [fst snd]. split; [done|]. split; [exists packs'; destruct v2; by apply snap_epoch|]. split; [exact Hnx|]. split; [exact Hiff|].
  rewrite F1, F6. split; [done|]. split; [done|]. unfold gc_state. rewrite F3, Hg. eexists. split; [done|]. cbn.
  rewrite as_u64_i64 by (unfold u64_ok, u64_max in *; lia). done.
Qed.

Lemma set_meta_twice m m' x : set_meta_db m (set_meta_db m' x) = set_meta_db m x.
Proof. done. Qed.

Lemma gc_cycle_run fuel opts elapsed packs w d n g :
  let fence := a_pack_id (ps_active (ss_pages w.1.1)) in
  sv_meta w.2 = quiet config d n → db_ok config n d → 0 ≤ n → n + Z.of_nat (size (d_tombs d)) + 1 < 2 ^ 63 →
  Z.of_nat (size (d_nodes d)) < 2 ^ 32 → Z.of_nat (size (d_tombs d)) < 2 ^ 31 → d_gc d = Some (Some g) → as_u64 (g_cycles g) < u64_max →
  rotate_active_first opts = false → (∀ k s, d_tombs d !! k = Some s → due opts g s → all_pruned d k.1 k.2) →
  snap_ok packs w.1 → calm w.1.2.1 → calm (t_fs w.1.2.2) → ss_epoch w.1.1 = None → dirs_ok w.1.2.2 → gc_ready fence packs w.1 →
  ∃ report w', run_gc_cycle unix_now (S fuel) opts hooks_none elapsed w = (Ok report, w') ∧
    ss_epoch w'.1.1 = None ∧ (∃ packs', snap_ok packs' w'.1) ∧ next_of w'.1 ≤ 2 ^ 32 ∧
    let d' := md_db (sv_meta w'.2) in
    (∀ k r, d_nodes d' !! k = Some r ↔ d_nodes d !! k = Some r ∧
      ¬ ∃ t s, d_tombs d !! t = Some s ∧ due opts g s ∧ k.1 = t.1 ∧ below d t.1 t.2 k.2) ∧ d_pins d' = d_pins d ∧
    (∀ r m, holds w'.1.2.2 r m ↔ holds w.1.2.2 r m ∧
      ∃ root, ((∃ k row, d_nodes d' !! k = Some row ∧ n_ref row = root) ∨ is_Some (d_pins d' !! root)) ∧ reaches w.1.2.2 root r) ∧
    (∃ st, gc_state d' = Ok st ∧ cycles_total st = as_u64 (g_cycles g) + 1).
Proof.
  intros fence Hw Hd Hn Hnt Hsz Hst Hg Hcy Hrot Hall Hok Hs Ht He Hdirs Hr. destruct w as [v x]. cbn [fst snd] in *.
  destruct (reap_due opts d n g x Hw Hd Hn ltac:(lia) Hsz Hst Hg Hall) as (prior & ts & report & d1 & n1 & Hpr & Hcp & Hts & Hreap & Hd1 & Hn1 & Hp1 & _ & Hrows).
  unfold run_gc_cycle. erewrite ibind_step by (rewrite in_meta_eq; cbn [fst snd]; rewrite Hw, meta_query_quiet, Hpr; reflexivity).
  erewrite ibind_step by (rewrite in_meta_eq; cbn [fst snd sv_meta set_meta_db]; rewrite meta_query_quiet, Hts; reflexivity).
  erewrite ibind_step by (rewrite in_meta_eq; cbn [fst snd sv_meta set_meta_db]; rewrite Hreap; reflexivity).
  cbn [fst snd]. rewrite !set_meta_twice, Hrot. erewrite ibind_step by reflexivity.
  set (x1 := set_meta_db (quiet config d1 n1) x). destruct (begin_cycle_quiet v d1 n1 x1 n1 Hd1 eq_refl He) as (roots & Hb & Hh & Hroots).
  erewrite ibind_step by exact Hb. cbv beta iota.
  destruct (cycle_body_quiet fuel opts elapsed prior report packs v x1 d1 n1 roots Hd1 ltac:(lia) ltac:(lia) eq_refl) as (rp & v' & d' & Hrun & He' & Hok' & Hnx & Hiff & Hn' & Hp' & Hst');
    [rewrite Hcp; pose proof (as_u64_range (g_cycles g)) as [? _]; lia|done..|].
  eexists rp, (v', _). split; [exact Hrun|]. cbn [fst snd]. split; [exact He'|]. split; [exact Hok'|]. split; [exact Hnx|]. cbv zeta.
  change (md_db (sv_meta (set_meta_db (quiet config d' (n1 + 1)) x1))) with d'. rewrite Hn', Hp', Hp1, Hcp in *.
  split; [exact Hrows|]. split; [done|]. split; [|exact Hst']. intros r m. rewrite (Hiff r m). apply and_iff_compat_l.
  assert (∀ root, root ∈ roots ↔ (∃ k row, d_nodes d1 !! k = Some row ∧ n_ref row = root) ∨ is_Some (d_pins d !! root)) as Hre.
  { intros root. by rewrite Hroots, elem_of_root_blobs, Hp1. }
  split; intros (root & H1 & H2); exists root; (split; [by apply Hre|done]).
Qed.


End collect.
