(* ===== verification/Service.v ===== *)
(** * The gRPC service

    Model of [crates/snapstore-server/src/service.rs] and [errors.rs]: one
    definition per request handler, on the server's state.  A handler runs
    as one step: the store and metadata calls it makes are ordered as in the
    source, and a panic in its blocking task becomes an [Internal] status.
    Metrics histograms and message texts are left out. *)

From Stdlib Require Import Floats.SpecFloat.
From S2P Require Import Prelude Types Manifest InputLog Fs Pack Index PageStore SnapStore StoreGc Sql Meta MetaRead GcCycle.

(** ** Status (errors.rs) *)

Inductive Code := CInvalidArgument | CNotFound | CAlreadyExists | CFailedPrecondition | CInternal.
#[global] Instance Code_eq_dec : EqDecision Code.
Proof. solve_decision. Defined.

Record MissingPagesDetail := mk_missing_pages { mp_hashes : list bytes; mp_parent : bytes }.

(** The [Any] payloads of a [google.rpc.Status]. *)
Inductive Detail :=
  | DMissingPages (m : MissingPagesDetail)
  | DMissingNodes (node_ids : list NodeId)
  | DCurrentGeneration (generation : Z).

Record Status := mk_status { st_code : Code; st_details : list Detail }.
Definition status (c : Code) : Status := mk_status c [].

Definition put_error_to_status (e : PutError) : Status :=
  match e with
  | SnapStore.MissingPages hs => mk_status CFailedPrecondition [DMissingPages (mk_missing_pages hs [])]
  | UnknownParent r => mk_status CFailedPrecondition [DMissingPages (mk_missing_pages [] r)]
  | ParentRamMismatch => status CInvalidArgument
  | PutManifest _ => status CInvalidArgument
  | PutIo _ => status CInternal
  | PutPageStore _ => status CInternal
  end.

Definition meta_error_to_status (e : MetaError) : Status :=
  match e with
  | MissingNodes ids => mk_status CNotFound [DMissingNodes ids]
  | CasFailed current => mk_status CFailedPrecondition [DCurrentGeneration current]
  | MAlreadyExists => status CAlreadyExists
  | ParentNotFound | PruneRootDenied => status CFailedPrecondition
  | InvalidArgument | LogIdMismatch | LogTooSmall | LogTooLarge => status CInvalidArgument
  | _ => status CInternal
  end.

(** The first detail of each kind, as the clients decode them. *)
Definition decode_missing_pages (s : Status) : option MissingPagesDetail :=
  head (omap (λ d, match d with DMissingPages m => Some m | _ => None end) (st_details s)).
Definition decode_missing_nodes (s : Status) : option (list NodeId) :=
  head (omap (λ d, match d with DMissingNodes l => Some l | _ => None end) (st_details s)).
Definition decode_current_generation (s : Status) : option Z :=
  head (omap (λ d, match d with DCurrentGeneration g => Some g | _ => None end) (st_details s)).

(** ** Messages *)

Definition proto_status_to_types (s : Z) : NodeStatus :=
  if s =? 2 then Expanded else if s =? 3 then Pruned else if s =? 4 then Goal_ else Frontier.
Definition types_status_to_proto (s : NodeStatus) : Z :=
  match s with Frontier => 1 | Expanded => 2 | Pruned => 3 | Goal_ => 4 end.

Record NodeMeta := mk_node_meta {
  nm_experiment : bytes; nm_node : Z; nm_parent : option Z; nm_depth : Z; nm_ref : bytes; nm_log : bytes; nm_status : Z;
  nm_score : option spec_float; nm_visits : Z; nm_icount : Z; nm_vns : Z; nm_created : Z; nm_updated : Z; nm_visited : Z;
  nm_attrs : bytes;
}.
Definition node_row_to_proto (row : NodeRow) : NodeMeta :=
  mk_node_meta (experiment_id row) (node_id row) (parent_node_id row) (depth row) (snapshot_ref_of row)
    (default [] (input_log_id row)) (types_status_to_proto (Meta.status row)) (score row) (visit_count row) (icount row)
    (virtual_ns row) (created_at row) (updated_at row) (last_visited_at row) (default [] (attrs row)).

Record CreateNodeRequest := mk_create_req {
  cn_experiment : bytes; cn_node : Z; cn_parent : option Z; cn_ref : bytes; cn_log : bytes; cn_inline : bytes;
  cn_status : Z; cn_score : option spec_float; cn_icount : Z; cn_vns : Z; cn_attrs : bytes;
}.
Record NodeUpdateMsg := mk_update_msg {
  um_node : Z; um_status : option Z; um_score : option spec_float; um_attrs : option bytes; um_visit_delta : option Z;
  um_touch : bool; um_icount : option Z; um_vns : option Z;
}.
Record QueryNodesRequest := mk_query_req {
  qn_experiment : bytes; qn_status : option Z; qn_parent : option Z; qn_min_depth : option Z; qn_max_depth : option Z;
  qn_created_after : option Z; qn_updated_after : option Z; qn_order : Z; qn_limit : Z;
}.
Record PutPagesResponse := mk_put_pages_resp { pp_new : Z; pp_deduped : Z; pp_blake3 : bytes }.
Record TriggerGcResponse := mk_trigger_resp {
  tg_started : bool; tg_already_running : bool; tg_nodes_reaped : Z; tg_manifests_deleted : Z; tg_pages_reclaimed : Z;
  tg_bytes_reclaimed : Z; tg_packs_compacted : Z; tg_duration_ms : Z;
}.
Record StoreStats := mk_store_stats {
  ws_unique_pages : Z; ws_physical_page_bytes : Z; ws_manifests_total : Z; ws_logical_page_bytes : Z; ws_dedup_ratio : spec_float;
  ws_experiments_total : Z; ws_nodes_total : Z; ws_pins_total : Z; ws_tombstones_total : Z; ws_logical_counter : Z;
  ws_gc_runs_total : Z; ws_gc_pages_reclaimed_total : Z; ws_gc_bytes_reclaimed_total : Z; ws_gc_last_finished : Z;
}.
Record ExperimentStats := mk_exp_stats {
  es_experiment : bytes; es_nodes_total : Z; es_frontier : Z; es_expanded : Z; es_pruned : Z; es_goal : Z;
  es_max_depth : Z; es_input_logs_total : Z; es_input_log_bytes : Z;
}.

(** ** Handlers *)

(** A message of a client stream, or a transport error. *)
Inductive stream_item := Item (pages : list bytes) | StreamError.

Module Rpc.
Section rpc.
Context {HB : Blake3} {HZ : Zstd} {HC : Crc32} {HS : Scan} (unix_now : Z).
Context (dedup_iter : list (PageHash * nat) → list (PageHash * nat)) (pack_iter : gset PackId → list PackId).

Abbreviation RPC A := (GM Server Status A).

(** [spawn_blocking(..).await]: a panic of the task is an [Internal] status. *)
Definition blocking {A} (c : RPC A) : RPC A := λ w,
  match c w with (Panic, w') => (Err (status CInternal), w') | r => r end.

Definition store_call {E A} (to_status : E → Status) (c : SM E A) : RPC A := imap_err to_status (in_store c).
Definition meta {A} (c : M MetaDb MetaError A) : RPC A :=
  imap_err meta_error_to_status (zoom (λ w : world Server, sv_meta w.2) (λ m w, (w.1, set_meta_db m w.2)) c).
(** The outcome of a task whose handle is not awaited. *)
Definition outcome {E A} (c : GM Server E A) : RPC (res E A) := λ w, let '(r, w') := c w in (Ok r, w').
Definition internal {E} (_ : E) : Status := status CInternal.

Definition validate_hash32 (b : bytes) : res Status bytes := if zlen b =? 32 then Ok b else Err (status CInvalidArgument).
Definition validate_experiment_id (s : bytes) : res Status ExperimentId := map_err (λ _, status CInvalidArgument) (ExperimentId_new s).
Definition optional_hash (b : bytes) : res Status (option bytes) :=
  if bool_decide (b = []) then Ok None else let? h := validate_hash32 b in Ok (Some h).
Definition nonempty (b : bytes) : option bytes := if bool_decide (b = []) then None else Some b.
Definition invalid_unless {E A} (r : res E A) : res Status A := map_err (λ _, status CInvalidArgument) r.

(** *** Pages and snapshots *)

Definition count_ingested (outcomes : list IngestOutcome) (x : Server) : Server :=
  let m := sv_metrics x in
  let fresh := zlen (filter (λ o, newly_written o = true) outcomes) in
  set_metrics (mk_metrics (pages_new_total m + fresh) (pages_dup_total m + (zlen outcomes - fresh)) (nodes_frontier m) (nodes_expanded m)
    (nodes_pruned m) (nodes_goal m) (integrity_errors m) (pc_bytes_in m) (pc_bytes_out m) (pc_batches_put m) (pc_batches_get m) (pc_clients m)
    (pc_crosscheck_mismatch m) (gc_cycles_total m) (gc_pages_reclaimed_total m) (gc_bytes_reclaimed_total m) (gc_manifests_deleted_total m)
    (gc_nodes_reaped_total m) (gc_packs_compacted_total m) (gc_running m)) x.

(** The messages of a stream in turn; [hashed] is what the hasher was fed. *)
Fixpoint put_pages_from (items : list stream_item) (pages_new pages_deduped : Z) (hashed : bytes) : RPC PutPagesResponse :=
  match items with
  | [] => iret (mk_put_pages_resp pages_new pages_deduped (blake3 hashed))
  | StreamError :: _ => ierr (status CInternal)
  | Item pages :: rest =>
      fail_if 256 <? zlen pages with status CInvalidArgument in
      fail_if existsb (λ p, negb (zlen p =? PAGE_SIZE)) pages with status CInvalidArgument in
      let! outcomes := blocking (store_call internal (on_pages EPageStore (ingest unix_now dedup_iter pages))) in
      imod (λ w, (w.1, count_ingested outcomes w.2)) ;!
      let fresh := zlen (filter (λ o, newly_written o = true) outcomes) in
      put_pages_from rest (pages_new + fresh) (pages_deduped + (zlen outcomes - fresh)) (hashed ++ concat (o_hash <$> outcomes))
  end.
Definition put_pages (items : list stream_item) : RPC PutPagesResponse := put_pages_from items 0 0 [].

Definition put_snapshot (container : bytes) : RPC bytes :=
  blocking (store_call put_error_to_status (SnapStore.put_snapshot pack_iter container)).

Definition snap_error_to_status (e : SnapError) : Status :=
  match e with
  | ESnapNotFound => status CNotFound
  | BaselineNotAncestor => status CInvalidArgument
  | _ => status CInternal
  end.
Definition get_error_to_status (e : SnapError) : Status :=
  match e with ESnapNotFound => status CNotFound | _ => status CInternal end.

Definition get_snapshot (snapshot_ref : bytes) : RPC bytes :=
  let! r := iof (validate_hash32 snapshot_ref) in
  blocking (store_call get_error_to_status (SnapStore.get_snapshot r)).

(** Messages of a server stream: chunks of pages, the last one possibly an
    error, on which the pages of the unfinished chunk are lost. *)
Abbreviation page_msg := (Z * bytes * bytes)%type.
Fixpoint resolve_stream (items : list (res SnapError ResolvedPage)) (batch : list page_msg) : list (res Status (list page_msg)) :=
  match items with
  | [] => if bool_decide (batch = []) then [] else [Ok batch]
  | Ok (i, h, payload) :: rest =>
      let batch := batch ++ [(i, h, default [] payload)] in
      if (512 <=? length batch)%nat then Ok batch :: resolve_stream rest [] else resolve_stream rest batch
  | Err _ :: _ => [Err (status CInternal)]
  | Panic :: _ => []
  end.

Definition resolve_pages (snapshot_ref baseline_ref : bytes) (hashes_only : bool) : RPC (list (res Status (list page_msg))) :=
  let! r := iof (validate_hash32 snapshot_ref) in
  let! baseline := iof (optional_hash baseline_ref) in
  let! resolved := outcome (in_store (SnapStore.resolve_pages r baseline hashes_only)) in
  match resolved with
  | Ok it => λ w,
      let '(items, w') := resolved_collect (S (length (rp_entries it))) it w.1 in (Ok (resolve_stream items []), (w', w.2))
  | Err e => iret [Err (snap_error_to_status e)]
  | Panic => iret []
  end.

Fixpoint parse_hashes (hs : list bytes) : res Status (list PageHash) :=
  match hs with
  | [] => Ok []
  | h :: rest => let? h := validate_hash32 h in let? rest := parse_hashes rest in Ok (h :: rest)
  end.
Definition has_pages (page_hashes : list bytes) : RPC (list bool) :=
  fail_if 4096 <? zlen page_hashes with status CInvalidArgument in
  let! hs := iof (parse_hashes page_hashes) in
  blocking (store_call internal (SnapStore.has_pages hs)).

(** *** Input logs *)

Definition put_input_log (container : bytes) : RPC (bytes * bool) :=
  let! _ := iof (invalid_unless (InputLog.decode container)) in
  let! body := iof (slice 0 (zlen container - 32) container) in
  let log_id := blake3 body in
  let! newly_stored := blocking (meta (call_bool (PutInputLog log_id container))) in
  iret (log_id, newly_stored).

Definition get_input_log (log_id : bytes) : RPC bytes :=
  let! l := iof (validate_hash32 log_id) in
  let! found := blocking (meta (meta_query (MetaRead.get_input_log l))) in
  iof (ok_or (status CNotFound) found).

(** *** Nodes *)

(** Holding the commit gate, register the reference and run the metadata
    call. *)
Definition gated {A} (refused : Code) (r : SnapshotRef) (c : M MetaDb MetaError A) : RPC A :=
  blocking (store_call (λ _ : SnapError, status refused) (register_live_ref r) ;! meta c).

Definition create_params (q : CreateNodeRequest) : res Status CreateNodeParams :=
  let? e := validate_experiment_id (cn_experiment q) in
  let? r := validate_hash32 (cn_ref q) in
  let? log := optional_hash (cn_log q) in
  let? inline := match nonempty (cn_inline q) with
                 | None => Ok None
                 | Some c => let? _ := invalid_unless (InputLog.decode c) in Ok (Some c)
                 end in
  Ok (mk_create e (cn_node q) (cn_parent q) r log inline (proto_status_to_types (cn_status q)) (cn_score q)
        (cn_icount q) (cn_vns q) (nonempty (cn_attrs q))).

Definition create_node (q : CreateNodeRequest) : RPC NodeMeta :=
  let! params := iof (create_params q) in
  let! row := gated CNotFound (cp_ref params) (call_node (CreateNode params)) in
  iret (node_row_to_proto row).

Definition node_update (u : NodeUpdateMsg) : NodeUpdate :=
  mk_update (um_node u) (proto_status_to_types <$> um_status u) (um_score u) (um_attrs u ≫= nonempty)
    (default 0 (um_visit_delta u)) (um_touch u) (um_icount u) (um_vns u).
Definition update_nodes (experiment : bytes) (updates : list NodeUpdateMsg) : RPC Z :=
  let! e := iof (validate_experiment_id experiment) in
  blocking (meta (call_u64 (UpdateNodes e (node_update <$> updates)))).

Definition get_node (experiment : bytes) (n : Z) : RPC NodeMeta :=
  let! e := iof (validate_experiment_id experiment) in
  let! row := blocking (meta (meta_query (MetaRead.get_node e n))) in
  let! row := iof (ok_or (status CNotFound) row) in
  iret (node_row_to_proto row).
Definition get_children (experiment : bytes) (n : Z) : RPC (list NodeMeta) :=
  let! e := iof (validate_experiment_id experiment) in
  let! rows := blocking (meta (meta_query (MetaRead.get_children e n))) in
  iret (node_row_to_proto <$> rows).
Definition get_path (experiment : bytes) (n : Z) (include_logs : bool) : RPC (list (NodeMeta * bytes)) :=
  let! e := iof (validate_experiment_id experiment) in
  let! rows := blocking (meta (meta_query (MetaRead.get_path e n include_logs))) in
  iret ((λ x : NodeRow * option bytes, (node_row_to_proto x.1, default [] x.2)) <$> rows).

Definition INTERNAL_BATCH : Z := 512.

(** The producer of [query_nodes], on fuel: [None] when it ends. *)
Fixpoint query_loop (fuel : nat) (f : QueryFilter) : M MetaDb Status (option (list (res Status (list NodeMeta)))) :=
  match fuel with
  | O => iret None
  | S fuel' => λ m,
      match meta_query (MetaRead.query_nodes f) m with
      | (Ok rows, m') =>
          let sent := if bool_decide (rows = []) then [] else [Ok (node_row_to_proto <$> rows)] in
          if zlen rows <? INTERNAL_BATCH then (Ok (Some sent), m') else
          match last rows, q_order f with
          | Some l, ByCreatedAt =>
              (let! rest := query_loop fuel' (mk_filter (q_experiment f) (q_status f) (q_parent f) (q_min_depth f) (q_max_depth f)
                 (q_order f) (Some (created_at l)) (q_updated_after f) (q_limit f)) in iret (app sent <$> rest)) m'
          | Some l, ByUpdatedAt =>
              (let! rest := query_loop fuel' (mk_filter (q_experiment f) (q_status f) (q_parent f) (q_min_depth f) (q_max_depth f)
                 (q_order f) (q_created_after f) (Some (updated_at l)) (q_limit f)) in iret (app sent <$> rest)) m'
          | _, _ => (Ok (Some sent), m')
          end
      | (Err e, m') => (Ok (Some [Err (meta_error_to_status e)]), m')
      | (Panic, m') => (Ok (Some []), m')
      end
  end.

Definition query_filter (q : QueryNodesRequest) : res Status QueryFilter :=
  let? e := validate_experiment_id (qn_experiment q) in
  let st := match qn_status q with
            | Some s => if s =? 0 then None else Some (proto_status_to_types s)
            | None => None
            end in
  let order := if qn_order q =? 2 then ByUpdatedAt else if qn_order q =? 3 then ByNodeId else ByCreatedAt in
  Ok (mk_filter e st (qn_parent q) (as_u32 <$> qn_min_depth q) (as_u32 <$> qn_max_depth q) order
        (qn_created_after q) (qn_updated_after q) (Some INTERNAL_BATCH)).

Definition query_nodes (fuel : nat) (q : QueryNodesRequest) : RPC (option (list (res Status (list NodeMeta)))) :=
  let! f := iof (query_filter q) in
  zoom (λ w : world Server, sv_meta w.2) (λ m w, (w.1, set_meta_db m w.2)) (query_loop fuel f).

(** *** Key-value metadata *)

Definition put_metadata (k value : bytes) (expected_generation : option Z) : RPC Z :=
  fail_if (zlen k =? 0) || (512 <? zlen k) with status CInvalidArgument in
  fail_if 16 * 1024 * 1024 <? zlen value with status CInvalidArgument in
  blocking (meta (call_u64 (PutMetadata k value expected_generation))).
Definition get_metadata (k : bytes) : RPC (bytes * Z) :=
  let! found := blocking (meta (meta_query (MetaRead.get_metadata k))) in
  iof (ok_or (status CNotFound) found).
Definition delete_metadata (k : bytes) (expected_generation : option Z) : RPC bool :=
  blocking (meta (call_bool (DeleteMetadata k expected_generation))).

(** *** Pruning and pins *)

Definition prune_subtree (experiment : bytes) (n : Z) (allow_root : bool) : RPC Z :=
  let! e := iof (validate_experiment_id experiment) in
  blocking (meta (call_u64 (PruneSubtree e n allow_root))).

Definition pin (snapshot_ref note : bytes) : RPC bool :=
  let! r := iof (validate_hash32 snapshot_ref) in
  let! before := blocking (meta (meta_query list_pins)) in
  let already := bool_decide (r ∈ pin_ref <$> before) in
  gated CFailedPrecondition r (call_unit (Pin r (nonempty note))) ;!
  iret (negb already).
Definition unpin (snapshot_ref : bytes) : RPC bool :=
  let! r := iof (validate_hash32 snapshot_ref) in
  blocking (meta (call_bool (Unpin r))).

(** *** Statistics *)

Definition set_node_gauges (s : StatsRow) (x : Server) : Server :=
  let m := sv_metrics x in
  set_metrics (mk_metrics (pages_new_total m) (pages_dup_total m) (exp_nodes_frontier s) (exp_nodes_expanded s) (exp_nodes_pruned s)
    (exp_nodes_goal s) (integrity_errors m) (pc_bytes_in m) (pc_bytes_out m) (pc_batches_put m) (pc_batches_get m) (pc_clients m)
    (pc_crosscheck_mismatch m) (gc_cycles_total m) (gc_pages_reclaimed_total m) (gc_bytes_reclaimed_total m) (gc_manifests_deleted_total m)
    (gc_nodes_reaped_total m) (gc_packs_compacted_total m) (gc_running m)) x.

Definition experiment_stats (experiment : bytes) (s : StatsRow) : ExperimentStats :=
  mk_exp_stats experiment (exp_nodes_frontier s + exp_nodes_expanded s + exp_nodes_pruned s + exp_nodes_goal s)
    (exp_nodes_frontier s) (exp_nodes_expanded s) (exp_nodes_pruned s) (exp_nodes_goal s) (exp_max_depth s)
    (exp_input_log_count s) (input_logs_bytes s).

Definition stats (experiment : bytes) : RPC (StoreStats * option ExperimentStats) :=
  let! e := iof (match nonempty experiment with
                 | None => Ok None
                 | Some s => let? e := validate_experiment_id s in Ok (Some e)
                 end) in
  let! s := blocking (meta (meta_query (MetaRead.stats e))) in
  let! g := blocking (meta (meta_query gc_state)) in
  let! ' (manifests_total, logical_page_bytes) :=
    (λ w, (Ok (manifest_count_and_logical_bytes w.1.1), w)) in
  let! unique := blocking (store_call internal (on_pages EPageStore unique_pages)) in
  let physical := unique * 4133 in
  let ratio := if physical =? 0 then f64_of 0 else SFdiv 53 1024 (f64_of logical_page_bytes) (f64_of physical) in
  (if bool_decide (e = None) then iret tt else imod (λ w, (w.1, set_node_gauges s w.2))) ;!
  λ w, let m := sv_metrics w.2 in
    (Ok (mk_store_stats unique physical manifests_total logical_page_bytes ratio (experiments_count s) (total_nodes s) (pins_count s)
           (tombstones_count s) (logical_counter s) (cycles_total g) (gc_pages_reclaimed_total m) (gc_bytes_reclaimed_total m)
           (last_finished_at g),
         match e with None => None | Some _ => Some (experiment_stats experiment s) end), w).

(** *** Garbage collection *)

(** [compact_aggressively]: threshold 0.9 and a rotation first. *)
Definition f64_0_9 : spec_float := S754_finite false 8106479329266893 (-53).
Definition gc_opts (cfg_threshold : spec_float) (cfg_grace : Z) (aggressive : bool) : GcOpts :=
  if aggressive then mk_opts f64_0_9 true cfg_grace else mk_opts cfg_threshold false cfg_grace.

Definition trigger_gc (fuel : nat) (elapsed : Z) (cfg_threshold : spec_float) (cfg_grace : Z) (aggressive : bool)
    : RPC TriggerGcResponse :=
  let! result := outcome (run_and_record unix_now fuel (gc_opts cfg_threshold cfg_grace aggressive) hooks_none elapsed) in
  match result with
  | Ok r => iret (mk_trigger_resp true false (nodes_reaped r) (gr_manifests_deleted r) (gr_pages_reclaimed r) (gr_bytes_reclaimed r)
                    (gr_packs_compacted r) (duration_ms r))
  | Err CycleAlreadyRunning => iret (mk_trigger_resp false true 0 0 0 0 0 0)
  | Err (CycleStore _) | Panic => ierr (status CInternal)
  | Err (CycleMeta e) => ierr (meta_error_to_status e)
  end.

(** With [detach] the reply does not depend on the cycle, which runs as a
    task of its own. *)
Definition trigger_gc_detached : RPC TriggerGcResponse := iret (mk_trigger_resp true false 0 0 0 0 0 0).

End rpc.
End Rpc.
