(* ===== verification/PageChannel.v ===== *)
(** * The page-channel server

    Model of [crates/snapstore-server/src/page_channel.rs] on the datagrams
    of [crates/snapstore-localpath/src/linux.rs]: the connection loop with
    its two handlers, the memfds that travel with the datagrams, and the
    shared count of pages in flight.  Log lines and the texts of error
    replies are left out; binding the socket and accepting connections are
    system calls. *)

From S2P Require Import Prelude Types LocalProto Fs Pack Index PageStore SnapStore StoreGc Sql Meta MetaRead GcCycle.

Import LocalProto.

(** ** Chunks of a slice *)

(** [slice::chunks(n)]; the fuel is the length. *)
Fixpoint chunks_from {A} (fuel n : nat) (l : list A) : list (list A) :=
  match fuel with
  | O => []
  | S fuel' => if l is [] then [] else take n l :: chunks_from fuel' n (drop n l)
  end.
Definition chunks {A} (n : nat) (l : list A) : list (list A) := chunks_from (length l) n l.
(** [slice::as_chunks::<N>().0]: the whole chunks. *)
Definition as_chunks {A} (n : nat) (l : list A) : list (list A) := chunks n (take (length l / n * n) l).

(** ** Datagrams and memfds *)

(** A received descriptor as the server sees it: the seals [F_SEAL_WRITE],
    [F_SEAL_SHRINK] and [F_SEAL_GROW], the size, and the bytes a mapping or
    a read sees.  The sender chooses all of it; [None] is a failed call. *)
Record Memfd := mk_memfd { mf_seals : option (bool * bool * bool); mf_len : option Z; mf_map : option bytes }.
Record Datagram := mk_dgram { dg_bytes : bytes; dg_fd : option Memfd }.

Definition verify_put_seals (f : Memfd) : option bool :=
  (λ s : bool * bool * bool, s.1.1 && s.1.2) <$> mf_seals f.
Definition memfd_of (write shrink grow : bool) (b : bytes) : Memfd :=
  mk_memfd (Some (write, shrink, grow)) (Some (zlen b)) (Some b).

(** The client's sealed memfd of a batch. *)
Definition create_sealed_put_memfd (pages : list bytes) : Memfd := memfd_of true true false (concat pages).

(** [write_all_at] on a file of a fixed size. *)
Definition write_at (off : nat) (data buf : bytes) : bytes := take off buf ++ data ++ drop (off + length data) buf.

(** ** Replies *)

(** Why an [ERROR] is sent; the texts are a parameter. *)
Inductive fault :=
  | FHeader (e : WireError) | FDecode (e : WireError) | FUnexpected (k : MsgKind)
  | FNoFd | FUnsealed | FSeals | FStat | FSize (len expected : Z) | FQueue (prev : Z) | FMmap | FIngest (e : StoreError)
  | FGet (e : StoreError) | FMissing (h : PageHash) | FMemfd | FWrite | FSealGet.

Definition fault_code (f : fault) : ErrorCode :=
  match f with FQueue _ => Overload | FMissing _ => NotFound | _ => Invalid end.

(** [i64] arithmetic of the atomic counter. *)
Definition fetch_add_i64 (a b : Z) : Z := as_i64 (a + b).
Definition fetch_sub_i64 (a b : Z) : Z := as_i64 (a - b).
(** The backpressure test on the value before the addition. *)
Definition over_queue (prev count max : Z) : bool := max <? prev + count.

(** Flip the first byte. *)
Definition corrupt (b : bytes) : bytes :=
  match b with [] => [] | x :: rest => to_le 1 (Z.lxor (from_le [x]) 255) ++ rest end.

(** ** Metrics of the channel *)

Definition mod_channel (f : Z * Z * Z * Z * Z * Z → Z * Z * Z * Z * Z * Z) (m : Metrics) : Metrics :=
  let '(i, o, p, g, c, x) := f (pc_bytes_in m, pc_bytes_out m, pc_batches_put m, pc_batches_get m, pc_clients m, pc_crosscheck_mismatch m) in
  mk_metrics (pages_new_total m) (pages_dup_total m) (nodes_frontier m) (nodes_expanded m) (nodes_pruned m) (nodes_goal m)
    (integrity_errors m) i o p g c x (gc_cycles_total m) (gc_pages_reclaimed_total m) (gc_bytes_reclaimed_total m)
    (gc_manifests_deleted_total m) (gc_nodes_reaped_total m) (gc_packs_compacted_total m) (gc_running m).
Definition count_put (n : Z) := mod_channel (λ '(i, o, p, g, c, x), (i + n, o, p + 1, g, c, x)).
Definition count_get (n : Z) := mod_channel (λ '(i, o, p, g, c, x), (i, o + n, p, g + 1, c, x)).
Definition count_client (n : Z) := mod_channel (λ '(i, o, p, g, c, x), (i, o, p, g, c + n, x)).
Definition count_mismatch := mod_channel (λ '(i, o, p, g, c, x), (i, o, p, g, c, x + 1)).

Section channel.
Context {HB : Blake3} {HC : Crc32} (unix_now : Z) (dedup_iter : list (PageHash * nat) → list (PageHash * nat)).
Context (detail_text : fault → bytes) (ingest_queue_pages : Z) (corrupt_cross_check_for_test : bool).

(** The counter of pages in flight beside the server's world.  An early
    return is an [Err]: whether to close, and the reply. *)
Abbreviation CW := (Z * world Server)%type.
Abbreviation Answer := (bool * Datagram)%type.
Abbreviation CM A := (M CW Answer A).

Definition refuse (close : bool) (sq : Z) (f : fault) : Answer :=
  (close, mk_dgram (encode_error sq (fault_code f) (detail_text f)) None).

Definition on_flight (f : Z → Z) : CM Z := λ w, (Ok w.1, (f w.1, w.2)).
Definition metric (f : Metrics → Metrics) : CM unit := imod (λ w, (w.1, (w.2.1, set_metrics (f (sv_metrics w.2.2)) w.2.2))).
Definition page_call {A} (c : P A) : CM (res StoreError A) := λ w,
  let '(r, v) := on_pages id c w.2.1 in (Ok r, (w.1, (v, w.2.2))).

Definition handle_put_batch (hdr : PcHdr) (body : bytes) (fd : option Memfd) : CM Answer :=
  let sq := seq hdr in
  let! n := imap_err (λ e, refuse true sq (FDecode e)) (iof (decode_put_batch hdr body)) in
  let! fd := iof (ok_or (refuse true sq FNoFd) fd) in
  let! sealed := iof (ok_or (refuse true sq FSeals) (verify_put_seals fd)) in
  fail_if negb sealed with refuse false sq FUnsealed in
  let! fd_len := iof (ok_or (refuse true sq FStat) (mf_len fd)) in
  let expected_len := n * PAGE_SIZE in
  fail_if negb (fd_len =? expected_len) with refuse false sq (FSize fd_len expected_len) in
  let! prev := on_flight (λ v, fetch_add_i64 v n) in
  let release := on_flight (λ v, fetch_sub_i64 v n) in
  if over_queue prev n ingest_queue_pages then release ;! ierr (refuse false sq (FQueue prev)) else
  match mf_map fd with
  | None => release ;! ierr (refuse true sq FMmap)
  | Some buf =>
      let! outcomes := page_call (ingest unix_now dedup_iter (as_chunks (Z.to_nat PAGE_SIZE) buf)) in
      match outcomes with
      | Err e => release ;! ierr (refuse true sq (FIngest e))
      | Panic => ipanic
      | Ok outcomes =>
          release ;!
          let fresh := zlen (filter (λ o, newly_written o = true) outcomes) in
          let check := batch_cross_check (o_hash <$> outcomes) in
          let check := if corrupt_cross_check_for_test then corrupt check else check in
          (if corrupt_cross_check_for_test then metric count_mismatch else iret tt) ;!
          metric (count_put (n * PAGE_SIZE)) ;!
          iret (false, mk_dgram (encode_put_batch_ok sq n (mk_put_ok fresh (zlen outcomes - fresh) check)) None)
      end
  end.

(** Pages staged in writes of [STAGE_PAGES]. *)
Definition STAGE_PAGES : nat := 256.
Fixpoint stage_pages (staged : list (list bytes)) (off : nat) (buf : bytes) : bytes :=
  match staged with
  | [] => buf
  | chunk :: rest => let stage := concat chunk in stage_pages rest (off + length stage) (write_at off stage buf)
  end.

(** [create_ok], [write_ok] and [seal_ok]: the memfd calls succeed. *)
Definition handle_get_batch (hdr : PcHdr) (body : bytes) (create_ok write_ok seal_ok : bool) : CM Answer :=
  let sq := seq hdr in
  let! reqs := imap_err (λ e, refuse true sq (FDecode e)) (iof (decode_get_batch hdr body)) in
  let hashes := req_hash <$> reqs in
  let! results := page_call (get_batch hashes) in
  let! results := match results with
                  | Ok r => iret r
                  | Err e => ierr (refuse true sq (FGet e))
                  | Panic => ipanic
                  end in
  match list_find (λ x, x = None) results with
  | Some (i, _) => let! h := iof (expect (hashes !! i)) in ierr (refuse false sq (FMissing h))
  | None =>
      let total_len := zlen reqs * PAGE_SIZE in
      fail_if negb create_ok with refuse true sq FMemfd in
      fail_if negb write_ok with refuse true sq FWrite in
      let buf := stage_pages (chunks STAGE_PAGES (omap id results)) 0 (zeros (Z.to_nat total_len)) in
      fail_if negb seal_ok with refuse true sq FSealGet in
      metric (count_get total_len) ;!
      iret (false, mk_dgram (encode_get_batch_data sq reqs) (Some (memfd_of false true true buf)))
  end.

(** One datagram: whether to close the connection, and the reply. *)
Definition handle_datagram (mem : bool * bool * bool) (d : Datagram) : CM Answer :=
  let! ' (hdr, body) := imap_err (λ e, refuse true 0 (FHeader e)) (iof (decode_hdr (dg_bytes d))) in
  match msg hdr with
  | PutBatch => handle_put_batch hdr body (dg_fd d)
  | GetBatch => handle_get_batch hdr body mem.1.1 mem.1.2 mem.2
  | k => ierr (refuse true (seq hdr) (FUnexpected k))
  end.

(** Every path but a panic sends one reply. *)
Definition answer (c : CM Answer) (w : CW) : option Answer * CW :=
  match c w with (Ok a, w') | (Err a, w') => (Some a, w') | (Panic, w') => (None, w') end.

(** The loop of a connection, on what [recv_datagram] returns: a datagram,
    end of stream or an error.  The result is the replies, in order; a panic
    ends the thread without the final decrement. *)
Fixpoint connection_loop (mem : bool * bool * bool) (inputs : list (res unit (option Datagram))) (w : CW) : list Datagram * CW :=
  match inputs with
  | Ok (Some d) :: rest =>
      match answer (handle_datagram mem d) w with
      | (Some (false, r), w') => let '(rs, w'') := connection_loop mem rest w' in (r :: rs, w'')
      | (Some (true, r), w') => ([r], (metric (count_client (-1)) w').2)
      | (None, w') => ([], w')
      end
  | _ => ([], (metric (count_client (-1)) w).2)
  end.

End channel.

(** ** Pages in flight under any number of connections *)

(** A connection thread inside [handle_put_batch] between the two updates of
    the counter: admitted, about to report an overload, or killed by a panic
    of [ingest]. *)
Inductive phase := InFlight (n : Z) | Refused (n : Z) | Leaked (n : Z).
Definition phase_pages (p : phase) : Z := match p with InFlight n | Refused n | Leaked n => n end.
Definition phase_held (p : phase) : Z := match p with InFlight n | Leaked n => n | Refused _ => 0 end.
Record Flow := mk_flow { fw_count : Z; fw_threads : gmap nat phase }.

(** Linux bounds the number of threads ([PID_MAX_LIMIT]). *)
Definition MAX_THREADS : nat := Z.to_nat (2 ^ 22).

Inductive flow (max : Z) : Flow → Flow → Prop :=
  | flow_enter c th i n :
      th !! i = None → (size th < MAX_THREADS)%nat → 1 ≤ n ≤ PUT_BATCH_MAX_PAGES →
      flow max (mk_flow c th)
        (mk_flow (fetch_add_i64 c n) (<[i := if over_queue c n max then Refused n else InFlight n]> th))
  | flow_leave c th i p :
      th !! i = Some p → (∀ n, p ≠ Leaked n) →
      flow max (mk_flow c th) (mk_flow (fetch_sub_i64 c (phase_pages p)) (delete i th))
  | flow_panic c th i n :
      th !! i = Some (InFlight n) → flow max (mk_flow c th) (mk_flow c (<[i := Leaked n]> th)).
