(* ===== verification/ChannelClient.v ===== *)
(** * The page-channel client

    Model of [crates/snapstore-localpath/src/client.rs] over a connection
    that sends and receives datagrams.  Two connections are given: one that
    plays back a script, and one with the server of PageChannel at its other
    end. *)

From S2P Require Import Prelude Types LocalProto Fs Pack Index PageStore SnapStore StoreGc Sql Meta MetaRead GcCycle PageChannel.
Import LocalProto.

Inductive ChannelError :=
  | ChWire (e : WireError) | ChIo | ChPeer (c : ErrorCode) (detail : bytes) | ChProtocol
  | CrossCheckMismatch (expected actual : bytes).

(** A SEQPACKET connection: [None] from [conn_recv] is end of stream. *)
Class Conn (S : Type) := {
  conn_send : Datagram → M S ChannelError unit;
  conn_recv : M S ChannelError (option Datagram);
}.

Record PutOutcome := mk_put_outcome { po_new : Z; po_deduped : Z }.

Section client.
Context {HB : Blake3} {S : Type} {HS : Conn S}.

(** The sequence counter and the connection. *)
Abbreviation C A := (M (Z * S) ChannelError A).

Definition next_seq : C Z := λ w, (Ok w.1, ((w.1 + 1) mod 2 ^ 64, w.2)).
Definition on_conn {A} (c : M S ChannelError A) : C A := zoom snd (λ s w, (w.1, s)) c.
Definition send (d : Datagram) : C unit := on_conn (conn_send d).
Definition recv : C Datagram := let! d := on_conn conn_recv in iof (ok_or ChProtocol d).

(** [mem_ok]: creating and sealing the memfd succeeds. *)
Definition put_batch (mem_ok : bool) (pages : list bytes) : C PutOutcome :=
  if negb (zlen pages <=? PUT_BATCH_MAX_PAGES) then ipanic else
  if bool_decide (pages = []) then ipanic else
  let local_cross_check := batch_cross_check (blake3 <$> pages) in
  fail_if negb mem_ok with ChIo in
  let! sq := next_seq in
  send (mk_dgram (encode_put_batch sq (as_u32 (zlen pages))) (Some (create_sealed_put_memfd pages))) ;!
  let! dgram := recv in
  let! ' (hdr, body) := imap_err ChWire (iof (decode_hdr (dg_bytes dgram))) in
  match msg hdr with
  | PutBatchOk =>
      let! ok := imap_err ChWire (iof (decode_put_batch_ok hdr body)) in
      fail_if negb (bool_decide (batch_blake3 ok = local_cross_check))
        with CrossCheckMismatch local_cross_check (batch_blake3 ok) in
      iret (mk_put_outcome (pages_new ok) (pages_deduped ok))
  | Error => let! err := imap_err ChWire (iof (decode_error hdr body)) in ierr (ChPeer (code err) (detail err))
  | _ => ierr ChProtocol
  end.

(** A sequence number for each chunk. *)
Fixpoint number (reqs : list (list GetReq)) : C (list (Z * list GetReq)) :=
  match reqs with
  | [] => iret []
  | chunk :: rest => let! sq := next_seq in let! l := number rest in iret ((sq, chunk) :: l)
  end.

Definition send_all (l : list (Z * list GetReq)) : C unit :=
  ifor l (λ c, send (mk_dgram (encode_get_batch c.1 c.2) None)).

(** The pages of one reply. *)
Definition reply_pages_of (echoed : list GetReq) (fd : option Memfd) : res ChannelError (list (Z * bytes)) :=
  let? fd := ok_or ChProtocol fd in
  let? fd_len := ok_or ChIo (mf_len fd) in
  let expected_len := zlen echoed * PAGE_SIZE in
  bail_if negb (fd_len =? expected_len) with ChProtocol in
  let? all := ok_or ChIo (mf_map fd) in
  bail_if zlen all <? expected_len with ChIo in
  Ok (zip (dst_slot <$> echoed) (as_chunks (Z.to_nat PAGE_SIZE) (take (Z.to_nat expected_len) all))).

(** [n] replies, keyed by their sequence numbers. *)
Fixpoint collect_replies (n : nat) (got : gmap Z (list (Z * bytes))) : C (gmap Z (list (Z * bytes))) :=
  match n with
  | O => iret got
  | Datatypes.S n' =>
      let! dgram := recv in
      let! ' (hdr, body) := imap_err ChWire (iof (decode_hdr (dg_bytes dgram))) in
      match msg hdr with
      | GetBatchData =>
          let! echoed := imap_err ChWire (iof (decode_get_batch_data hdr body)) in
          let! pages := iof (reply_pages_of echoed (dg_fd dgram)) in
          collect_replies n' (<[seq hdr := pages]> got)
      | Error => let! err := imap_err ChWire (iof (decode_error hdr body)) in ierr (ChPeer (code err) (detail err))
      | _ => ierr ChProtocol
      end
  end.

(** The replies in the order of the chunks; each is taken out once. *)
Fixpoint reassemble (l : list (Z * list GetReq)) (got : gmap Z (list (Z * bytes))) : list (Z * bytes) :=
  match l with
  | [] => []
  | (sq, _) :: rest => default [] (got !! sq) ++ reassemble rest (delete sq got)
  end.

Definition get_batch (reqs : list (PageHash * Z)) : C (list (Z * bytes)) :=
  if bool_decide (reqs = []) then iret [] else
  let! numbered := number (chunks (Z.to_nat GET_BATCH_MAX_PER_DATAGRAM) ((λ x : PageHash * Z, mk_req x.1 x.2) <$> reqs)) in
  send_all numbered ;!
  let! got := collect_replies (length numbered) ∅ in
  iret (reassemble numbered got).

End client.

(** ** A scripted connection *)

(** What each [recvmsg] returns, and what was sent. *)
Record Script := mk_script { sc_inbox : list (option Datagram); sc_sent : list Datagram }.
#[global] Instance script_conn : Conn Script := {
  conn_send d := λ s, (Ok tt, mk_script (sc_inbox s) (sc_sent s ++ [d]));
  conn_recv := λ s, match sc_inbox s with
                    | [] => (Ok None, s)
                    | d :: rest => (Ok d, mk_script rest (sc_sent s))
                    end;
}.

(** ** A connection to the server *)

(** The requests not yet handled, whether the server still serves the
    connection, and the server's world.  Receiving lets the server handle
    the oldest request: it answers each with one datagram, in order. *)
Record Served := mk_served { sd_open : bool; sd_pending : list Datagram; sd_world : Z * world Server }.

Section served.
Context {HB : Blake3} {HC : Crc32} (unix_now : Z) (dedup_iter : list (PageHash * nat) → list (PageHash * nat)).
Context (detail_text : fault → bytes) (ingest_queue_pages : Z).

Definition served_conn : Conn Served := {|
  conn_send d := λ s, (Ok tt, mk_served (sd_open s) (sd_pending s ++ [d]) (sd_world s));
  conn_recv := λ s,
    match sd_pending s with
    | d :: rest =>
        if sd_open s then
          match answer (handle_datagram unix_now dedup_iter detail_text ingest_queue_pages false (true, true, true) d) (sd_world s) with
          | (Some (close, r), w) => (Ok (Some r), mk_served (negb close) rest w)
          | (None, w) => (Ok None, mk_served false rest w)
          end
        else (Ok None, s)
    | [] => (Ok None, s)
    end;
|}.
End served.
