(* ===== verification/ChannelSpec.v ===== *)
(** * The page channel end to end

    The client of ChannelClient against the server of PageChannel: what is
    put comes back from a get, batch splitting and staging included.  Then
    the shared page count under any number of connections, and a flaw of the
    client's error path. *)

From S2P Require Import Prelude Types LocalProto Fs Pack Index Names ReadCache PageStore PageStoreInv PageStoreIngest PageStoreRead PageStoreSpec SnapStore StoreGc Sql Meta MetaRead GcCycle PageChannel ChannelClient.
Import LocalProto.

(** ** Chunks *)

Lemma chunks_from_concat {A} fuel n (ps : list (list A)) :
  n ≠ O → Forall (λ p, length p = n) ps → (length ps ≤ fuel)%nat → chunks_from fuel n (concat ps) = ps.
Proof.
  intros Hn. revert ps. induction fuel as [|fuel IH]; intros [|p ps] Hf Hl; cbn [length] in Hl; [done|lia|done|].
  apply Forall_cons in Hf as [Hp Hf]. cbn [chunks_from concat]. destruct (p ++ concat ps) as [|x l] eqn:He.
  { apply app_nil in He as [-> _]. cbn in Hp. lia. }
  rewrite <-He, take_app_length', drop_app_length' by lia. f_equal. apply IH; [done|lia].
Qed.

Lemma length_concat_pages {A} n (ps : list (list A)) : Forall (λ p, length p = n) ps → length (concat ps) = (length ps * n)%nat.
Proof. induction 1 as [|p ps Hp _ IH]; [done|]. cbn [concat length]. rewrite length_app, IH. lia. Qed.

Lemma chunks_concat {A} n (ps : list (list A)) : n ≠ O → Forall (λ p, length p = n) ps → chunks n (concat ps) = ps.
Proof.
  intros Hn Hf. apply chunks_from_concat; [done|done|]. rewrite (length_concat_pages n) by done. nia.
Qed.

Lemma as_chunks_concat {A} n (ps : list (list A)) : n ≠ O → Forall (λ p, length p = n) ps → as_chunks n (concat ps) = ps.
Proof.
  intros Hn Hf. unfold as_chunks. rewrite take_ge; [by apply chunks_concat|].
  rewrite (length_concat_pages n) by done. by rewrite Nat.div_mul.
Qed.

Lemma concat_chunks_from {A} fuel n (l : list A) : n ≠ O → (length l ≤ fuel)%nat → concat (chunks_from fuel n l) = l.
Proof.
  intros Hn. revert l. induction fuel as [|fuel IH]; intros [|x l] Hl; cbn [length] in Hl; [done|lia|done|].
  cbn [chunks_from concat]. rewrite IH; [apply take_drop|]. rewrite length_drop. cbn [length]. lia.
Qed.
Lemma concat_chunks {A} n (l : list A) : n ≠ O → concat (chunks n l) = l.
Proof. intros Hn. by apply concat_chunks_from. Qed.

Lemma chunks_from_bounds {A} fuel n (l : list A) : n ≠ O → Forall (λ c, (0 < length c ≤ n)%nat) (chunks_from fuel n l).
Proof.
  intros Hn. revert l. induction fuel as [|fuel IH]; intros [|x l]; [constructor..|]. constructor; [|apply IH].
  rewrite length_take. cbn [length]. lia.
Qed.
Lemma chunks_bounds {A} n (l : list A) : n ≠ O → Forall (λ c, (0 < length c ≤ n)%nat) (chunks n l).
Proof. apply chunks_from_bounds. Qed.

(** Staged writes fill the file from [off] on. *)
Lemma stage_pages_eq staged off buf :
  length buf = (off + length (concat (concat staged)))%nat →
  stage_pages staged off buf = take off buf ++ concat (concat staged).
Proof.
  revert off buf. induction staged as [|chunk staged IH]; intros off buf Hl; cbn [stage_pages concat] in *.
  { rewrite app_nil_r. rewrite take_ge; [done|]. cbn in Hl. lia. }
  rewrite concat_app, length_app in Hl. unfold write_at. rewrite IH.
  - rewrite concat_app, take_app. rewrite length_take, Nat.min_l by lia. rewrite (take_ge (take off buf)) by (rewrite length_take; lia).
    rewrite <-app_assoc. f_equal. rewrite take_app_length' by lia. done.
  - rewrite !length_app, length_take, length_drop. lia.
Qed.

(** The counter returns to where it was. *)
Lemma flight_restored v n : i64_ok v → fetch_sub_i64 (fetch_add_i64 v n) n = v.
Proof.
  unfold i64_ok, fetch_sub_i64, fetch_add_i64, as_i64. intros Hv.
  replace ((v + n + 2 ^ 63) mod 2 ^ 64 - 2 ^ 63 - n + 2 ^ 63) with ((v + n + 2 ^ 63) mod 2 ^ 64 - n) by lia.
  rewrite Zminus_mod_idemp_l. replace (v + n + 2 ^ 63 - n) with (v + 2 ^ 63) by lia. rewrite Z.mod_small; lia.
Qed.

(** ** The wire, per message kind *)

Lemma message_parts d m : decode_message d = Ok m →
  ∃ hdr body, decode_hdr d = Ok (hdr, body) ∧
    match m with
    | MPutBatch sq n => msg hdr = PutBatch ∧ seq hdr = sq ∧ decode_put_batch hdr body = Ok n
    | MPutBatchOk sq n b => msg hdr = PutBatchOk ∧ seq hdr = sq ∧ decode_put_batch_ok hdr body = Ok b
    | MGetBatch sq rs => msg hdr = GetBatch ∧ seq hdr = sq ∧ decode_get_batch hdr body = Ok rs
    | MGetBatchData sq rs => msg hdr = GetBatchData ∧ seq hdr = sq ∧ decode_get_batch_data hdr body = Ok rs
    | MError sq b => msg hdr = Error ∧ seq hdr = sq ∧ decode_error hdr body = Ok b
    end.
Proof.
  unfold decode_message. intros Hd. apply rbind_Ok in Hd as ([hdr body] & Hh & Hd). exists hdr, body. split; [done|].
  destruct (msg hdr); apply rbind_Ok in Hd as (x & Hx & [= <-]); done.
Qed.

Lemma sent_parts m : message_ok m →
  ∃ hdr body, decode_hdr (encode_message m) = Ok (hdr, body) ∧
    match m with
    | MPutBatch sq n => msg hdr = PutBatch ∧ seq hdr = sq ∧ decode_put_batch hdr body = Ok n
    | MPutBatchOk sq n b => msg hdr = PutBatchOk ∧ seq hdr = sq ∧ decode_put_batch_ok hdr body = Ok b
    | MGetBatch sq rs => msg hdr = GetBatch ∧ seq hdr = sq ∧ decode_get_batch hdr body = Ok rs
    | MGetBatchData sq rs => msg hdr = GetBatchData ∧ seq hdr = sq ∧ decode_get_batch_data hdr body = Ok rs
    | MError sq b => msg hdr = Error ∧ seq hdr = sq ∧ decode_error hdr body = Ok b
    end.
Proof. intros Hm. by apply message_parts, decode_encode_message. Qed.

(** ** The server's answers *)

Section serve.
Context {HB : Blake3} {HC : Crc32} (unix_now : Z) (dedup_iter : list (PageHash * nat) → list (PageHash * nat)).
Context (detail_text : fault → bytes) (max : Z).

Abbreviation handle := (handle_datagram unix_now dedup_iter detail_text max false (true, true, true)).
Definition with_store (ps : PageStore) (pf : fs) (v : SnapshotStore * disk) : SnapshotStore * disk := (set_pages ps v.1, (pf, v.2.2)).

Definition put_counts (outs : list IngestOutcome) : Z * Z :=
  let fresh := zlen (filter (λ o, newly_written o = true) outs) in (fresh, zlen outs - fresh).

Lemma answer_put sq pages fl v x outs ps' pf' :
  u64_ok sq → Forall (λ p, zlen p = PAGE_SIZE) pages → 1 ≤ zlen pages ≤ PUT_BATCH_MAX_PAGES →
  i64_ok fl → fl + zlen pages ≤ max →
  ingest unix_now dedup_iter pages (ss_pages v.1, v.2.1) = (Ok outs, (ps', pf')) →
  ∃ x', answer (handle (mk_dgram (encode_put_batch sq (zlen pages)) (Some (create_sealed_put_memfd pages)))) (fl, (v, x)) =
    (Some (false, mk_dgram (encode_put_batch_ok sq (zlen pages)
       (mk_put_ok (put_counts outs).1 (put_counts outs).2 (batch_cross_check (o_hash <$> outs)))) None),
     (fl, (with_store ps' pf' v, x'))).
Proof.
  intros Hsq Hpl Hn Hfl Hroom Hing.
  destruct (sent_parts (MPutBatch sq (zlen pages)) ltac:(by split)) as (hdr & body & Hh & Hk & Hs & Hd). cbn [encode_message] in Hh.
  assert (Forall (λ p : bytes, length p = Z.to_nat PAGE_SIZE) pages) as Hpl'.
  { eapply Forall_impl; [exact Hpl|]. intros p Hp. unfold zlen in Hp. cbn in *. lia. }
  assert (zlen (concat pages) = zlen pages * PAGE_SIZE) as Hlen.
  { unfold zlen at 1. rewrite (length_concat_pages (Z.to_nat PAGE_SIZE)) by done. unfold zlen, PAGE_SIZE. lia. }
  eexists. unfold answer, handle_datagram. cbn [dg_bytes dg_fd].
  erewrite ibind_step by (apply imap_step; unfold iof; by rewrite Hh). cbn [fst snd]. rewrite Hk. unfold handle_put_batch. rewrite Hs.
  erewrite ibind_step by (apply imap_step; unfold iof; by rewrite Hd).
  erewrite ibind_step by reflexivity. erewrite ibind_step by reflexivity. cbv iota beta. cbn [negb andb fst snd].
  erewrite ibind_step by reflexivity. cbn [mf_len memfd_of create_sealed_put_memfd]. rewrite Hlen, Z.eqb_refl. cbn [negb].
  erewrite ibind_step by reflexivity. cbn [fst snd]. unfold over_queue. rewrite (proj2 (Z.ltb_ge _ _)) by lia.
  cbn [mf_map memfd_of create_sealed_put_memfd]. rewrite as_chunks_concat by done.
  erewrite ibind_step.
  2: { unfold page_call. cbn [fst snd]. unfold on_pages, imap_err, zoom. rewrite Hing. reflexivity. }
  cbn [map_err fst snd]. erewrite ibind_step by reflexivity. cbn [fst snd]. erewrite ibind_step by reflexivity. erewrite ibind_step by reflexivity.
  unfold iret. cbn [fst snd]. rewrite flight_restored by done. unfold with_store, put_counts. destruct v as [st [pf t]]. reflexivity.
Qed.

Lemma find_none_somes {A} (ds : list A) : list_find (λ x : option A, x = None) (Some <$> ds) = None.
Proof. apply list_find_None, Forall_fmap, Forall_forall. by intros d _. Qed.

Lemma omap_somes {A} (ds : list A) : omap id (Some <$> ds) = ds.
Proof. induction ds as [|d ds IH]; [done|]. cbn. by rewrite <-IH at 2. Qed.

Lemma answer_get sq reqs fl v x ds ps' pf' :
  u64_ok sq → reqs_ok reqs → length ds = length reqs → Forall (λ p, zlen p = PAGE_SIZE) ds →
  PageStore.get_batch (req_hash <$> reqs) (ss_pages v.1, v.2.1) = (Ok (Some <$> ds), (ps', pf')) →
  ∃ x', answer (handle (mk_dgram (encode_get_batch sq reqs) None)) (fl, (v, x)) =
    (Some (false, mk_dgram (encode_get_batch_data sq reqs) (Some (memfd_of false true true (concat ds)))), (fl, (with_store ps' pf' v, x'))).
Proof.
  intros Hsq Hok Hl Hpl Hget.
  destruct (sent_parts (MGetBatch sq reqs) ltac:(by split)) as (hdr & body & Hh & Hk & Hs & Hd). cbn [encode_message] in Hh.
  assert (Forall (λ p : bytes, length p = Z.to_nat PAGE_SIZE) ds) as Hpl'.
  { eapply Forall_impl; [exact Hpl|]. intros p Hp. unfold zlen in Hp. cbn in *. lia. }
  assert (stage_pages (chunks STAGE_PAGES ds) 0 (zeros (Z.to_nat (zlen reqs * PAGE_SIZE))) = concat ds) as Hst.
  { rewrite stage_pages_eq; rewrite concat_chunks by done; [done|]. unfold zeros. rewrite length_replicate.
    rewrite (length_concat_pages (Z.to_nat PAGE_SIZE)) by done. rewrite Hl. unfold zlen, PAGE_SIZE. lia. }
  eexists. unfold answer, handle_datagram. cbn [dg_bytes dg_fd].
  erewrite ibind_step by (apply imap_step; unfold iof; by rewrite Hh). cbn [fst snd]. rewrite Hk. unfold handle_get_batch. rewrite Hs.
  erewrite ibind_step by (apply imap_step; unfold iof; by rewrite Hd).
  erewrite ibind_step.
  2: { unfold page_call. cbn [fst snd]. unfold on_pages, imap_err, zoom. rewrite Hget. reflexivity. }
  cbn [map_err fst snd]. erewrite ibind_step by reflexivity. rewrite find_none_somes, omap_somes. cbn [negb].
  erewrite ibind_step by reflexivity. unfold iret. cbn [fst snd]. rewrite Hst. unfold with_store. destruct v as [st [pf t]]. reflexivity.
Qed.

(** ** Putting *)

#[local] Instance to_server : Conn Served := served_conn unix_now dedup_iter detail_text max.

Lemma put_counts_bounds outs : 0 ≤ (put_counts outs).1 ∧ 0 ≤ (put_counts outs).2 ∧ (put_counts outs).1 + (put_counts outs).2 = zlen outs.
Proof.
  unfold put_counts, zlen. cbn [fst snd]. pose proof (length_filter (λ o, newly_written o = true) outs). lia.
Qed.

Lemma recv_answer {A} (k : Datagram → M (Z * Served) ChannelError A) sq d rest w close r w' :
  answer (handle d) w = (Some (close, r), w') →
  ibind recv k (sq, mk_served true (d :: rest) w) = k r (sq, mk_served (negb close) rest w').
Proof.
  intros Ha. rewrite (ibind_step recv k _ r (sq, mk_served (negb close) rest w')); [done|].
  unfold recv, on_conn, ibind, zoom. cbn [fst snd conn_recv to_server served_conn sd_pending sd_open sd_world]. by rewrite Ha.
Qed.

Lemma client_put sq pages fl v x outs ps' pf' :
  u64_ok sq → Forall (λ p, zlen p = PAGE_SIZE) pages → 1 ≤ zlen pages ≤ PUT_BATCH_MAX_PAGES →
  i64_ok fl → fl + zlen pages ≤ max →
  ingest unix_now dedup_iter pages (ss_pages v.1, v.2.1) = (Ok outs, (ps', pf')) → o_hash <$> outs = blake3 <$> pages →
  ∃ x', put_batch true pages (sq, mk_served true [] (fl, (v, x))) =
    (Ok (mk_put_outcome (put_counts outs).1 (put_counts outs).2),
     ((sq + 1) mod 2 ^ 64, mk_served true [] (fl, (with_store ps' pf' v, x')))).
Proof.
  intros Hsq Hpl Hn Hfl Hroom Hing Hh. destruct (answer_put sq pages fl v x outs ps' pf' Hsq Hpl Hn Hfl Hroom Hing) as [x' Ha]. exists x'.
  unfold put_batch. rewrite (proj2 (Z.leb_le _ _)) by lia. cbn [negb]. rewrite bool_decide_eq_false_2 by (intros ->; unfold zlen in Hn; cbn in Hn; lia).
  cbv zeta. erewrite ibind_step by reflexivity. cbn [fst snd]. rewrite as_u32_id by (unfold u32_ok, PUT_BATCH_MAX_PAGES in *; lia).
  erewrite ibind_step by reflexivity. cbn [fst snd sd_open sd_pending sd_world app].
  rewrite (recv_answer _ _ _ _ _ _ _ _ Ha). cbn [negb dg_bytes].
  set (b := mk_put_ok _ _ _). assert (zlen outs = zlen pages) as Hlo by (rewrite <-(zlen_fmap o_hash), Hh; apply zlen_fmap).
  pose proof (put_counts_bounds outs) as (? & ? & ?).
  destruct (sent_parts (MPutBatchOk sq (zlen pages) b)) as (hdr & body & Hd & Hk & Hs & Hb).
  { split_and!; [done|unfold u32_ok, PUT_BATCH_MAX_PAGES in *; lia|cbn [b pages_new]|cbn [b pages_deduped]|apply zlen_blake3];
      unfold u32_ok, PUT_BATCH_MAX_PAGES in *; lia. }
  cbn [encode_message] in Hd. erewrite ibind_step by (apply imap_step; unfold iof; by rewrite Hd). cbn [fst snd]. rewrite Hk.
  erewrite ibind_step by (apply imap_step; unfold iof; by rewrite Hb). cbn [b batch_blake3]. rewrite Hh, bool_decide_eq_true_2 by done. done.
Qed.

(** ** Getting *)

(** A batch of which every hash is indexed comes back whole. *)
Lemma answers_somes packs ps s hashes out :
  store_inv packs ps s → answers packs ps hashes out → (∀ h, h ∈ hashes → is_Some (index_get (ps_index ps) h)) →
  ∃ ds, out = Some <$> ds ∧ blake3 <$> ds = hashes ∧ Forall (λ d, zlen d = PAGE_SIZE) ds.
Proof.
  intros Hi [Hl Ha]. revert out Hl Ha. induction hashes as [|h hs IH]; intros [|o out] Hl Ha Hx; cbn in Hl; [by exists []|lia|lia|].
  destruct (IH out) as (ds & -> & Hb & Hz); [lia|intros i; apply (Ha (S i))|intros h' ?; apply Hx; by right|].
  pose proof (Ha 0%nat h eq_refl) as H0. destruct (Hx h ltac:(by left)) as [l Hl0]. rewrite Hl0 in H0. destruct H0 as (d & [= ->] & Hp).
  destruct (page_of_hash packs ps s l h d Hi Hp) as [Hd Hz0]. exists (d :: ds). cbn. rewrite Hb, Hd. split_and!; [done|done|by constructor].
Qed.

Definition request_of (c : Z * list GetReq) : Datagram := mk_dgram (encode_get_batch c.1 c.2) None.
Definition reply_of (c : Z * list GetReq) (ds : list bytes) : list (Z * bytes) := zip (dst_slot <$> c.2) ds.
Fixpoint fill (l : list (Z * list GetReq)) (dss : list (list bytes)) (got : gmap Z (list (Z * bytes))) : gmap Z (list (Z * bytes)) :=
  match l, dss with
  | c :: l, ds :: dss => fill l dss (<[c.1 := reply_of c ds]> got)
  | _, _ => got
  end.

Lemma fill_other l dss got sq : sq ∉ l.*1 → fill l dss got !! sq = got !! sq.
Proof.
  revert dss got. induction l as [|c l IH]; intros [|ds dss] got Hn; try done. cbn in *. apply not_elem_of_cons in Hn as [Hne Hn].
  rewrite IH by done. by apply lookup_insert_ne.
Qed.
Lemma fill_delete l dss got sq : sq ∉ l.*1 → delete sq (fill l dss got) = fill l dss (delete sq got).
Proof.
  revert dss got. induction l as [|c l IH]; intros [|ds dss] got Hn; try done. cbn in *. apply not_elem_of_cons in Hn as [Hne Hn].
  rewrite IH by done. by rewrite delete_insert_ne.
Qed.

Lemma reassemble_fill l dss got : NoDup l.*1 → length dss = length l → reassemble l (fill l dss got) = concat (zip_with reply_of l dss).
Proof.
  revert dss got. induction l as [|[sq rs] l IH]; intros [|ds dss] got Hnd Hl; cbn in Hl; try lia; [done|].
  cbn in Hnd. apply NoDup_cons in Hnd as [Hn Hnd]. cbn. rewrite fill_other by done. rewrite lookup_insert_eq. cbn. f_equal.
  rewrite fill_delete by done. apply IH; [done|lia].
Qed.

Lemma reply_pages_ok rs ds :
  Forall (λ d, zlen d = PAGE_SIZE) ds → length ds = length rs →
  reply_pages_of rs (Some (memfd_of false true true (concat ds))) = Ok (zip (dst_slot <$> rs) ds).
Proof.
  intros Hpl Hl. assert (Forall (λ p : bytes, length p = Z.to_nat PAGE_SIZE) ds) as Hpl'.
  { eapply Forall_impl; [exact Hpl|]. intros p Hp. unfold zlen in Hp. cbn in *. lia. }
  assert (zlen (concat ds) = zlen rs * PAGE_SIZE) as Hlen.
  { unfold zlen at 1. rewrite (length_concat_pages (Z.to_nat PAGE_SIZE)) by done. rewrite Hl. unfold zlen, PAGE_SIZE. lia. }
  unfold reply_pages_of. cbn [ok_or rbind memfd_of mf_len mf_map]. rewrite Hlen, Z.eqb_refl. cbn [negb].
  rewrite (proj2 (Z.ltb_ge _ _)) by lia. rewrite take_ge by (unfold zlen in *; lia). by rewrite as_chunks_concat.
Qed.

(** The replies to a list of requests, against a healthy store. *)
Lemma collect_replies_ok packs sqn l rest got fl v x :
  Forall (λ c, u64_ok c.1 ∧ reqs_ok c.2) l → store_ok packs (ss_pages v.1) v.2.1 → calm v.2.1 →
  (∀ c r, c ∈ l → r ∈ c.2 → is_Some (index_get (ps_index (ss_pages v.1)) (req_hash r))) →
  ∃ dss ps' pf' x', collect_replies (length l) got (sqn, mk_served true ((request_of <$> l) ++ rest) (fl, (v, x))) =
      (Ok (fill l dss got), (sqn, mk_served true rest (fl, (with_store ps' pf' v, x')))) ∧
    Forall2 (λ c ds, blake3 <$> ds = req_hash <$> c.2) l dss ∧ store_ok packs ps' pf' ∧ ps_index ps' = ps_index (ss_pages v.1).
Proof.
  revert got v x. induction l as [|[sq rs] l IH]; intros got v x Hf Hok Hs Hx.
  { exists [], (ss_pages v.1), v.2.1, x. destruct v as [[] [pf t]]. split_and!; [done|constructor|done|done]. }
  apply Forall_cons in Hf as [[Hsq Hrs] Hf]. cbn [fst snd] in Hsq, Hrs.
  destruct (get_batch_ok packs _ _ (req_hash <$> rs) Hok Hs) as (out & ps1 & pf1 & Hg & Hs1 & Hok1 & Hx1 & _ & _ & Ha).
  destruct (answers_somes packs _ _ _ _ (proj1 Hok) Ha) as (ds & -> & Hb & Hz).
  { intros h (r & -> & Hr)%list_elem_of_fmap. eapply (Hx (sq, rs)); [by left|done]. }
  assert (length ds = length rs) as Hl by (rewrite <-(length_fmap blake3 ds), Hb; apply length_fmap).
  destruct (answer_get sq rs fl v x ds ps1 pf1 Hsq Hrs Hl Hz Hg) as [x1 Han].
  destruct (IH (<[sq := reply_of (sq, rs) ds]> got) (with_store ps1 pf1 v) x1 Hf Hok1 Hs1) as (dss & ps' & pf' & x' & Hc & H2 & Hok' & Hx').
  { intros c r Hc Hr. cbn. rewrite Hx1. eapply Hx; [by right|done]. }
  exists (ds :: dss), ps', pf', x'. split; [|split_and!; [by constructor|done|cbn in Hx'; congruence]].
  cbn [length collect_replies fmap list_fmap app]. rewrite (recv_answer _ _ _ _ _ _ _ _ Han). cbn [negb dg_bytes dg_fd].
  destruct (sent_parts (MGetBatchData sq rs) ltac:(by split)) as (hdr & body & Hd & Hk & Hsq' & Hb'). cbn [encode_message] in Hd.
  erewrite ibind_step by (apply imap_step; unfold iof; by rewrite Hd). cbn [fst snd]. rewrite Hk.
  erewrite ibind_step by (apply imap_step; unfold iof; by rewrite Hb').
  erewrite ibind_step by (unfold iof; by rewrite reply_pages_ok). rewrite Hsq'. exact Hc.
Qed.

Lemma number_ok chs sq (s : Served) : u64_ok sq → sq + Z.of_nat (length chs) < 2 ^ 64 →
  ∃ l, number chs (sq, s) = (Ok l, (sq + Z.of_nat (length chs), s)) ∧ l.*2 = chs ∧ NoDup l.*1 ∧ Forall (λ n, sq ≤ n < 2 ^ 64) l.*1.
Proof.
  revert sq. induction chs as [|ch chs IH]; intros sq Hsq Hn; cbn [number length] in *.
  { exists []. unfold iret. rewrite Z.add_0_r. split_and!; [done|done|constructor|constructor]. }
  unfold u64_ok in Hsq. erewrite ibind_step by reflexivity. cbn [fst snd]. rewrite Z.mod_small by lia.
  destruct (IH (sq + 1)) as (l & Hr & H2 & Hnd & Hf); [unfold u64_ok; lia|lia|].
  exists ((sq, ch) :: l). erewrite ibind_step by exact Hr. unfold iret. cbn. rewrite H2. split_and!; [do 2 f_equal; lia|done| |].
  - apply NoDup_cons. split; [|done]. intros Hin. rewrite Forall_forall in Hf. specialize (Hf _ Hin). lia.
  - constructor; [lia|]. eapply Forall_impl; [exact Hf|]. cbn. lia.
Qed.

Lemma send_all_ok l q o p w :
  send_all l (q, mk_served o p w) = (Ok tt, (q, mk_served o (p ++ (request_of <$> l)) w)).
Proof.
  revert p. induction l as [|c l IH]; intros p; cbn; [by rewrite app_nil_r|]. unfold send_all in IH.
  unfold send, on_conn, zoom. cbn. rewrite IH. by rewrite <-app_assoc.
Qed.

Lemma zip_replies l dss :
  Forall2 (λ c ds, blake3 <$> ds = req_hash <$> c.2) l dss →
  concat (zip_with reply_of l dss) = zip (dst_slot <$> concat l.*2) (concat dss) ∧ blake3 <$> concat dss = req_hash <$> concat l.*2.
Proof.
  induction 1 as [|[sq rs] ds l dss Hb _ [IH1 IH2]]; [done|]. cbn in *. rewrite !fmap_app, IH1, IH2, Hb. split; [|done].
  unfold reply_of. cbn. rewrite zip_with_app; [done|]. rewrite length_fmap. rewrite <-(length_fmap blake3 ds), Hb. by rewrite length_fmap.
Qed.

Lemma Forall_concat {A} (Q : A → Prop) (ls : list (list A)) : Forall Q (concat ls) → Forall (Forall Q) ls.
Proof. induction ls as [|l ls IH]; [constructor|]. cbn. intros [? ?]%Forall_app. constructor; auto. Qed.

Lemma client_get packs sq reqs fl v x :
  u64_ok sq → sq + zlen reqs < 2 ^ 64 → Forall (λ r : PageHash * Z, hash_ok r.1 ∧ u64_ok r.2) reqs →
  store_ok packs (ss_pages v.1) v.2.1 → calm v.2.1 →
  (∀ r, r ∈ reqs → is_Some (index_get (ps_index (ss_pages v.1)) r.1)) →
  ∃ ds w', get_batch reqs (sq, mk_served true [] (fl, (v, x))) = (Ok (zip reqs.*2 ds), w') ∧ blake3 <$> ds = reqs.*1.
Proof.
  intros Hsq Hn Hf Hok Hs Hx. unfold get_batch. case_bool_decide as Hnil; [subst; by exists [], (sq, mk_served true [] (fl, (v, x)))|].
  set (rs := (λ r : PageHash * Z, mk_req r.1 r.2) <$> reqs). set (n := Z.to_nat GET_BATCH_MAX_PER_DATAGRAM).
  assert (concat (chunks n rs) = rs) as Hcc by by apply concat_chunks. pose proof (chunks_bounds n rs ltac:(done)) as Hcb.
  assert (length (chunks n rs) ≤ length reqs)%nat as Hlc.
  { rewrite <-(length_fmap (λ r : PageHash * Z, mk_req r.1 r.2) reqs). fold rs. rewrite <-Hcc at 2. clear -Hcb.
    induction Hcb as [|c cs [Hc _] _ IH]; cbn; [lia|]. rewrite length_app. lia. }
  destruct (number_ok (chunks n rs) sq (mk_served true [] (fl, (v, x))) Hsq) as (l & Hnum & Hl2 & Hnd & Hl1); [unfold zlen in Hn; lia|].
  erewrite ibind_step by exact Hnum. erewrite ibind_step by apply send_all_ok. cbn [app].
  assert (Forall req_ok rs) as Hrok. { apply Forall_fmap. eapply Forall_impl; [exact Hf|]. by intros []. }
  destruct (collect_replies_ok packs (sq + Z.of_nat (length (chunks n rs))) l [] ∅ fl v x) as (dss & ps' & pf' & x' & Hc & H2 & _); [|done|done| |].
  - apply Forall_forall. intros c Hc. rewrite Forall_forall in Hl1. split.
    + specialize (Hl1 c.1 (list_elem_of_fmap_2 _ _ _ Hc)). unfold u64_ok in *. lia.
    + assert (c.2 ∈ chunks n rs) as Hin by (rewrite <-Hl2; by apply list_elem_of_fmap_2).
      rewrite <-Hcc in Hrok. apply Forall_concat in Hrok. rewrite Forall_forall in Hrok, Hcb. split; [by apply Hrok|].
      specialize (Hcb _ Hin). unfold zlen, n, GET_BATCH_MAX_PER_DATAGRAM in *. lia.
  - intros c r Hc Hr. assert (r ∈ rs) as Hin.
    { rewrite <-Hcc. apply list_elem_of_In, in_concat. exists c.2. split; [|by apply list_elem_of_In].
      apply list_elem_of_In. rewrite <-Hl2. by apply list_elem_of_fmap_2. }
    apply list_elem_of_fmap in Hin as (q & -> & Hq). cbn. by apply Hx.
  - rewrite app_nil_r in Hc. erewrite ibind_step by exact Hc. destruct (zip_replies _ _ H2) as [Hz Hb]. rewrite Hl2, Hcc in Hz, Hb.
    exists (concat dss). eexists. unfold iret. rewrite reassemble_fill by (done || symmetry; by eapply Forall2_length). rewrite Hz. split.
    + unfold rs. rewrite <-list_fmap_compose. reflexivity.
    + rewrite Hb. unfold rs. rewrite <-list_fmap_compose. reflexivity.
Qed.

(** C8. The page channel end to end.  A client that puts a batch of pages
    (at most 8192, while the queue has room for them) is told how many were
    new and how many were known, all of them counted, and the count of pages
    in flight is back where it was.  Getting the pages by hash afterwards
    returns a page for every request, under the slot the request named, in
    the order of the requests, however many datagrams the requests take; each
    page has the requested hash. *)
Theorem channel_put_get packs sq pages slots fl v x :
  (∀ l, dedup_iter l ≡ₚ l) → store_ok packs (ss_pages v.1) v.2.1 → calm v.2.1 → has_room (ss_pages v.1) (length pages) →
  Forall (λ p, zlen p = PAGE_SIZE) pages → 1 ≤ zlen pages ≤ PUT_BATCH_MAX_PAGES → length slots = length pages → Forall u64_ok slots →
  i64_ok fl → fl + zlen pages ≤ max → u64_ok sq → sq + 1 + zlen pages < 2 ^ 64 →
  ∃ out w1 ds w2, put_batch true pages (sq, mk_served true [] (fl, (v, x))) = (Ok out, w1) ∧
    po_new out + po_deduped out = zlen pages ∧ (sd_world w1.2).1 = fl ∧
    get_batch (zip (blake3 <$> pages) slots) w1 = (Ok (zip slots ds), w2) ∧ blake3 <$> ds = blake3 <$> pages.
Proof.
  intros Hit Hok Hs Hroom Hpl Hn Hsl Hu Hfl Hmax Hsq Hsn.
  destruct (ingest_ok unix_now dedup_iter packs _ _ pages Hit Hok Hs Hpl Hroom) as (outs & packs' & ps' & pf' & Hing & Hig & Hok' & Hs' & _).
  assert (o_hash <$> outs = blake3 <$> pages) as Hh.
  { apply list_eq_same_length with (length pages); rewrite ?length_fmap; [done|apply Hig|]. intros i h h' Hi. rewrite !list_lookup_fmap.
    destruct (lookup_lt_is_Some_2 pages i Hi) as [p Hp]. destruct (ig_outcome _ _ _ _ Hig i p Hp) as (l & b & -> & _). rewrite Hp.
    cbn. congruence. }
  destruct (client_put sq pages fl v x outs ps' pf' Hsq Hpl Hn Hfl Hmax Hing Hh) as [x1 Hput].
  destruct (client_get packs' (sq + 1) (zip (blake3 <$> pages) slots) fl (with_store ps' pf' v) x1) as (ds & w2 & Hget & Hb); [..|done|done| |].
  - unfold u64_ok in *. lia.
  - unfold zlen in *. rewrite length_zip_with, length_fmap. lia.
  - apply Forall_forall. intros [h s] Hin. pose proof (elem_of_zip_l _ _ _ _ Hin) as Hl.
    pose proof (elem_of_zip_r _ _ _ _ Hin) as Hr. apply list_elem_of_fmap in Hl as (p & -> & _). split; [apply blake3_hash_ok|].
    rewrite Forall_forall in Hu. by apply Hu.
  - intros [h s] Hin. pose proof (elem_of_zip_l _ _ _ _ Hin) as Hl. apply list_elem_of_fmap in Hl as (p & -> & Hp).
    apply list_elem_of_lookup in Hp as [i Hp]. destruct (ig_outcome _ _ _ _ Hig i p Hp) as (l & b & _ & Hx & _). cbn. by eexists.
  - rewrite snd_zip in Hget by (rewrite length_fmap; lia). rewrite fst_zip in Hb by (rewrite length_fmap; lia).
    rewrite Z.mod_small in Hput by (unfold u64_ok, zlen in *; lia).
    eexists _, _, ds, w2. split; [exact Hput|]. split_and!; [|done|exact Hget|done].
    destruct (put_counts_bounds outs) as (_ & _ & Hc). cbn [po_new po_deduped]. rewrite Hc. unfold zlen. by rewrite (ig_length _ _ _ _ Hig).
Qed.

(** ** A refused get leaves replies behind *)

Lemma answer_missing packs sq reqs fl v x :
  u64_ok sq → reqs_ok reqs → store_ok packs (ss_pages v.1) v.2.1 → calm v.2.1 →
  (∃ r, r ∈ reqs ∧ index_get (ps_index (ss_pages v.1)) (req_hash r) = None) →
  ∃ h ps' pf', answer (handle (mk_dgram (encode_get_batch sq reqs) None)) (fl, (v, x)) =
      (Some (refuse detail_text false sq (FMissing h)), (fl, (with_store ps' pf' v, x))) ∧
    store_ok packs ps' pf' ∧ calm pf' ∧ ps_index ps' = ps_index (ss_pages v.1).
Proof.
  intros Hsq Hrs Hok Hs (r & Hr & Hnone).
  destruct (get_batch_ok packs _ _ (req_hash <$> reqs) Hok Hs) as (out & ps' & pf' & Hg & Hs' & Hok' & Hx & _ & _ & Hl & Ha).
  destruct (sent_parts (MGetBatch sq reqs) ltac:(by split)) as (hdr & body & Hh & Hk & Hsq' & Hd). cbn [encode_message] in Hh.
  destruct (list_find (λ o : option bytes, o = None) out) as [[i o]|] eqn:Hf.
  - pose proof (proj1 (list_find_Some _ _ _ _) Hf) as (Hi & _ & _). apply lookup_lt_Some in Hi. rewrite Hl in Hi.
    destruct (lookup_lt_is_Some_2 _ _ Hi) as [h Hi']. exists h, ps', pf'. split; [|done].
    unfold answer, handle_datagram. cbn [dg_bytes dg_fd].
    erewrite ibind_step by (apply imap_step; unfold iof; by rewrite Hh). cbn [fst snd]. rewrite Hk. unfold handle_get_batch. rewrite Hsq'.
    erewrite ibind_step by (apply imap_step; unfold iof; by rewrite Hd).
    erewrite ibind_step; [|unfold page_call; cbn [fst snd]; unfold on_pages, imap_err, zoom; rewrite Hg; reflexivity].
    cbn [map_err fst snd]. erewrite ibind_step by reflexivity. rewrite Hf. erewrite ibind_step by (unfold iof; by rewrite Hi'). reflexivity.
  - exfalso. apply list_find_None in Hf. rewrite Forall_forall in Hf.
    apply list_elem_of_lookup in Hr as [i Hi]. specialize (Ha i (req_hash r)). rewrite list_lookup_fmap, Hi, Hnone in Ha.
    by apply (Hf None (list_elem_of_lookup_2 _ _ _ (Ha eq_refl))).
Qed.

Lemma number_two a b sq (s : Served) : u64_ok sq → sq + 2 < 2 ^ 64 → number [a; b] (sq, s) = (Ok [(sq, a); (sq + 1, b)], (sq + 2, s)).
Proof.
  unfold u64_ok. intros Hsq Hn. unfold number, next_seq, ibind, iret. cbn [fst snd]. rewrite !(Z.mod_small (sq + 1)) by lia.
  rewrite Z.mod_small by lia. do 2 f_equal. lia.
Qed.

Lemma chunks_two {A} n (a b : list A) : n ≠ O → length a = n → (0 < length b ≤ n)%nat → chunks n (a ++ b) = [a; b].
Proof.
  intros Hn Ha Hb. unfold chunks. destruct a as [|x a]; [cbn in Ha; lia|]. destruct b as [|y b]; [cbn in Hb; lia|].
  rewrite length_app. cbn [length Nat.add app chunks_from]. change (x :: a ++ y :: b) with ((x :: a) ++ (y :: b)).
  rewrite take_app_length', drop_app_length' by done. replace (length a + S (length b))%nat with (S (length a + length b)) by lia.
  cbn [chunks_from]. rewrite take_ge, drop_ge by lia. by destruct (length a + length b)%nat.
Qed.

(** The second datagram's request stays unanswered, and its reply is the
    next one the client receives. *)
Lemma failed_get packs sq ra rb fl v x :
  (∀ h, utf8_valid (detail_text (FMissing h)) = true ∧ zlen (detail_text (FMissing h)) ≤ 1024) →
  u64_ok sq → sq + 2 < 2 ^ 64 → store_ok packs (ss_pages v.1) v.2.1 → calm v.2.1 →
  Forall (λ r : PageHash * Z, hash_ok r.1 ∧ u64_ok r.2) ra → zlen ra = GET_BATCH_MAX_PER_DATAGRAM →
  1 ≤ zlen rb ≤ GET_BATCH_MAX_PER_DATAGRAM → (∃ r, r ∈ ra ∧ index_get (ps_index (ss_pages v.1)) r.1 = None) →
  ∃ text ps' pf', get_batch (ra ++ rb) (sq, mk_served true [] (fl, (v, x))) =
      (Err (ChPeer NotFound text),
       (sq + 2, mk_served true [request_of (sq + 1, (λ r : PageHash * Z, mk_req r.1 r.2) <$> rb)] (fl, (with_store ps' pf' v, x)))) ∧
    store_ok packs ps' pf' ∧ calm pf' ∧ ps_index ps' = ps_index (ss_pages v.1).
Proof.
  intros Htext Hsq Hn Hok Hs Hf Hla Hlb (r & Hr & Hnone). set (mk := λ r : PageHash * Z, mk_req r.1 r.2).
  assert (reqs_ok (mk <$> ra)) as Hra.
  { split; [apply Forall_fmap; eapply Forall_impl; [exact Hf|]; by intros []|]. rewrite zlen_fmap, Hla. done. }
  destruct (answer_missing packs sq (mk <$> ra) fl v x Hsq Hra Hok Hs) as (h & ps' & pf' & Han & Hok' & Hs' & Hx').
  { exists (mk r). split; [by apply list_elem_of_fmap_2|done]. }
  exists (detail_text (FMissing h)), ps', pf'. split; [|done]. unfold get_batch.
  rewrite bool_decide_eq_false_2 by (intros Heq%app_nil; destruct Heq as [-> _]; by apply not_elem_of_nil in Hr).
  fold mk. rewrite fmap_app, chunks_two; [|done|rewrite length_fmap; unfold zlen in Hla; lia|rewrite length_fmap; unfold zlen in Hlb; lia].
  erewrite ibind_step by (by apply number_two). erewrite ibind_step by apply send_all_ok. cbn [app fmap list_fmap length collect_replies].
  unfold ibind at 1. rewrite (recv_answer _ _ _ _ _ _ _ _ Han). cbn [dg_bytes snd refuse negb].
  destruct (sent_parts (MError sq (mk_err NotFound (detail_text (FMissing h))))) as (hdr & body & Hd & Hk & _ & Hb).
  { cbn. split; [done|]. destruct (Htext h). split; [done|]. unfold DATAGRAM_MAX, HDR_SIZE, ERR_PREFIX_SIZE. lia. }
  cbn [encode_message code detail] in Hd. erewrite ibind_step by (apply imap_step; unfold iof; cbn [fault_code]; by rewrite Hd).
  cbn [fst snd]. rewrite Hk. erewrite ibind_step by (apply imap_step; unfold iof; by rewrite Hb). reflexivity.
Qed.

(** C39. A flaw of the client.  [get_batch] stops at the first error reply
    and leaves the replies to its other datagrams in the socket.  When the
    first of two datagrams names a page the store lacks, the call fails with
    [NotFound] as documented, but the next [get_batch] on the same
    connection, for a page the store has, takes the left-over reply for its
    own: it returns success without any page. *)
Theorem failed_get_desyncs packs sq ra rb fl v x :
  (∀ h, utf8_valid (detail_text (FMissing h)) = true ∧ zlen (detail_text (FMissing h)) ≤ 1024) →
  u64_ok sq → sq + 3 < 2 ^ 64 → store_ok packs (ss_pages v.1) v.2.1 → calm v.2.1 →
  Forall (λ r : PageHash * Z, hash_ok r.1 ∧ u64_ok r.2) (ra ++ rb) → zlen ra = GET_BATCH_MAX_PER_DATAGRAM →
  1 ≤ zlen rb ≤ GET_BATCH_MAX_PER_DATAGRAM → (∃ r, r ∈ ra ∧ index_get (ps_index (ss_pages v.1)) r.1 = None) →
  (∀ r, r ∈ rb → is_Some (index_get (ps_index (ss_pages v.1)) r.1)) →
  ∃ text w1, get_batch (ra ++ rb) (sq, mk_served true [] (fl, (v, x))) = (Err (ChPeer NotFound text), w1) ∧
    ∀ r, r ∈ rb → ∃ w2, get_batch [r] w1 = (Ok [], w2).
Proof.
  intros Htext Hsq Hn Hok Hs [Hfa Hfb]%Forall_app Hla Hlb Hmiss Hx. set (mk := λ r : PageHash * Z, mk_req r.1 r.2).
  destruct (failed_get packs sq ra rb fl v x Htext Hsq ltac:(lia) Hok Hs Hfa Hla Hlb Hmiss) as (text & ps' & pf' & Hg & Hok' & Hs' & Hx').
  eexists text, _. split; [exact Hg|]. intros [h slot] Hr. fold mk.
  assert (u64_ok (sq + 1) ∧ reqs_ok (mk <$> rb)) as Hold.
  { split; [unfold u64_ok in *; lia|]. split; [apply Forall_fmap; eapply Forall_impl; [exact Hfb|]; by intros []|by rewrite zlen_fmap]. }
  destruct (collect_replies_ok packs (sq + 3) [(sq + 1, mk <$> rb)] [request_of (sq + 2, [mk (h, slot)])] ∅ fl (with_store ps' pf' v) x) as (dss & ps2 & pf2 & x2 & Hc & H2 & _);
    [by constructor|done|done| |].
  { intros c r ->%list_elem_of_singleton Hc. cbn in Hc. apply list_elem_of_fmap in Hc as (q & -> & Hq). cbn. rewrite Hx'. by apply Hx. }
  eexists. unfold get_batch. cbn [bool_decide]. rewrite bool_decide_eq_false_2 by done.
  change (chunks _ _) with [[mk (h, slot)]].
  erewrite ibind_step by (unfold number, next_seq, ibind, iret; cbn [fst snd]; rewrite Z.mod_small by (unfold u64_ok in *; lia); reflexivity).
  erewrite ibind_step by apply send_all_ok. cbn [app fmap list_fmap length] in *. replace (sq + 2 + 1) with (sq + 3) by lia.
  erewrite ibind_step by exact Hc. unfold iret. inversion H2 as [|? ds ? dss' Hb Hnil]; subst. inversion Hnil; subst. cbn.
  rewrite lookup_insert_ne by lia. by rewrite lookup_empty.
Qed.

End serve.

(** ** Pages in flight under any number of connections *)

Definition total (f : phase → Z) (th : gmap nat phase) : Z := map_fold (λ _ p acc, f p + acc) 0 th.

Lemma total_insert f th i p : th !! i = None → total f (<[i := p]> th) = f p + total f th.
Proof. intros Hn. unfold total. rewrite map_fold_insert_L; [done| |done]. intros. lia. Qed.
Lemma total_delete f th i p : th !! i = Some p → total f th = f p + total f (delete i th).
Proof. intros Hp. rewrite <-(insert_delete_id th i p) at 1 by done. apply total_insert, lookup_delete_eq. Qed.
Lemma total_bounds f B th : (∀ i p, th !! i = Some p → 0 ≤ f p ≤ B) → 0 ≤ total f th ≤ B * Z.of_nat (size th).
Proof.
  revert th. apply (map_ind (λ th, (∀ i p, th !! i = Some p → 0 ≤ f p ≤ B) → 0 ≤ total f th ≤ B * Z.of_nat (size th))).
  { intros _. unfold total. rewrite map_fold_empty, map_size_empty. lia. }
  intros i p th Hn IH Hf. rewrite total_insert, map_size_insert_None by done.
  pose proof (Hf i p (lookup_insert_eq _ _ _)). assert (0 ≤ total f th ≤ B * Z.of_nat (size th)); [|lia].
  apply IH. intros j q Hj. apply (Hf j q). rewrite lookup_insert_ne; [done|]. congruence.
Qed.

(** The counter is the sum over the threads inside, of which the admitted
    ones stay within the queue. *)
Record flow_inv (max : Z) (s : Flow) : Prop := {
  fi_count : fw_count s = total phase_pages (fw_threads s);
  fi_held : total phase_held (fw_threads s) ≤ max;
  fi_pages : ∀ i p, fw_threads s !! i = Some p → 1 ≤ phase_pages p ≤ PUT_BATCH_MAX_PAGES;
  fi_size : (size (fw_threads s) ≤ MAX_THREADS)%nat;
}.

Lemma flow_range max s : flow_inv max s → total phase_held (fw_threads s) ≤ fw_count s ≤ 2 ^ 35 ∧ 0 ≤ fw_count s.
Proof.
  intros [Hc _ Hp Hs]. rewrite Hc. destruct s as [c th]. cbn [fw_threads] in *.
  destruct (total_bounds phase_pages PUT_BATCH_MAX_PAGES th) as [H1 H2]; [intros i p Hi; specialize (Hp i p Hi); lia|].
  assert (PUT_BATCH_MAX_PAGES * Z.of_nat (size th) ≤ 2 ^ 35).
  { transitivity (PUT_BATCH_MAX_PAGES * Z.of_nat MAX_THREADS); [unfold PUT_BATCH_MAX_PAGES; lia|]. unfold MAX_THREADS. rewrite Z2Nat.id; done. }
  split; [|lia]. split; [|lia]. clear Hc Hs H1 H2. revert th Hp H. apply (map_ind (λ th, (∀ i p, th !! i = Some p → 1 ≤ phase_pages p ≤ PUT_BATCH_MAX_PAGES) →
    PUT_BATCH_MAX_PAGES * Z.of_nat (size th) ≤ 2 ^ 35 → total phase_held th ≤ total phase_pages th)).
  { intros _ _. unfold total. by rewrite !map_fold_empty. }
  intros i p th Hn IH Hp Hsz. rewrite !total_insert, map_size_insert_None in * by done.
  pose proof (Hp i p (lookup_insert_eq _ _ _)). assert (total phase_held th ≤ total phase_pages th).
  { apply IH; [|unfold PUT_BATCH_MAX_PAGES in *; lia]. intros j q Hj. apply (Hp j q). rewrite lookup_insert_ne; [done|]. congruence. }
  destruct p; cbn in *; lia.
Qed.

Lemma flow_step max s s' : flow_inv max s → flow max s s' → flow_inv max s'.
Proof.
  intros Hi Hst. pose proof (flow_range _ _ Hi) as [Hr Hr0]. destruct Hi as [Hc Hh Hp Hs]. destruct Hst as [c th i n Hn Hsz Hb|c th i p Hi Hl|c th i n Hi];
    cbn [fw_count fw_threads] in *.
  - assert (fetch_add_i64 c n = c + n) as -> by (unfold fetch_add_i64; apply as_i64_id; unfold i64_ok, PUT_BATCH_MAX_PAGES in *; lia).
    split; cbn [fw_count fw_threads].
    + rewrite total_insert by done. destruct (over_queue c n max); cbn; lia.
    + rewrite total_insert by done. destruct (over_queue c n max) eqn:Ho; cbn; [lia|]. unfold over_queue in Ho. b2p. lia.
    + intros j q [[<- <-]|[_ Hj]]%lookup_insert_Some; [by destruct (over_queue c n max)|by eapply Hp].
    + rewrite map_size_insert_None by done. lia.
  - pose proof (total_delete phase_pages _ _ _ Hi) as Ht. pose proof (total_delete phase_held _ _ _ Hi) as Hth. specialize (Hp _ _ Hi) as Hpi.
    assert (fetch_sub_i64 c (phase_pages p) = c - phase_pages p) as ->.
    { unfold fetch_sub_i64. apply as_i64_id. unfold i64_ok, PUT_BATCH_MAX_PAGES in *. lia. }
    split; cbn [fw_count fw_threads]; [lia| | |].
    + assert (0 ≤ phase_held p) by (destruct p; cbn in *; lia). lia.
    + intros j q [_ Hj]%lookup_delete_Some. by eapply Hp.
    + rewrite map_size_delete_Some by by eexists. lia.
  - split; cbn [fw_count fw_threads].
    + rewrite <-insert_delete_eq, total_insert by apply lookup_delete_eq. rewrite (total_delete _ _ _ _ Hi) in Hc. done.
    + rewrite <-insert_delete_eq, total_insert by apply lookup_delete_eq. rewrite (total_delete _ _ _ _ Hi) in Hh. done.
    + intros j q [[<- <-]|[_ Hj]]%lookup_insert_Some; [by apply (Hp i (InFlight n))|by eapply Hp].
    + rewrite map_size_insert_Some by by eexists. done.
Qed.

(** C27. Backpressure under concurrency.  However the connection threads
    interleave their additions, refusals and releases, the pages of the
    batches being ingested never exceed [ingest_queue_pages], although a
    refused batch is counted for a moment; the counter never leaves the
    range of its machine integer, and it is zero again when no thread is
    inside a handler.  A thread that panics keeps its share. *)
Theorem in_flight_bounded max s :
  0 ≤ max → rtc (flow max) (mk_flow 0 ∅) s →
  total phase_held (fw_threads s) ≤ max ∧ 0 ≤ fw_count s ≤ 2 ^ 35 ∧ (fw_threads s = ∅ → fw_count s = 0).
Proof.
  intros Hm Hr. assert (flow_inv max s) as Hi.
  { assert (flow_inv max (mk_flow 0 ∅)) as H0 by (split; cbn; [done|done|done|rewrite map_size_empty; lia]).
    clear Hm. induction Hr as [|x y z Hst _ IH]; [done|]. by eapply IH, flow_step. }
  pose proof (flow_range _ _ Hi). split_and!; [apply Hi|lia|lia|]. intros He. by rewrite (fi_count _ _ Hi), He.
Qed.
