(* ===== verification/ServiceGc.v ===== *)
(** * Requests served while a garbage-collection cycle runs

    The handlers of Service and PageChannel are the other threads of a
    collection cycle.  Each of them respects the conditions under which the
    cycle is safe: it only adds to the store, and a reference it brings into
    the metadata database was registered, with its closure stored, while it
    held the commit gate.  Hence a cycle with any requests served at its
    callback points is safe. *)

From S2P Require Import Prelude Types Manifest InputLog LocalProto Fs Pack Index Names ReadCache PageStore PageStoreInv PageStoreIngest PageStoreGc SnapStore StoreGc SnapStoreInv SnapStoreRead StoreGcInv StoreRely Sql Meta MetaRead MetaHandle GcCycle GcCycleSpec Service PageChannel ChannelSpec.

(** ** Computations that keep a relation between worlds *)

Section tame.
Context (Pre : world Server → Prop) (R : world Server → world Server → Prop) {HR : PreOrder R}.
Context (HPre : ∀ w w', Pre w → R w w' → Pre w').

Definition tame {E A} (c : GM Server E A) : Prop := ∀ w, Pre w → R w (c w).2.

Lemma tame_of {E A} (r : res E A) : tame (iof r).
Proof. intros w _. unfold iof. reflexivity. Qed.
Lemma tame_ret {E A} (a : A) : tame (E:=E) (iret a).
Proof. apply (tame_of (Ok a)). Qed.
Lemma tame_err {E A} (e : E) : tame (A:=A) (ierr e).
Proof. apply (tame_of (Err e)). Qed.
Lemma tame_bind {E A B} (c : GM Server E A) (k : A → GM Server E B) : tame c → (∀ a, tame (k a)) → tame (ibind c k).
Proof.
  intros Hc Hk w Hw. unfold ibind. pose proof (Hc w Hw) as H1. destruct (c w) as [[a|e|] w']; cbn in *; [|done..].
  etrans; [exact H1|]. eapply Hk, HPre; done.
Qed.
Lemma tame_if {E A} (b : bool) (c d : GM Server E A) : tame c → tame d → tame (if b then c else d).
Proof. by destruct b. Qed.
Lemma tame_map_err {E F A} (f : E → F) (c : GM Server E A) : tame c → tame (imap_err f c).
Proof. intros Hc w Hw. specialize (Hc w Hw). unfold imap_err. by destruct (c w). Qed.
Lemma tame_blocking {A} (c : GM Server Status A) : tame c → tame (Rpc.blocking c).
Proof. intros Hc w Hw. specialize (Hc w Hw). unfold Rpc.blocking. by destruct (c w) as [[] ?]. Qed.
Lemma tame_outcome {E A} (c : GM Server E A) : tame c → tame (Rpc.outcome c).
Proof. intros Hc w Hw. specialize (Hc w Hw). unfold Rpc.outcome. by destruct (c w). Qed.

End tame.

(** ** Requests *)

(** Every request but [TriggerGc], which a running cycle answers with
    [already_running]. *)
Inductive request :=
  | RPutPages (items : list stream_item)
  | RPutSnapshot (container : bytes)
  | RGetSnapshot (r : bytes)
  | RResolvePages (r baseline : bytes) (hashes_only : bool)
  | RHasPages (hs : list bytes)
  | RPutInputLog (container : bytes)
  | RGetInputLog (l : bytes)
  | RCreateNode (q : CreateNodeRequest)
  | RUpdateNodes (e : bytes) (us : list NodeUpdateMsg)
  | RGetNode (e : bytes) (n : Z)
  | RGetChildren (e : bytes) (n : Z)
  | RGetPath (e : bytes) (n : Z) (logs : bool)
  | RQueryNodes (fuel : nat) (q : QueryNodesRequest)
  | RPutMetadata (k v : bytes) (g : option Z)
  | RGetMetadata (k : bytes)
  | RDeleteMetadata (k : bytes) (g : option Z)
  | RPruneSubtree (e : bytes) (n : Z) (allow_root : bool)
  | RPin (r note : bytes)
  | RUnpin (r : bytes)
  | RStats (e : bytes)
  | RChannel (max : Z) (corrupt : bool) (mem : bool * bool * bool) (in_flight : Z) (d : Datagram).

(** ** Handlers that bring no reference and write no page *)

Section quiet.
Context {HB : Blake3} {HZ : Zstd} {HC : Crc32} {HS : Scan} (config : MetaConfig).
Context (Pre : world Server → Prop) (R : world Server → world Server → Prop) {HR : PreOrder R}.
Context (HPre : ∀ w w', Pre w → R w w' → Pre w').
Context (Hstore : ∀ E A (f : E → Status) (c : SM E A), still c → nondec c → tame Pre R (Rpc.store_call f c)).
Context (Hmeta : ∀ A (c : M MetaDb MetaError A), (∀ m, shrinks config m (c m).2) → tame Pre R (Rpc.meta c)).
Context (Hserver : ∀ E (f : Server → Server), (∀ x, sv_meta (f x) = sv_meta x) → tame Pre R (E:=E) (imod (λ w, (w.1, f w.2)))).

Abbreviation T c := (tame Pre R c).

Lemma shrinks_bool cmd m : brought cmd = [] → shrinks config m (call_bool cmd m).2.
Proof.
  intros Hb. pose proof (shrinks_call config cmd m Hb) as Hc. unfold call_bool, ibind. destruct (meta_call cmd m) as [[[]|e|] m']; done.
Qed.

Lemma T_query {A} (f : db → res SqlError A) : T (Rpc.blocking (Rpc.meta (meta_query f))).
Proof. apply tame_blocking, Hmeta. intros m. apply shrinks_read. Qed.
Lemma T_u64 cmd : brought cmd = [] → T (Rpc.blocking (Rpc.meta (call_u64 cmd))).
Proof. intros Hb. apply tame_blocking, Hmeta. intros m. by apply shrinks_u64. Qed.
Lemma T_bool cmd : brought cmd = [] → T (Rpc.blocking (Rpc.meta (call_bool cmd))).
Proof. intros Hb. apply tame_blocking, Hmeta. intros m. by apply shrinks_bool. Qed.
Lemma T_bind {E A B} (c : GM Server E A) (k : A → GM Server E B) : T c → (∀ a, T (k a)) → T (ibind c k).
Proof. by apply tame_bind. Qed.
Lemma T_of {E A} (r : res E A) : T (iof r).
Proof. by apply tame_of. Qed.
Lemma T_ret {E A} (a : A) : T (iret (E:=E) a).
Proof. by apply tame_ret. Qed.
Lemma T_err {E A} (e : E) : T (ierr (A:=A) e).
Proof. by apply tame_err. Qed.
Lemma T_if {E A} (b : bool) (c d : GM Server E A) : T c → T d → T (if b then c else d).
Proof. apply tame_if. Qed.

Create HintDb tame.
#[local] Hint Resolve T_query T_u64 T_bool T_of T_ret T_err T_if : tame.
#[local] Hint Extern 1 (brought _ = []) => reflexivity : tame.
Ltac tame := repeat first [solve [auto with tame] | apply T_bind; [|intros ?]].

Lemma T_get_snapshot r : T (Rpc.get_snapshot r).
Proof. unfold Rpc.get_snapshot. tame. apply tame_blocking, Hstore; [apply still_get_snapshot|apply nondec_on_tree]. Qed.
Lemma T_has_pages hs : T (Rpc.has_pages hs).
Proof.
  unfold Rpc.has_pages. apply T_if; [auto with tame|]. tame. apply tame_blocking, Hstore; [apply still_has_pages|].
  apply nondec_pages, np_contains.
Qed.
Lemma T_put_input_log c : T (Rpc.put_input_log c).
Proof. unfold Rpc.put_input_log. tame. Qed.
Lemma T_get_input_log l : T (Rpc.get_input_log l).
Proof. unfold Rpc.get_input_log. tame. Qed.
Lemma T_update_nodes e us : T (Rpc.update_nodes e us).
Proof. unfold Rpc.update_nodes. tame. Qed.
Lemma T_get_node e n : T (Rpc.get_node e n).
Proof. unfold Rpc.get_node. tame. Qed.
Lemma T_get_children e n : T (Rpc.get_children e n).
Proof. unfold Rpc.get_children. tame. Qed.
Lemma T_get_path e n b : T (Rpc.get_path e n b).
Proof. unfold Rpc.get_path. tame. Qed.
Lemma T_put_metadata k v g : T (Rpc.put_metadata k v g).
Proof. unfold Rpc.put_metadata. repeat (apply T_if; [auto with tame|]). tame. Qed.
Lemma T_get_metadata k : T (Rpc.get_metadata k).
Proof. unfold Rpc.get_metadata. tame. Qed.
Lemma T_delete_metadata k g : T (Rpc.delete_metadata k g).
Proof. unfold Rpc.delete_metadata. tame. Qed.
Lemma T_prune_subtree e n b : T (Rpc.prune_subtree e n b).
Proof. unfold Rpc.prune_subtree. tame. Qed.
Lemma T_unpin r : T (Rpc.unpin r).
Proof. unfold Rpc.unpin. tame. Qed.

Lemma T_stats e : T (Rpc.stats e).
Proof.
  unfold Rpc.stats. apply T_bind; [auto with tame|]. intros x. apply T_bind; [auto with tame|]. intros s.
  apply T_bind; [auto with tame|]. intros g. apply T_bind; [intros w _; reflexivity|]. intros [total logical].
  apply T_bind; [apply tame_blocking, Hstore; [apply still_unique_pages|apply nondec_pages, np_unique]|]. intros u. cbv zeta.
  apply T_bind; [apply T_if; [auto with tame|by apply Hserver]|]. intros _ w _. reflexivity.
Qed.

(** The query loop only reads. *)
Lemma shrinks_query_loop fuel f m : shrinks config m (Rpc.query_loop fuel f m).2.
Proof.
  revert f m. induction fuel as [|k IH]; intros f m; [done|]. cbn [Rpc.query_loop].
  pose proof (shrinks_read config (λ d, map_err MSqlite (MetaRead.query_nodes f d)) m) as Hr. fold (meta_query (MetaRead.query_nodes f)) in Hr.
  destruct (meta_query (MetaRead.query_nodes f) m) as [[rows|e|] m1]; cbn [snd] in *; [|done..].
  cbv zeta. destruct (_ <? _); [done|]. destruct (last rows) as [l|]; [|by destruct (q_order f)].
  assert (∀ g (h : option (list (res Status (list NodeMeta))) → option (list (res Status (list NodeMeta)))),
    shrinks config m (ibind (Rpc.query_loop k g) (λ rest, iret (h rest)) m1).2) as Hk.
  { intros g h. specialize (IH g m1). unfold ibind. destruct (Rpc.query_loop k g m1) as [[x|?|] m2]; cbn in *; intros Hm;
      destruct (Hr Hm) as [Hm1 Hr1]; destruct (IH Hm1) as [Hm2 Hr2]; eauto. }
  destruct (q_order f); [apply Hk|apply Hk|done].
Qed.

Lemma T_query_nodes fuel q : T (Rpc.query_nodes fuel q).
Proof.
  unfold Rpc.query_nodes. apply T_bind; [auto with tame|]. intros f w Hw.
  pose proof (Hmeta _ (λ m, let '(r, m') := Rpc.query_loop fuel f m in (Ok r, m'))) as Hm.
  assert (T (Rpc.meta (λ m, let '(r, m') := Rpc.query_loop fuel f m in (Ok (E:=MetaError) r, m')))) as Ht.
  { apply Hmeta. intros m. pose proof (shrinks_query_loop fuel f m). by destruct (Rpc.query_loop fuel f m). }
  specialize (Ht w Hw). unfold Rpc.meta, imap_err, zoom in *. by destruct (Rpc.query_loop fuel f (sv_meta w.2)).
Qed.
End quiet.

(** ** What a datagram does *)

Section datagram.
Context {HB : Blake3} {HC : Crc32} (unix_now : Z) (dedup_iter : list (PageHash * nat) → list (PageHash * nat)).
Context (detail_text : fault → bytes).

Abbreviation CM A := (M (Z * world Server) (bool * Datagram) A).

(** The store goes from [cw.2.1] to some [v] with [V]; of the server only the
    metrics change. *)
Definition touches (V : SnapshotStore * disk → SnapshotStore * disk → Prop) {A} (c : CM A) : Prop :=
  ∀ cw, ∃ v m, V cw.2.1 v ∧ (c cw).2.2 = (v, set_metrics m cw.2.2).
Definition spares {A} (c : CM A) : Prop := touches eq c.

Lemma spares_same {A} (c : CM A) : (∀ cw, (c cw).2.2 = cw.2) → spares c.
Proof. intros Hc cw. exists cw.2.1, (sv_metrics cw.2.2). split; [done|]. rewrite Hc. by destruct cw as [? [? []]]. Qed.
Lemma spares_of {A} (r : res (bool * Datagram) A) : spares (iof r).
Proof. by apply spares_same. Qed.
Lemma spares_metric f : spares (metric f).
Proof. intros cw. exists cw.2.1. eexists. split; [done|]. reflexivity. Qed.
Lemma spares_flight f : spares (on_flight f).
Proof. by apply spares_same. Qed.
Lemma spares_map {A} (f : LocalProto.WireError → bool * Datagram) (r : res LocalProto.WireError A) : spares (imap_err f (iof r)).
Proof. apply spares_same. intros cw. by destruct r. Qed.

Lemma touches_pre V {A B} (c : CM A) (k : A → CM B) : (∀ v, V v v) → spares c → (∀ a, touches V (k a)) → touches V (ibind c k).
Proof.
  intros HV Hc Hk cw. destruct (Hc cw) as (v & m & <- & He). unfold ibind. destruct (c cw) as [[a|e|] cw']; cbn [snd] in He;
    [|exists cw.2.1, m; by split..]. destruct (Hk a cw') as (v' & m' & Hv & He'). rewrite He in Hv, He'. exists v', m'. done.
Qed.
Lemma touches_post V {A B} (c : CM A) (k : A → CM B) : touches V c → (∀ a, spares (k a)) → touches V (ibind c k).
Proof.
  intros Hc Hk cw. destruct (Hc cw) as (v & m & Hv & He). unfold ibind. destruct (c cw) as [[a|e|] cw']; cbn [snd] in He;
    [|exists v, m; by split..]. destruct (Hk a cw') as (v' & m' & <- & He'). rewrite He in He'. exists v, m'. done.
Qed.
Lemma spares_bind {A B} (c : CM A) (k : A → CM B) : spares c → (∀ a, spares (k a)) → spares (ibind c k).
Proof. apply touches_pre. done. Qed.
Lemma spares_touches V {A} (c : CM A) : (∀ v, V v v) → spares c → touches V c.
Proof. intros HV Hc cw. destruct (Hc cw) as (v & m & <- & He). by exists cw.2.1, m. Qed.
Lemma touches_if V {A} (b : bool) (c d : CM A) : touches V c → touches V d → touches V (if b then c else d).
Proof. by destruct b. Qed.
Lemma touches_call V {A} (c : P A) : (∀ v, V v (on_pages id c v).2) → touches V (page_call c).
Proof.
  intros HV [fl [v x]]. exists (on_pages id c v).2, (sv_metrics x). split; [apply HV|]. unfold page_call. cbn.
  destruct (on_pages id c v). by destruct x.
Qed.

Lemma touches_ok V {A B} (a : A) (k : A → CM B) : touches V (k a) → touches V (ibind (iof (Ok a)) k).
Proof. done. Qed.
Lemma touches_err V {A} (e : bool * Datagram) : (∀ v, V v v) → touches V (A:=A) (ierr e).
Proof. intros HV. apply spares_touches; [done|]. by apply spares_same. Qed.

Create HintDb spares.
#[local] Hint Resolve spares_of spares_metric spares_flight spares_map spares_bind touches_if : spares.

(** The one thing a datagram may do to the store. *)
Definition datagram_effect (d : Datagram) (v v' : SnapshotStore * disk) : Prop :=
  v' = v ∨ (∃ f buf, dg_fd d = Some f ∧ mf_map f = Some buf ∧ v' = (on_pages id (ingest unix_now dedup_iter (as_chunks (Z.to_nat PAGE_SIZE) buf)) v).2) ∨
  (∃ hs, v' = (on_pages id (PageStore.get_batch hs) v).2).

Lemma put_touches max corrupt hdr body d :
  touches (datagram_effect d) (handle_put_batch unix_now dedup_iter detail_text max corrupt hdr body (dg_fd d)).
Proof.
  assert (∀ v, datagram_effect d v v) as Hrefl by by left. unfold handle_put_batch. cbv zeta.
  apply touches_pre; [done|auto with spares|]. intros n. destruct (dg_fd d) as [f|] eqn:Hf.
  2: { apply spares_touches; [done|]. by apply spares_same. }
  apply touches_ok. apply touches_pre; [done|auto with spares|]. intros sealed. apply touches_if; [by apply touches_err|].
  apply touches_pre; [done|auto with spares|]. intros len. apply touches_if; [by apply touches_err|].
  apply touches_pre; [done|auto with spares|]. intros prev. apply touches_if.
  { apply spares_touches; [done|]. apply spares_bind; [auto with spares|]. intros _. by apply spares_same. }
  destruct (mf_map f) as [buf|] eqn:Hb.
  2: { apply spares_touches; [done|]. apply spares_bind; [auto with spares|]. intros _. by apply spares_same. }
  apply touches_post; [apply touches_call; intros v; right; left; eauto|]. intros [outs|e|].
  - apply spares_bind; [auto with spares|]. intros _. apply spares_bind.
    { destruct corrupt; [apply spares_metric|by apply spares_same]. }
    intros _. apply spares_bind; [auto with spares|]. intros _. by apply spares_same.
  - apply spares_bind; [auto with spares|]. intros _. by apply spares_same.
  - by apply spares_same.
Qed.

Lemma get_touches hdr body a b c d :
  touches (datagram_effect d) (handle_get_batch detail_text hdr body a b c).
Proof.
  assert (∀ v, datagram_effect d v v) as Hrefl by by left. unfold handle_get_batch. cbv zeta.
  apply touches_pre; [done|auto with spares|]. intros reqs. apply touches_post; [apply touches_call; intros v; right; right; eauto|].
  intros r. apply spares_bind; [destruct r; by apply spares_same|]. intros out.
  destruct (list_find _ _) as [[i o]|]; [apply spares_bind; [auto with spares|]; intros h; by apply spares_same|].
  do 3 (apply touches_if; [by apply spares_same|]). apply spares_bind; [auto with spares|]. intros _. by apply spares_same.
Qed.

(** A datagram changes the store at most by one ingest of the pages in its
    memfd, or by one read. *)
Lemma datagram_touches max corrupt mem d fl w :
  ∃ v m, datagram_effect d w.1 v ∧ (answer (handle_datagram unix_now dedup_iter detail_text max corrupt mem d) (fl, w)).2.2 = (v, set_metrics m w.2).
Proof.
  assert (touches (datagram_effect d) (handle_datagram unix_now dedup_iter detail_text max corrupt mem d)) as Ht.
  { assert (∀ v, datagram_effect d v v) as Hrefl by by left. unfold handle_datagram. apply touches_pre; [done|auto with spares|]. intros [hdr body].
    destruct (LocalProto.msg hdr); [apply put_touches|by apply touches_err|apply get_touches|by apply touches_err..]. }
  destruct (Ht (fl, w)) as (v & m & Hv & He). exists v, m. split; [done|]. unfold answer. by destruct (handle_datagram _ _ _ _ _ _ _ _) as [[] ?].
Qed.
End datagram.

Section serve.
Context {HB : Blake3} {HZ : Zstd} {HC : Crc32} {HS : Scan} (unix_now : Z).
Context (dedup_iter : list (PageHash * nat) → list (PageHash * nat)) (pack_iter : gset PackId → list PackId).
Context (detail_text : fault → bytes).

(** The world a request leaves. *)
Definition serve (q : request) (w : world Server) : world Server :=
  match q with
  | RPutPages items => (Rpc.put_pages unix_now dedup_iter items w).2
  | RPutSnapshot c => (Rpc.put_snapshot pack_iter c w).2
  | RGetSnapshot r => (Rpc.get_snapshot r w).2
  | RResolvePages r b h => (Rpc.resolve_pages r b h w).2
  | RHasPages hs => (Rpc.has_pages hs w).2
  | RPutInputLog c => (Rpc.put_input_log c w).2
  | RGetInputLog l => (Rpc.get_input_log l w).2
  | RCreateNode q => (Rpc.create_node q w).2
  | RUpdateNodes e us => (Rpc.update_nodes e us w).2
  | RGetNode e n => (Rpc.get_node e n w).2
  | RGetChildren e n => (Rpc.get_children e n w).2
  | RGetPath e n b => (Rpc.get_path e n b w).2
  | RQueryNodes fuel q => (Rpc.query_nodes fuel q w).2
  | RPutMetadata k v g => (Rpc.put_metadata k v g w).2
  | RGetMetadata k => (Rpc.get_metadata k w).2
  | RDeleteMetadata k g => (Rpc.delete_metadata k g w).2
  | RPruneSubtree e n b => (Rpc.prune_subtree e n b w).2
  | RPin r n => (Rpc.pin r n w).2
  | RUnpin r => (Rpc.unpin r w).2
  | RStats e => (Rpc.stats e w).2
  | RChannel max corrupt mem fl d => (answer (handle_datagram unix_now dedup_iter detail_text max corrupt mem d) (fl, w)).2.2
  end.
Lemma trigger_gc_busy fuel el thr gr ag w :
  sv_latch w.2 = true → Rpc.trigger_gc unix_now fuel el thr gr ag w = (Ok (mk_trigger_resp false true 0 0 0 0 0 0), w).
Proof. intros Hl. unfold Rpc.trigger_gc, ibind, Rpc.outcome, run_and_record, latched. by rewrite Hl. Qed.

(** ** The pack-id counter *)

Definition next_le (w w' : world Server) : Prop := next_of w.1 ≤ next_of w'.1.
#[local] Instance next_le_preorder : PreOrder next_le.
Proof. split; unfold next_le; [intros w; lia|intros a b c; lia]. Qed.
Abbreviation ND c := (tame (λ _, True) next_le c).

Lemma ND_store E A (f : E → Status) (c : SM E A) : nondec c → ND (Rpc.store_call f c).
Proof. intros Hc. apply tame_map_err. intros w _. unfold next_le. rewrite in_store_eq. apply Hc. Qed.
Lemma ND_meta A (c : M MetaDb MetaError A) : ND (Rpc.meta c).
Proof. apply tame_map_err. intros w _. unfold zoom. destruct (c (sv_meta w.2)). unfold next_le. cbn. lia. Qed.
Lemma ND_server E (f : Server → Server) : ND (imod (E:=E) (λ w, (w.1, f w.2))).
Proof. intros w _. unfold next_le. cbn. lia. Qed.
Lemma ND_bind {E A B} (c : GM Server E A) (k : A → GM Server E B) : ND c → (∀ a, ND (k a)) → ND (ibind c k).
Proof. by apply (tame_bind (λ _, True) next_le). Qed.
Lemma ND_of {E A} (r : res E A) : ND (iof r).
Proof. apply tame_of. apply _. Qed.
#[local] Hint Resolve ND_of ND_server : core.

Lemma next_put_pages items a b h : ND (Rpc.put_pages_from unix_now dedup_iter items a b h).
Proof.
  revert a b h. induction items as [|[pages|] items IH]; intros a b h; cbn [Rpc.put_pages_from]; [apply (ND_of (Ok _))| |apply (ND_of (Err _))].
  apply tame_if; [apply (ND_of (Err _))|]. apply tame_if; [apply (ND_of (Err _))|].
  apply ND_bind; [apply tame_blocking, ND_store, nondec_pages, np_ingest|]. intros outs. apply ND_bind; [done|]. intros _. apply IH.
Qed.

Lemma next_gated {A} code r (c : M MetaDb MetaError A) : ND (Rpc.gated code r c).
Proof. apply tame_blocking, ND_bind; [apply ND_store, nondec_register|]. intros _. apply ND_meta. Qed.

Lemma next_channel max corrupt mem fl d w :
  next_le w (answer (handle_datagram unix_now dedup_iter detail_text max corrupt mem d) (fl, w)).2.2.
Proof.
  destruct (datagram_touches unix_now dedup_iter detail_text max corrupt mem d fl w) as (v & m & Hv & ->). unfold next_le. cbn [fst].
  destruct Hv as [->|[(f & buf & _ & _ & ->)|[hs ->]]]; [lia|apply (nondec_pages id), np_ingest|apply (nondec_pages id), np_get_batch].
Qed.

Lemma serve_next q w : next_le w (serve q w).
Proof.
  assert (∀ w w', True → next_le w w' → True) as Hp by done. pose proof next_le_preorder as Hpo.
  assert (∀ E A (f : E → Status) (c : SM E A), still c → nondec c → ND (Rpc.store_call f c)) as Hs by (intros; by apply ND_store).
  assert (∀ A (c : M MetaDb MetaError A), (∀ m, shrinks (mk_meta_config 0) m (c m).2) → ND (Rpc.meta c)) as Hm by (intros; apply ND_meta).
  assert (∀ E (f : Server → Server), (∀ x, sv_meta (f x) = sv_meta x) → ND (imod (E:=E) (λ w, (w.1, f w.2)))) as Hv by (intros; apply ND_server).
  destruct q; cbn [serve]; [..|apply next_channel];
    match goal with |- next_le w (?c w).2 => enough (ND c) as Hc by exact (Hc w I) end.
  - apply next_put_pages.
  - apply tame_blocking, ND_store, nondec_put_snapshot.
  - eapply T_get_snapshot; eauto.
  - unfold Rpc.resolve_pages. apply ND_bind; [done|]. intros r'. apply ND_bind; [done|]. intros b'. apply ND_bind.
    { apply tame_outcome. intros w' _. unfold next_le. rewrite in_store_eq. apply nondec_resolve. }
    intros [it|e|]; [|apply (ND_of (Ok _))..]. intros w' _. pose proof (nondec_collect (S (length (rp_entries it))) it w'.1) as Hn.
    destruct (resolved_collect _ it w'.1). done.
  - eapply T_has_pages; eauto.
  - eapply T_put_input_log; eauto.
  - eapply T_get_input_log; eauto.
  - unfold Rpc.create_node. apply ND_bind; [done|]. intros p. apply ND_bind; [apply next_gated|]. intros row. apply (ND_of (Ok _)).
  - eapply T_update_nodes; eauto.
  - eapply T_get_node; eauto.
  - eapply T_get_children; eauto.
  - eapply T_get_path; eauto.
  - eapply T_query_nodes; eauto.
  - eapply T_put_metadata; eauto.
  - eapply T_get_metadata; eauto.
  - eapply T_delete_metadata; eauto.
  - eapply T_prune_subtree; eauto.
  - unfold Rpc.pin. apply ND_bind; [done|]. intros r'. apply ND_bind; [apply tame_blocking, ND_meta|]. intros before.
    apply ND_bind; [apply next_gated|]. intros _. apply (ND_of (Ok _)).
  - eapply T_unpin; eauto.
  - eapply T_stats; eauto.
Qed.

(** ** One request during a cycle *)

Context (config : MetaConfig).
Context (Hdedup : ∀ l, dedup_iter l ≡ₚ l) (Hpacks : ∀ X, pack_iter X ≡ₚ elements X).

(** During a cycle: the store is fit, the epoch is open and the database
    usable. *)
Record ready (w : world Server) : Prop := {
  rd_fit : fit w.1;
  rd_epoch : is_Some (ss_epoch w.1.1);
  rd_meta : meta_ok config (sv_meta w.2);
}.

(** What a request may do: a polite step on the store; every reference that
    is new in the database is complete and registered. *)
Record turn (w w' : world Server) : Prop := {
  tn_step : step w.1 w'.1;
  tn_meta : meta_ok config (sv_meta w.2) → meta_ok config (sv_meta w'.2);
  tn_refs : ∀ r, r ∈ meta_refs (sv_meta w'.2) → r ∈ meta_refs (sv_meta w.2) ∨ (closed w'.1 r ∧ r ∈ late w'.1);
}.

Lemma rely_closed (v v' : SnapshotStore * disk) r : rely v v' → closed v r → closed v' r.
Proof. intros Hr. apply closed_mono; [apply Hr|]. intros h [l Hl]. exists l. by apply (rl_index _ _ Hr). Qed.

#[local] Instance turn_preorder : PreOrder turn.
Proof.
  split; [intros w; split; [done|done|by left]|]. intros w1 w2 w3 [S1 M1 R1] [S2 M2 R2]. split; [by etrans|auto|].
  intros r [Hr|?]%R2; [|by right]. destruct (R1 r Hr) as [?|[Hc Hl]]; [by left|right]. split.
  - eapply rely_closed; [apply S2|done].
  - by apply (rl_late _ _ (sp_rely _ _ S2)).
Qed.

Lemma ready_turn w w' : ready w → turn w w' → ready w'.
Proof.
  intros [Hf He Hm] [Hs Hmm _]. split; [by eapply fit_rely; [|apply Hs]|by apply Hs|auto].
Qed.

Abbreviation CT c := (tame ready turn c).

Lemma turn_store w v : step w.1 v → turn w (v, w.2).
Proof. intros Hs. split; [done|done|by left]. Qed.
Lemma CT_store {E F A} (f : E → F) (c : SM E A) : polite c → CT (imap_err f (in_store c)).
Proof. intros Hc. apply tame_map_err. intros w Hw. rewrite in_store_eq. apply turn_store, Hc, Hw. Qed.
Lemma CT_meta A (c : M MetaDb MetaError A) : (∀ m, shrinks config m (c m).2) → CT (Rpc.meta c).
Proof.
  intros Hc. apply tame_map_err. intros w Hw. unfold zoom. specialize (Hc (sv_meta w.2) (rd_meta _ Hw)) as [Hm Hr].
  destruct (c (sv_meta w.2)) as [x m]. cbn in *. split; [done|done|]. cbn. auto.
Qed.
Lemma CT_server E (f : Server → Server) : (∀ x, sv_meta (f x) = sv_meta x) → CT (imod (E:=E) (λ w, (w.1, f w.2))).
Proof. intros Hf w _. split; cbn; [done|by rewrite Hf|rewrite Hf; by left]. Qed.
Lemma CT_bind {E A B} (c : GM Server E A) (k : A → GM Server E B) : CT c → (∀ a, CT (k a)) → CT (ibind c k).
Proof. apply (tame_bind ready turn ready_turn). Qed.
Lemma CT_of {E A} (r : res E A) : CT (iof r).
Proof. apply tame_of. apply _. Qed.

(** Registering before the metadata call is what makes it safe. *)
Lemma CT_gated {A} code r (c : M MetaDb MetaError A) :
  (∀ m, meta_ok config m → meta_ok config (c m).2 ∧ ∀ r', r' ∈ meta_refs (c m).2 → r' ∈ meta_refs m ∨ r' = r) →
  CT (Rpc.gated code r c).
Proof.
  intros Hc. apply tame_blocking. intros w Hw. unfold ibind. pose proof (polite_register r w.1 (rd_fit _ Hw)) as Hs.
  unfold Rpc.store_call, imap_err. rewrite in_store_eq. destruct (register_live_ref r w.1) as [x v] eqn:Hr. cbn [fst snd] in *.
  destruct x as [[]|e|]; cbn [map_err]; [|by apply turn_store..]. destruct (register_closed r w.1 v (rd_fit _ Hw) (rd_epoch _ Hw) Hr) as [Hcl Hl].
  unfold Rpc.meta, imap_err, zoom. cbn [snd]. destruct (Hc (sv_meta w.2) (rd_meta _ Hw)) as [Hm Hrefs].
  destruct (c (sv_meta w.2)) as [y m]. cbn in *. split; [done|done|]. cbn. intros r' [?| ->]%Hrefs; [by left|by right].
Qed.

Lemma call_refs cmd r : brought cmd = [r] → ∀ m, meta_ok config m →
  meta_ok config (meta_call cmd m).2 ∧ ∀ r', r' ∈ meta_refs (meta_call cmd m).2 → r' ∈ meta_refs m ∨ r' = r.
Proof.
  intros Hb m Hm. split; [by apply meta_call_ok|]. intros r' Hr. destruct (meta_call_refs config cmd m r' Hm Hr) as [?|Hin]; [by left|right].
  rewrite Hb in Hin. by apply list_elem_of_singleton in Hin.
Qed.
Lemma node_refs cmd r : brought cmd = [r] → ∀ m, meta_ok config m →
  meta_ok config (call_node cmd m).2 ∧ ∀ r', r' ∈ meta_refs (call_node cmd m).2 → r' ∈ meta_refs m ∨ r' = r.
Proof. intros Hb m Hm. pose proof (call_refs cmd r Hb m Hm). unfold call_node, ibind. by destruct (meta_call cmd m) as [[[]|e|] m']. Qed.
Lemma unit_refs cmd r : brought cmd = [r] → ∀ m, meta_ok config m →
  meta_ok config (call_unit cmd m).2 ∧ ∀ r', r' ∈ meta_refs (call_unit cmd m).2 → r' ∈ meta_refs m ∨ r' = r.
Proof. intros Hb m Hm. pose proof (call_refs cmd r Hb m Hm). unfold call_unit, ibind. by destruct (meta_call cmd m) as [[[]|e|] m']. Qed.

(** What a request needs of the store's limits: pack ids for the pages it
    brings, and no second container for a reference in use. *)
Definition pages_in (items : list stream_item) : nat :=
  sum_list_with (λ i, match i with Item pages => length pages | StreamError => 0%nat end) items.
Definition fits (q : request) (v : SnapshotStore * disk) : Prop :=
  match q with
  | RPutPages items => has_room (ss_pages v.1) (pages_in items)
  | RPutSnapshot c => no_clash v.2.2 c
  | RChannel _ _ _ _ d => ∀ f buf, dg_fd d = Some f → mf_map f = Some buf →
      has_room (ss_pages v.1) (length (as_chunks (Z.to_nat PAGE_SIZE) buf))
  | _ => True
  end.

Lemma existsb_pages pages : existsb (λ p : bytes, negb (zlen p =? PAGE_SIZE)) pages = false → Forall (λ p, zlen p = PAGE_SIZE) pages.
Proof. induction pages as [|p ps IH]; cbn; [constructor|]. intros [Hp Hps]%orb_false_iff. b2p. constructor; auto. Qed.

Lemma put_pages_turn items a b h w :
  ready w → has_room (ss_pages w.1.1) (pages_in items) → turn w (Rpc.put_pages_from unix_now dedup_iter items a b h w).2.
Proof.
  revert a b h w. induction items as [|[pages|] items IH]; intros a b h w Hw Hroom; cbn [Rpc.put_pages_from]; [done| |done].
  destruct (_ <? _); [done|]. destruct (existsb _ pages) eqn:Hp; [done|]. apply existsb_pages in Hp.
  destruct (ingest_step unix_now EPageStore dedup_iter pages (pages_in items) w.1 Hdedup (rd_fit _ Hw) Hp) as (outs & v & He & Hs & Hk); [exact Hroom|].
  erewrite ibind_step.
  2: { unfold Rpc.blocking, Rpc.store_call, imap_err. rewrite in_store_eq, He. reflexivity. }
  erewrite ibind_step by reflexivity. pose proof (turn_store w v Hs) as Ht. etrans; [exact Ht|]. 
  assert (turn (v, w.2) (v, Rpc.count_ingested outs w.2)) as Ht2 by (split; [done|done|by left]). etrans; [exact Ht2|].
  apply IH; [|exact Hk]. eapply ready_turn; [|exact Ht2]. by eapply ready_turn.
Qed.

Lemma as_chunks_pages (buf : bytes) : Forall (λ p, zlen p = PAGE_SIZE) (as_chunks (Z.to_nat PAGE_SIZE) buf).
Proof.
  set (n := Z.to_nat PAGE_SIZE). assert (n ≠ O) as Hn by done. unfold as_chunks, chunks.
  assert (∀ k fuel (l : bytes), length l = (k * n)%nat → Forall (λ p, zlen p = PAGE_SIZE) (chunks_from fuel n l)) as Hk.
  { induction k as [|k IH]; intros [|fuel] l Hl; try constructor; cbn [chunks_from].
    - destruct l; [constructor|cbn in Hl; lia].
    - destruct l as [|x l]; [constructor|]. constructor; [|apply IH; rewrite length_drop; lia].
      unfold zlen. rewrite length_take. unfold n in *. change PAGE_SIZE with (Z.of_nat (Z.to_nat PAGE_SIZE)). lia. }
  eapply (Hk (length buf / n)%nat). rewrite length_take. pose proof (Nat.div_mod (length buf) n Hn). nia.
Qed.

Lemma channel_turn max corrupt mem fl d w :
  ready w → fits (RChannel max corrupt mem fl d) w.1 →
  turn w (answer (handle_datagram unix_now dedup_iter detail_text max corrupt mem d) (fl, w)).2.2.
Proof.
  intros Hw Hfit. destruct (datagram_touches unix_now dedup_iter detail_text max corrupt mem d fl w) as (v & m & Hv & ->).
  assert (step w.1 v) as Hs.
  { destruct Hv as [->|[(f & buf & Hf & Hb & ->)|[hs ->]]]; [done| |apply (polite_get_batch id), Hw].
    destruct (ingest_step unix_now id dedup_iter _ 0 w.1 Hdedup (rd_fit _ Hw) (as_chunks_pages buf)) as (outs & v & -> & Hs & _); [|done].
    rewrite Nat.add_0_r. by eapply Hfit. }
  split; cbn; [done|done|by left].
Qed.

Lemma resolve_turn r b h : CT (Rpc.resolve_pages r b h).
Proof.
  unfold Rpc.resolve_pages. apply CT_bind; [apply CT_of|]. intros r'. apply CT_bind; [apply CT_of|]. intros b'. apply CT_bind.
  { apply tame_outcome. intros w Hw. rewrite in_store_eq. apply turn_store, polite_resolve_pages, Hw. }
  intros [it|e|]; [|apply (CT_of (Ok _))..]. intros w Hw. pose proof (collect_step (S (length (rp_entries it))) it w.1 (rd_fit _ Hw)) as Hs.
  destruct (resolved_collect _ it w.1) as [items v]. by apply turn_store.
Qed.

Lemma serve_turn q w : ready w → fits q w.1 → turn w (serve q w).
Proof.
  intros Hw Hfit. pose proof turn_preorder as Hpo. pose proof ready_turn as Hrt.
  assert (∀ E A (f : E → Status) (c : SM E A), still c → nondec c → CT (Rpc.store_call f c)) as Hs by (intros; by apply CT_store, still_polite).
  pose proof CT_meta as Hm. pose proof CT_server as Hv.
  assert (∀ E A (c : GM Server E A), CT c → turn w (c w).2) as Hat by (intros E A c Hc; by apply Hc).
  destruct q; cbn [serve]; [by apply put_pages_turn| |apply Hat..|by apply channel_turn].
  { unfold Rpc.put_snapshot, Rpc.blocking, Rpc.store_call, imap_err. rewrite in_store_eq.
    pose proof (put_snapshot_step pack_iter container w.1 Hpacks (rd_fit _ Hw) Hfit) as Hst.
    destruct (put_snapshot pack_iter container w.1) as [[] v]; by apply turn_store. }
  - eapply T_get_snapshot; eauto.
  - apply resolve_turn.
  - eapply T_has_pages; eauto.
  - eapply T_put_input_log; eauto.
  - eapply T_get_input_log; eauto.
  - unfold Rpc.create_node. apply CT_bind; [apply CT_of|]. intros p. apply CT_bind; [|intros row; apply (CT_of (Ok _))].
    by apply CT_gated, node_refs.
  - eapply T_update_nodes; eauto.
  - eapply T_get_node; eauto.
  - eapply T_get_children; eauto.
  - eapply T_get_path; eauto.
  - eapply T_query_nodes; eauto.
  - eapply T_put_metadata; eauto.
  - eapply T_get_metadata; eauto.
  - eapply T_delete_metadata; eauto.
  - eapply T_prune_subtree; eauto.
  - unfold Rpc.pin. apply CT_bind; [apply CT_of|]. intros r'. apply CT_bind; [eapply T_query; eauto|]. intros before.
    apply CT_bind; [by apply CT_gated, unit_refs|]. intros _. apply (CT_of (Ok _)).
  - eapply T_unpin; eauto.
  - eapply T_stats; eauto.
Qed.

(** ** A cycle that requests interleave with *)

(** Requests that arrive one after the other; callbacks run inside the
    epoch. *)
Fixpoint admissible (w : world Server) (qs : list request) : Prop :=
  match qs with
  | [] => True
  | q :: rest => is_Some (ss_epoch w.1.1) ∧ fits q w.1 ∧ admissible (serve q w) rest
  end.

(** At each callback point [sched] chooses the requests to serve. *)
Definition serving (sched : GcPoint → world Server → list request) : GcHooks Server :=
  mk_hooks (λ p w, foldl (λ w q, serve q w) w (sched p w)) None.

Lemma serve_all_turn qs w :
  fit w.1 → meta_ok config (sv_meta w.2) → admissible w qs → turn w (foldl (λ w q, serve q w) w qs).
Proof.
  revert w. induction qs as [|q qs IH]; intros w Hf Hm Ha; [done|]. destruct Ha as (He & Hq & Ha). cbn [foldl].
  assert (ready w) as Hw by by split. pose proof (serve_turn q w Hw Hq) as Ht. pose proof (ready_turn _ _ Hw Ht) as [Hf' _ Hm'].
  etrans; [exact Ht|]. by apply IH.
Qed.

Lemma serve_all_next qs w : next_le w (foldl (λ w q, serve q w) w qs).
Proof. revert w. induction qs as [|q qs IH]; intros w; cbn [foldl]; [done|]. etrans; [apply serve_next|apply IH]. Qed.

Lemma serving_ok sched fence : (∀ p w, admissible w (sched p w)) → hooks_ok fence (server_refs config) (serving sched).
Proof.
  intros Ha. assert (∀ p w packs, gc_safe fence packs (server_refs config w.2) w.1 → turn w (hook_at (serving sched) p w)) as Ht.
  { intros p w packs Hs. apply serve_all_turn; [by eapply safe_fit|exact (gs_inv _ _ _ _ Hs)|apply Ha]. }
  split.
  - done.
  - intros p w. apply serve_all_next.
  - intros p w packs Hs. apply (tn_step _ _ (Ht p w packs Hs)).
  - intros p w packs r Hs. apply (tn_refs _ _ (Ht p w packs Hs)).
  - intros p w packs Hs. apply (tn_meta _ _ (Ht p w packs Hs)). exact (gs_inv _ _ _ _ Hs).
Qed.

(** C1. The whole server is safe under garbage collection.  Whatever requests
    the gRPC service and the page channel serve at the callback points of a
    cycle, in whatever order and number, and whether the cycle succeeds or
    fails at some step (any statement of the metadata database may fail),
    afterwards every snapshot that a node or a pin of the database refers to
    has its whole chain of manifests stored and every page of the chain
    indexed, the index names existing records, and the epoch is over.  The
    requests only have to fit: pack ids do not run out and no two containers
    share a reference. *)
Theorem gc_serves_requests sched fuel opts elapsed packs w x w' :
  (∀ p w, admissible w (sched p w)) → unfenced config packs w → next_of w.1 < 2 ^ 32 →
  run_gc_cycle unix_now fuel opts (serving sched) elapsed w = (x, w') → next_of w'.1 ≤ 2 ^ 32 → cycle_left config x w'.
Proof. intros Ha. apply gc_cycle_safe. intros fence. by apply serving_ok. Qed.

End serve.
