(* ===== verification/ServiceSpec.v ===== *)
(** * The node query stream

    [QueryNodes] pages through the nodes table with a cursor.  In order of
    creation the stream is complete; in order of update it loses rows that
    share a stamp across a page boundary. *)

From S2P Require Import Prelude Types Fs Sql Meta MetaRead MetaInv MetaQuery SnapStore StoreGc GcCycle Service.

Section query.
Context {HB : Blake3} {HZ : Zstd} {HC : Crc32} {HS : Scan} (config : MetaConfig) (clock : Z).

Lemma query_quiet {A} (f : db → res SqlError A) m : md_read_faults m = [] → meta_query f m = (map_err MSqlite (f (md_db m)), m).
Proof. intros Hf. unfold meta_query, meta_read. by rewrite Hf. Qed.

Lemma elem_of_page f d k r : (k, r) ∈ query_page f d → query_where f (k, r) ∧ d_nodes d !! k = Some r.
Proof.
  intros Hin. eapply elem_of_select. rewrite <-(take_drop (Z.to_nat (effective_limit f)) (select_nodes _ _ d)).
  apply elem_of_app. by left.
Qed.

Lemma page_rows f d : nodes_ok clock d → readable d →
  ∃ rows, MetaRead.query_nodes f d = Ok rows ∧ Forall2 (λ x y, entry_to_node x = Ok y) (query_page f d) rows.
Proof.
  intros Hd Hr. apply rcollect_Ok, Forall_forall. intros [k r] Hin.
  apply elem_of_page in Hin as [_ Hk]. destruct (entry_to_node_ok clock d k r Hd Hr Hk) as (v & s & _ & _ & ?). eauto.
Qed.

Lemma entry_row clock' d k r row : nodes_ok clock' d → d_nodes d !! k = Some r → entry_to_node (k, r) = Ok row →
  created_at row = as_u64 (n_created r) ∧ updated_at row = as_u64 (n_updated r) ∧ node_id row = as_u64 k.2.
Proof. intros _ _ H. unfold entry_to_node, row_to_node in H. rs_inv. done. Qed.

(** The pages in order of creation, from the rows that remain. *)
Lemma query_loop_created fuel f m :
  md_read_faults m = [] → nodes_ok clock (md_db m) → clock ≤ 2 ^ 63 → readable (md_db m) →
  q_order f = ByCreatedAt → q_limit f = Some Rpc.INTERNAL_BATCH → zlen (query_all f (md_db m)) < Rpc.INTERNAL_BATCH * Z.of_nat fuel →
  ∃ batches rows, Rpc.query_loop fuel f m = (Ok (Some (Ok <$> batches)), m) ∧
    Forall2 (λ x y, entry_to_node x = Ok y) (query_all f (md_db m)) rows ∧ concat batches = node_row_to_proto <$> rows.
Proof.
  intros Hq Hd Hc Hr. revert f. induction fuel as [|fuel IH]; intros f Ho Hl Hn; [pose proof (zlen_nonneg (query_all f (md_db m))); lia|].
  cbn [Rpc.query_loop]. rewrite query_quiet by done. destruct (page_rows f (md_db m) Hd Hr) as (rows & -> & Hrows). cbn [map_err].
  assert (query_page f (md_db m) = take 512 (query_all f (md_db m))) as Hp.
  { unfold query_page, effective_limit, query_all. rewrite Hl, Ho. done. }
  rewrite Hp in Hrows. pose proof (Forall2_length _ _ _ Hrows) as Hlen. rewrite length_take in Hlen. cbv zeta.
  assert (∃ b0, (if bool_decide (rows = []) then [] else [Ok (E:=Status) (node_row_to_proto <$> rows)]) = Ok <$> b0 ∧ concat b0 = node_row_to_proto <$> rows) as (b0 & -> & Hb0).
  { case_bool_decide; [exists []; by subst|exists [node_row_to_proto <$> rows]; cbn; by rewrite app_nil_r]. }
  unfold zlen in Hn, Hlen. destruct (zlen rows <? Rpc.INTERNAL_BATCH) eqn:Hb; b2p; unfold zlen, Rpc.INTERNAL_BATCH in *.
  { exists b0, rows. split; [done|]. split; [|done]. rewrite take_ge in Hrows by lia. done. }
  destruct (last rows) as [l|] eqn:Hla; [|apply last_None in Hla; subst; cbn in Hb; lia]. rewrite Ho.
  assert (∃ k r, last (take 512 (query_all f (md_db m))) = Some (k, r) ∧ entry_to_node (k, r) = Ok l) as (k & r & Hlast & Hlr).
  { apply last_Some in Hla as [pre ->]. apply Forall2_app_inv_r in Hrows as (l1 & l2 & _ & H2 & ->).
    apply Forall2_cons_inv_r in H2 as ([k r] & l2' & Hkr & H2 & ->). apply Forall2_nil_inv_r in H2 as ->.
    exists k, r. by rewrite last_snoc. }
  assert (d_nodes (md_db m) !! k = Some r) as Hk.
  { apply last_Some in Hlast as [pre Hpre]. assert ((k, r) ∈ query_all f (md_db m)) as Hin.
    { rewrite <-(take_drop 512 (query_all f (md_db m))), Hpre. apply elem_of_app. left. apply elem_of_app. by right; left. }
    by apply elem_of_select in Hin as [_ ?]. }
  destruct (entry_row clock _ _ _ _ Hd Hk Hlr) as [-> _].
  pose proof (query_all_next clock f (md_db m) 512 k r Hd Hc Hlast) as Hnext. unfold set_created_after in Hnext. rewrite Ho in Hnext.
  set (f' := mk_filter _ _ _ _ _ ByCreatedAt _ _ _) in *.
  destruct (IH f' eq_refl Hl) as (batches & rows' & Hloop & Hrows' & Hcat).
  { unfold zlen. rewrite Hnext, length_drop. lia. }
  unfold ibind. rewrite Hloop. exists (b0 ++ batches), (rows ++ rows'). unfold iret. cbn. rewrite fmap_app. split; [done|].
  split; [|by rewrite concat_app, Hb0, Hcat, fmap_app]. rewrite <-(take_drop 512 (query_all f (md_db m))). apply Forall2_app; [done|].
  by rewrite <-Hnext.
Qed.

(** C24. The node stream in order of creation is complete.  For a database
    that satisfies its invariant, [QueryNodes] sends exactly the rows that
    match the filter, each once, oldest first, split into batches of at most
    512, although it re-queries from a cursor after every batch; it leaves
    the server as it was and needs one round per 512 rows. *)
Theorem query_nodes_complete fuel q f w :
  let m := sv_meta w.2 in
  md_read_faults m = [] → nodes_ok clock (md_db m) → clock ≤ 2 ^ 63 → readable (md_db m) →
  Rpc.query_filter q = Ok f → q_order f = ByCreatedAt → zlen (query_all f (md_db m)) < Rpc.INTERNAL_BATCH * Z.of_nat fuel →
  ∃ batches rows, Rpc.query_nodes fuel q w = (Ok (Some (Ok <$> batches)), w) ∧
    concat batches = node_row_to_proto <$> rows ∧ Forall2 (λ x y, entry_to_node x = Ok y) (query_all f (md_db m)) rows ∧
    query_all f (md_db m) ≡ₚ filter (query_where f) (map_to_list (d_nodes (md_db m))) ∧
    StronglySorted (λ x y, created_of x ≤ created_of y) (query_all f (md_db m)).
Proof.
  intros m Hq Hd Hc Hr Hf Ho Hn. assert (q_limit f = Some Rpc.INTERNAL_BATCH) as Hl.
  { unfold Rpc.query_filter in Hf. apply rbind_Ok in Hf as (e & _ & [= <-]). done. }
  destruct (query_loop_created fuel f m Hq Hd Hc Hr Ho Hl Hn) as (batches & rows & Hloop & Hrows & Hcat).
  exists batches, rows. split; [|split_and!; [done|done|apply select_nodes_perm|apply select_nodes_sorted]].
  unfold Rpc.query_nodes. erewrite ibind_step by (unfold iof; by rewrite Hf). unfold zoom. fold m. rewrite Hloop.
  unfold m. by destruct w as [v []].
Qed.

(** Rows of a stream in order of update come from the table and are past
    the cursor. *)
Definition streamed (f : QueryFilter) (d : db) (nm : NodeMeta) : Prop :=
  ∃ k r row, d_nodes d !! k = Some r ∧ k.1 = q_experiment f ∧ opt_test (q_updated_after f) (λ v, as_i64 v < n_updated r) ∧
    entry_to_node (k, r) = Ok row ∧ nm = node_row_to_proto row.

Lemma page_streamed f d rows : MetaRead.query_nodes f d = Ok rows →
  Forall (λ row, ∃ k r, (k, r) ∈ query_page f d ∧ d_nodes d !! k = Some r ∧ query_where f (k, r) ∧ entry_to_node (k, r) = Ok row) rows.
Proof.
  intros H%rcollect_inv. apply Forall_forall. intros row [i Hi]%list_elem_of_lookup.
  destruct (Forall2_lookup_r _ _ _ _ _ H Hi) as ([k r] & Hkr & He). pose proof (list_elem_of_lookup_2 _ _ _ Hkr) as Hin. exists k, r.
  split; [done|]. by apply elem_of_page in Hin as [? ?].
Qed.

Lemma loop_streamed fuel f m out m' :
  md_read_faults m = [] → nodes_ok clock (md_db m) → clock ≤ 2 ^ 63 → q_order f = ByUpdatedAt →
  Rpc.query_loop fuel f m = (Ok (Some out), m') → ∀ l nm, Ok l ∈ out → nm ∈ l → streamed f (md_db m) nm.
Proof.
  intros Hq Hd Hc. revert f out. induction fuel as [|fuel IH]; intros f out Ho H l nm Hl Hnm; [done|]. cbn [Rpc.query_loop] in H.
  rewrite query_quiet in H by done. destruct (MetaRead.query_nodes f (md_db m)) as [rows|e|] eqn:Hrows; cbn [map_err] in H.
  2: { simplify_eq. by apply list_elem_of_singleton in Hl. }
  2: { simplify_eq. by apply not_elem_of_nil in Hl. }
  pose proof (page_streamed _ _ _ Hrows) as Hp. rewrite Forall_forall in Hp. cbv zeta in H.
  set (sent := if bool_decide (rows = []) then _ else _) in H.
  assert (∀ l, Ok l ∈ sent → ∀ nm, nm ∈ l → streamed f (md_db m) nm) as Hsent.
  { intros l' Hl'. unfold sent in Hl'. case_bool_decide; [by apply not_elem_of_nil in Hl'|]. apply list_elem_of_singleton in Hl'. injection Hl' as ->.
    intros nm' (row & -> & Hrow)%list_elem_of_fmap. destruct (Hp row Hrow) as (k & r & _ & Hk & Hw & He). exists k, r, row.
    split_and!; [done|apply Hw|apply Hw|done|done]. }
  destruct (_ <? _); [simplify_eq; by eapply Hsent|]. destruct (last rows) as [la|] eqn:Hla; [|simplify_eq; by eapply Hsent]. rewrite Ho in H.
  assert (la ∈ rows) as Hin by (apply last_Some in Hla as [pre ->]; apply elem_of_app; by right; left).
  destruct (Hp la Hin) as (k & r & _ & Hk & Hw & He). destruct (entry_row clock _ _ _ _ Hd Hk He) as (_ & Hu & _). rewrite Hu in H.
  unfold ibind in H. destruct (Rpc.query_loop fuel _ m) as [[[rest|]|e|] m1] eqn:Hloop; cbn in H; [|done..]. injection H as <- <-.
  apply elem_of_app in Hl as [Hl|Hl]; [by eapply Hsent|]. eapply IH in Hloop as Hst2; [|done|exact Hl|exact Hnm]. destruct Hst2 as (k2 & r2 & row2 & H1 & H2 & H3 & H4 & H5).
  exists k2, r2, row2. split_and!; [done|done| |done|done]. cbn in H3. pose proof (no_stamps _ _ Hd _ _ Hk) as Hst.
  rewrite as_i64_u64 in H3 by (unfold i64_ok; destruct Hst as (? & ? & ? & ? & ?); lia).
  assert (opt_test (q_updated_after f) (λ v, as_i64 v < n_updated r)) as Hcur by apply Hw.
  destruct (q_updated_after f); cbn in *; [lia|done].
Qed.

(** The key of a row is that of the message sent for it. *)
Lemma sent_key d k1 r1 row k2 : map_Forall row_ok (d_nodes d) → d_nodes d !! k1 = Some r1 → is_Some (d_nodes d !! k2) →
  k1.1 = k2.1 → entry_to_node (k1, r1) = Ok row → nm_node (node_row_to_proto row) = as_u64 k2.2 → k1 = k2.
Proof.
  intros Hd H1 [r2 H2] He Hrow Hn. assert (node_id row = as_u64 k1.2) as Hid by (unfold entry_to_node, row_to_node in Hrow; rs_inv; done).
  change (nm_node (node_row_to_proto row)) with (node_id row) in Hn. rewrite Hid in Hn.
  pose proof (ro_id _ _ (Hd _ _ H1)). pose proof (ro_id _ _ (Hd _ _ H2)).
  apply (f_equal as_i64) in Hn. rewrite !as_i64_u64 in Hn by done. destruct k1, k2; cbn in *; congruence.
Qed.

(** C40. The node stream in order of update loses rows.  The cursor of the next
    batch is the last stamp sent, and one [UpdateNodes] call stamps all its
    rows alike: when the first batch is full and its last row shares its
    stamp with a matching row [x] that did not fit, no batch of the stream
    ever carries [x], however the stream ends. *)
Theorem query_by_update_loses_ties fuel f m out m' k r x :
  md_read_faults m = [] → nodes_ok clock (md_db m) → clock ≤ 2 ^ 63 → q_order f = ByUpdatedAt →
  last (query_page f (md_db m)) = Some (k, r) →
  x ∈ select_nodes (query_where f) (order_col (q_order f)) (md_db m) → x ∉ query_page f (md_db m) → n_updated x.2 = n_updated r →
  Rpc.query_loop fuel f m = (Ok (Some out), m') → ∀ l nm, Ok l ∈ out → nm ∈ l → nm_node nm ≠ as_u64 x.1.2.
Proof.
  destruct x as [kx rx]. intros Hq Hd Hc Ho Hlast Hx Hout Htie H l nm Hl Hnm Heq. cbn [fst snd] in *.
  apply elem_of_select in Hx as [Hwx Hkx]. pose proof (proj1 Hwx) as Hex. cbn in Hex. destruct fuel as [|fuel]; [done|]. cbn [Rpc.query_loop] in H.
  rewrite query_quiet in H by done. destruct (MetaRead.query_nodes f (md_db m)) as [rows|e|] eqn:Hrows; cbn [map_err] in H.
  2: { simplify_eq. by apply list_elem_of_singleton in Hl. }
  2: { simplify_eq. by apply not_elem_of_nil in Hl. }
  pose proof (page_streamed _ _ _ Hrows) as Hp. rewrite Forall_forall in Hp. cbv zeta in H.
  set (sent := if bool_decide (rows = []) then _ else _) in H.
  assert (Ok l ∈ sent → False) as Hsent.
  { intros Hl'. unfold sent in Hl'. case_bool_decide; [by apply not_elem_of_nil in Hl'|]. apply list_elem_of_singleton in Hl'. injection Hl' as ->.
    apply list_elem_of_fmap in Hnm as (row & -> & Hrow). destruct (Hp row Hrow) as (k' & r' & Hin & Hk & Hw & He).
    assert (k' = kx) as -> by (eapply sent_key; [apply Hd|done|by eexists| |done|done]; pose proof (proj1 Hw) as Hw1; cbn in Hw1; congruence).
    assert (r' = rx) as -> by congruence. done. }
  destruct (_ <? _); [injection H as <- <-; by apply Hsent|]. destruct (last rows) as [la|] eqn:Hla; [|injection H as <- <-; by apply Hsent].
  rewrite Ho in H. unfold ibind in H. destruct (Rpc.query_loop fuel _ m) as [[[rest|]|e|] m1] eqn:Hloop; cbn in H; [|done..]. injection H as <- <-.
  apply elem_of_app in Hl as [Hl|Hl]; [by apply Hsent|].
  apply loop_streamed with (l := l) (nm := nm) in Hloop; [|done..]. destruct Hloop as (k2 & r2 & row2 & H1 & H2 & H3 & H4 & ->). cbn in H2, H3.
  assert (k2 = kx) as -> by (eapply sent_key; [apply Hd|done|by eexists|congruence|done|done]). assert (r2 = rx) as -> by congruence.
  assert (updated_at la = as_u64 (n_updated r)) as Hu.
  { apply rcollect_inv in Hrows. apply last_Some in Hla as [pre ->]. apply Forall2_app_inv_r in Hrows as (l1 & l2 & _ & Hr2 & Hpg).
    apply Forall2_cons_inv_r in Hr2 as ([k3 r3] & l3 & Hkr & Hr2 & ->). apply Forall2_nil_inv_r in Hr2 as ->.
    rewrite Hpg, last_snoc in Hlast. injection Hlast as -> ->. unfold entry_to_node, row_to_node in Hkr; rs_inv; done. }
  rewrite Hu in H3. assert (d_nodes (md_db m) !! k = Some r) as Hk.
  { apply last_Some in Hlast as [pre Hpre]. eapply (elem_of_page f). rewrite Hpre. apply elem_of_app. by right; left. }
  pose proof (no_stamps _ _ Hd _ _ Hk) as Hst. rewrite as_i64_u64 in H3 by (unfold i64_ok; destruct Hst as (? & ? & ? & ? & ?); lia). lia.
Qed.

End query.
