(* ===== verification/MetaExamples.v ===== *)
(** * A metadata database to evaluate

    A small database made by running commands on a fresh file, and the
    theorems about the metadata database applied to it. *)

From Stdlib Require Import Floats.SpecFloat.
From S2P Require Import Prelude Types Fs SnapStore StoreGc StoreGcSpec.
From S2P Require Import Sql Meta MetaRead MetaInv MetaTree MetaSpec MetaQuery MetaBatch MetaUpdate MetaOpen MetaHandle GcCycle GcGrace.

#[local] Existing Instances toy_blake3 toy_crc32 toy_zstd.

(** Rows in the order of the map. *)
Definition toy_scan : Scan := {| scan A l := l; scan_perm A l := Permutation_refl l |}.
#[local] Existing Instance toy_scan.

Definition ex_config : MetaConfig := mk_meta_config DEFAULT_INPUT_LOG_MAX_BYTES.
Definition ex_blank : db := mk_db ∅ ∅ ∅ ∅ ∅ None None ∅.
Definition ex_exp : ExperimentId := [Byte.x65].
Definition ex_key : bytes := [Byte.x6b].
Definition ex_node_ref : SnapshotRef := ex_base_ref.
Definition ex_create (n : NodeId) (parent : option NodeId) : CreateNodeParams :=
  mk_create ex_exp n parent ex_node_ref None None Frontier None 0 0 None.

(** A root with two children, one of them with a child of its own. *)
Definition ex_cmds : list ActorCmd :=
  [CreateNode (ex_create 0 None); CreateNode (ex_create 1 (Some 0)); CreateNode (ex_create 2 (Some 1));
   CreateNode (ex_create 3 (Some 0)); PutMetadata ex_key [] None; Pin ex_node_ref None].

Definition ex_fresh_db : db :=
  mk_db ∅ ∅ ∅ ∅ ∅ (Some (Some (mk_meta_sql 2 [] 0))) (Some (Some (mk_gc_sql 0 0 0 0))) ∅.
Definition ex_db : db := flush_counter 7 (step_cmds ex_config 1 ex_cmds ex_fresh_db).2.

Lemma no_nodes_ok n d : d_nodes d = ∅ → nodes_ok n d.
Proof.
  intros H. split; rewrite ?H; try apply map_Forall_empty. intros ? ? ? ? Hk. by rewrite lookup_empty in Hk.
Qed.
Lemma ex_blank_stage : stage ex_config 0 ex_blank.
Proof. split; [done| |done]. split; [by apply no_nodes_ok|apply map_Forall_empty..]. Qed.

Lemma ex_create_ok n p : u64_ok n → (∀ q, p = Some q → u64_ok q) → create_ok (ex_create n p).
Proof. intros ? ?. split; [by vm_compute|done|done|done|done]. Qed.
Lemma ex_cmds_ok : Forall cmd_ok ex_cmds.
Proof.
  repeat (apply Forall_cons; split; [first [apply ex_create_ok; unfold u64_ok; [lia|intros ? ?; simplify_eq; lia]|done]|]). constructor.
Qed.
Lemma ex_fresh_ok : db_ok ex_config 1 ex_fresh_db.
Proof. split; [by apply no_nodes_ok|apply map_Forall_empty..|by eexists|by eexists]. Qed.
Lemma ex_db_ok : db_ok ex_config 7 ex_db.
Proof.
  apply flush_counter_ok; [|lia|lia].
  apply (step_cmds_ok ex_config 1 ex_cmds ex_fresh_db ex_fresh_ok); [lia|by vm_compute|apply ex_cmds_ok|by vm_compute].
Qed.

#[local] Opaque ex_db.

Lemma ex_clock_ok : 0 ≤ 7 < 2 ^ 63.
Proof. lia. Qed.
Lemma ex_node n : (n = 0 ∨ n = 1 ∨ n = 2 ∨ n = 3) → is_Some (d_nodes ex_db !! key ex_exp n).
Proof. intros [->|[->|[->| ->]]]; vm_compute; eexists; reflexivity. Qed.

Lemma prune_subtree_spec_witness : ∃ d' n, alone (prune_subtree_impl ex_exp 1 false 7) ex_db = (Ok n, d') ∧
  d_nodes d' !! (ex_exp, 1) = pruned_row 7 <$> d_nodes ex_db !! (ex_exp, 1) ∧ d_pins d' = d_pins ex_db.
Proof.
  destruct (prune_subtree_spec ex_config 7 ex_clock_ok ex_db ex_exp 1 false ex_db_ok ltac:(unfold u64_ok; lia) ltac:(left; lia) (ex_node 1 ltac:(lia)))
    as (d' & desc & Hr & _ & _ & Hin & _ & _ & _ & _ & Hp & _).
  exists d', (zlen desc). split; [exact Hr|]. split; [|exact Hp]. destruct (ex_node 1 ltac:(lia)) as [r He].
  apply Hin, (below_self _ _ _ r), He.
Defined.

(** The database with the child and its subtree pruned. *)
Definition ex_pruned : db := (step_cmd ex_config 7 (PruneSubtree ex_exp 1 false) ex_db).2.
Lemma ex_pruned_ok : db_ok ex_config 8 ex_pruned.
Proof. apply (step_cmd_ok ex_config 7 _ ex_db ex_db_ok ex_clock_ok). split; [by vm_compute|unfold u64_ok; lia]. Qed.
Lemma ex_pruned_all : all_pruned ex_pruned ex_exp 1.
Proof.
  assert (is_Some (d_nodes ex_pruned !! (ex_exp, 1))) as He by (vm_compute; eexists; reflexivity).
  destruct (subtree_spec ex_pruned 8 (do_nodes _ _ _ ex_pruned_ok) ex_exp 1 He) as (ids & Hs & Hids).
  destruct (count_other_spec ex_pruned ex_exp 1 ids Hids Hs) as (c & Hc & _ & <-).
  assert (count_other_status (ex_exp, 1) (status_as_u8 Pruned) ex_pruned = Ok 0) as H0 by (vm_compute; reflexivity). congruence.
Qed.

Lemma reap_tombstone_spec_witness : ∃ d' n, alone (reap_tombstone_impl ex_exp 1) ex_pruned = (Ok n, d') ∧
  d_nodes d' !! (ex_exp, 1) = None ∧ d_tombs d' = delete (ex_exp, 1) (d_tombs ex_pruned).
Proof.
  assert (is_Some (d_nodes ex_pruned !! key ex_exp 1)) as He by (vm_compute; eexists; reflexivity).
  destruct (reap_tombstone_spec ex_config 8 ex_pruned ex_exp 1 ex_pruned_ok) as (_ & _ & H).
  destruct (H He ex_pruned_all) as (d' & desc & Hr & _ & _ & Hn & _ & Ht & _). exists d', (zlen desc). split; [exact Hr|]. split; [|exact Ht].
  apply eq_None_not_Some. intros [r [Hk Hb]%Hn]. apply Hb. split; [reflexivity|]. exact (below_self _ _ _ r Hk).
Defined.

Lemma metadata_spec_witness :
  alone (put_metadata_impl ex_key [Byte.x01] (Some 0) 7) ex_db = (Err (CasFailed 1), ex_db) ∧
  ∃ d', alone (put_metadata_impl ex_key [Byte.x01] (Some 1) 7) ex_db = (Ok 2, d').
Proof.
  assert (kv_gen ex_key ex_db = 1) as Hg by (vm_compute; reflexivity).
  assert (1 ≤ zlen ex_key ≤ KV_KEY_MAX) as Hk by (split; vm_compute; discriminate). assert (zlen [Byte.x01] ≤ KV_VALUE_MAX) as Hv by by vm_compute.
  assert (∀ g, Some 0 = Some g → u64_ok g) as H0 by (intros g [= <-]; unfold u64_ok; lia).
  assert (∀ g, Some 1 = Some g → u64_ok g) as H1 by (intros g [= <-]; unfold u64_ok; lia).
  destruct (metadata_spec ex_config 7 ex_clock_ok ex_db ex_key [Byte.x01] (Some 0) ex_db_ok Hk Hv ltac:(rewrite Hg; lia) H0) as [-> _].
  destruct (metadata_spec ex_config 7 ex_clock_ok ex_db ex_key [Byte.x01] (Some 1) ex_db_ok Hk Hv ltac:(rewrite Hg; lia) H1) as [-> _].
  rewrite Hg. split; [reflexivity|]. eexists. reflexivity.
Defined.


Lemma readable_of d : forallb (λ x : node_key * node_sql, match n_visits x.2 with SInt _ => true | SReal _ => false end) (map_to_list (d_nodes d)) = true →
  MetaQuery.readable d.
Proof.
  rewrite forallb_forall. intros Hb k r Hk%elem_of_map_to_list%list_elem_of_In%Hb. cbn in Hk. destruct (n_visits r); [by eexists|done].
Qed.
Lemma ex_readable : MetaQuery.readable ex_db.
Proof. apply readable_of. vm_compute. reflexivity. Qed.

Lemma get_path_spec_witness : ∃ rows, get_path ex_exp 2 false ex_db = Ok rows ∧ zlen rows = 3.
Proof.
  assert (∃ r, d_nodes ex_db !! key ex_exp 2 = Some r ∧ n_depth r = 2) as (r & Hr & Hd) by (eexists; split; [vm_compute; reflexivity|reflexivity]).
  destruct (get_path_spec ex_config 7 ex_db ex_exp 2 r false ex_db_ok ex_readable ltac:(unfold u64_ok; lia) Hr) as (rows & H1 & H2 & _).
  exists rows. split; [exact H1|]. by rewrite H2, Hd.
Defined.

Lemma batching_transparent_witness : ∃ rs d',
  execute_batch (ex_cmds ++ [Unpin ex_node_ref; DeleteMetadata ex_key (Some 1)]) (idle ex_config ex_db 7) = (Ok rs, idle ex_config d' 15) ∧ length rs = 8%nat.
Proof.
  assert (Forall cmd_ok (ex_cmds ++ [Unpin ex_node_ref; DeleteMetadata ex_key (Some 1)])) as Hc.
  { apply Forall_app_2; [apply ex_cmds_ok|]. apply Forall_cons_2; [done|]. apply Forall_cons_2; [|constructor]. intros n [= <-]. unfold u64_ok. lia. }
  exact (proj2 (batching_transparent ex_config 7 ex_cmds [Unpin ex_node_ref; DeleteMetadata ex_key (Some 1)] ex_db ex_db_ok
    ltac:(lia) ltac:(vm_compute; reflexivity) Hc ltac:(done) ltac:(done) ltac:(vm_compute; reflexivity))).
Defined.



Lemma update_nodes_spec_witness :
  alone (update_nodes_impl ex_exp [update_new 1; update_new 9; update_new 8] 7) ex_db = (Err (MissingNodes [9; 8]), ex_db) ∧
  ∃ d', alone (update_nodes_impl ex_exp [update_new 1; update_new 2] 7) ex_db = (Ok 7, d').
Proof.
  assert (missing ex_exp [update_new 1; update_new 9; update_new 8] ex_db = [9; 8]) as H1 by (vm_compute; reflexivity).
  assert (missing ex_exp [update_new 1; update_new 2] ex_db = []) as H2 by (vm_compute; reflexivity).
  pose proof (proj1 (update_nodes_spec 7 ex_clock_ok ex_exp [update_new 1; update_new 9; update_new 8] ex_db ltac:(done))) as Hm.
  rewrite H1 in Hm. split; [exact (Hm ltac:(done))|]. eexists.
  exact (proj2 (update_nodes_spec 7 ex_clock_ok ex_exp [update_new 1; update_new 2] ex_db ltac:(done)) H2).
Defined.

(** A visit. *)
Definition ex_visit : NodeUpdate := mk_update 2 None None None 5 false None None.

Lemma get_node_typed_witness : ∃ row, get_node ex_exp 2 ex_db = Ok (Some row) ∧ row_typed 7 row.
Proof.
  pose proof (get_node_typed ex_config 7 ex_clock_ok ex_db ex_exp 2 ex_db_ok ltac:(split; vm_compute; discriminate) ltac:(unfold u64_ok; lia)) as H.
  assert (∃ row, get_node ex_exp 2 ex_db = Ok (Some row)) as [row Hr] by (eexists; vm_compute; reflexivity).
  rewrite Hr in H. exists row. split; [exact Hr|exact (proj1 H)].
Defined.

(** A server with this database. *)
Definition ex_server (d : db) (n : Z) : Server := mk_server (GcGrace.quiet ex_config d n) false metrics_new.

Lemma ex_pruned_row : ∃ row, d_nodes ex_pruned !! (ex_exp, 1) = Some row.
Proof. eexists. vm_compute. reflexivity. Qed.
Lemma ex_pruned_gc : d_gc ex_pruned = Some (Some (mk_gc_sql 0 0 0 0)).
Proof. vm_compute. reflexivity. Qed.
Lemma ex_pruned_tombs : map_to_list (d_tombs ex_pruned) = [((ex_exp, 1), 7)].
Proof. vm_compute. reflexivity. Qed.
#[local] Opaque ex_pruned.

Lemma gc_cycle_grace_witness : ∃ (w : world Server) w' x, run_gc_cycle 1700000000 1 opts_default hooks_none 0 w = (x, w') ∧
  (ex_exp, 1, 7) ∈ map_to_list (d_tombs (md_db (sv_meta w.2))) ∧
  d_nodes (md_db (sv_meta w'.2)) !! (ex_exp, 1) = d_nodes ex_pruned !! (ex_exp, 1).
Proof.
  destruct ex_collect as (packs & st & pf & t & r & _). set (w := ((st, (pf, t)), ex_server ex_pruned 8) : world Server).
  destruct (run_gc_cycle 1700000000 1 opts_default hooks_none 0 w) as [x w'] eqn:Hrun. exists w, w', x. split; [exact Hrun|].
  assert (md_db (sv_meta w.2) = ex_pruned) as Hw by reflexivity. rewrite Hw, ex_pruned_tombs. split; [apply list_elem_of_here|].
  destruct ex_pruned_row as [row Hk]. rewrite Hk.
  pose proof (gc_cycle_grace 1700000000 ex_config 1 opts_default hooks_none 0 8 (mk_gc_sql 0 0 0 0) w x w' (ex_exp, 1) row) as H.
  cbv zeta in H. rewrite Hw in H. refine (H _ ex_pruned_ok ex_pruned_gc _ (λ _ _, eq_refl) Hrun Hk _); [split; [reflexivity|exact (λ _, eq_refl)]|discriminate|].
  intros k s Hs%elem_of_map_to_list Hle _. rewrite ex_pruned_tombs in Hs.
  apply list_elem_of_singleton in Hs. injection Hs as -> ->. exact (Hle eq_refl).
Defined.


(** The pruned database with the root of the pruned subtree taken up again. *)
Definition ex_revived : db := (step_cmd ex_config 8 (UpdateNodes ex_exp [mk_update 1 (Some Frontier) None None 0 false None None]) ex_pruned).2.
Lemma ex_revived_ok : db_ok ex_config 9 ex_revived.
Proof. apply (step_cmd_ok ex_config 8 _ ex_pruned ex_pruned_ok); [lia|done]. Qed.

Lemma unpruned_row_blocks_gc_witness : ∃ (w w' : world Server),
  run_gc_cycle 1700000000 1 (mk_opts (f64_of 1) false 0) hooks_none 0 w = (Err (CycleMeta InvalidArgument), w').
Proof.
  destruct ex_collect as (packs & st & pf & t & r & _). set (w := ((st, (pf, t)), ex_server ex_revived 9) : world Server).
  assert (∃ row, d_nodes ex_revived !! (ex_exp, 1) = Some row ∧ n_status row ≠ status_as_u8 Pruned) as (row & Hr & Hs)
    by (eexists; split; [vm_compute; reflexivity|vm_compute; discriminate]).
  assert (blocked ex_revived (ex_exp, 1)) as Hb by (exists 1, row; split; [exact (below_self _ _ _ row Hr)|split; [exact Hr|exact Hs]]).
  destruct (unpruned_row_blocks_gc 1700000000 ex_config 1 (mk_opts (f64_of 1) false 0) hooks_none 0 w ex_revived 9 (ex_exp, 1) 7 (mk_gc_sql 0 0 0 0)
    eq_refl ex_revived_ok ltac:(lia) ltac:(vm_compute; reflexivity) ltac:(vm_compute; reflexivity) ltac:(vm_compute; reflexivity)
    ltac:(vm_compute; reflexivity) Hb ltac:(vm_compute; reflexivity) ltac:(by left)) as (d' & n' & Hrun & _).
  eexists _, _. exact Hrun.
Defined.
