(* ===== verification/StartupSpec.v ===== *)
(** * What start-up guarantees

    The purge removes exactly the manifests whose bytes do not match their
    name, the reconciliation marks exactly the nodes whose snapshot is not
    there, and together they leave a server in which every node that is not
    PRUNED has an intact snapshot. *)

From S2P Require Import Prelude Types Manifest LocalProto Fs Pack Index Names ReadCache PageStore PageStoreInv PageStoreIngest PageStoreSpec PageStoreOpen.
From S2P Require Import Sql Meta MetaRead MetaInv MetaTree MetaSpec MetaQuery MetaBatch MetaUpdate MetaOpen MetaHandle.
From S2P Require Import SnapStore StoreGc SnapStoreInv SnapStoreRead StoreGcInv GcCycle GcGrace Service ServiceSpec MetaExamples Startup.

Section purge.
Context {HB : Blake3}.
Implicit Types (s : fs) (t : tree) (m : Metrics).

(** ** The purge *)

(** The file [name] at path [p] is removed. *)
Definition bad s (p name : string) : bool :=
  match strip_suffix ".spm" name with
  | None | Some EmptyString => false
  | Some stem =>
      if negb (String.length stem =? 64)%nat then true else
      match hex_to_32 stem, named s p with
      | Some r, Some b => match check_spm_bytes r b with Some _ => true | None => false end
      | _, _ => false
      end
  end.

Definition drop_file (p : string) t : tree := set_t_fs (set_dir (delete p (fs_dir (t_fs t))) (t_fs t)) t.

Lemma tree_io_eq {A} (c : io A) t m r s' : c (t_fs t) = (r, s') → r ≠ Panic → tree_io c (t, m) = (Ok r, (set_t_fs s' t, m)).
Proof. intros Hc Hr. unfold tree_io, zoom, itry, in_fs, zoom. cbn [fst snd]. rewrite Hc. by destruct r. Qed.

Lemma purge_file_eq d name t m : calm (t_fs t) → let p := d +:+ "/" +:+ name in
  purge_file d name (t, m) = (Ok tt, if bad (t_fs t) p name then (drop_file p t, count_integrity m) else (t, m)).
Proof.
  intros Hs p. unfold purge_file, bad. destruct (strip_suffix ".spm" name) as [[|c stem]|]; [done| |done]. set (st := String c stem). fold p.
  assert (set_t_fs (t_fs t) t = t) as Ht by by destruct t.
  assert (∃ r, remove_file p (t_fs t) = (r, set_dir (delete p (fs_dir (t_fs t))) (t_fs t)) ∧ r ≠ Panic) as (r & Hrm & Hr).
  { unfold remove_file. rewrite syscall_calm by done. destruct (fs_dir (t_fs t) !! p) eqn:Hp; [by eexists|]. eexists. rewrite delete_id by done. split; [by destruct t as [[]]|done]. }
  assert (∀ v : option violation, ibind (iret v) (λ v, match v with None => iret tt | Some _ => ibind (tree_io (remove_file p)) (λ _, imod (λ w, (w.1, count_integrity w.2))) end) (t, m) =
    (Ok (E:=Empty_set) tt, if (match v with Some _ => true | None => false end : bool) then (drop_file p t, count_integrity m) else (t, m))) as Hfin.
  { intros [v|]; [|done]. erewrite ibind_step by reflexivity. cbn beta iota. by erewrite ibind_step by (apply tree_io_eq; [exact Hrm|done]). }
  unfold check_spm_integrity. destruct (negb _); [apply (Hfin (Some BadStem))|]. destruct (hex_to_32 st) as [ref|]; [|apply (Hfin None)].
  destruct (named (t_fs t) p) as [b|] eqn:Hn.
  - rewrite (ibind_step _ _ (t, m) (check_spm_bytes ref b) (t, m)); [apply (Hfin (check_spm_bytes ref b))|].
    erewrite ibind_step by (apply tree_io_eq; [apply read_file_calm; [done|exact Hn]|done]). by rewrite Ht.
  - rewrite (ibind_step _ _ (t, m) None (t, m)); [apply (Hfin None)|].
    assert (∃ e, read_file p (t_fs t) = (Err e, t_fs t)) as [e He].
    { unfold named in Hn. destruct (fs_dir (t_fs t) !! p) eqn:Hp; [done|]. unfold read_file, ibind, open_existing. rewrite syscall_calm, Hp by done. by eexists. }
    erewrite ibind_step by (apply tree_io_eq; [exact He|done]). by rewrite Ht.
Qed.

(** [s] is [s0] without the files in [V]. *)
Record kept s0 (V : string → Prop) s : Prop := {
  kp_calm : calm s;
  kp_files : fs_files s = fs_files s0;
  kp_gone : ∀ p, V p → fs_dir s !! p = None;
  kp_same : ∀ p, fs_dir s !! p = fs_dir s0 !! p ∨ V p;
}.

Lemma kept_dir s0 V s p i : kept s0 V s → fs_dir s !! p = Some i ↔ fs_dir s0 !! p = Some i ∧ ¬ V p.
Proof.
  intros [_ _ Hg Hs]. split.
  - intros Hp. assert (¬ V p) as Hv by (intros Hv%Hg; congruence). split; [|done]. destruct (Hs p) as [<-|?]; done.
  - intros [Hp Hv]. destruct (Hs p) as [->|?]; done.
Qed.

Lemma kept_named s0 V s p : kept s0 V s → is_Some (fs_dir s !! p) → named s p = named s0 p.
Proof. intros Hk [i Hp]. unfold named, content. rewrite (kp_files _ _ _ Hk), Hp. by apply (kept_dir _ _ _ _ _ Hk) in Hp as [-> _]. Qed.

Lemma kept_iff s0 (V V' : string → Prop) s : kept s0 V s → (∀ p i, fs_dir s0 !! p = Some i → V p ↔ V' p) → kept s0 V' s.
Proof.
  intros Hk HV. pose proof Hk as [Hc Hf Hg Hs]. split; [done|done|..].
  - intros p Hv. destruct (fs_dir s !! p) as [i|] eqn:Hp; [|done]. pose proof Hp as [Hp0 Hn]%(kept_dir _ _ _ _ _ Hk). by destruct Hn; apply (HV p i).
  - intros p. destruct (Hs p) as [?|Hv]; [by left|]. destruct (fs_dir s0 !! p) as [i|] eqn:Hp; [right; by apply (HV p i)|left; by apply Hg].
Qed.

Lemma bad_kept s0 V s p name : kept s0 V s → is_Some (fs_dir s !! p) → bad s p name = bad s0 p name.
Proof. intros Hk Hp. unfold bad. by rewrite (kept_named s0 V s p Hk Hp). Qed.

(** A computation that removes the files in [V] and counts them. *)
Definition removes {A} (c : M (tree * Metrics) Empty_set A) (s0 : fs) (V W : string → Prop) : Prop := ∀ t m, kept s0 V (t_fs t) →
  ∃ a s' m', c (t, m) = (Ok a, (set_t_fs s' t, m')) ∧ kept s0 W s' ∧ integrity_errors m ≤ integrity_errors m'.

Lemma removes_file s0 V d name :
  removes (purge_file d name) s0 V (λ p, V p ∨ p = d +:+ "/" +:+ name ∧ bad s0 p name = true).
Proof.
  intros t m Hk. pose proof Hk as [Hc Hf Hg Hs]. set (p := d +:+ "/" +:+ name). exists tt. pose proof (purge_file_eq d name t m Hc) as He. cbv zeta in He. fold p in He.
  pose proof (λ Hp, bad_kept s0 V (t_fs t) p name Hk Hp) as Hb. destruct (bad (t_fs t) p name) eqn:Hbad.
  - exists (set_dir (delete p (fs_dir (t_fs t))) (t_fs t)), (count_integrity m). split; [exact He|]. split; [|cbn; lia]. split; [done|done|..]; intros q; cbn.
    + intros Hq. destruct (decide (q = p)) as [->|Hne]; [by rewrite lookup_delete_eq|]. rewrite lookup_delete_ne by done. naive_solver.
    + destruct (decide (q = p)) as [->|Hne]; [|rewrite lookup_delete_ne by done; naive_solver]. rewrite lookup_delete_eq.
      destruct (Hs p) as [Hsame|?]; [|by right; left]. destruct (fs_dir (t_fs t) !! p) as [i|] eqn:Hp; [|by left]. right; right. split; [done|]. rewrite <-Hb; [done|by eexists].
  - exists (t_fs t), m. split; [rewrite He; by destruct t|]. split; [|done]. split; [done|done|..]; intros q; [|naive_solver].
    intros [?|[-> Hx]]; [by apply Hg|]. destruct (fs_dir (t_fs t) !! p) as [i|] eqn:Hp; [|done]. rewrite <-Hb in Hx; [done|by eexists].
Qed.

Lemma removes_for {A} (l : list A) (f : A → M (tree * Metrics) Empty_set unit) (B : A → string → Prop) s0 :
  (∀ x V, removes (f x) s0 V (λ p, V p ∨ B x p)) → ∀ V, removes (ifor l f) s0 V (λ p, V p ∨ ∃ x, x ∈ l ∧ B x p).
Proof.
  intros Hf. induction l as [|x l IH]; intros V t m Hk; cbn [ifor].
  { exists tt, (t_fs t), m. split; [by destruct t|]. split; [|done]. eapply kept_iff; [exact Hk|]. intros p i _. split; [by left|]. by intros [?|(? & ?%elem_of_nil & _)]. }
  destruct (Hf x V t m Hk) as ([] & s1 & m1 & H1 & Hk1 & Hm1). destruct (IH _ (set_t_fs s1 t) m1 Hk1) as (a & s' & m' & H2 & Hk' & Hm').
  exists a, s', m'. split; [by erewrite ibind_step by exact H1|]. split; [|lia]. eapply kept_iff; [exact Hk'|]. intros p i _. split.
  - intros [[?|?]|(y & ? & ?)]; [by left|right; exists x; by split; [left|]|right; exists y; by split; [right|]].
  - intros [?|(y & [->|?]%elem_of_cons & ?)]; [by left; left|by left; right|right; by exists y].
Qed.

Lemma removes_shard s0 V d : removes (purge_shard d) s0 V (λ p, V p ∨ ∃ name, p = d +:+ "/" +:+ name ∧ bad s0 p name = true).
Proof.
  intros t m Hk. pose proof Hk as [Hc _ _ Hs]. set (names := omap (strip_prefix (d +:+ "/")) (map_to_list (fs_dir (t_fs t))).*1).
  destruct (removes_for names (purge_file d) (λ name p, p = d +:+ "/" +:+ name ∧ bad s0 p name = true) s0 (λ name V, removes_file s0 V d name) V t m Hk)
    as (a & s' & m' & Hr & Hk' & Hm). exists a, s', m'. split; [|split; [|done]].
  - unfold purge_shard. rewrite (ibind_step _ _ (t, m) (Ok names) (t, m)); [exact Hr|]. unfold zoom, itry, read_shard, in_fs, zoom. cbn [fst snd].
    rewrite syscall_calm by done. by destruct t.
  - eapply kept_iff; [exact Hk'|]. intros p i Hp. split; [intros [?|(name & _ & ? & ?)]; [by left|right; by exists name]|].
    destruct (fs_dir (t_fs t) !! p) as [j|] eqn:Hj.
    + intros [?|(name & -> & Hb)]; [by left|]. right. exists name. split; [|done]. apply list_elem_of_omap. exists (d +:+ "/" +:+ name).
      split; [|rewrite <-string_app_assoc; apply strip_prefix_app]. apply list_elem_of_fmap. exists (d +:+ "/" +:+ name, j). split; [done|]. by apply elem_of_map_to_list.
    + intros _. left. destruct (Hs p) as [Heq|?]; [congruence|done].
Qed.

(** What the purge removes. *)
Definition corrupt t (p : string) : Prop := ∃ d name, d ∈ t_dirs t ∧ p = d +:+ "/" +:+ name ∧ bad (t_fs t) p name = true.

Lemma purge_ok t m : calm (t_fs t) →
  ∃ s' m', purge_bad_footer_manifests (t, m) = (Ok tt, (set_t_fs s' t, m')) ∧ kept (t_fs t) (corrupt t) s' ∧ integrity_errors m ≤ integrity_errors m'.
Proof.
  intros Hs. assert (kept (t_fs t) (λ _, False) (t_fs t)) as Hk by (split; [done|done|done|by left]).
  destruct (removes_for (elements (t_dirs t)) purge_shard (λ d p, ∃ name, p = d +:+ "/" +:+ name ∧ bad (t_fs t) p name = true) (t_fs t)
    (λ d V, removes_shard (t_fs t) V d) _ t m Hk) as ([] & s' & m' & Hr & Hk' & Hm). exists s', m'. split; [|split; [|done]].
  - unfold purge_bad_footer_manifests. cbn [fst]. rewrite (tree_io_eq _ t m (Ok (elements (t_dirs t))) (t_fs t)); [|by rewrite syscall_calm|done].
    replace (set_t_fs (t_fs t) t) with t by by destruct t. exact Hr.
  - eapply kept_iff; [exact Hk'|]. intros p i _. unfold corrupt. setoid_rewrite elem_of_elements. naive_solver.
Qed.

(** The stored bytes are those the name promises. *)
Definition intact t (r : SnapshotRef) : Prop := ∃ b, named (t_fs t) (spm_path r) = Some b ∧ check_spm_bytes r b = None.

Lemma check_none r b : check_spm_bytes r b = None → 32 ≤ zlen b ∧ blake3 (sub 0 (zlen b - 32) b) = r ∧ sub (zlen b - 32) (zlen b) b = r.
Proof.
  unfold check_spm_bytes. destruct (zlen b <? 32) eqn:Hl; [done|]. b2p. case_bool_decide as H1; [|done]. case_bool_decide as H2; [|done]. cbn. intros _.
  split; [done|]. split; [done|]. congruence.
Qed.

Lemma bad_manifest s r b : hash_ok r → named s (spm_path r) = Some b →
  bad s (spm_path r) (ref_to_hex r +:+ ".spm") = match check_spm_bytes r b with Some _ => true | None => false end.
Proof.
  intros Hr Hn. unfold bad. rewrite strip_suffix_app. pose proof (length_ref_to_hex r) as Hl. rewrite Hr in Hl.
  destruct (ref_to_hex r) as [|c stem] eqn:He; [done|]. rewrite <-He in *. rewrite Hl. cbn [Nat.mul Nat.add Nat.eqb negb]. by rewrite hex_to_32_ref, Hn.
Qed.

(** [manifests/xx]. *)
Definition shards_ok t : Prop := dirs_ok t ∧ ∀ d, d ∈ t_dirs t → String.length d = 12%nat.

Lemma purge_keeps t s' r : shards_ok t → hash_ok r → kept (t_fs t) (corrupt t) s' →
  (is_Some (fs_dir s' !! spm_path r) ↔ intact t r) ∧ (intact t r → intact (set_t_fs s' t) r).
Proof.
  intros [Hd Hlen] Hr Hk. assert (∀ b, named (t_fs t) (spm_path r) = Some b → corrupt t (spm_path r) ↔ check_spm_bytes r b ≠ None) as Hc.
  { intros b Hn. pose proof (bad_manifest (t_fs t) r b Hr Hn) as Hb. split.
    - intros (d & name & Hin & Heq & Hbad). unfold spm_path in Heq. apply string_app_inj_l in Heq as [<- Heq]; [|by rewrite shard_length, Hlen].
      apply string_app_inj_l in Heq as [_ <-]; [|done]. rewrite Hb in Hbad. by destruct (check_spm_bytes r b).
    - intros Hne. exists (shard_dir r), (ref_to_hex r +:+ ".spm"). split; [|split; [done|]].
      + apply Hd; [done|]. unfold named in Hn. by destruct (fs_dir (t_fs t) !! spm_path r).
      + rewrite Hb. by destruct (check_spm_bytes r b). }
  assert (intact t r → is_Some (fs_dir s' !! spm_path r)) as Hin.
  { intros (b & Hn & Hchk). unfold named in Hn. destruct (fs_dir (t_fs t) !! spm_path r) as [i|] eqn:Hp; [|done]. exists i. apply (kept_dir _ _ _ _ _ Hk). split; [done|].
    rewrite (Hc b); [naive_solver|]. unfold named. by rewrite Hp. }
  split; [split; [|done]|].
  - intros [i Hp]. pose proof Hp as [Hp0 Hno]%(kept_dir _ _ _ _ _ Hk). exists (content (t_fs t) i).
    assert (named (t_fs t) (spm_path r) = Some (content (t_fs t) i)) as Hn by (unfold named; by rewrite Hp0). split; [done|].
    rewrite (Hc _ Hn) in Hno. destruct (check_spm_bytes r (content (t_fs t) i)); [by destruct Hno|done].
  - intros Hi. pose proof (Hin Hi) as Hs. destruct Hi as (b & Hn & Hchk). exists b. split; [|done]. cbn. rewrite (kept_named _ _ _ _ Hk Hs). done.
Qed.

Lemma intact_read t r : calm (t_fs t) → intact t r → ∃ b, read_manifest_bytes r t = (Ok b, t).
Proof.
  intros Hs (b & Hn & Hchk). destruct (check_none r b Hchk) as (Hl & Hb & Hf). exists b. unfold read_manifest_bytes.
  assert (path_exists (E:=SnapError) (spm_path r) t = (Ok true, t)) as Hp.
  { unfold named in Hn. unfold path_exists, path_len. destruct (fs_dir (t_fs t) !! spm_path r) as [i|] eqn:Hi; [|done]. rewrite syscall_calm, Hi by done. by destruct t. }
  erewrite ibind_step by exact Hp. cbn [negb].
  erewrite ibind_step by (apply imap_step; unfold in_fs, zoom; rewrite (read_file_calm _ _ _ Hs Hn); reflexivity).
  rewrite (proj2 (Z.ltb_ge _ _)) by lia. rewrite Hf, bool_decide_eq_true_2 by done. cbn [negb]. unfold snapshot_ref. rewrite bool_decide_eq_true_2; [by destruct t|].
  unfold saturating_sub, FOOTER_LEN. by rewrite Z.max_r by lia.
Qed.

End purge.

(** ** The reconciliation *)

Section reconcile.
Context {HB : Blake3} {HZ : Zstd} {HC : Crc32} {HS : Scan} (config : MetaConfig).
Implicit Types (s : fs) (t : tree) (d : db) (n : Z) (k : node_key) (r : node_sql).

(** A node whose snapshot is not in the store. *)
Definition lost s r : Prop := n_status r ≠ status_as_u8 Pruned ∧ fs_dir s !! spm_path (n_ref r) = None.
#[global] Instance lost_dec s r : Decision (lost s r).
Proof. unfold lost. apply _. Defined.

Definition marked (c : Z) r : node_sql := set_n_status (status_to_sql Pruned) (set_n_updated c r).

Definition losses s d : gmap node_key node_sql := filter (λ x, lost s x.2) (d_nodes d).

(** A database and counter in which the nodes in [ks] that are lost have
    been marked, each at a stamp of its own. *)
Record reconciled s (ks : list node_key) n d n' d' : Prop := {
  rc_mark : ∀ k r, d_nodes d !! k = Some r → k ∈ ks → lost s r → ∃ c, n ≤ c < n' ∧ d_nodes d' !! k = Some (marked c r);
  rc_rest : ∀ k r, d_nodes d !! k = Some r → ¬ (k ∈ ks ∧ lost s r) → d_nodes d' !! k = Some r;
  rc_none : ∀ k, d_nodes d !! k = None → d_nodes d' !! k = None;
  rc_other : d_logs d' = d_logs d ∧ d_kv d' = d_kv d ∧ d_pins d' = d_pins d ∧ d_tombs d' = d_tombs d ∧ d_gc d' = d_gc d;
  rc_count : n' + Z.of_nat (size (losses s d')) = n + Z.of_nat (size (losses s d));
}.

(** A database that all calls of the reconciliation serve. *)
Record ready s n d : Prop := {
  rd_db : db_ok config n d;
  rd_rows : readable d;
  rd_clock : 0 ≤ n ∧ n + Z.of_nat (size (losses s d)) < 2 ^ 63;
  rd_size : Z.of_nat (size (d_nodes d)) < 2 ^ 32;
}.

Lemma not_lost_marked s c r : ¬ lost s (marked c r).
Proof. intros [Hx _]. by apply Hx. Qed.

Lemma reconciled_refl s n d : reconciled s [] n d n d.
Proof. split; try done. by intros k r _ ?%elem_of_nil. Qed.

Lemma reconciled_trans s ks1 ks2 n d n1 d1 n2 d2 :
  n ≤ n1 → n1 ≤ n2 → reconciled s ks1 n d n1 d1 → reconciled s ks2 n1 d1 n2 d2 → reconciled s (ks1 ++ ks2) n d n2 d2.
Proof.
  intros Hn1 Hn2 [Hm1 Hr1 Hz1 Ho1 Hc1] [Hm2 Hr2 Hz2 Ho2 Hc2]. split.
  - intros k r Hk Hin Hl. destruct (decide (k ∈ ks1)) as [H1|H1].
    + destruct (Hm1 k r Hk H1 Hl) as (c & Hc & Hk1). exists c. split; [lia|]. apply Hr2; [done|]. intros [_ []%not_lost_marked].
    + apply elem_of_app in Hin as [?|Hin]; [done|]. destruct (Hm2 k r) as (c & Hc & Hk2); [apply Hr1; naive_solver|done|done|]. exists c. split; [lia|done].
  - intros k r Hk Hno. apply Hr2; [apply Hr1; [done|]|]; intros [Hin Hl]; apply Hno; (split; [apply elem_of_app|done]); [by left|by right].
  - intros k Hk. by apply Hz2, Hz1.
  - destruct Ho1 as (?&?&?&?&?), Ho2 as (?&?&?&?&?). split_and!; congruence.
  - lia.
Qed.

Lemma reconciled_skip s k n d : (∀ r, d_nodes d !! k = Some r → ¬ lost s r) → reconciled s [k] n d n d.
Proof. intros Hk. split; try done. intros k' r Hr ->%list_elem_of_singleton Hl. by destruct (Hk r Hr). Qed.

Lemma local_update e us n : local (update_nodes_impl e us n).
Proof.
  unfold update_nodes_impl. destruct us as [|u us]; [loc|]. generalize (u :: us) as l. intros l. apply local_bind.
  - induction l as [|u' l IH]; cbn [missing_nodes]; [loc|]. unfold sql, node_exists. loc.
  - intros missing. unfold apply_update, set_column, set_if_some, sql. loc.
Qed.

(** Marking one node. *)
Lemma mark_ok s n d k r v st : ready s n d → d_nodes d !! k = Some r → lost s r →
  ∃ d', call_u64 (UpdateNodes k.1 [prune_update (node_id (node_of k r v st))]) (quiet config d n) = (Ok n, quiet config d' (n + 1)) ∧
    reconciled s [k] n d (n + 1) d' ∧ ready s (n + 1) d'.
Proof.
  intros [Hd Hrd [Hn Hb] Hsz] Hk Hl. pose proof (no_rows _ _ (do_nodes _ _ _ Hd) _ _ Hk) as Hrow.
  set (u := prune_update _). assert (key k.1 (u_node u) = k) as Hkey.
  { unfold key, u, node_id_to_sql. cbn. rewrite as_i64_u64 by apply Hrow. by destruct k. }
  assert (1 ≤ Z.of_nat (size (losses s d))) as Hone.
  { pose proof (map_size_ne_0_lookup_2 (losses s d) k ltac:(exists r; by apply map_lookup_filter_Some)). lia. }
  set (d1 := alter_node k (updated_row n u) d).
  assert (step_cmd config n (UpdateNodes k.1 [u]) d = (Ok (RU64 n), d1)) as Hs.
  { unfold step_cmd. cbn [dispatch_cmd].
    assert (alone (update_nodes_impl k.1 [u] n) d = (Ok n, d1)) as Ha.
    { assert (missing k.1 [u] d = []) as Hm. { unfold missing. cbn [fmap list_fmap]. rewrite filter_cons, decide_False; [done|]. by rewrite Hkey, Hk. }
      rewrite update_nodes_eq by (done || lia). rewrite Hm, decide_True by done. cbn [foldl]. by rewrite Hkey. }
    by rewrite (step_reply _ RU64 d (Ok n) d1 (local_update k.1 [u] n) Ha). }
  destruct (step_cmd_ok config n (UpdateNodes k.1 [u]) d Hd ltac:(lia) I) as [Hd1 _]. rewrite Hs in Hd1. cbn [snd] in Hd1.
  assert (d_nodes d1 = <[k := marked n r]> (d_nodes d)) as Hn1 by (unfold d1, alter_node; cbn; by rewrite (insert_alter _ _ _ r)).
  destruct (flush_tables (n + 1) d1) as (Hf1 & Hf2 & Hf3 & Hf4 & Hf5 & Hf6). rewrite Hn1 in Hf1. exists (flush_counter (n + 1) d1).
  assert (losses s (flush_counter (n + 1) d1) = delete k (losses s d)) as Hlo.
  { unfold losses. rewrite Hf1. rewrite map_filter_insert_False by apply not_lost_marked. by rewrite map_filter_delete. }
  assert (Z.of_nat (size (losses s (flush_counter (n + 1) d1))) = Z.of_nat (size (losses s d)) - 1) as Hsize.
  { rewrite Hlo, map_size_delete_Some; [lia|]. exists r. by apply map_lookup_filter_Some. }
  split; [unfold call_u64, ibind; rewrite meta_call_quiet; rewrite Hs; done|]. split; split.
  - intros k' r' Hk' ->%list_elem_of_singleton _. rewrite Hk in Hk'. simplify_eq. exists n. split; [lia|]. by rewrite Hf1, lookup_insert_eq.
  - intros k' r' Hk' Hno. rewrite Hf1, lookup_insert_ne; [done|]. intros <-. apply Hno. split; [left|]. rewrite Hk in Hk'. by simplify_eq.
  - intros k' Hk'. rewrite Hf1, lookup_insert_ne; [done|]. intros <-. congruence.
  - by rewrite Hf2, Hf3, Hf4, Hf5, Hf6.
  - lia.
  - apply flush_counter_ok; [done|lia|lia].
  - unfold readable. rewrite Hf1. apply map_Forall_insert_2; [|done]. destruct (Hrd _ _ Hk) as [x Hx]. by exists x.
  - lia.
  - rewrite Hf1, map_size_insert, Hk. done.
Qed.

Section run.
Context (s : fs) (v : SnapshotStore * disk) (g : bool).
Hypothesis (Hv : t_fs v.2.2 = s) (Hs : calm s).

Definition at_boot n d (m : Metrics) : world Server := (v, mk_server (quiet config d n) g m).

(** A computation that marks the nodes in [ks] and counts them. *)
Definition marks (c : M (world Server) Empty_set unit) (ks : list node_key) n d : Prop := ∀ m, ∃ n' d' m',
  c (at_boot n d m) = (Ok tt, at_boot n' d' m') ∧ n ≤ n' ∧ reconciled s ks n d n' d' ∧ ready s n' d' ∧ integrity_errors m' = integrity_errors m + (n' - n).

Lemma meta_try_boot {A} (c : M MetaDb MetaError A) n d m a n' d' : c (quiet config d n) = (a, quiet config d' n') → a ≠ Panic →
  meta_try c (at_boot n d m) = (Ok a, at_boot n' d' m).
Proof. intros Hc Ha. unfold meta_try, itry, zoom. cbn [snd sv_meta at_boot]. rewrite Hc. by destruct a. Qed.

Lemma has_manifest_boot (r : SnapshotRef) n d m :
  in_store (E:=Empty_set) (has_manifest r) (at_boot n d m) = (Ok (bool_decide (is_Some (fs_dir s !! spm_path r))), at_boot n d m).
Proof.
  assert ((v.1, (v.2.1, set_t_fs s v.2.2)) = v) as Heq by (rewrite <-Hv; by destruct v as [? [? []]]).
  rewrite in_store_eq. unfold has_manifest, on_tree, imap_err, zoom, path_exists, path_len, at_boot. cbn [fst snd]. rewrite Hv, syscall_calm by done.
  destruct (fs_dir s !! spm_path r); cbn [fst snd]; by rewrite Heq.
Qed.

Lemma marks_node n d k r vis st : ready s n d → d_nodes d !! k = Some r → n_status r = status_as_u8 st → marks (reconcile_node k.1 (node_of k r vis st)) [k] n d.
Proof.
  intros Hrd Hk Hst m. unfold reconcile_node. case_bool_decide as Hp.
  { exists n, d, m. split; [done|]. split; [done|]. split; [|split; [done|lia]]. apply reconciled_skip. intros r' Hr' [Hx _]. rewrite Hk in Hr'. simplify_eq. cbn in Hp. subst st. done. }
  cbn [node_of snapshot_ref_of]. erewrite ibind_step by apply has_manifest_boot. case_bool_decide as Hf.
  { exists n, d, m. split; [done|]. split; [done|]. split; [|split; [done|lia]]. apply reconciled_skip. intros r' Hr' [_ Hx]. rewrite Hk in Hr'. simplify_eq. rewrite Hx in Hf. by destruct Hf. }
  destruct (mark_ok s n d k r vis st Hrd Hk) as (d' & Hc & Hrc & Hrd').
  { split; [rewrite Hst; cbn in Hp; intros Heq; by destruct st|]. by destruct (fs_dir s !! _); [destruct Hf; eexists|]. }
  exists (n + 1), d', (count_integrity m). erewrite ibind_step by (apply meta_try_boot; [exact Hc|done]). split; [done|]. split; [lia|]. split; [done|]. split; [done|]. cbn. lia.
Qed.

Lemma marks_bind c1 c2 ks1 ks2 n d : marks c1 ks1 n d → (∀ n' d', n ≤ n' → reconciled s ks1 n d n' d' → ready s n' d' → marks c2 ks2 n' d') →
  marks (c1 ;! c2) (ks1 ++ ks2) n d.
Proof.
  intros H1 H2 m. destruct (H1 m) as (n1 & d1 & m1 & Hc1 & Hn1 & Hrc1 & Hrd1 & Hm1). destruct (H2 n1 d1 Hn1 Hrc1 Hrd1 m1) as (n2 & d2 & m2 & Hc2 & Hn2 & Hrc2 & Hrd2 & Hm2).
  exists n2, d2, m2. erewrite ibind_step by exact Hc1. split; [done|]. split; [lia|]. split; [by eapply reconciled_trans|]. split; [done|lia].
Qed.

Lemma marks_nil n d : ready s n d → marks (iret tt) [] n d.
Proof. intros Hr m. exists n, d, m. split; [done|]. split; [lia|]. split; [apply reconciled_refl|]. split; [done|lia]. Qed.

(** A page of rows. *)
Lemma marks_rows e xs rows : ∀ n d, ready s n d → Forall2 (λ x y, entry_to_node x = Ok y) xs rows → NoDup xs.*1 →
  (∀ k r, (k, r) ∈ xs → k.1 = e ∧ d_nodes d !! k = Some r) → marks (ifor rows (reconcile_node e)) xs.*1 n d.
Proof.
  intros n d Hrd Hf. revert n d Hrd. induction Hf as [|[k r] row xs rows Hkr Hf IH]; intros n d Hrd Hnd Hin; cbn [ifor fmap list_fmap fst].
  { by apply marks_nil. }
  apply NoDup_cons in Hnd as [Hnk Hnd]. destruct (Hin k r ltac:(left)) as [He Hk].
  destruct (entry_to_node_ok n d k r (do_nodes _ _ _ (rd_db _ _ _ Hrd)) (rd_rows _ _ _ Hrd) Hk) as (vis & st & _ & Hst & Hrow). rewrite Hrow in Hkr. simplify_eq.
  apply (marks_bind _ _ [k]); [by apply marks_node|]. intros n' d' _ Hrc Hrd'. apply IH; [done|done|]. intros k' r' Hkr'.
  destruct (Hin k' r' ltac:(by right)) as [? Hk']. split; [done|]. eapply (rc_rest _ _ _ _ _ _ Hrc); [done|]. intros [->%list_elem_of_singleton _].
  apply Hnk. apply list_elem_of_fmap. by exists (k, r').
Qed.

(** The filter of the pages. *)
Definition page_filter (e : ExperimentId) (cursor : option Z) : QueryFilter := mk_filter e None None None None ByCreatedAt cursor None (Some 512).

Lemma reconciled_ext ks ks' n d n' d' : (∀ k, k ∈ ks ↔ k ∈ ks') → reconciled s ks n d n' d' → reconciled s ks' n d n' d'.
Proof. intros Hk [H1 H2 H3 H4 H5]. split; [| |done|done|done]; intros k r Hr; rewrite <-Hk; eauto. Qed.

Lemma reconciled_rows ks n d n' d' k r : reconciled s ks n d n' d' → d_nodes d !! k = Some r →
  ∃ r', d_nodes d' !! k = Some r' ∧ n_created r' = n_created r ∧ n_ref r' = n_ref r.
Proof.
  intros Hrc Hr. destruct (decide (k ∈ ks ∧ lost s r)) as [[Hin Hl]|Hno].
  - destruct (rc_mark _ _ _ _ _ _ Hrc k r Hr Hin Hl) as (c & _ & Hk). exists (marked c r). done.
  - exists r. split; [|done]. by eapply rc_rest.
Qed.

Lemma reconciled_inv ks n d n' d' k r' : reconciled s ks n d n' d' → d_nodes d' !! k = Some r' →
  ∃ r, d_nodes d !! k = Some r ∧ n_created r = n_created r' ∧ n_ref r = n_ref r'.
Proof.
  intros Hrc Hk. destruct (d_nodes d !! k) as [r|] eqn:Hr; [|rewrite (rc_none _ _ _ _ _ _ Hrc k Hr) in Hk; done].
  exists r. split; [done|]. destruct (reconciled_rows _ _ _ _ _ _ _ Hrc Hr) as (r1 & Hk1 & ? & ?). rewrite Hk in Hk1. by simplify_eq.
Qed.

Lemma elem_of_query_keys f d k : k ∈ (query_all f d).*1 ↔ ∃ r, query_where f (k, r) ∧ d_nodes d !! k = Some r.
Proof.
  rewrite list_elem_of_fmap. split.
  - intros ([k' r] & -> & [? ?]%elem_of_select). by exists r.
  - intros (r & Hw & Hk). exists (k, r). split; [done|]. by apply elem_of_select.
Qed.

Lemma reconciled_query e c ks n d n' d' : reconciled s ks n d n' d' → (query_all (page_filter e c) d').*1 ≡ₚ (query_all (page_filter e c) d).*1.
Proof.
  intros Hrc. apply NoDup_Permutation; [apply select_nodes_NoDup..|]. intros k. rewrite !elem_of_query_keys.
  assert (∀ r r', n_created r = n_created r' → query_where (page_filter e c) (k, r) → query_where (page_filter e c) (k, r')) as Hw.
  { intros r r' He. unfold query_where. cbn. by rewrite He. }
  split; intros (r & Hq & Hk).
  - destruct (reconciled_inv _ _ _ _ _ _ _ Hrc Hk) as (r0 & Hk0 & Hcr & _). exists r0. split; [by eapply Hw; [|exact Hq]; congruence|done].
  - destruct (reconciled_rows _ _ _ _ _ _ _ Hrc Hk) as (r1 & Hk1 & Hcr & _). exists r1. split; [by eapply Hw; [|exact Hq]; congruence|done].
Qed.

(** All pages of an experiment. *)
Lemma marks_pages e fuel : ∀ cursor n d, ready s n d → zlen (query_all (page_filter e cursor) d) < 512 * Z.of_nat fuel →
  marks (reconcile_pages fuel e cursor) (query_all (page_filter e cursor) d).*1 n d.
Proof.
  assert (∀ N x : nat, Z.of_nat (N `min` x) < Z.of_nat N → (x ≤ N)%nat) as Hmin by lia. assert (∀ N x : nat, Z.of_nat N ≤ Z.of_nat (N `min` x) → (N ≤ x)%nat) as Hmax by lia.
  induction fuel as [|fuel IH]; intros cursor n d Hrd Hlen m; [pose proof (zlen_nonneg (query_all (page_filter e cursor) d)); lia|].
  assert (n ≤ 2 ^ 63) as Hn63 by (destruct (rd_clock _ _ _ Hrd); lia).
  set (f := page_filter e cursor). pose proof (do_nodes _ _ _ (rd_db _ _ _ Hrd)) as Hno. destruct (page_rows n f d Hno (rd_rows _ _ _ Hrd)) as (rows & Hq & Hrows).
  assert (query_page f d = take 512 (query_all f d)) as Hp by done. rewrite Hp in Hrows. set (page := take 512 (query_all f d)) in *.
  cbn [reconcile_pages]. erewrite ibind_step by (apply meta_try_boot; [apply meta_query_quiet|by change (MetaRead.query_nodes _ d) with (MetaRead.query_nodes f d); rewrite Hq]).
  change (MetaRead.query_nodes _ d) with (MetaRead.query_nodes f d). rewrite Hq. cbn [map_err]. pose proof (Forall2_length _ _ _ Hrows) as Hl.
  assert (∀ k r, (k, r) ∈ page → k.1 = e ∧ d_nodes d !! k = Some r) as Hpg.
  { intros k r Hin. assert ((k, r) ∈ query_all f d) as [[? _] ?]%elem_of_select; [|done]. rewrite <-(take_drop 512 (query_all f d)). apply elem_of_app. by left. }
  assert (NoDup page.*1) as Hnd.
  { eapply sublist_NoDup; [apply (select_nodes_NoDup (query_where f) created_of d)|]. apply fmap_sublist, sublist_take. }
  destruct (last rows) as [l|] eqn:Hlast.
  2: { apply last_None in Hlast. subst rows. cbn in Hl. assert (query_all f d = []) as ->.
       { unfold page in Hl. destruct (query_all f d) as [|x xs]; [done|]. rewrite length_take in Hl. cbn in Hl. lia. }
       exists n, d, m. split; [done|]. split; [lia|]. split; [apply reconciled_refl|]. split; [done|lia]. }
  assert (∃ k r, last page = Some (k, r) ∧ entry_to_node (k, r) = Ok l) as (k & r & Hlp & Hlr).
  { apply last_Some in Hlast as [pre ->]. apply Forall2_app_inv_r in Hrows as (l1 & l2 & _ & H2 & ->).
    apply Forall2_cons_inv_r in H2 as ([k r] & l2' & Hkr & H2 & ->). apply Forall2_nil_inv_r in H2 as ->. exists k, r. by rewrite last_snoc. }
  assert (d_nodes d !! k = Some r) as Hk. { apply (Hpg k r). apply last_Some in Hlp as [pre ->]. apply elem_of_app. right; left. }
  destruct (entry_row n _ _ _ _ Hno Hk Hlr) as [-> _].
  pose proof (marks_rows e page rows n d Hrd Hrows Hnd Hpg) as Hm1. unfold zlen in *. rewrite <-Hl.
  destruct (Z.of_nat (length page) <? 512) eqn:Hb; b2p.
  { destruct (marks_bind _ (iret tt) _ [] n d Hm1 (λ n' d' _ _ Hr', marks_nil n' d' Hr') m) as (n' & d' & m' & Hc & Hn & Hrc & Hr' & Hm').
    exists n', d', m'. split; [exact Hc|]. split; [done|]. split; [|done]. eapply reconciled_ext; [|exact Hrc]. intros k'. rewrite app_nil_r.
    replace page with (query_all f d); [done|]. unfold page in *. rewrite length_take in Hb. symmetry. apply take_ge. by apply (Hmin 512%nat). }
  pose proof (query_all_next n f d 512 k r Hno Hn63 Hlp) as Hnext. change (set_created_after (as_u64 (n_created r)) f) with (page_filter e (Some (as_u64 (n_created r)))) in Hnext.
  destruct (marks_bind _ (reconcile_pages fuel e (Some (as_u64 (n_created r)))) _ (drop 512 (query_all f d)).*1 n d Hm1) with (m := m) as (n' & d' & m' & Hc & Hn & Hrc & Hr' & Hm').
  - intros n' d' _ Hrc Hr' m0. pose proof (reconciled_query e (Some (as_u64 (n_created r))) _ _ _ _ _ Hrc) as Hqp. rewrite Hnext in Hqp.
    destruct (IH (Some (as_u64 (n_created r))) n' d' Hr') with (m := m0) as (n2 & d2 & m2 & Hc & Hn & Hrc2 & Hrest).
    + unfold zlen. apply Permutation_length in Hqp. rewrite !length_fmap, length_drop in Hqp. rewrite Hqp. unfold page in Hb. rewrite length_take in Hb. apply (Hmax 512%nat) in Hb. rewrite Nat2Z.inj_sub by done. change (Z.of_nat 512) with 512. fold f in Hlen. clear -Hlen. lia.
    + exists n2, d2, m2. split; [exact Hc|]. split; [done|]. split; [|done]. eapply reconciled_ext; [|exact Hrc2]. intros k'. by rewrite Hqp.
  - exists n', d', m'. split; [exact Hc|]. split; [done|]. split; [|done]. eapply reconciled_ext; [|exact Hrc]. intros k'. rewrite <-fmap_app. unfold page. by rewrite take_drop.
Qed.

Lemma marks_ext c ks ks' n d : (∀ k, k ∈ ks ↔ k ∈ ks') → marks c ks n d → marks c ks' n d.
Proof. intros Hk Hm m. destruct (Hm m) as (n' & d' & m' & Hc & Hn & Hrc & Hrest). exists n', d', m'. split_and!; [done|done|by eapply reconciled_ext|apply Hrest..]. Qed.

Lemma marks_experiments fuel exps : ∀ n d, ready s n d → (∀ e, zlen (query_all (page_filter e None) d) < 512 * Z.of_nat fuel) →
  marks (ifor exps (λ e, reconcile_pages fuel e None)) (exps ≫= λ e, (query_all (page_filter e None) d).*1) n d.
Proof.
  induction exps as [|e exps IH]; intros n d Hrd Hf; cbn [ifor mbind list_bind]; [by apply marks_nil|].
  apply marks_bind; [by apply marks_pages|]. intros n' d' _ Hrc Hrd'. pose proof (λ e, reconciled_query e None _ _ _ _ _ Hrc) as Hq.
  eapply marks_ext; [|apply IH; [done|]].
  - intros k. rewrite !list_elem_of_bind. by setoid_rewrite Hq.
  - intros e'. unfold zlen. rewrite <-(length_fmap fst), Hq, length_fmap. apply Hf.
Qed.

Lemma list_experiments_all d n : db_ok config n d → ∃ exps, list_experiments d = Ok exps ∧ ∀ k, is_Some (d_nodes d !! k) → k.1 ∈ exps.
Proof.
  intros Hd. unfold list_experiments. set (l := stable_sort _ _). assert (∀ e, e ∈ l ↔ ∃ k r, d_nodes d !! k = Some r ∧ k.1 = e) as Hl.
  { intros e. unfold l. rewrite stable_sort_perm. rewrite elem_of_elements. unfold experiment_set. rewrite elem_of_list_to_set, <-list_fmap_compose, list_elem_of_fmap. split.
    - intros ([k r] & -> & Hk%elem_of_map_to_list). by exists k, r.
    - intros (k & r & Hk & <-). exists (k, r). split; [done|]. by apply elem_of_map_to_list. }
  assert (Forall (λ e, ExperimentId_new e = Ok e) l) as Hall.
  { apply Forall_forall. intros e (k & r & Hk & <-)%Hl. apply ExperimentId_new_ok. split; [done|]. apply (no_rows _ _ (do_nodes _ _ _ Hd) _ _ Hk). }
  exists l. split; [|intros k [r Hk]; apply Hl; by exists k, r]. clear Hl. induction Hall as [|e l' He _ IH]; cbn [rcollect]; [done|]. rewrite He. cbn. by rewrite IH.
Qed.

Lemma query_all_size f d : zlen (query_all f d) ≤ Z.of_nat (size (d_nodes d)).
Proof.
  unfold zlen, query_all. rewrite (Permutation_length (select_nodes_perm _ _ _)). rewrite <-length_map_to_list. apply Nat2Z.inj_le, length_filter.
Qed.

Lemma reconcile_ok fuel n d m : ready s n d → Z.of_nat (size (d_nodes d)) < 512 * Z.of_nat fuel →
  ∃ ks n' d' m', reconcile_snapshot_refs fuel (at_boot n d m) = (Ok tt, at_boot n' d' m') ∧ n ≤ n' ∧ reconciled s ks n d n' d' ∧
    ready s n' d' ∧ integrity_errors m' = integrity_errors m + (n' - n) ∧ ∀ k, is_Some (d_nodes d !! k) → k ∈ ks.
Proof.
  intros Hrd Hf. destruct (list_experiments_all d n (rd_db _ _ _ Hrd)) as (exps & He & Hin).
  destruct (marks_experiments fuel exps n d Hrd) with (m := m) as (n' & d' & m' & Hc & Hn & Hrc & Hr' & Hm).
  { intros e. eapply Z.le_lt_trans; [apply query_all_size|done]. }
  eexists _, n', d', m'. split; [|split_and!; [done|exact Hrc|done|done|]].
  - unfold reconcile_snapshot_refs. erewrite ibind_step by (apply (meta_try_boot (meta_read list_experiments) n d m (Ok exps) n d); [unfold meta_read, quiet; cbn; by rewrite He|done]).
    exact Hc.
  - intros k [r Hk]. apply list_elem_of_bind. exists k.1. split; [|apply Hin; by eexists]. apply elem_of_query_keys. exists r. split; [|done]. done.
Qed.

End run.

(** ** Both together *)

(** What start-up makes of the rows [d] when the manifests are those of
    [t]. *)
Record started t n d n' d' : Prop := {
  sr_db : db_ok config n' d' ∧ n ≤ n';
  sr_lost : ∀ k r, d_nodes d !! k = Some r → n_status r ≠ status_as_u8 Pruned → ¬ intact t (n_ref r) →
    ∃ c, n ≤ c < n' ∧ d_nodes d' !! k = Some (marked c r);
  sr_kept : ∀ k r, d_nodes d !! k = Some r → n_status r = status_as_u8 Pruned ∨ intact t (n_ref r) → d_nodes d' !! k = Some r;
  sr_none : ∀ k, d_nodes d !! k = None → d_nodes d' !! k = None;
  sr_other : d_logs d' = d_logs d ∧ d_kv d' = d_kv d ∧ d_pins d' = d_pins d ∧ d_tombs d' = d_tombs d;
}.

Lemma get_snapshot_intact (w : SnapshotStore * disk) (r : SnapshotRef) : calm (t_fs w.2.2) → intact w.2.2 r → ∃ b, get_snapshot r w = (Ok b, w).
Proof.
  intros Hs Hi. destruct (intact_read w.2.2 r Hs Hi) as [b Hb]. exists b. unfold get_snapshot, on_tree, imap_err, zoom. rewrite Hb. by destruct w as [? []].
Qed.

Lemma clean_up_ok fuel store root conn reads pages t m n d :
  shards_ok t → calm (t_fs t) → db_ok config n d → readable d → 0 ≤ n → n + Z.of_nat (size (d_nodes d)) < 2 ^ 63 →
  Z.of_nat (size (d_nodes d)) < 2 ^ 32 → Z.of_nat (size (d_nodes d)) < 512 * Z.of_nat fuel →
  ∃ s' n' d' m', let t' := set_t_fs s' t in
    clean_up fuel store (quiet config d n) (mk_boot root conn reads (pages, t) m) =
      (Ok ((store, (pages, t')), mk_server (quiet config d' n') false m'), mk_boot root conn reads (pages, t') m') ∧
    calm s' ∧ kept (t_fs t) (corrupt t) s' ∧ started t n d n' d' ∧ integrity_errors m + (n' - n) ≤ integrity_errors m' ∧
    (∀ k r, d_nodes d' !! k = Some r → n_status r ≠ status_as_u8 Pruned → intact t' (n_ref r)).
Proof.
  intros Hsh Hs Hd Hrd Hn Hb Hsz Hf. destruct (purge_ok t m Hs) as (s' & m1 & Hp & Hk & Hm1). pose proof (kp_calm _ _ _ Hk) as Hs'.
  set (v := (store, (pages, set_t_fs s' t))).
  assert (ready s' n d) as Hready.
  { split; [done|done| |done]. assert (size (losses s' d) ≤ size (d_nodes d))%nat by (apply map_subseteq_size, map_filter_subseteq). lia. }
  destruct (reconcile_ok s' v false eq_refl Hs' fuel n d m1 Hready Hf) as (ks & n' & d' & m' & Hr & Hn' & Hrc & Hrd' & Hm & Hks).
  assert (∀ k r, d_nodes d !! k = Some r → fs_dir s' !! spm_path (n_ref r) = None ↔ ¬ intact t (n_ref r)) as Hint.
  { intros k' r Hk'. pose proof (ro_ref _ _ (no_rows _ _ (do_nodes _ _ _ Hd) _ _ Hk')) as Href. rewrite <-(proj1 (purge_keeps t s' (n_ref r) Hsh Href Hk)).
    by rewrite eq_None_not_Some. }
  assert (started t n d n' d') as Hst.
  { split; [by split; [apply Hrd'|]| | |apply Hrc|split_and!; apply Hrc].
    - intros k' r Hk' Hns Hni. apply (rc_mark _ _ _ _ _ _ Hrc k' r Hk'); [apply Hks; by eexists|]. split; [done|]. by eapply Hint.
    - intros k' r Hk' Hor. apply (rc_rest _ _ _ _ _ _ Hrc k' r Hk'). intros [_ [Hns Hno]]. destruct Hor as [?|Hi]; [done|]. by apply (Hint k' r Hk') in Hno. }
  exists s', n', d', m'. split; [|split_and!; [done|done|done|lia|]].
  - unfold clean_up. cbn [b_disk snd b_metrics]. rewrite Hp. cbn [fst]. change (store, (pages, set_t_fs s' t), mk_server (quiet config d n) false m1) with (at_boot v false n d m1). by rewrite Hr.
  - intros k' r' Hk' Hns. destruct (d_nodes d !! k') as [r|] eqn:Hr0; [|rewrite (rc_none _ _ _ _ _ _ Hrc _ Hr0) in Hk'; done].
    destruct (decide (lost s' r)) as [Hl|Hl].
    + destruct (rc_mark _ _ _ _ _ _ Hrc k' r Hr0 (Hks _ (mk_is_Some _ _ Hr0)) Hl) as (c & _ & Hx). rewrite Hx in Hk'. apply (inj Some) in Hk' as <-. by destruct Hns.
    + rewrite (rc_rest _ _ _ _ _ _ Hrc k' r Hr0) in Hk' by naive_solver. injection Hk' as <-.
      pose proof (ro_ref _ _ (no_rows _ _ (do_nodes _ _ _ Hd) _ _ Hr0)) as Href. destruct (purge_keeps t s' (n_ref r) Hsh Href Hk) as [Hiff Hkeep]. apply Hkeep, Hiff.
      destruct (fs_dir s' !! spm_path (n_ref r)) eqn:Hx; [by eexists|]. by destruct Hl.
Qed.

End reconcile.

(** ** The whole sequence *)

Section startup.
Context {HB : Blake3} {HZ : Zstd} {HC : Crc32} {HS : Scan} (unix_now : Z).

Lemma open_meta_calm new_uuid now config fuel n d : MetaOpen.stage config n d → n + 1 < 2 ^ 63 → (3 ≤ fuel)%nat →
  ∃ d', open_meta new_uuid now fuel config (mk_conn d d None []) = (Ok (mk_actor (mk_conn d' d' None []) (n + 1) config), mk_conn d' d' None []) ∧
    MetaOpen.rows_of d' = MetaOpen.rows_of d ∧ db_ok config (n + 1) d'.
Proof.
  intros Hst Hn Hf. destruct (MetaOpen.run_migration_ends config new_uuid now n d fuel Hst Hf) as [d' Hm].
  pose proof (MetaOpen.run_migration_resting config new_uuid now fuel n d (mk_conn d d None []) Hst) as Hr. rewrite Hm in Hr.
  destruct Hr as [[Hst' Hrows] Hok]; [done|]. destruct (Hok eq_refl) as (d2 & (_ & Hd2 & _) & Hv). cbn in Hd2. subst d2. exists d'.
  pose proof (MetaOpen.rederive_resting config n d' (mk_conn d' d' None []) Hst' Hv Hn) as Hc.
  assert (∃ r, rederive_counter (mk_conn d' d' None []) = (r, mk_conn d' d' None [])) as [r Hre].
  { unfold rederive_counter, sql, ibind, imap_err, query, statement. cbn. destruct (d_meta d'); by eexists. }
  rewrite Hre in Hc. destruct Hc as (_ & _ & Hc); [done|]. rewrite (Hc eq_refl) in Hre. split; [|split; [done|by apply MetaOpen.stage_ready]].
  unfold open_meta. erewrite ibind_step by exact Hm. by rewrite Hre.
Qed.

(** The manifests after the staging directory was emptied. *)
Lemma clean_tmp_ok t : calm (t_fs t) → ∃ s', clean_tmp_dir t = (Ok tt, set_t_fs s' t) ∧ kept (t_fs t) (λ p, in_dir "tmp" p = true) s'.
Proof.
  intros Hs. set (s0 := t_fs t). set (names := filter (λ p, in_dir "tmp" p = true) (map_to_list (fs_dir s0)).*1).
  assert (∀ l V s, kept s0 V s → Forall (λ p, in_dir "tmp" p = true) l → ∃ s', ifor l (λ p, let! _ := in_fs (itry (remove_file p)) in iret tt) (set_t_fs s t) = (Ok (E:=io_error) tt, set_t_fs s' t) ∧
    kept s0 (λ p, V p ∨ p ∈ l) s') as Hloop.
  { induction l as [|p l IH]; intros V s Hk Hl; cbn [ifor].
    { exists s. split; [done|]. eapply kept_iff; [exact Hk|]. intros p i _. split; [by left|]. by intros [?|?%elem_of_nil]. }
    apply Forall_cons in Hl as [Hp Hl]. pose proof Hk as [Hc Hf Hg Hsm].
    assert (∃ r, in_fs (itry (E:=io_error) (F:=io_error) (remove_file p)) (set_t_fs s t) = (Ok r, set_t_fs (set_dir (delete p (fs_dir s)) s) t)) as [r Hr].
    { unfold in_fs, zoom, itry, remove_file. cbn [t_fs set_t_fs]. rewrite syscall_calm by done. destruct (fs_dir s !! p) eqn:Hp'; [by eexists|]. eexists. rewrite delete_id by done. by destruct s. }
    destruct (IH (λ q, V q ∨ q = p) (set_dir (delete p (fs_dir s)) s)) as (s' & H' & Hk'); [|done|].
    - split; [done|done|..]; intros q; cbn.
      + intros [Hq| ->]; [|by rewrite lookup_delete_eq]. destruct (decide (q = p)) as [->|]; [by rewrite lookup_delete_eq|]. rewrite lookup_delete_ne by done. by apply Hg.
      + destruct (decide (q = p)) as [->|]; [by right; right|]. rewrite lookup_delete_ne by done. naive_solver.
    - exists s'. split; [|eapply kept_iff; [exact Hk'|]; intros q i _; rewrite elem_of_cons; tauto].
      rewrite (ibind_step _ _ (set_t_fs s t) tt (set_t_fs (set_dir (delete p (fs_dir s)) s) t)); [exact H'|]. by erewrite ibind_step by exact Hr. }
  destruct (Hloop names (λ _, False) s0) as (s' & Hr & Hk'); [by split; [done|done|done|by left]|apply Forall_forall; by intros p [? _]%list_elem_of_filter|].
  exists s'. split.
  - unfold clean_tmp_dir. erewrite ibind_step by (unfold in_fs, zoom; rewrite syscall_calm by done; reflexivity). exact Hr.
  - eapply kept_iff; [exact Hk'|]. intros p i Hp. unfold names. rewrite list_elem_of_filter. split; [tauto|]. intros Hd. right. split; [done|].
    apply list_elem_of_fmap. exists (p, i). split; [done|]. by apply elem_of_map_to_list.
Qed.

Lemma read_grb_calm p s : calm s → ∃ r, read_guest_ram_bytes p s = (r, s) ∧ r ≠ Panic.
Proof.
  intros Hs. unfold read_guest_ram_bytes, ibind, open_existing. rewrite syscall_calm by done. destruct (fs_dir s !! p) as [i|]; [|by eexists].
  unfold read_exact, ibind, read_exact_at. rewrite syscall_calm by done. cbn -[sub]. destruct (_ <=? _); cbn -[sub]; [|by eexists]. destruct (negb _); by eexists.
Qed.

Lemma walk_calm t : calm (t_fs t) → ∃ r, walk_manifest_counters t = (Ok r, t).
Proof.
  intros Hs. assert (set_t_fs (t_fs t) t = t) as Ht by by destruct t.
  assert (∀ d names acc, ∃ r, count_files d names acc t = (Ok r, t)) as Hfiles.
  { intros d names. induction names as [|name names IH]; intros acc; cbn [count_files]; [by eexists|]. destruct (strip_suffix ".spm" name) as [[|]|]; [apply IH| |apply IH].
    destruct (read_grb_calm (d +:+ "/" +:+ name) (t_fs t) Hs) as (x & Hx & Hnp).
    rewrite (ibind_step _ _ t x t); [apply IH|]. unfold in_fs, zoom, itry. rewrite Hx. by destruct x; [rewrite Ht|rewrite Ht|]. }
  unfold walk_manifest_counters, in_fs, zoom. rewrite syscall_calm by done. cbn beta iota. unfold iret. rewrite Ht. generalize (0, 0). generalize (elements (t_dirs t)).
  induction l as [|d l IH]; intros acc; cbn [count_shards]; [by eexists|].
  erewrite ibind_step by (unfold itry, read_shard, in_fs, zoom; rewrite syscall_calm by done; reflexivity). cbn beta iota. rewrite Ht.
  destruct (Hfiles d (omap (strip_prefix (d +:+ "/")) (map_to_list (fs_dir (t_fs t))).*1) acc) as [acc' Ha]. erewrite ibind_step by exact Ha. apply IH.
Qed.

Lemma open_options_ok D opts cap sp t : disk_ok D sp → calm sp → (∀ id, is_Some (D !! id) → id + 1 < 2 ^ 32) → calm (t_fs t) →
  ∃ packs ps sp' s' total logical, open_with_options unix_now opts cap (sp, t) = (Ok (mk_snap ps None (fc_new cap) total logical), (sp', set_t_fs s' t)) ∧
    calm sp' ∧ store_inv packs ps sp' ∧
    (∀ h, is_Some (index_get (ps_index ps) h) ↔ ∃ id im hdr rs, D !! id = Some im ∧ recs im = Some (hdr, rs) ∧ h ∈ rr_hash <$> rs) ∧
    kept (t_fs t) (λ p, in_dir "tmp" p = true) s'.
Proof.
  intros HD Hp Hids Hs. destruct (open_ok unix_now D sp opts HD Hp Hids) as (packs & ps & sp' & Ho & Hsp' & Hi & _ & Hx & _).
  destruct (clean_tmp_ok t Hs) as (s' & Hc & Hk). destruct (walk_calm (set_t_fs s' t) (kp_calm _ _ _ Hk)) as [[total logical] Hw].
  exists packs, ps, sp', s', total, logical. split; [|split_and!; [done..|apply Hx|exact Hk]]. unfold open_with_options.
  assert (set_t_fs (t_fs t) t = t) as Ht by by destruct t.
  assert (syscall (iret tt) (t_fs t) = (Ok tt, t_fs t)) as Hsc by (by rewrite syscall_calm).
  rewrite (ibind_step _ _ (sp, t) tt (sp, t)); [|unfold imap_err, zoom, in_fs, zoom, ibind; cbn [fst snd]; rewrite !Hsc; by rewrite Ht].
  erewrite ibind_step by (apply imap_step; unfold zoom; cbn [fst snd]; rewrite Hc; reflexivity).
  erewrite ibind_step by (apply imap_step; unfold zoom; cbn [fst snd]; rewrite Ho; reflexivity).
  by erewrite ibind_step by (apply imap_step; unfold zoom; cbn [fst snd]; rewrite Hw; reflexivity).
Qed.

(** A data root of this version, or a new one. *)
Definition version_ok (s : fs) : Prop := fs_dir s !! STORE_VERSION_FILE = None ∨ named s STORE_VERSION_FILE = Some STORE_VERSION.

Lemma check_version_ok s : calm s → version_ok s → ∃ s', check_version s = (Ok tt, s') ∧ calm s' ∧ named s' STORE_VERSION_FILE = Some STORE_VERSION.
Proof.
  intros Hs Hv. unfold check_version, path_len. rewrite syscall_calm by done. destruct (fs_dir s !! STORE_VERSION_FILE) as [i|] eqn:Hi.
  - destruct Hv as [?|Hv]; [congruence|]. exists s. split; [|done]. erewrite ibind_step by (apply imap_step, read_file_calm; [done|exact Hv]). by vm_compute.
  - set (s1 := fresh_file STORE_VERSION_FILE s). set (s2 := set_content (fs_next s) STORE_VERSION s1).
    exists (set_files (<[fs_next s := mk_file STORE_VERSION STORE_VERSION]> (fs_files s2)) s2). split; [|split; [done|]].
    + apply imap_step. unfold write_version. erewrite ibind_step by (unfold open_truncate; rewrite syscall_calm, Hi by done; reflexivity).
      assert (content s1 (fs_next s) = []) as Hc by (unfold content; cbn; by rewrite lookup_insert_eq).
      rewrite (ibind_step _ _ s1 tt s2); [|unfold write_all_; rewrite write_all_calm by done; cbn [h_ino h_pos]; by rewrite Hc].
      unfold sync_data. rewrite syscall_calm by done. cbn [h_ino]. assert (content s2 (fs_next s) = STORE_VERSION) as -> by apply content_set_content. done.
    + unfold named. cbn. rewrite lookup_insert_eq. cbn. unfold content. cbn. by rewrite lookup_insert_eq.
Qed.

Lemma kept_intact t V s' r : hash_ok r → kept (t_fs t) V s' → ¬ V (spm_path r) → intact (set_t_fs s' t) r ↔ intact t r.
Proof.
  intros Hr Hk Hv. assert (named s' (spm_path r) = named (t_fs t) (spm_path r)) as Hn; [|unfold intact; cbn; by rewrite Hn].
  unfold named, content. rewrite (kp_files _ _ _ Hk). by destruct (kp_same _ _ _ Hk (spm_path r)) as [->|?].
Qed.

Lemma kept_shards t V s' : kept (t_fs t) V s' → shards_ok t → shards_ok (set_t_fs s' t).
Proof.
  intros Hk [Hd Hl]. split; [|done]. intros r Hr [i [Hi _]%(kept_dir _ _ _ _ _ Hk)]. apply Hd; [done|]. by eexists.
Qed.


End startup.

(** ** Witness *)

#[local] Existing Instances toy_blake3 toy_zstd toy_crc32 toy_scan.
#[local] Opaque ex_page blake3 ex_db.

Lemma ex_db_stage : stage ex_config 7 ex_db.
Proof.
  destruct ex_db_ok as [Hn Hl Hk Hp Ht _ _]. split; [done|done|]. 
  unfold at_version. assert (d_meta ex_db = Some (Some (mk_meta_sql 2 [] 7))) as -> by (vm_compute; reflexivity). split; [done|]. right. split; [done|]. vm_compute. by eexists.
Qed.

(** A new data root, a database with four nodes, a torn pack and no
    manifests. *)
Definition ex_boot : Boot := mk_boot empty_fs (mk_conn ex_db ex_db None []) [] (ex_torn, mk_tree empty_fs ∅ ∅) metrics_new.


(** ** The version file is not written atomically

    When the write of a new version file fails, the empty file stays, and
    every later start is refused with a version mismatch. *)
Lemma failed_init_refused : ∃ e s1 s2, check_version (set_faults [None; None; Some 0%nat] empty_fs) = (Err (StartIo e), s1) ∧
  calm s1 ∧ check_version s1 = (Err (VersionMismatch []), s2).
Proof. eexists _, _, _. split; [vm_compute; reflexivity|]. split; [reflexivity|]. vm_compute. reflexivity. Qed.
