(* ===== verification/ServiceExamples.v ===== *)
(** * The server evaluated

    The theorems about the service and the page channel applied to the small
    store and database of the examples. *)

From Stdlib Require Import Logic.FunctionalExtensionality.
From S2P Require Import Prelude Types LocalProto Fs Pack Index PageStore PageStoreInv PageStoreIngest PageStoreSpec SnapStore StoreGc StoreGcInv StoreGcRun StoreGcSpec.
From S2P Require Import Sql Meta MetaRead MetaInv MetaTree MetaSpec MetaQuery MetaBatch MetaHandle GcCycle GcCycleSpec GcGrace GcCollect Service PageChannel ChannelClient ChannelSpec.
From S2P Require Import ServiceGc ServiceSpec MetaExamples.
Import LocalProto.

#[local] Existing Instances toy_blake3 toy_crc32 toy_zstd toy_scan.
#[local] Opaque ex_page blake3.

(** ** The page channel *)

(** A store around a page store. *)
Definition ex_store (ps : PageStore) (s : fs) : SnapshotStore * disk := (mk_snap ps None (fc_new 16) 0 0, (s, mk_tree empty_fs ∅ ∅)).
(** The details the server sends. *)
Definition ex_text (f : fault) : bytes := [].
#[local] Existing Instance to_server.

Lemma channel_put_get_witness : ∃ w out w1 ds w2, let C := to_server 1700000000 id ex_text 1000 in
  put_batch true [ex_page; ex_page] (0, w) = (Ok out, w1) ∧ po_new out + po_deduped out = 2 ∧
  get_batch (zip [blake3 ex_page; blake3 ex_page] [5; 9]) w1 = (Ok (zip [5; 9] ds), w2) ∧
  blake3 <$> ds = [blake3 ex_page; blake3 ex_page].
Proof.
  destruct ex_fresh as (ps & s & Hs & Hok & _ & _ & Hroom).
  destruct (channel_put_get 1700000000 id ex_text 1000 _ 0 [ex_page; ex_page] [5; 9] 0 (ex_store ps s) (ex_server ex_db 7)
    (λ l, Permutation_refl l) Hok Hs Hroom ex_pages_ok ltac:(split; vm_compute; discriminate) eq_refl
    ltac:(repeat constructor; unfold u64_ok; lia) ltac:(unfold i64_ok; lia) ltac:(vm_compute; discriminate) ltac:(unfold u64_ok; lia) eq_refl)
    as (out & w1 & ds & w2 & H1 & H2 & _ & H3 & H4).
  eexists _, out, w1, ds, w2. split; [exact H1|]. split; [exact H2|]. split; [exact H3|exact H4].
Defined.

(** The reference of no page. *)
Definition ex_absent : PageHash := zeros 32.
Lemma ex_absent_ne : blake3 ex_page ≠ ex_absent.
Proof.
  enough (bool_decide (blake3 ex_page = ex_absent) = false) as Hb by by apply bool_decide_eq_false in Hb. vm_compute. reflexivity.
Qed.

Lemma failed_get_desyncs_witness : let C := to_server 1700000000 id ex_text 1000 in
  ∃ w text w1 w2, get_batch (replicate (Z.to_nat GET_BATCH_MAX_PER_DATAGRAM) (ex_absent, 0) ++ [(blake3 ex_page, 1)]) w = (Err (ChPeer NotFound text), w1) ∧
    get_batch [(blake3 ex_page, 1)] w1 = (Ok [], w2).
Proof.
  destruct ex_fresh as (ps & s & Hs & Hok & Hx & _ & Hroom).
  destruct (ingest_ok 1700000000 id _ ps s [ex_page; ex_page] (λ l, Permutation_refl l) Hok Hs ex_pages_ok Hroom)
    as (out & packs1 & ps1 & s1 & _ & Hig & Hok1 & Hs1 & _).
  assert (index_get (ps_index ps1) ex_absent = None) as Hno.
  { rewrite <-flat_lookup by apply (si_index _ _ _ (proj1 Hok1)). apply not_elem_of_dom. rewrite (ig_dom _ _ _ _ Hig), Hx.
    intros [[l0 Hl0]%elem_of_dom|(p & He & Hp)%elem_of_list_to_set%list_elem_of_fmap]%elem_of_union; [rewrite index_new_empty in Hl0; discriminate|].
    rewrite !elem_of_cons in Hp. destruct Hp as [->|[->|[]%not_elem_of_nil]]; exact (ex_absent_ne (eq_sym He)). }
  destruct (ig_outcome _ _ _ _ Hig 0%nat ex_page eq_refl) as (l & b & _ & Hl & _).
  set (ra := replicate (Z.to_nat GET_BATCH_MAX_PER_DATAGRAM) (ex_absent, 0)).
  destruct (failed_get_desyncs 1700000000 id ex_text 1000 packs1 0 ra [(blake3 ex_page, 1)] 0 (ex_store ps1 s1) (ex_server ex_db 7))
    as (text & w1 & H1 & H2); [intros h; split; [reflexivity|vm_compute; discriminate]|unfold u64_ok; lia|lia|exact Hok1|exact Hs1|..].
  - apply Forall_app_2; [apply Forall_replicate|apply Forall_singleton]; (split; [|unfold u64_ok; cbn; lia]); [reflexivity|apply blake3_length].
  - unfold zlen, ra. rewrite length_replicate. reflexivity.
  - split; vm_compute; discriminate.
  - exists (ex_absent, 0). split; [apply elem_of_replicate; split; [reflexivity|discriminate]|exact Hno].
  - intros r ->%list_elem_of_singleton. exists l. exact Hl.
  - destruct (H2 _ (list_elem_of_here _ _)) as [w2 H3]. eexists _, text, w1, w2. split; [exact H1|exact H3].
Defined.

(** Two batches, a limit that has room for one of them: the second is
    refused, and both leave. *)
Lemma in_flight_bounded_witness : ∃ s, rtc (flow 10) (mk_flow 0 ∅) s ∧ fw_threads s ≠ ∅ ∧ total phase_held (fw_threads s) ≤ 10.
Proof.
  set (s := mk_flow 14 (<[1%nat := Refused 7]> (<[0%nat := InFlight 7]> ∅))).
  assert (∀ th : gmap nat phase, (size th ≤ 1)%nat → (size th < MAX_THREADS)%nat) as Hm.
  { intros th Hth. eapply Nat.le_lt_trans; [exact Hth|]. unfold MAX_THREADS. apply Nat2Z.inj_lt. rewrite Z2Nat.id by lia. lia. }
  assert (rtc (flow 10) (mk_flow 0 ∅) s) as Hs.
  { eapply rtc_l; [apply (flow_enter 10 0 ∅ 0 7); [apply lookup_empty|apply Hm; rewrite map_size_empty; lia|unfold PUT_BATCH_MAX_PAGES; lia]|].
    eapply rtc_l; [apply (flow_enter 10 7 (<[0%nat := InFlight 7]> ∅) 1 7);
      [reflexivity|apply Hm; rewrite map_size_insert_None by apply lookup_empty; rewrite map_size_empty; lia|unfold PUT_BATCH_MAX_PAGES; lia]|]. apply rtc_refl. }
  exists s. split; [exact Hs|]. split; [apply insert_non_empty|]. exact (proj1 (in_flight_bounded 10 s ltac:(lia) Hs)).
Defined.

(** ** Node queries *)

Definition ex_query (order : Z) : QueryNodesRequest := mk_query_req ex_exp None None None None None None order 0.
Definition ex_filter (order : QueryOrder) : QueryFilter := mk_filter ex_exp None None None None order None None (Some 512).

Lemma query_nodes_complete_witness : ∃ w batches, Rpc.query_nodes 1 (ex_query 1) w = (Ok (Some (Ok <$> batches)), w) ∧ length (concat batches) = 4%nat.
Proof.
  destruct ex_fresh as (ps & s & _). set (w := (ex_store ps s, ex_server ex_db 7)).
  assert (length (query_all (ex_filter ByCreatedAt) ex_db) = 4%nat) as Hn by (vm_compute; reflexivity).
  destruct (query_nodes_complete 7 1 (ex_query 1) (ex_filter ByCreatedAt) w eq_refl (do_nodes _ _ _ ex_db_ok) ltac:(lia) ex_readable eq_refl eq_refl
    ltac:(change (md_db (sv_meta w.2)) with ex_db; unfold zlen; rewrite Hn; reflexivity)) as (batches & rows & H1 & H2 & H3 & _).
  exists w, batches. split; [exact H1|]. rewrite H2, length_fmap, <-(Forall2_length _ _ _ H3). exact Hn.
Defined.

(** Nodes enough for a full batch, all stamped by one update. *)
Definition ex_many_cmds : list ActorCmd :=
  CreateNode (ex_create 0 None) :: ((λ n, CreateNode (ex_create (Z.of_nat n) (Some 0))) <$> List.seq 1 513) ++
  [UpdateNodes ex_exp ((λ n, update_new (Z.of_nat n)) <$> List.seq 0 514)].
Definition ex_many : db := (step_cmds ex_config 1 ex_many_cmds ex_fresh_db).2.

Lemma ex_many_ok : db_ok ex_config 516 ex_many.
Proof.
  apply (step_cmds_ok ex_config 1 ex_many_cmds ex_fresh_db ex_fresh_ok); [lia|vm_compute; reflexivity| |vm_compute; reflexivity].
  apply Forall_cons_2; [apply ex_create_ok; [unfold u64_ok; lia|discriminate]|]. apply Forall_app_2; [|repeat constructor].
  apply Forall_fmap, Forall_forall. intros n [_ Hn]%elem_of_seq. apply ex_create_ok; [unfold u64_ok; lia|intros ? [= <-]; unfold u64_ok; lia].
Qed.

#[local] Opaque ex_many.
Definition ex_all : list node_entry := select_nodes (query_where (ex_filter ByUpdatedAt)) (order_col ByUpdatedAt) ex_many.
Lemma ex_all_length : length ex_all = 514%nat.
Proof. vm_compute. reflexivity. Qed.
Lemma ex_all_stamp x : x ∈ ex_all → n_updated x.2 = 515.
Proof.
  assert (forallb (λ x : node_entry, n_updated x.2 =? 515) ex_all = true) as Hb by (vm_compute; reflexivity).
  intros Hx. apply Z.eqb_eq. revert x Hx. generalize dependent ex_all. intros l Hb x Hx. rewrite forallb_forall in Hb. by apply Hb, list_elem_of_In.
Qed.
Lemma page_all d : query_page (ex_filter ByUpdatedAt) d = take 512 (select_nodes (query_where (ex_filter ByUpdatedAt)) (order_col ByUpdatedAt) d).
Proof. reflexivity. Qed.
Lemma ex_page_all : query_page (ex_filter ByUpdatedAt) ex_many = take 512 ex_all.
Proof. apply page_all. Qed.
Lemma ex_all_NoDup : NoDup ex_all.
Proof. exact (NoDup_fmap_1 fst _ (select_nodes_NoDup _ _ _)). Qed.
Lemma ex_all_eq : select_nodes (query_where (ex_filter ByUpdatedAt)) (order_col (q_order (ex_filter ByUpdatedAt))) ex_many = ex_all.
Proof. exact eq_refl. Qed.
#[local] Opaque ex_all.

(** What the stream returns on a quiet database. *)
Definition returns {A B C} (r : res A (option B) * C) : bool := match r.1 with Ok (Some _) => true | _ => false end.

Lemma query_by_update_loses_ties_witness : ∃ out m' x, Rpc.query_loop 3 (ex_filter ByUpdatedAt) (GcGrace.quiet ex_config ex_many 516) = (Ok (Some out), m') ∧
  x ∈ ex_all ∧ ∀ l nm, Ok l ∈ out → nm ∈ l → nm_node nm ≠ as_u64 x.1.2.
Proof.
  assert (returns (Rpc.query_loop 3 (ex_filter ByUpdatedAt) (GcGrace.quiet ex_config ex_many 516)) = true) as Hret by (vm_compute; reflexivity).
  remember (GcGrace.quiet ex_config ex_many 516) as m eqn:Hm.
  assert (md_db m = ex_many) as Hd by (rewrite Hm; exact eq_refl). assert (md_read_faults m = []) as Hf by (rewrite Hm; exact eq_refl). clear Hm.
  destruct (Rpc.query_loop 3 (ex_filter ByUpdatedAt) m) as [[[out|]|e|] m'] eqn:Hrun; [|discriminate Hret..]. clear Hret.
  destruct (ex_all !! 512%nat) as [x|] eqn:Hx; [|apply lookup_ge_None in Hx; rewrite ex_all_length in Hx; lia].
  destruct (last (take 512 ex_all)) as [[k r]|] eqn:Hl; [|apply last_None, (f_equal length) in Hl; rewrite length_take, ex_all_length in Hl; discriminate Hl].
  exists out, m', x. split; [reflexivity|]. pose proof (list_elem_of_lookup_2 _ _ _ Hx) as Hin. split; [exact Hin|].
  pose proof (query_by_update_loses_ties 516 3 (ex_filter ByUpdatedAt) m out m' k r x Hf) as H.
  rewrite Hd, ex_page_all, ex_all_eq in H. refine (H (do_nodes _ _ _ ex_many_ok) _ eq_refl Hl Hin _ _ Hrun); [lia| |rewrite ex_all_stamp by exact Hin; symmetry; apply (ex_all_stamp (k, r))].
  - intros [i Hi]%list_elem_of_lookup. apply lookup_take_Some in Hi as [Hi Hlt].
    pose proof (NoDup_lookup _ _ _ _ ex_all_NoDup Hi Hx). lia.
  - apply last_Some in Hl as [l' Hl]. rewrite <-(take_drop 512 ex_all), Hl. apply elem_of_app. left. apply elem_of_app. right. apply list_elem_of_here.
Defined.

(** ** Garbage collection *)

(** The server of the examples: a store with a FULL snapshot, which the
    nodes refer to, and a delta that nothing refers to. *)
Definition ex_opts : GcOpts := mk_opts (f64_of 1) false 0.

Lemma ex_pruned_due k s : d_tombs ex_pruned !! k = Some s → all_pruned ex_pruned k.1 k.2.
Proof.
  intros Hs%elem_of_map_to_list. rewrite ex_pruned_tombs in Hs. apply list_elem_of_singleton in Hs. injection Hs as -> ->. exact ex_pruned_all.
Qed.
Lemma ex_pruned_sizes : size (d_nodes ex_pruned) = 4%nat ∧ size (d_tombs ex_pruned) = 1%nat.
Proof. split; vm_compute; reflexivity. Qed.
Lemma ex_pruned_root : ∃ row, d_nodes ex_pruned !! (ex_exp, 3) = Some row ∧ n_ref row = ex_base_ref.
Proof. eexists. split; [vm_compute; reflexivity|reflexivity]. Qed.
#[local] Opaque ex_pruned.


Lemma ex_pruned_refs : meta_refs (GcGrace.quiet ex_config ex_pruned 8) = [ex_base_ref].
Proof. vm_compute. reflexivity. Qed.
Lemma ex_pruned_below m : below ex_pruned ex_exp 1 m → m ≠ 3.
Proof.
  destruct ex_pruned_row as [row Hrow].
  destruct (subtree_spec ex_pruned 8 (do_nodes _ _ _ ex_pruned_ok) ex_exp 1 (mk_is_Some _ _ Hrow)) as (ids & Hs & Hids).
  assert (subtree ex_pruned (ex_exp, 1) = Some [1; 2]) as Hsub by (vm_compute; reflexivity). rewrite Hsub in Hs. injection Hs as <-.
  intros Hb%Hids ->. by rewrite !elem_of_cons, elem_of_nil in Hb; destruct Hb as [|[|]].
Qed.

(** A client that reads a node at every callback point of the cycle. *)
Definition ex_sched (p : GcPoint) (w : world Server) : list request :=
  match ss_epoch w.1.1, md_read_faults (sv_meta w.2) with Some _, [] => [RGetNode ex_exp 3] | _, _ => [] end.

Lemma ex_sched_reads p w : foldl (λ w q, serve 1700000000 id elements ex_text q w) w (ex_sched p w) = w.
Proof.
  unfold ex_sched. destruct (ss_epoch w.1.1); [|done]. destruct (md_read_faults (sv_meta w.2)) eqn:Hf; [|done]. cbn [foldl serve].
  destruct w as [v [m la x]]. cbn in Hf. unfold Rpc.get_node, ibind, iof. destruct (Rpc.validate_experiment_id ex_exp); [|done..].
  unfold Rpc.blocking, Rpc.meta, imap_err, zoom, meta_query, meta_read. cbn [snd sv_meta]. rewrite Hf.
  destruct (map_err MSqlite (MetaRead.get_node a 3 (md_db m))) as [[row|]|e|]; done.
Qed.

Lemma ex_serving : serving 1700000000 id elements ex_text ex_sched = hooks_none.
Proof. unfold serving, hooks_none. f_equal. extensionality p. extensionality w. apply ex_sched_reads. Qed.

Lemma gc_serves_requests_witness : ∃ (w : world Server) x w',
  run_gc_cycle 1700000000 1 ex_opts (serving 1700000000 id elements ex_text ex_sched) 0 w = (x, w') ∧ ex_base_ref ∈ meta_refs (sv_meta w'.2) ∧ closed w'.1 ex_base_ref.
Proof.
  destruct ex_collect as (packs & st & pf & t & r & Hok & Hs & Ht & He & Hd & Hr & _ & _ & Hc).
  set (w := ((st, (pf, t)), ex_server ex_pruned 8) : world Server). destruct ex_pruned_sizes as [Hn Hm].
  destruct (gc_cycle_run 1700000000 ex_config 0 ex_opts 0 packs w ex_pruned 8 (mk_gc_sql 0 0 0 0) eq_refl ex_pruned_ok ltac:(lia)
    ltac:(rewrite Hm; lia) ltac:(rewrite Hn; lia) ltac:(rewrite Hm; lia) ex_pruned_gc ltac:(vm_compute; reflexivity) eq_refl (λ k s H _, ex_pruned_due k s H)
    Hok Hs Ht He Hd Hr) as (report & w' & Hrun & _ & _ & Hnx & Hrows & _).
  exists w, (Ok report), w'. rewrite <-ex_serving in Hrun. split; [exact Hrun|].
  assert (ex_base_ref ∈ meta_refs (sv_meta w'.2)) as Hin.
  { unfold meta_refs. apply elem_of_elements, elem_of_root_blobs. left. destruct ex_pruned_root as (row & Hk & Href). exists (ex_exp, 3), row. split; [|exact Href].
    apply Hrows. split; [exact Hk|]. intros (k & s & Hk' & _ & _ & Hb). apply elem_of_map_to_list in Hk'. rewrite ex_pruned_tombs in Hk'.
    apply list_elem_of_singleton in Hk'. injection Hk' as -> ->. by apply (ex_pruned_below _ Hb). }
  split; [exact Hin|].
  pose proof (gc_serves_requests 1700000000 id elements ex_text ex_config (λ l, Permutation_refl l) (λ X, Permutation_refl _) ex_sched 1 ex_opts 0 packs w (Ok report) w') as H.
  refine (proj1 (H _ _ _ Hrun Hnx) _ Hin).
  - intros p w0. unfold ex_sched. destruct (ss_epoch w0.1.1) eqn:He0; [|exact I]. destruct (md_read_faults (sv_meta w0.2)); [|exact I].
    split; [rewrite He0; eexists; reflexivity|]. split; exact I.
  - split; [exact Hok|split; [exact Hs|exact Ht]|exact He|split; [reflexivity|exact (λ _, eq_refl)]|].
    intros ref Href. exists ex_base. change (ref ∈ meta_refs (GcGrace.quiet ex_config ex_pruned 8)) in Href.
    rewrite ex_pruned_refs in Href. apply list_elem_of_singleton in Href as ->. exact (SnapStoreRead.chain_holds _ _ _ _ _ Hc (list_elem_of_here _ _)).
  - pose proof (gr_ids _ _ _ Hr) as Hids. destruct (si_active _ _ _ (proj1 (SnapStoreRead.sk_pages _ _ Hok))) as (hdr & rs & Hp & _).
    assert (size packs ≠ 0%nat) as Hsz by (intros ->%map_size_empty_inv; by rewrite lookup_empty in Hp). change (next_of w.1) with (next_of (st, (pf, t))). lia.
Defined.
